(* ===== verification/_CoqProject ===== *)
-Q . S2P
Prelude.v
Errors.v
Types.v
Clone.v
Concrete.v
Encoding.v
Payload.v
Peers.v
Ledger.v
Config.v
Topic.v
TopicFacts.v
Examples.v
TopicTheorems.v
TopicSpec.v
TopicSteps.v
Sharing.v
Service.v
Manager.v
Flow.v
Exchange.v
Gossip.v
Convergence.v
Network.v
NetworkFacts.v
NetworkTheorems.v
NetworkLoops.v
NetworkPeers.v
ManagerSteps.v
Overtaken.v
Cardano.v
Genesis.v
KesLib.v
Kes.v
Signer.v
Publish.v
External.v
Provider.v
TopicNode.v
