(* ===== verification/Prelude.v ===== *)
(** * dmq-lib: a verification of the Go decentralized message queue library

    The library (package dmq) lets a Go program run topics of the Cardano
    decentralized message queue of CIP-0137: signed, short-lived messages are
    submitted to a topic, checked, queued, handed to subscribers, and
    exchanged with other nodes over the message-submission mini-protocol.

    ** The parts of the program and how they interact

    A [Manager] (src/manager.go) owns named topics and node-to-node services.
    A topic, [topicRuntime] (src/topic.go), keeps a queue of live messages, a
    map of recently seen IDs, the channels of its subscribers and a set of
    known peers (src/discovery.go). The mini-protocol callbacks of
    src/protocol.go are the way remote peers reach a topic: they announce IDs,
    serve messages, request what was not seen and submit what arrives. A
    [NodeToNodeService] (src/network.go) dials and accepts peers and reconnects
    with a backoff. src/payload.go holds the wire limits, src/types.go and
    src/discovery.go the configuration and its defaults, src/cardano.go the
    arithmetic of slots, epochs and KES periods. Messages are signed with
    key-evolving signatures: src/signer.go signs with a key file,
    src/kes_payload.go has the operational certificates, the signing providers
    (in-process and helper process) and the signer over any provider, and
    src/reloading.go swaps signers and providers while they are in use.
    src/topic_node.go bundles a manager, a topic and a service.

    ** The files, in order

    - [Prelude] (this file): scope, tactics, hint databases, generic lemmas on
      lists, maps and integers, Go slices, machine integers, times and
      durations, strings.
    - [Errors]: errors.go, the shapes of error values, errors.Is, the result
      type of a (value, error) pair and its bind.
    - [Types]: the structs of types.go, and the interface [Wire] to the message
      types of the protocol library with its laws [WireLaws].
    - [Clone]: cloneBytes, cloneMessage and the other defensive copies, and
      [msg_equiv], equality up to what a copy preserves.
    - [Concrete]: one instance of [Wire] and its laws, on which the witnesses
      evaluate.
    - [Encoding]: hexadecimal, base64, big-endian numbers and white-space
      trimming of the Go standard library, with their round trips.
    - [Payload]: ValidateMessageBody, ExpiresAt, NewMessagePayload.
    - [Peers], [Ledger]: discovery.go, the peer selector and its sources; the
      stake-ordered pools built from ledger snapshots.
    - [Config]: the default... functions.
    - [Topic]: every operation of topic.go; [TopicFacts]: their specifications
      and the invariant [rt_inv]; [Examples]: concrete topics for witnesses;
      [TopicTheorems]: the theorems about single calls; [TopicSpec]: the
      abstract specification, an append-only log, and the refinement;
      [TopicSteps]: the interleaving of submitters, subscribers and closers as
      a step relation, and what holds in every reachable state.
    - [Sharing]: the byte arrays behind the messages of a topic, who refers to
      which, and which of them the world outside can write to.
    - [Service]: the state of a node-to-node service, AddPeer, Close, and the
      waits of the reconnect loop.
    - [Manager]: manager.go and StartNodeToNode.
    - [Flow]: protocol.go, the three mini-protocol configurations and the
      per-connection flow state; [Exchange]: two nodes connected by it;
      [Gossip]: any number of nodes and connections, the rules of the protocol,
      and where messages come from; [Convergence]: messages spread to every
      node.
    - [Network]: network.go as a pool of goroutines over a shared state: start,
      acceptLoop, outboundLoop, handleConnection with the handshake and the
      start of message submission, the two helpers of a connection,
      closeOnDone and Close, one step at a time; [NetworkFacts]: its invariant;
      [NetworkTheorems]: what closing guarantees, termination, and the
      schedules in which it guarantees less; [NetworkLoops]: the reconnect
      loops; [NetworkPeers]: the map of connections; [ManagerSteps]: the calls
      of a manager interleaved with all goroutines of all its services;
      [Overtaken]: a Shutdown that overtakes the start of a service.
    - [Cardano]: slots, epochs and KES periods of cardano.go; [Genesis]: its
      genesis reader, with RFC 3339 times and float64 slot lengths.
    - [KesLib]: the interface [Kes] to the signature and key-file libraries,
      its laws [KesLaws] and a concrete instance.
    - [Kes]: certificates, validity windows and KESSigner; [External]:
      ExternalKESSigner; both from kes_payload.go.
    - [Signer]: signer.go, the file signer; [Publish]: a body built, signed by
      it, and accepted by every topic that trusts it.
    - [Provider]: the provider interface with its laws, the signer over a
      provider (kes_payload.go), and reloading (reloading.go) over a store of
      shared providers.
    - [TopicNode]: topic_node.go.

    ** How Go is represented

    Names are those of the source; a record's projections carry a short
    prefix ([rt_], [sb_], [mg_], ...). A byte slice is [slice], an option of a
    list of bytes, so that nil and empty differ as they do in Go. Integers are
    Z; where a width matters the operation wraps or saturates explicitly
    (uint64 stakes, time.Duration, subscription ids). A time is a number of
    nanoseconds; every reading of the clock is an argument. An operation takes
    the state and returns the new one; [None] as a whole result is a Go panic
    (a send on or close of a closed channel), and the theorems show it does
    not arise. Errors are values of [error] in a sum. A call to a hook is an
    event in the result, in call order. A channel is a buffer with a capacity
    and a closed flag; shared objects (topics, services, subscriptions) are
    named by keys or indices so that aliases see one state. Iteration over a Go
    map is any permutation of its entries.

    An operation that holds the topic's mutex throughout is one function and
    one step of the interleaving system; submission, which calls hooks and the
    authenticator outside the lock, is split at the lock's acquisition. The
    goroutines of a service are split wherever another can interfere; what the
    scheduler, the sockets and the protocol library decide is the answer given
    to a step, any answer being possible. Two history flags, which no step
    reads, say that Close is past its wait and that it overtook start.

    Slices are values everywhere but in [Sharing], where they are references
    into a heap. A float64 is a [SpecFloat] of precision 53.

    The message types and the protocol engines belong to another package.
    [Wire] names the functions of them that the code calls (computing, reading
    and setting an ID, the TTL check, cloning the private part, encoding) and
    [WireLaws] the documented behaviour that is relied on: the ID read back is
    the one set, setting it changes nothing else that is read, a computed ID
    does not depend on the ID a payload carries and is not empty, and the TTL
    check depends on the expiry only and passes on an interval of times.
    [Kes] and [KesLaws] do the same for key-evolving signatures: a key moves
    one period at a time through the 2^depth periods it has, and what it signs
    verifies under its verification key. The signer and the authenticator of a
    manager or a topic are values the caller supplies, and arguments there.

    ** What the theorems show

    - One call ([TopicTheorems]): submitSigned accepts exactly the messages it
      should, with which effect, and what every refusal does; accepted
      messages can be fetched until they expire, announced ones at once; the
      in-place queue compaction is a filter.
    - Any sequence of calls ([TopicSpec]): the topic answers as a log of
      accepted messages does.
    - Any interleaving ([TopicSteps]): no panic, bounded queue and buffers,
      duplicates only outside the window (up to the disorder of the clocks,
      which are read before the lock is taken), in-order delivery, subscriptions
      closed with their topic, nothing unchecked delivered.
    - The wire ([Flow], [Exchange]): what is announced and remembered, blocking
      requests, balance of acknowledgements; pulling replicates every live
      message of the announcing node; a message that outlives the duplicate
      window can be announced twice in one reply.
    - A network of nodes ([Gossip], [Convergence]), with submissions, callbacks,
      connections and closing topics in any order: every exchange keeps to the
      rules of message submission; no node makes up or alters a message; and,
      with callbacks served fairly, every live message reaches every node that
      a path of connections leads to, and the subscribers there.
    - The registry ([Manager], [Service]): registration on every branch,
      isolation of topics, complete shutdown, guarded start, one dial loop per
      address, bounded backoff.
    - The registry at work ([ManagerSteps]), in every interleaving of its calls
      with the goroutines of its services: no panic; Shutdown admits nothing
      new, closes everything there is, and does not get stuck; with one
      exception ([Overtaken]), a Shutdown that overtakes the start of a
      service, which can leave a listening socket open, or wait for as long as
      that socket reports no error.
    - The goroutines of a service ([NetworkTheorems], [NetworkLoops]), in every
      interleaving: no panic; nothing is left once Close is past its wait;
      Close returns; the hooks of a connection come in pairs; one goroutine per
      outbound address, its backoff bounded; and ([NetworkPeers]) PeerCount
      counts the connections in service, and Close misses none of them.
      Exceptions are theorems too: a second Close does not wait, and a
      connection's helpers outlive Close.
    - Aliasing ([Sharing]): nobody outside can write to what is queued, if the
      message library's SetMessageID stores copies;
      subscribers share one envelope's arrays.
    - Discovery ([Peers], [Ledger], [Config]): determinism, quotas, replacement
      by source, stake order, the 90% pool, absence of overflow, defaults.
    - Time and payloads ([Cardano], [Genesis], [Payload]): slots contain their
      clock, KES periods are monotone and start where KESPeriodStart says, a
      genesis file gives usable parameters that agree with the built-in ones,
      times are read back as printed, expiry fits its 32 bits.
    - Signing ([Kes], [Signer], [External], [Provider]): signing always
      returns, exactly when it succeeds, that what is signed verifies under a
      valid certificate, that the key only moves forward, that a helper process
      is never believed unchecked, that reloading in the middle of a signature
      cannot mix two keys, and when a certificate ends.
    - Publishing ([Publish]): a topic with a file signer publishes any body of
      the allowed size, and every topic that trusts the signer takes the
      message, which verifies.
    - [TopicNode]: a node that cannot be set up leaves nothing running.

    ** Bounds

    The loops of the modelled code run over a list, or over a list of clock
    readings that the environment supplies, but for the two that evolve a KES
    key: their fuel is the number of periods a key of the Cardano depth has
    ([key_fuel]), and [advance_loop_spec] shows that it is enough, so that
    running out of it, [None], never happens. A service's goroutines run
    without fuel: [network_close_returns] shows that a closing one stops. A
    network of nodes is quiet after 4 * (exchanges) * (message keys) rounds of
    callbacks ([gossip_reaches_every_node]): every productive callback lowers a
    weight that starts at no more than that. Its clock stands still and its
    nodes have room for all messages, as expiry and a full queue do lose
    messages. Some
    statements carry a numeric bound: fewer than 2^64 subscriptions are made on
    one topic (the counter is a uint64), MaxBackoff stays below 2^62
    nanoseconds (146 years: the code doubles an int64), clocks lie within 292
    years of the start time (the range of time.Duration), and the stakes of a
    snapshot sum to less than 2^64 (which [converted_snapshot_no_overflow]
    shows of the snapshots the providers build).

    ** What is not modelled, and the plan

    Sockets, the multiplexer, the handshake's messages and log lines are input
    and output: a step is told what they answered. A call of the protocol
    library (stopping a muxer, sending a request) is taken to return. Coarser
    than the code are: the failure path of the accept loop, sendError (its hook,
    the stored error and the channel), and the second Close that start calls
    when TopicPeers fails, which finds the service closed and is left out; in
    [Gossip], a callback with all its submissions, and newIDs with its two
    locks, are one step; in [ManagerSteps] a submission is one step once it has
    its topic, and the calls are RegisterTopic, StartNodeToNode, SubmitSigned,
    SubmitRemote, Subscribe and Shutdown ([TopicSteps] has the finer steps of a
    topic). JSON, CBOR and topology files
    are decoded by libraries, and those decoders are arguments where a modelled
    function calls them. Not modelled: the panics that sync.WaitGroup raises
    when Add races with Wait, and those of make for a queue or channel too large
    to allocate; the address pair that names a connection, which
    is a number in [Network] and a name in [Gossip]; the type aliases of other
    packages' types and the default logger; and doc.go, which is comments.
    [Gossip] takes its connections as given: which of them exist at a time is
    what the goroutines of [Network] decide. *)

From stdpp Require Export base tactics list gmap strings sorting pretty.
From Stdlib Require Export ZArith Lia.
From Stdlib Require Strings.Byte Ascii.
Export Ascii.AsciiSyntax.
Delimit Scope char_scope with char.
Export Corelib.Init.Byte (byte(..)).

#[export] Set Default Goal Selector "!".

(* ------------------------------------------------------------------ *)
(** ** Scope, tactics and hint databases *)

Declare Scope dmq_scope.
Delimit Scope dmq_scope with dmq.
#[global] Open Scope dmq_scope.
#[global] Open Scope Z_scope.

Create HintDb dmq discriminated.
Create Rewrite HintDb dmq_wire.

(** Split every conjunction and existential of the context. *)
Ltac deconj :=
  repeat match goal with
    | H : _ /\ _ |- _ => destruct H
    | H : exists _, _ |- _ => destruct H
    end.

(** Case analysis on the innermost scrutinee of a match or an if, in the goal
    or in a hypothesis, recording the equation. *)
Ltac split_match_in H :=
  match type of H with
  | context [match ?x with _ => _ end] =>
      lazymatch x with
      | context [match _ with _ => _ end] => fail
      | _ => destruct x eqn:?
      end
  end.

Ltac split_match_goal :=
  match goal with
  | |- context [match ?x with _ => _ end] =>
      lazymatch x with
      | context [match _ with _ => _ end] => fail
      | _ => destruct x eqn:?
      end
  end.

Ltac split_matches H := repeat (split_match_in H; simplify_eq/=).

(** Turn the boolean comparisons of the executable definitions into
    propositions [lia] understands. *)
Ltac zbool :=
  repeat match goal with
    | H : (_ <? _) = true |- _ => apply Z.ltb_lt in H
    | H : (_ <? _) = false |- _ => apply Z.ltb_ge in H
    | H : (_ <=? _) = true |- _ => apply Z.leb_le in H
    | H : (_ <=? _) = false |- _ => apply Z.leb_gt in H
    | H : (_ >? _) = true |- _ => rewrite Z.gtb_ltb in H; apply Z.ltb_lt in H
    | H : (_ >? _) = false |- _ => rewrite Z.gtb_ltb in H; apply Z.ltb_ge in H
    | H : (_ >=? _) = true |- _ => rewrite Z.geb_leb in H; apply Z.leb_le in H
    | H : (_ >=? _) = false |- _ => rewrite Z.geb_leb in H; apply Z.leb_gt in H
    | H : (_ =? _) = true |- _ => apply Z.eqb_eq in H
    | H : (_ =? _) = false |- _ => apply Z.eqb_neq in H
    | H : (_ && _)%bool = true |- _ => apply andb_true_iff in H; destruct H
    | H : (_ || _)%bool = false |- _ => apply orb_false_iff in H; destruct H
    | H : negb _ = true |- _ => apply negb_true_iff in H
    | H : negb _ = false |- _ => apply negb_false_iff in H
    end.

(* ------------------------------------------------------------------ *)
(** ** Machine integers

    Go's fixed-width integers are [Z]; the operations that can leave the
    range write the wrap-around out. [int] is the 64-bit [int] of the
    supported platforms. *)

Definition u16 (z : Z) : Z := z mod 2 ^ 16.
Definition u32 (z : Z) : Z := z mod 2 ^ 32.
Definition u64 (z : Z) : Z := z mod 2 ^ 64.
Definition i64 (z : Z) : Z := (z + 2 ^ 63) mod 2 ^ 64 - 2 ^ 63.

Definition max_u64 : Z := 2 ^ 64 - 1.
Definition max_i64 : Z := 2 ^ 63 - 1.
Definition min_i64 : Z := - 2 ^ 63.

Definition is_u16 (z : Z) : Prop := 0 <= z < 2 ^ 16.
Definition is_u32 (z : Z) : Prop := 0 <= z < 2 ^ 32.
Definition is_u64 (z : Z) : Prop := 0 <= z < 2 ^ 64.
Definition is_i64 (z : Z) : Prop := - 2 ^ 63 <= z < 2 ^ 63.

(* ------------------------------------------------------------------ *)
(** ** time.Time and time.Duration

    A [Time] is its instant in nanoseconds since the Unix epoch; a
    [Duration] is an [int64] count of nanoseconds. [Time_Sub] saturates as
    time.Time.Sub does. The monotonic reading a time.Time may carry is not
    represented. *)

Definition Time := Z.
Definition Duration := Z.

Definition Nanosecond : Duration := 1.
Definition Second : Duration := 1000000000.
Definition Minute : Duration := 60 * Second.
Definition Hour : Duration := 60 * Minute.

(** time.Unix(sec, nsec). *)
Definition Time_of_Unix (sec nsec : Z) : Time := sec * Second + nsec.

(** The zero time.Time: January 1, year 1, 00:00:00 UTC. *)
Definition zero_time : Time := Time_of_Unix (-62135596800) 0.

Definition Time_IsZero (t : Time) : bool := t =? zero_time.
Definition Time_Unix (t : Time) : Z := t / Second.
Definition Time_Add (t : Time) (d : Duration) : Time := t + d.
Definition Time_Before (t u : Time) : bool := t <? u.
Definition Time_Sub (t u : Time) : Duration :=
  Z.max min_i64 (Z.min max_i64 (t - u)).

(* ------------------------------------------------------------------ *)
(** ** Byte slices

    A []byte is [None] when nil and [Some l] otherwise; [content] is what
    len, range, bytes.Equal and the string conversion observe. *)

#[export] Instance byte_eq_dec : EqDecision byte := Byte.byte_eq_dec.

Abbreviation slice := (option (list byte)).

Definition content (s : slice) : list byte := default [] s.
Definition len (s : slice) : Z := Z.of_nat (length (content s)).
Definition bytes_Equal (a b : slice) : bool :=
  bool_decide (content a = content b).

(** string(b), the Go conversion used for map keys. *)
Definition go_string (s : slice) : string :=
  String.string_of_list_byte (content s).

(** copy(dst, src): overwrites as much of dst as src covers. *)
Definition go_copy {A} (dst src : list A) : list A :=
  take (length dst) src ++ drop (length src) dst.

(** make([]byte, n) *)
Definition make_bytes (n : nat) : list byte := replicate n x00.

(** byte(z) *)
Definition byte_of_Z (z : Z) : byte :=
  default x00 (Byte.of_N (Z.to_N (z mod 256))).

Definition Z_of_byte (b : byte) : Z := Z.of_N (Byte.to_N b).

(* ------------------------------------------------------------------ *)
(** ** Strings *)

(** strconv.FormatUint(z, 10), and strconv.Itoa on an index. *)
Definition FormatUint (z : Z) : string := pretty (Z.to_N z).

(** strings.IndexByte(s, c) >= 0 *)
Fixpoint contains_char (c : Ascii.ascii) (s : string) : bool :=
  match s with
  | EmptyString => false
  | String d s' => Ascii.eqb c d || contains_char c s'
  end.

(** strings.Contains(s, sub) *)
Fixpoint strings_Contains (s sub : string) : bool :=
  String.prefix sub s ||
  match s with
  | EmptyString => false
  | String _ s' => strings_Contains s' sub
  end.

(** The byte-wise order < of Go strings. *)
Definition string_less (a b : string) : bool := String.ltb a b.

(* ------------------------------------------------------------------ *)
(** ** sort.SliceStable

    The stable sort by a strict weak order is unique, so the library's
    routine is modelled by stable insertion: an element goes before the
    first later element that is not less than it. *)

Section stable_sort.
Context {A : Type} (less : A -> A -> bool).

Fixpoint stable_insert (x : A) (l : list A) : list A :=
  match l with
  | [] => [x]
  | y :: l' => if less y x then y :: stable_insert x l' else x :: y :: l'
  end.

Definition SliceStable (l : list A) : list A := foldr stable_insert [] l.

(** What sort.SliceStable asks of its less argument. *)
Class StrictWeakOrder : Prop := {
  less_asym : forall a b, less a b = true -> less b a = false;
  less_negtrans : forall a b c,
    less a b = false -> less b c = false -> less a c = false
}.

(** [ordered] lists never have a later element less than an earlier one. *)
Definition not_after (a b : A) : Prop := less b a = false.

End stable_sort.

(* ------------------------------------------------------------------ *)
(** ** Lemmas: integers and times *)

Lemma u16_id z : is_u16 z -> u16 z = z.
Proof. apply Z.mod_small. Qed.

Lemma u32_id z : is_u32 z -> u32 z = z.
Proof. apply Z.mod_small. Qed.

Lemma u64_id z : is_u64 z -> u64 z = z.
Proof. apply Z.mod_small. Qed.

Lemma u64_range z : is_u64 (u64 z).
Proof. apply Z.mod_pos_bound. lia. Qed.

Lemma i64_id z : is_i64 z -> i64 z = z.
Proof. unfold is_i64, i64. intros. rewrite Z.mod_small; lia. Qed.

Lemma le_div_iff a b c : 0 < b -> c <= a / b <-> c * b <= a.
Proof.
  intros Hb. split; intros Hc.
  - pose proof (Z.mul_div_le a b Hb). nia.
  - apply Z.div_le_lower_bound; lia.
Qed.

Lemma Time_Sub_exact t u : is_i64 (t - u) -> Time_Sub t u = t - u.
Proof. unfold is_i64, Time_Sub, min_i64, max_i64. lia. Qed.

Lemma Time_Sub_is_i64 t u : is_i64 (Time_Sub t u).
Proof. unfold is_i64, Time_Sub, min_i64, max_i64. lia. Qed.

Lemma Time_Sub_mono_l t t' u : t <= t' -> Time_Sub t u <= Time_Sub t' u.
Proof. unfold Time_Sub. lia. Qed.

Lemma Time_Sub_nonneg t u : u <= t -> 0 <= Time_Sub t u.
Proof. unfold Time_Sub, max_i64. lia. Qed.

#[export] Hint Resolve u64_range Time_Sub_is_i64 : dmq.

(* ------------------------------------------------------------------ *)
(** ** Lemmas: slices *)

Lemma bytes_Equal_spec a b : bytes_Equal a b = true <-> content a = content b.
Proof. apply bool_decide_eq_true. Qed.

Lemma go_string_inj a b : go_string a = go_string b <-> content a = content b.
Proof.
  unfold go_string; split; [|by intros ->].
  intros H. rewrite <-(String.list_byte_of_string_of_list_byte (content a)), H.
  apply String.list_byte_of_string_of_list_byte.
Qed.

Lemma len_nonneg s : 0 <= len s.
Proof. unfold len. lia. Qed.

Lemma len_zero s : len s = 0 <-> content s = [].
Proof. unfold len. destruct (content s); simpl; split; (done || lia). Qed.

#[export] Hint Resolve len_nonneg : dmq.

Lemma Z_of_byte_of_Z z : Z_of_byte (byte_of_Z z) = z mod 256.
Proof.
  unfold Z_of_byte, byte_of_Z. assert (0 <= z mod 256 < 256) as Hz by (apply Z.mod_pos_bound; lia).
  destruct (Byte.of_N (Z.to_N (z mod 256))) as [b|] eqn:E; simpl.
  - apply Byte.to_of_N in E. rewrite E. lia.
  - apply Byte.of_N_None_iff in E. lia.
Qed.

Lemma byte_of_Z_of_byte b : byte_of_Z (Z_of_byte b) = b.
Proof. by destruct b. Qed.

Lemma go_copy_same_length {A} (dst src : list A) :
  length dst = length src -> go_copy dst src = src.
Proof.
  intros H. unfold go_copy. rewrite take_ge by lia.
  rewrite drop_ge by lia. apply app_nil_r.
Qed.

(* ------------------------------------------------------------------ *)
(** ** Lemmas: strings *)

Lemma ascii_compare_refl a : Ascii.compare a a = Eq.
Proof. apply N.compare_refl. Qed.

Lemma string_compare_refl s : String.compare s s = Eq.
Proof. induction s as [|c s IH]; simpl; [done|]. by rewrite ascii_compare_refl. Qed.

Lemma ascii_compare_eq a b : Ascii.compare a b = Eq -> a = b.
Proof.
  intros H%N.compare_eq_iff.
  by rewrite <-(Ascii.ascii_N_embedding a), H, Ascii.ascii_N_embedding.
Qed.

Lemma string_compare_trans a b c :
  String.compare a b = Lt -> String.compare b c = Lt -> String.compare a c = Lt.
Proof.
  revert b c. induction a as [|x a IH]; intros [|y b] [|z c]; simpl; try done.
  destruct (Ascii.compare x y) eqn:E1, (Ascii.compare y z) eqn:E2; try done; intros H1 H2;
    try (apply ascii_compare_eq in E1; subst); try (apply ascii_compare_eq in E2; subst).
  - rewrite ascii_compare_refl. eauto.
  - by rewrite E2.
  - by rewrite E1.
  - unfold Ascii.compare in *. rewrite N.compare_lt_iff in *.
    by rewrite (proj2 (N.compare_lt_iff _ _)) by lia.
Qed.

Lemma string_less_spec a b : string_less a b = true <-> String.compare a b = Lt.
Proof. unfold string_less, String.ltb. by destruct (String.compare a b). Qed.

Lemma string_less_asym a b : string_less a b = true -> string_less b a = false.
Proof.
  rewrite string_less_spec. intros H. unfold string_less, String.ltb.
  by rewrite String.compare_antisym, H.
Qed.

Lemma string_less_tie a b :
  string_less a b = false -> string_less b a = false -> a = b.
Proof.
  unfold string_less, String.ltb. rewrite (String.compare_antisym b a).
  destruct (String.compare a b) eqn:E; try done.
  intros _ _. by apply String.compare_eq_iff.
Qed.

Lemma string_less_negtrans a b c :
  string_less a b = false -> string_less b c = false -> string_less a c = false.
Proof.
  intros H1 H2. destruct (string_less a c) eqn:H3; [|done].
  destruct (string_less b a) eqn:H4; 
    [|pose proof (string_less_tie a b H1 H4); subst; congruence].
  rewrite string_less_spec in H3, H4.
  pose proof (string_compare_trans _ _ _ H4 H3) as H5.
  rewrite <-string_less_spec in H5. congruence.
Qed.

#[export] Instance string_less_order : StrictWeakOrder string_less.
Proof. split; [apply string_less_asym|apply string_less_negtrans]. Qed.

(** Descending by a number, ties broken by a name. *)
Lemma descending_order {A} (num : A -> Z) (name : A -> string) :
  StrictWeakOrder (fun a b => if num a =? num b then string_less (name a) (name b)
                              else num a >? num b).
Proof.
  split.
  - intros a b. rewrite (Z.eqb_sym (num b)).
    destruct (_ =? _) eqn:E; [apply string_less_asym|].
    intros H; zbool. apply not_true_is_false. intros H'; zbool. lia.
  - intros a b c. destruct (num a =? num b) eqn:E1, (num b =? num c) eqn:E2,
      (num a =? num c) eqn:E3; zbool; try lia;
      try apply string_less_negtrans; intros H1 H2; zbool; try lia;
      apply not_true_is_false; intros H3; zbool; lia.
Qed.

(** "a/b" determines a and b when a has no '/'. *)
Lemma app_sep_inj (c : Ascii.ascii) a b a' b' :
  contains_char c a = false -> contains_char c a' = false ->
  a +:+ String c b = a' +:+ String c b' -> a = a' /\ b = b'.
Proof.
  revert a'. induction a as [|x a IH]; intros [|x' a']; simpl; intros Ha Ha' H;
    simplify_eq/=; try done.
  - by rewrite Ascii.eqb_refl in Ha'.
  - by rewrite Ascii.eqb_refl in Ha.
  - apply orb_false_iff in Ha as [_ Ha]; apply orb_false_iff in Ha' as [_ Ha'].
    destruct (IH a') as [-> ->]; done.
Qed.

(* ------------------------------------------------------------------ *)
(** ** Lemmas: lists *)

Lemma filter_idem {A} (P : A -> Prop) `{!forall x, Decision (P x)} (l : list A) :
  filter P (filter P l) = filter P l.
Proof.
  induction l as [|x l IH]; [done|].
  rewrite filter_cons. case_decide; [|done].
  rewrite filter_cons_True by done. by rewrite IH.
Qed.

Lemma filter_length_le {A} (P : A -> Prop) `{!forall x, Decision (P x)} (l : list A) :
  (length (filter P l) <= length l)%nat.
Proof. apply length_filter. Qed.

Lemma filter_ext_in {A} (P Q : A -> Prop) `{!forall x, Decision (P x), !forall x, Decision (Q x)}
    (l : list A) :
  (forall x, x ∈ l -> P x <-> Q x) -> filter P l = filter Q l.
Proof.
  intros HPQ. induction l as [|x l IH]; [done|].
  assert (filter P l = filter Q l) as Hl by (apply IH; intros y Hy; apply HPQ; by right).
  rewrite !filter_cons, Hl. destruct (HPQ x); [by left|].
  repeat case_decide; naive_solver.
Qed.

Lemma length_omap_le {A B} (f : A -> option B) (l : list A) :
  (length (omap f l) <= length l)%nat.
Proof.
  induction l as [|x l IH]; [done|].
  change (omap f (x :: l)) with (match f x with Some y => y :: omap f l | None => omap f l end).
  destruct (f x); cbn [length]; lia.
Qed.

Lemma lookup_insert_present {A} (l : list A) i j x y :
  l !! i = Some y -> <[i := x]> l !! j = if decide (j = i) then Some x else l !! j.
Proof.
  intros Hi. case_decide; [subst|by rewrite list_lookup_insert_ne].
  apply list_lookup_insert_eq, lookup_lt_is_Some. by eexists.
Qed.

Lemma StronglySorted_weaken {A} (R R' : A -> A -> Prop) (l : list A) :
  (forall a b, R a b -> R' a b) -> StronglySorted R l -> StronglySorted R' l.
Proof.
  intros HR. induction 1 as [|x l _ IH Hx]; constructor; [done|].
  eapply Forall_impl; [done|]. auto.
Qed.

(* ------------------------------------------------------------------ *)
(** ** Lemmas: the stable sort *)

Section stable_sort_facts.
Context {A : Type} (less : A -> A -> bool).

Lemma stable_insert_perm x l : stable_insert less x l ≡ₚ x :: l.
Proof.
  induction l as [|y l IH]; simpl; [done|].
  destruct (less y x); [|done].
  rewrite IH. apply Permutation_swap.
Qed.

Lemma SliceStable_perm l : SliceStable less l ≡ₚ l.
Proof.
  induction l as [|x l IH]; simpl; [done|].
  by rewrite stable_insert_perm, IH.
Qed.

Context `{!StrictWeakOrder less}.

Lemma less_irrefl a : less a a = false.
Proof.
  destruct (less a a) eqn:E; [|done].
  pose proof (less_asym _ _ _ E). congruence.
Qed.

#[export] Instance not_after_trans : Transitive (not_after less).
Proof. intros a b c H1 H2. unfold not_after in *. by eapply less_negtrans. Qed.

Lemma stable_insert_sorted x l :
  StronglySorted (not_after less) l ->
  StronglySorted (not_after less) (stable_insert less x l).
Proof.
  induction 1 as [|y l Hs IH Hy]; simpl; [repeat constructor|].
  destruct (less y x) eqn:E.
  - constructor; [done|].
    rewrite stable_insert_perm. constructor; [|done].
    by apply less_asym in E.
  - repeat (constructor; try done).
    eapply Forall_impl; [done|]. intros z Hz. by transitivity y.
Qed.

Lemma SliceStable_sorted l : StronglySorted (not_after less) (SliceStable less l).
Proof.
  induction l as [|x l IH]; simpl; [constructor|].
  by apply stable_insert_sorted.
Qed.

(** Elements of one equivalence class keep their order. *)
Lemma stable_insert_filter (P : A -> Prop) `{!forall x, Decision (P x)} x l :
  (forall a b, P a -> P b -> less a b = false) ->
  filter P (stable_insert less x l) = filter P (x :: l).
Proof.
  intros Heq. induction l as [|y l IH]; simpl; [done|].
  destruct (less y x) eqn:E; [|done].
  rewrite filter_cons, IH, !filter_cons.
  repeat case_decide; try done.
  rewrite Heq in E; done.
Qed.

Lemma SliceStable_stable (P : A -> Prop) `{!forall x, Decision (P x)} l :
  (forall a b, P a -> P b -> less a b = false) ->
  filter P (SliceStable less l) = filter P l.
Proof.
  intros Heq. induction l as [|x l IH]; simpl; [done|].
  rewrite stable_insert_filter, !filter_cons, IH by done. done.
Qed.

(** When no two distinct elements tie, the result does not depend on the
    order the elements came in. *)
Lemma SliceStable_unique l1 l2 :
  (forall a b, a ∈ l1 -> b ∈ l1 -> less a b = false -> less b a = false -> a = b) ->
  l1 ≡ₚ l2 -> SliceStable less l1 = SliceStable less l2.
Proof.
  intros Htie Hp.
  apply (StronglySorted_unique_strong (not_after less));
    [|apply SliceStable_sorted..|by rewrite !SliceStable_perm].
  intros a b Ha Hb Hab Hba. apply Htie; [..|done|done].
  - by rewrite <-(SliceStable_perm l1).
  - by rewrite Hp, <-(SliceStable_perm l2).
Qed.

End stable_sort_facts.
