(* ===== verification/Errors.v ===== *)
(** * Errors (errors.go, and the error values of the rest of the package)

    The sentinel variables of errors.go, the other shapes an error value
    takes in this package (errors.New, fmt.Errorf with or without %w, the
    sentinels of other packages that are compared against), errors.Is, and
    the two-valued return (value, error) as a sum with its bind.

    The text an error prints is not computed: a formatted error keeps its
    format and arguments. *)

From S2P Require Import Prelude.
From Stdlib Require SpecFloat.

(** The package's error variables: errors.go and, last, topic_node.go. *)
Inductive sentinel : Set :=
| ErrManagerClosed
| ErrTopicExists
| ErrTopicNotFound
| ErrSignerRequired
| ErrAuthenticatorRequired
| ErrDuplicateMessage
| ErrQueueFull
| ErrSubscriptionClosed
| ErrMessageExpired
| ErrMessageTTLTooFar
| ErrMessageBodyTooLarge
| ErrMessageExpiryOutOfRange
| ErrMessageIDMismatch
| ErrNetworkMagicRequired
| ErrAuthenticationRequired
| ErrLedgerPeerSnapshotUnsupported
| ErrLedgerPeerSnapshotProviderUnset
| ErrKESKeyMismatch
| errTopicNodeNil.

(** Error variables of other packages this package compares with. *)
Inductive foreign_sentinel : Set :=
| context_Canceled
| context_DeadlineExceeded
| net_ErrClosed
| localstatequery_ErrLedgerPeerSnapshotUnsupportedVersion.

#[export] Instance sentinel_eq_dec : EqDecision sentinel.
Proof. solve_decision. Defined.

#[export] Instance foreign_sentinel_eq_dec : EqDecision foreign_sentinel.
Proof. solve_decision. Defined.

(** An error value. [ErrNew] is errors.New and any error of another package
    that is known by its text only; [Errorf] is fmt.Errorf, where [ArgErr]
    is an argument formatted with %w and hence unwrapped by errors.Is. *)
Inductive error : Type :=
| ErrVar (v : sentinel)
| ErrForeign (v : foreign_sentinel)
| ErrNew (text : string)
| Errorf (format : string) (args : list errarg)
with errarg : Type :=
| ArgInt (z : Z)
| ArgStr (s : string)
| ArgTime (t : Time)
| ArgDuration (d : Duration)
| ArgFloat (f : SpecFloat.spec_float)
| ArgErr (e : error).

(** errors.Is(e, v) for a sentinel [v] of this package. *)
Fixpoint errors_Is (e : error) (v : sentinel) : bool :=
  match e with
  | ErrVar w => bool_decide (w = v)
  | ErrForeign _ => false
  | ErrNew _ => false
  | Errorf _ args =>
      existsb (fun a => match a with ArgErr e' => errors_Is e' v | _ => false end)
        args
  end.

(** errors.Is(e, v) for a sentinel [v] of another package. *)
Fixpoint errors_Is_foreign (e : error) (v : foreign_sentinel) : bool :=
  match e with
  | ErrVar _ => false
  | ErrForeign w => bool_decide (w = v)
  | ErrNew _ => false
  | Errorf _ args =>
      existsb
        (fun a => match a with ArgErr e' => errors_Is_foreign e' v | _ => false end)
        args
  end.

(** The (value, error) return of a Go function: the value when the error is
    nil, the error otherwise. *)
Inductive result (A : Type) : Type :=
| Ok (a : A)
| Err (e : error).
Arguments Ok {A} a.
Arguments Err {A} e.

#[export] Instance result_ret : MRet result := @Ok.

#[export] Instance result_bind : MBind result := fun A B f r =>
  match r with
  | Ok a => f a
  | Err e => Err e
  end.

(** if err != nil { return err }, for a function that returns only an error. *)
Definition check {A : Type} (err : option error) (k : result A) : result A :=
  match err with
  | Some e => Err e
  | None => k
  end.

(** errors.Join: nil errors are left out, and nothing but nil gives nil. The
    joined error unwraps to every part. *)
Definition errors_Join (errs : list (option error)) : option error :=
  match omap (fun e => e) errs with
  | [] => None
  | es => Some (Errorf "errors.Join" (map ArgErr es))
  end.

Definition is_Ok {A : Type} (r : result A) : bool :=
  match r with Ok _ => true | Err _ => false end.

(** [r] failed with an error that errors.Is matches against [v]. *)
Definition fails_with {A : Type} (r : result A) (v : sentinel) : Prop :=
  exists e, r = Err e /\ errors_Is e v = true.

(* ------------------------------------------------------------------ *)
(** ** Lemmas *)

Lemma result_bind_Ok {A B} (f : A -> result B) (r : result A) b :
  r ≫= f = Ok b <-> exists a, r = Ok a /\ f a = Ok b.
Proof. destruct r; simpl; naive_solver. Qed.

Lemma errors_Is_var v w : errors_Is (ErrVar v) w = true <-> v = w.
Proof. simpl. apply bool_decide_eq_true. Qed.

Lemma errors_Is_wrapped fmt args e v :
  ArgErr e ∈ args -> errors_Is e v = true -> errors_Is (Errorf fmt args) v = true.
Proof.
  intros Hin Hv. simpl. apply existsb_exists.
  exists (ArgErr e). split; [by apply list_elem_of_In|done].
Qed.

Lemma check_Ok {A} err (k : result A) a : check err k = Ok a <-> err = None /\ k = Ok a.
Proof. destruct err; simpl; naive_solver. Qed.

Lemma errors_Join_None errs : errors_Join errs = None <-> Forall (fun e => e = None) errs.
Proof.
  unfold errors_Join. induction errs as [|[e|] errs IH]; simpl; [done| |].
  - split; [done|]. by intros [? _]%Forall_cons.
  - rewrite IH, Forall_cons. naive_solver.
Qed.

#[export] Hint Resolve errors_Is_wrapped : dmq.
