(* ===== verification/Types.v ===== *)
(** * Data types (types.go, the data part of discovery.go)

    The configuration structs, the envelope, the peer and ledger records and
    the gOuroboros wire types as this package uses them.

    A DMQ wire message is a struct of another package: the exported fields
    this package reads and writes are fields here, and whatever else the
    struct carries is the parameter [X] of the type. The functions of that
    package are the operations of the class [Wire], and what this package
    relies on is the class [WireLaws].

    Function-valued fields: a hook is recorded as present or absent (a call
    becomes an event of the model); a signer, an authenticator or a snapshot
    provider is the answer it gives at the call at hand. *)

From S2P Require Import Prelude Errors.

(* ------------------------------------------------------------------ *)
(** ** Wire types *)

Record DmqMessagePayload := mkPayload {
  pl_MessageID : slice;
  pl_MessageBody : slice;
  pl_KESPeriod : Z;
  pl_ExpiresAt : Z
}.

Record OperationalCertificate := mkOpCert {
  oc_KESVerificationKey : slice;
  oc_IssueNumber : Z;
  oc_KESPeriod : Z;
  oc_ColdSignature : slice
}.

Record DmqMessage (X : Type) := mkMessage {
  dm_Payload : DmqMessagePayload;
  dm_KESSignature : slice;
  dm_OperationalCertificate : OperationalCertificate;
  dm_ColdVerificationKey : slice;
  dm_rest : X
}.
Arguments mkMessage {X} _ _ _ _ _.
Arguments dm_Payload {X} _.
Arguments dm_KESSignature {X} _.
Arguments dm_OperationalCertificate {X} _.
Arguments dm_ColdVerificationKey {X} _.
Arguments dm_rest {X} _.

Record MessageIDAndSize := mkIDAndSize {
  ms_MessageID : slice;
  ms_SizeInBytes : Z
}.

(** The Message text of a reason is the text of the error it carries. *)
Inductive RejectReason : Type :=
| InvalidReason (Message : error)
| AlreadyReceivedReason
| ExpiredReason
| OtherReason (Message : error).

(** The zero value of the structs. *)
Definition zero_payload : DmqMessagePayload := mkPayload None None 0 0.
Definition zero_opcert : OperationalCertificate := mkOpCert None 0 0 None.

(* ------------------------------------------------------------------ *)
(** ** Peers *)

(** A defined string type: values other than the constants are possible. *)
Definition PeerSource := string.
Definition PeerSourceStatic : PeerSource := "static".
Definition PeerSourceTopologyLocalRoot : PeerSource := "topology-local-root".
Definition PeerSourceTopologyPublic : PeerSource := "topology-public-root".
Definition PeerSourceTopologyBootstrap : PeerSource := "topology-bootstrap".
Definition PeerSourcePeerSharing : PeerSource := "peer-sharing".
Definition PeerSourceLedger : PeerSource := "ledger".
Definition PeerSourceBigLedger : PeerSource := "big-ledger".

Record Peer := mkPeer {
  pr_Address : string;
  pr_Host : string;
  pr_Port : Z;
  pr_Source : PeerSource;
  pr_PoolID : string;
  pr_Stake : Z;
  pr_Valency : Z;
  pr_WarmValency : Z;
  pr_Advertise : bool;
  pr_Trustable : bool
}.

Definition zero_peer : Peer := mkPeer "" "" 0 "" "" 0 0 0 false false.

#[export] Instance peer_eq_dec : EqDecision Peer.
Proof. solve_decision. Defined.

(** Topology files are parsed by another package; these are the fields read. *)
Record AccessPoint := mkAccessPoint { ap_Address : string; ap_Port : Z }.

Record TopologyRoot := mkRoot {
  tr_AccessPoints : list AccessPoint;
  tr_Valency : Z;
  tr_WarmValency : Z;
  tr_Advertise : bool;
  tr_Trustable : bool
}.

Record TopologyConfig := mkTopology {
  tc_LocalRoots : list TopologyRoot;
  tc_PublicRoots : list TopologyRoot;
  tc_BootstrapPeers : list AccessPoint
}.

Definition LedgerRelayKind := string.
Definition LedgerRelaySingleHostAddress : LedgerRelayKind := "single-host-address".
Definition LedgerRelaySingleHostName : LedgerRelayKind := "single-host-name".
Definition LedgerRelaySRV : LedgerRelayKind := "srv".

Record LedgerRelay := mkRelay {
  lr_Kind : LedgerRelayKind;
  lr_Hostname : string;
  lr_SRVName : string;
  lr_Port : Z;
  lr_IPv4 : slice;
  lr_IPv6 : slice
}.

Record LedgerPeer := mkLedgerPeer {
  lp_PoolID : string;
  lp_Stake : Z;
  lp_Relays : list LedgerRelay
}.

Record LedgerPeerSnapshot := mkSnapshot {
  sn_Slot : Z;
  sn_Peers : list LedgerPeer
}.

Record LedgerPeerPools := mkPools { pp_All : list Peer; pp_Big : list Peer }.

Definition LedgerPeerSnapshotKind := string.
Definition LedgerPeerSnapshotAll : LedgerPeerSnapshotKind := "all-ledger-peers".
Definition LedgerPeerSnapshotBig : LedgerPeerSnapshotKind := "big-ledger-peers".

(** The interface's one method, at one call. *)
Definition LedgerPeerSnapshotProvider :=
  LedgerPeerSnapshotKind -> result LedgerPeerSnapshot.

(* ------------------------------------------------------------------ *)
(** ** Configuration *)

Record LedgerPeerDiscoveryConfig := mkLedgerConfig {
  ld_Enabled : bool;
  ld_UseLedgerAfterSlot : Z;
  ld_RefreshInterval : Duration;
  ld_Target : Z;
  ld_BigLedgerTarget : Z;
  ld_Provider : option LedgerPeerSnapshotProvider;
  ld_AllowUnsupported : bool
}.

Record DiscoveryConfig := mkDiscovery {
  dc_Topology : option TopologyConfig;
  dc_StaticPeers : list Peer;
  dc_PeerSharing : bool;
  dc_PeerSharingQuota : Z;
  dc_TopologyQuota : Z;
  dc_LedgerPeers : LedgerPeerDiscoveryConfig
}.

Record QueueConfig := mkQueueConfig {
  qc_MaxMessages : Z;
  qc_SubscriberBuffer : Z;
  qc_DuplicateTTL : Duration
}.

Record TTLPolicy := mkTTLPolicy {
  tp_DefaultTTL : Duration;
  tp_MaxTTL : Duration;
  tp_Disable : bool
}.

Record ReconnectConfig := mkReconnect {
  rc_InitialBackoff : Duration;
  rc_MaxBackoff : Duration
}.

(** Which hooks are not nil. *)
Record Hooks := mkHooks {
  hk_OnMessageAccepted : bool;
  hk_OnMessageRejected : bool;
  hk_OnPeerDiscovered : bool;
  hk_OnError : bool
}.

Inductive MessageSource : Set :=
| MessageSourceLocal
| MessageSourceRemote.

Section wire.
Context (X : Type).

(** Signer.Sign at one call: the topic and the payload to the signed message
    (a pointer, possibly nil) or an error. *)
Definition Signer := string -> DmqMessagePayload -> result (option (DmqMessage X)).

(** pcommon.MessageAuthenticator.VerifyMessage at one call: nil, or the text
    of the error. *)
Definition MessageAuthenticator := DmqMessage X -> option string.

Record AuthenticationConfig := mkAuthConfig {
  ac_Required : bool;
  ac_Authenticator : option MessageAuthenticator;
  ac_AllowUnauthenticated : bool
}.

Record TopicConfig := mkTopicConfig {
  cf_NetworkMagic : Z;
  cf_Discovery : DiscoveryConfig;
  cf_Queue : QueueConfig;
  cf_TTL : TTLPolicy;
  cf_Reconnect : ReconnectConfig;
  cf_Authentication : AuthenticationConfig;
  cf_Hooks : Hooks;
  cf_Signer : option Signer
}.

(** The envelope delivered to subscribers. *)
Record Message := mkEnvelope {
  en_Topic : string;
  en_Message : DmqMessage X;
  en_ID : slice;
  en_Body : slice;
  en_Source : MessageSource;
  en_Peer : option Peer;
  en_ReceivedAt : Time
}.

End wire.
Arguments mkAuthConfig {X} _ _ _.
Arguments ac_Required {X} _.
Arguments ac_Authenticator {X} _.
Arguments ac_AllowUnauthenticated {X} _.
Arguments mkTopicConfig {X} _ _ _ _ _ _ _ _.
Arguments cf_NetworkMagic {X} _.
Arguments cf_Discovery {X} _.
Arguments cf_Queue {X} _.
Arguments cf_TTL {X} _.
Arguments cf_Reconnect {X} _.
Arguments cf_Authentication {X} _.
Arguments cf_Hooks {X} _.
Arguments cf_Signer {X} _.
Arguments mkEnvelope {X} _ _ _ _ _ _ _.
Arguments en_Topic {X} _.
Arguments en_Message {X} _.
Arguments en_ID {X} _.
Arguments en_Body {X} _.
Arguments en_Source {X} _.
Arguments en_Peer {X} _.
Arguments en_ReceivedAt {X} _.

(* ------------------------------------------------------------------ *)
(** ** The gOuroboros operations the package calls *)

Class Wire (X : Type) := {
  zero_rest : X;
  (** DmqMessage.ID and DmqMessage.SetMessageID *)
  msg_ID : DmqMessage X -> slice;
  SetMessageID : slice -> DmqMessage X -> DmqMessage X;
  (** pcommon.ComputeDmqMessageID and DmqMessage.SetComputedMessageID *)
  SetComputedMessageID : DmqMessage X -> result (DmqMessage X);
  ComputeDmqMessageID : DmqMessagePayload -> result slice;
  (** NewTTLValidator(maxTTL, nil).ValidateMessageTTLAt(msg, now): nil, or
      the text of the error *)
  ValidateMessageTTLAt : Duration -> DmqMessage X -> Time -> option string;
  (** VerifyMessage called on a nil *MessageAuthenticator *)
  nil_VerifyMessage : DmqMessage X -> option string;
  (** cbor.Encode on a message and on a payload *)
  cbor_Encode_message : DmqMessage X -> result (list byte);
  cbor_Encode_payload : DmqMessagePayload -> result (list byte);
  (** cbor.Encode on a []byte *)
  cbor_Encode_bytes : list byte -> result (list byte)
}.

(** What the package relies on: the ID accessors are a getter and a setter of
    one field that the signed content does not depend on, an ID computed from
    a payload is a hash (never empty, blind to a carried ID), expiry is judged
    on the signed content, and the instants at which a message passes the TTL
    check (before its expiry, and not more than the maximum TTL ahead of it)
    have no gap. *)
Class WireLaws (X : Type) `{Wire X} : Prop := {
  ID_SetMessageID : forall id m, content (msg_ID (SetMessageID id m)) = content id;
  SetMessageID_Payload : forall id m,
    exists id', dm_Payload (SetMessageID id m)
      = mkPayload id' (pl_MessageBody (dm_Payload m)) (pl_KESPeriod (dm_Payload m))
          (pl_ExpiresAt (dm_Payload m));
  SetMessageID_KESSignature : forall id m,
    dm_KESSignature (SetMessageID id m) = dm_KESSignature m;
  SetMessageID_OpCert : forall id m,
    dm_OperationalCertificate (SetMessageID id m) = dm_OperationalCertificate m;
  SetMessageID_ColdVKey : forall id m,
    dm_ColdVerificationKey (SetMessageID id m) = dm_ColdVerificationKey m;
  ID_ext : forall m m', dm_rest m = dm_rest m' ->
    pl_MessageID (dm_Payload m) = pl_MessageID (dm_Payload m') ->
    msg_ID m = msg_ID m';
  Compute_blind : forall id b k e,
    ComputeDmqMessageID (mkPayload id b k e) = ComputeDmqMessageID (mkPayload None b k e);
  SetComputedMessageID_spec : forall m,
    SetComputedMessageID m
      = (id ← ComputeDmqMessageID (dm_Payload m); mret (SetMessageID id m));
  Compute_nonempty : forall p id, ComputeDmqMessageID p = Ok id -> content id <> [];
  TTL_payload : forall ttl m m' now,
    pl_ExpiresAt (dm_Payload m) = pl_ExpiresAt (dm_Payload m') ->
    ValidateMessageTTLAt ttl m now = ValidateMessageTTLAt ttl m' now;
  TTL_interval : forall ttl m t1 t2 t3, t1 <= t2 -> t2 <= t3 ->
    ValidateMessageTTLAt ttl m t1 = None -> ValidateMessageTTLAt ttl m t3 = None ->
    ValidateMessageTTLAt ttl m t2 = None
}.

Definition zero_message {X} `{Wire X} : DmqMessage X :=
  mkMessage zero_payload None zero_opcert None zero_rest.

(* ------------------------------------------------------------------ *)
(** ** Lemmas *)

Section wire_lemmas.
Context {X : Type} `{WireLaws X}.

Lemma SetMessageID_body id m :
  pl_MessageBody (dm_Payload (SetMessageID id m)) = pl_MessageBody (dm_Payload m).
Proof. destruct (SetMessageID_Payload id m) as [? ->]. done. Qed.

Lemma SetMessageID_expires id m :
  pl_ExpiresAt (dm_Payload (SetMessageID id m)) = pl_ExpiresAt (dm_Payload m).
Proof. destruct (SetMessageID_Payload id m) as [? ->]. done. Qed.

Lemma SetMessageID_period id m :
  pl_KESPeriod (dm_Payload (SetMessageID id m)) = pl_KESPeriod (dm_Payload m).
Proof. destruct (SetMessageID_Payload id m) as [? ->]. done. Qed.

Lemma Compute_SetMessageID id m :
  ComputeDmqMessageID (dm_Payload (SetMessageID id m)) = ComputeDmqMessageID (dm_Payload m).
Proof.
  destruct (SetMessageID_Payload id m) as [? ->].
  destruct (dm_Payload m). simpl. by rewrite Compute_blind, (Compute_blind pl_MessageID0).
Qed.

Lemma TTL_SetMessageID ttl id m now :
  ValidateMessageTTLAt ttl (SetMessageID id m) now = ValidateMessageTTLAt ttl m now.
Proof. apply TTL_payload, SetMessageID_expires. Qed.

Lemma go_string_ID_SetMessageID id m : go_string (msg_ID (SetMessageID id m)) = go_string id.
Proof. apply go_string_inj, ID_SetMessageID. Qed.

End wire_lemmas.

#[export] Hint Rewrite @SetMessageID_body @SetMessageID_expires @SetMessageID_period
  @Compute_SetMessageID @TTL_SetMessageID @ID_SetMessageID
  @go_string_ID_SetMessageID @SetMessageID_KESSignature @SetMessageID_OpCert
  @SetMessageID_ColdVKey using typeclasses eauto : dmq_wire.
