(* ===== verification/Clone.v ===== *)
(** * Defensive copies (the clone helpers of topic.go, signer.go, discovery.go)

    Go values are copied here by the builtins the helpers use: make and copy.
    A message copied by [cloneMessage] agrees with the original on everything
    a reader can observe; [msg_equiv] is that agreement, and the functions of
    the package respect it. *)

From S2P Require Import Prelude Errors Types.

Definition cloneBytes (src : slice) : slice :=
  match src with
  | None => None
  | Some l => Some (go_copy (make_bytes (length l)) l)
  end.

Definition cloneIP (ip : slice) : slice :=
  match ip with
  | None => None
  | Some l => Some (go_copy (make_bytes (length l)) l)
  end.

Definition cloneOperationalCertificate (src : OperationalCertificate) : OperationalCertificate :=
  mkOpCert (cloneBytes (oc_KESVerificationKey src)) (oc_IssueNumber src)
    (oc_KESPeriod src) (cloneBytes (oc_ColdSignature src)).

(** A *Peer is [None] when nil. *)
Definition clonePeerPtr (peer : option Peer) : option Peer :=
  match peer with
  | None => None
  | Some p => Some p
  end.

Definition clonePeers (peers : list Peer) : list Peer :=
  go_copy (replicate (length peers) zero_peer) peers.

Definition cloneLedgerRelays (relays : list LedgerRelay) : list LedgerRelay :=
  map (fun r => mkRelay (lr_Kind r) (lr_Hostname r) (lr_SRVName r) (lr_Port r)
                  (cloneIP (lr_IPv4 r)) (cloneIP (lr_IPv6 r))) relays.

Definition cloneLedgerPeers (peers : list LedgerPeer) : list LedgerPeer :=
  map (fun p => mkLedgerPeer (lp_PoolID p) (lp_Stake p) (cloneLedgerRelays (lp_Relays p)))
    peers.

(** The message's own SetMessageID first, then the byte-slice fields one by
    one, all read from the original. *)
Definition cloneMessage {X} `{Wire X} (msg : DmqMessage X) : DmqMessage X :=
  let ret := SetMessageID (msg_ID msg) msg in
  let payload := dm_Payload ret in
  let oc := dm_OperationalCertificate ret in
  mkMessage
    (mkPayload (pl_MessageID payload) (cloneBytes (pl_MessageBody (dm_Payload msg)))
       (pl_KESPeriod payload) (pl_ExpiresAt payload))
    (cloneBytes (dm_KESSignature msg))
    (mkOpCert (cloneBytes (oc_KESVerificationKey (dm_OperationalCertificate msg)))
       (oc_IssueNumber oc) (oc_KESPeriod oc)
       (cloneBytes (oc_ColdSignature (dm_OperationalCertificate msg))))
    (cloneBytes (dm_ColdVerificationKey msg))
    (dm_rest ret).

(** Agreement on the ID (as bytes) and on every signed field. *)
Record msg_equiv {X} `{Wire X} (m m' : DmqMessage X) : Prop := {
  me_id : content (msg_ID m) = content (msg_ID m');
  me_body : pl_MessageBody (dm_Payload m) = pl_MessageBody (dm_Payload m');
  me_period : pl_KESPeriod (dm_Payload m) = pl_KESPeriod (dm_Payload m');
  me_expires : pl_ExpiresAt (dm_Payload m) = pl_ExpiresAt (dm_Payload m');
  me_sig : dm_KESSignature m = dm_KESSignature m';
  me_opcert : dm_OperationalCertificate m = dm_OperationalCertificate m';
  me_cold : dm_ColdVerificationKey m = dm_ColdVerificationKey m'
}.

(* ------------------------------------------------------------------ *)
(** ** Lemmas *)

Lemma cloneBytes_id s : cloneBytes s = s.
Proof.
  destruct s as [l|]; simpl; [|done].
  by rewrite go_copy_same_length by apply length_replicate.
Qed.

Lemma cloneIP_id s : cloneIP s = s.
Proof. apply cloneBytes_id. Qed.

Lemma cloneOperationalCertificate_id c : cloneOperationalCertificate c = c.
Proof. destruct c. unfold cloneOperationalCertificate. by rewrite !cloneBytes_id. Qed.

Lemma clonePeerPtr_id p : clonePeerPtr p = p.
Proof. by destruct p. Qed.

Lemma clonePeers_id l : clonePeers l = l.
Proof. apply go_copy_same_length, length_replicate. Qed.

Lemma cloneLedgerRelays_id l : cloneLedgerRelays l = l.
Proof.
  unfold cloneLedgerRelays. induction l as [|[] l IH]; simpl; [done|].
  by rewrite !cloneIP_id, IH.
Qed.

Lemma cloneLedgerPeers_id l : cloneLedgerPeers l = l.
Proof.
  unfold cloneLedgerPeers. induction l as [|[] l IH]; simpl; [done|].
  by rewrite cloneLedgerRelays_id, IH.
Qed.

Section clone_facts.
Context {X : Type} `{WireLaws X}.

#[export] Instance msg_equiv_equivalence : Equivalence (@msg_equiv X _).
Proof.
  split.
  - intros m. by split.
  - intros m m' []. by split.
  - intros m1 m2 m3 [] []. split; congruence.
Qed.

Lemma SetMessageID_equiv m : msg_equiv (SetMessageID (msg_ID m) m) m.
Proof. split; by autorewrite with dmq_wire. Qed.

Lemma cloneMessage_equiv m : msg_equiv (cloneMessage m) m.
Proof.
  transitivity (SetMessageID (msg_ID m) m); [|apply SetMessageID_equiv].
  split; simpl; rewrite ?cloneBytes_id; autorewrite with dmq_wire; try done.
  - rewrite <-(ID_SetMessageID (msg_ID m) m). f_equal. by apply ID_ext.
  - by destruct (dm_OperationalCertificate m).
Qed.

#[export] Instance msg_key_proper :
  Proper (@msg_equiv X _ ==> eq) (fun m => go_string (msg_ID m)).
Proof. intros m m' Hm. apply go_string_inj, Hm. Qed.

#[export] Instance ValidateMessageTTLAt_proper :
  Proper (eq ==> @msg_equiv X _ ==> eq ==> eq) ValidateMessageTTLAt.
Proof. intros ttl ? <- m m' Hm now ? <-. apply TTL_payload, Hm. Qed.

Lemma cloneMessage_key m : go_string (msg_ID (cloneMessage m)) = go_string (msg_ID m).
Proof. apply go_string_inj, cloneMessage_equiv. Qed.

Lemma cloneMessage_TTL ttl m now :
  ValidateMessageTTLAt ttl (cloneMessage m) now = ValidateMessageTTLAt ttl m now.
Proof. by rewrite (cloneMessage_equiv m). Qed.

End clone_facts.

#[export] Hint Rewrite cloneBytes_id cloneIP_id cloneOperationalCertificate_id
  clonePeerPtr_id clonePeers_id cloneLedgerPeers_id : dmq_wire.
