(* ===== verification/Concrete.v ===== *)
(** * A concrete wire format

    An instance of [Wire] with its laws, on which the witnesses of the
    development evaluate: the ID lives in the payload and is computed as a
    tag byte followed by the body and the expiry; a message expires at its
    ExpiresAt and may not expire more than the maximum TTL ahead; the
    encoding of a message is its body. It stands for no code of the
    repository: it shows that the assumptions can be met together. *)

From S2P Require Import Prelude Errors Types Clone.

Definition toy_compute (p : DmqMessagePayload) : slice :=
  Some (x49 :: content (pl_MessageBody p)
          ++ [byte_of_Z (pl_ExpiresAt p); byte_of_Z (pl_ExpiresAt p / 256);
              byte_of_Z (pl_ExpiresAt p / 65536)]).

Definition toy_set (id : slice) (m : DmqMessage unit) : DmqMessage unit :=
  let p := dm_Payload m in
  mkMessage (mkPayload id (pl_MessageBody p) (pl_KESPeriod p) (pl_ExpiresAt p))
    (dm_KESSignature m) (dm_OperationalCertificate m) (dm_ColdVerificationKey m) tt.

Definition toy_ttl (maxTTL : Duration) (m : DmqMessage unit) (now : Time) : option string :=
  let e := pl_ExpiresAt (dm_Payload m) in
  if e <=? Time_Unix now then Some "message has expired"
  else if e >? Time_Unix (Time_Add now maxTTL) then Some "message TTL too far in future"
  else None.

#[export] Instance toy_wire : Wire unit := {
  zero_rest := tt;
  msg_ID m := pl_MessageID (dm_Payload m);
  SetMessageID := toy_set;
  SetComputedMessageID m := Ok (toy_set (toy_compute (dm_Payload m)) m);
  ComputeDmqMessageID p := Ok (toy_compute p);
  ValidateMessageTTLAt := toy_ttl;
  nil_VerifyMessage _ := Some "nil authenticator";
  cbor_Encode_message m := Ok (content (pl_MessageBody (dm_Payload m)));
  cbor_Encode_payload p :=
    Ok (content (pl_MessageBody p) ++ [byte_of_Z (pl_KESPeriod p); byte_of_Z (pl_ExpiresAt p)]);
  cbor_Encode_bytes b := Ok (byte_of_Z (Z.of_nat (length b)) :: b)
}.

(** An unsigned message with the given body and expiry and no ID yet. *)
Definition toy_msg (body : list byte) (expires : Z) : DmqMessage unit :=
  mkMessage (mkPayload None (Some body) 0 expires) None zero_opcert None tt.

#[export] Instance toy_wire_laws : WireLaws unit.
Proof.
  split; try done.
  - intros id m. by eexists.
  - intros p id [= <-]. by unfold toy_compute.
  - intros ttl m m' now Hm. simpl. unfold toy_ttl. by rewrite Hm.
  - intros ttl m t1 t2 t3 H12 H23. simpl. unfold toy_ttl, Time_Unix, Time_Add.
    assert (t2 / Second <= t3 / Second) by (by apply Z.div_le_mono).
    assert ((t1 + ttl) / Second <= (t2 + ttl) / Second) by (apply Z.div_le_mono; [done|lia]).
    repeat case_match; zbool; try done; lia.
Qed.
