(* ===== verification/Encoding.v ===== *)
(** * Text and binary encodings of the Go standard library

    What the package uses of encoding/hex (message IDs, key material),
    encoding/binary (the body of a certificate), strings.TrimSpace, and
    encoding/base64 (what a signing helper prints), with their round trips. *)

From S2P Require Import Prelude.

(** The lower-case digit of a nibble. *)
Definition hex_char (n : N) : Ascii.ascii :=
  Ascii.ascii_of_N (if (n <? 10)%N then 48 + n else 87 + n)%N.

(** fromHexChar: the value of a digit of either case. *)
Definition fromHexChar (c : Ascii.ascii) : option N :=
  let n := Ascii.N_of_ascii c in
  if ((48 <=? n) && (n <=? 57))%N then Some (n - 48)%N
  else if ((97 <=? n) && (n <=? 102))%N then Some (n - 87)%N
  else if ((65 <=? n) && (n <=? 70))%N then Some (n - 55)%N
  else None.

(** hex.EncodeToString *)
Fixpoint hex_EncodeToString (b : list byte) : string :=
  match b with
  | [] => EmptyString
  | x :: b' =>
      let n := Byte.to_N x in
      String (hex_char (n / 16)) (String (hex_char (n mod 16)) (hex_EncodeToString b'))
  end.

(** hex.DecodeString: [None] on an odd length or a character that is not a
    digit. *)
Fixpoint hex_DecodeString (s : string) : option (list byte) :=
  match s with
  | EmptyString => Some []
  | String _ EmptyString => None
  | String c (String d s') =>
      match fromHexChar c, fromHexChar d with
      | Some h, Some l =>
          b ← Byte.of_N (h * 16 + l);
          rest ← hex_DecodeString s';
          Some (b :: rest)
      | _, _ => None
      end
  end.

Lemma hex_byte_roundtrip (x : byte) :
  let n := Byte.to_N x in
  fromHexChar (hex_char (n / 16)) = Some (n / 16)%N /\
  fromHexChar (hex_char (n mod 16)) = Some (n mod 16)%N /\
  Byte.of_N (n / 16 * 16 + n mod 16) = Some x.
Proof. by destruct x. Qed.

(** Decoding what was encoded gives the bytes back. *)
Lemma hex_roundtrip b : hex_DecodeString (hex_EncodeToString b) = Some b.
Proof.
  induction b as [|x b IH]; [done|].
  destruct (hex_byte_roundtrip x) as (H1 & H2 & H3).
  cbn [hex_EncodeToString hex_DecodeString]. rewrite H1, H2, H3. simpl. by rewrite IH.
Qed.

Lemma hex_EncodeToString_inj a b :
  hex_EncodeToString a = hex_EncodeToString b -> a = b.
Proof. intros H. apply (f_equal hex_DecodeString) in H. rewrite !hex_roundtrip in H. by injection H. Qed.

(* ------------------------------------------------------------------ *)
(** ** encoding/binary, big-endian *)

(** BigEndian.PutUint64 into eight bytes *)
Definition PutUint64 (z : Z) : list byte :=
  map (fun i => byte_of_Z (Z.shiftr z (8 * i))) [7; 6; 5; 4; 3; 2; 1; 0].

(** BigEndian.Uint64 *)
Definition Uint64 (b : list byte) : Z :=
  foldl (fun acc x => acc * 256 + Z_of_byte x) 0 b.

Lemma PutUint64_length z : length (PutUint64 z) = 8%nat.
Proof. done. Qed.

Lemma Uint64_PutUint64 z : is_u64 z -> Uint64 (PutUint64 z) = z.
Proof.
  intros [Hlo Hhi]. unfold Uint64, PutUint64. cbn [map foldl].
  rewrite !Z_of_byte_of_Z, !Z.shiftr_div_pow2 by lia.
  change (8 * 0) with 0. change (8 * 1) with 8. change (8 * 2) with 16. change (8 * 3) with 24.
  change (8 * 4) with 32. change (8 * 5) with 40. change (8 * 6) with 48. change (8 * 7) with 56.
  Z.div_mod_to_equations. lia.
Qed.

Lemma PutUint64_inj a b : is_u64 a -> is_u64 b -> PutUint64 a = PutUint64 b -> a = b.
Proof. intros Ha Hb E. by rewrite <-(Uint64_PutUint64 a), E, Uint64_PutUint64. Qed.

(* ------------------------------------------------------------------ *)
(** ** strings.TrimSpace *)

(** The UTF-8 encodings of the white space of unicode.IsSpace. *)
Definition space_runes : list (list byte) :=
  [[x09]; [x0a]; [x0b]; [x0c]; [x0d]; [x20]; [xc2; x85]; [xc2; xa0]; [xe1; x9a; x80];
   [xe2; x80; x80]; [xe2; x80; x81]; [xe2; x80; x82]; [xe2; x80; x83]; [xe2; x80; x84];
   [xe2; x80; x85]; [xe2; x80; x86]; [xe2; x80; x87]; [xe2; x80; x88]; [xe2; x80; x89];
   [xe2; x80; x8a]; [xe2; x80; xa8]; [xe2; x80; xa9]; [xe2; x80; xaf]; [xe2; x81; x9f];
   [xe3; x80; x80]].

Fixpoint drop_prefix (p s : list byte) : option (list byte) :=
  match p, s with
  | [], _ => Some s
  | x :: p', y :: s' => if decide (x = y) then drop_prefix p' s' else None
  | _ :: _, [] => None
  end.

(** The rest after the first of the runes that starts [s]. *)
Fixpoint drop_rune (runes : list (list byte)) (s : list byte) : option (list byte) :=
  match runes with
  | [] => None
  | r :: runes' => match drop_prefix r s with Some s' => Some s' | None => drop_rune runes' s end
  end.

(** Drops runes from the front, at most [n] of them. *)
Fixpoint trim_runes (runes : list (list byte)) (n : nat) (s : list byte) : list byte :=
  match n with
  | O => s
  | S n' => match drop_rune runes s with Some s' => trim_runes runes n' s' | None => s end
  end.

Definition trim_front (runes : list (list byte)) (s : list byte) : list byte :=
  trim_runes runes (length s) s.

Definition trim_bytes (s : list byte) : list byte :=
  rev (trim_front (map (@rev byte) space_runes) (rev (trim_front space_runes s))).

Definition TrimSpace (s : string) : string :=
  String.string_of_list_byte (trim_bytes (String.list_byte_of_string s)).

(* ------------------------------------------------------------------ *)
(** ** base64.StdEncoding *)

Definition b64_alphabet : list byte :=
  String.list_byte_of_string "ABCDEFGHIJKLMNOPQRSTUVWXYZabcdefghijklmnopqrstuvwxyz0123456789+/".

Definition b64_char (n : Z) : byte := default x41 (b64_alphabet !! Z.to_nat n).

Definition b64_value (c : byte) : option Z :=
  let z := Z_of_byte c in
  if (65 <=? z) && (z <=? 90) then Some (z - 65)
  else if (97 <=? z) && (z <=? 122) then Some (z - 71)
  else if (48 <=? z) && (z <=? 57) then Some (z + 4)
  else if z =? 43 then Some 62
  else if z =? 47 then Some 63
  else None.

(** Groups of four characters; only the last may be padded. *)
Fixpoint b64_groups (s : list byte) : option (list byte) :=
  match s with
  | [] => Some []
  | a :: b :: c :: d :: s' =>
      a ← b64_value a;
      b ← b64_value b;
      if decide (d = x3d) then
        if decide (s' = []) then
          if decide (c = x3d) then Some [byte_of_Z (a * 4 + b / 16)]
          else
            c ← b64_value c;
            Some [byte_of_Z (a * 4 + b / 16); byte_of_Z (b * 16 + c / 4)]
        else None
      else
        c ← b64_value c;
        d ← b64_value d;
        rest ← b64_groups s';
        Some (byte_of_Z (a * 4 + b / 16) :: byte_of_Z (b * 16 + c / 4) :: byte_of_Z (c * 64 + d)
                :: rest)
  | _ => None
  end.

(** DecodeString: line breaks are skipped. *)
Definition base64_DecodeString (s : string) : option (list byte) :=
  b64_groups (filter (fun c => c <> x0a /\ c <> x0d) (String.list_byte_of_string s)).

Fixpoint b64_encode (b : list byte) : list byte :=
  match b with
  | [] => []
  | [x] =>
      let x := Z_of_byte x in [b64_char (x / 4); b64_char (x mod 4 * 16); x3d; x3d]
  | [x; y] =>
      let x := Z_of_byte x in let y := Z_of_byte y in
      [b64_char (x / 4); b64_char (x mod 4 * 16 + y / 16); b64_char (y mod 16 * 4); x3d]
  | x :: y :: z :: b' =>
      let x := Z_of_byte x in let y := Z_of_byte y in let z := Z_of_byte z in
      b64_char (x / 4) :: b64_char (x mod 4 * 16 + y / 16) :: b64_char (y mod 16 * 4 + z / 64)
        :: b64_char (z mod 64) :: b64_encode b'
  end.

Definition base64_EncodeToString (b : list byte) : string :=
  String.string_of_list_byte (b64_encode b).

(* ------------------------------------------------------------------ *)
(** ** Lemmas: base64 *)

Lemma seq_cases (P : Z -> Prop) n : (forall i, (i < n)%nat -> P (Z.of_nat i)) ->
  forall z, 0 <= z < Z.of_nat n -> P z.
Proof. intros HP z Hz. rewrite <-(Z2Nat.id z) by lia. apply HP. lia. Qed.

Lemma b64_char_spec n : 0 <= n < 64 ->
  b64_value (b64_char n) = Some n /\ b64_char n <> x3d /\ b64_char n <> x0a /\ b64_char n <> x0d.
Proof. revert n. apply (seq_cases _ 64). intros i Hi. do 64 (destruct i as [|i]; [done|]). lia. Qed.

Lemma Z_of_byte_range b : 0 <= Z_of_byte b < 256.
Proof. by destruct b. Qed.

Lemma byte_of_Z_eq z b : z mod 256 = Z_of_byte b -> byte_of_Z z = b.
Proof.
  intros E. rewrite <-(byte_of_Z_of_byte b), <-E. unfold byte_of_Z. by rewrite Z.mod_mod.
Qed.

Lemma list_ind3 {A} (P : list A -> Prop) :
  P [] -> (forall x, P [x]) -> (forall x y, P [x; y]) ->
  (forall x y z l, P l -> P (x :: y :: z :: l)) -> forall l, P l.
Proof.
  intros H0 H1 H2 H3. fix IH 1. intros [|x [|y [|z l]]]; [done..|]. apply H3, IH.
Qed.

Ltac b64_digits :=
  repeat match goal with
    | |- context [b64_value (b64_char ?n)] =>
        rewrite (proj1 (b64_char_spec n ltac:(Z.div_mod_to_equations; lia)))
    | |- context [decide (b64_char ?n = x3d)] =>
        rewrite (decide_False (P := b64_char n = x3d))
          by (apply b64_char_spec; Z.div_mod_to_equations; lia)
    end.

Lemma b64_groups_encode b : b64_groups (b64_encode b) = Some b.
Proof.
  induction b as [|x|x y|x y z b IH] using list_ind3; [done|..];
    cbn [b64_encode b64_groups]; cbv zeta;
    try pose proof (Z_of_byte_range x); try pose proof (Z_of_byte_range y);
    try pose proof (Z_of_byte_range z); b64_digits; simpl; b64_digits; simpl; rewrite ?IH; simpl.
  all: repeat f_equal; apply byte_of_Z_eq; Z.div_mod_to_equations; lia.
Qed.

(** No line break and no space is ever printed. *)
Definition graphic (c : byte) : Prop := 33 <= Z_of_byte c <= 126.

#[export] Instance graphic_dec c : Decision (graphic c).
Proof. unfold graphic. apply _. Defined.

Lemma b64_char_graphic n : 0 <= n < 64 -> graphic (b64_char n).
Proof.
  revert n. apply (seq_cases _ 64). intros i Hi.
  do 64 (destruct i as [|i]; [by split; vm_compute|]). lia.
Qed.

Lemma b64_encode_graphic b : Forall graphic (b64_encode b).
Proof.
  induction b as [|x|x y|x y z b IH] using list_ind3; cbn [b64_encode]; cbv zeta; [done|..];
    try pose proof (Z_of_byte_range x); try pose proof (Z_of_byte_range y);
    try pose proof (Z_of_byte_range z); repeat apply Forall_cons_2; try done;
    try (apply b64_char_graphic; Z.div_mod_to_equations; lia).
Qed.

Lemma graphic_no_break s :
  Forall graphic s -> filter (fun c => c <> x0a /\ c <> x0d) s = s.
Proof.
  intros Hs. induction Hs as [|c s Hc Hs IH]; [done|]. rewrite filter_cons_True, IH; [done|].
  split; intros ->; by destruct Hc as [Hc _].
Qed.

Lemma base64_roundtrip b : base64_DecodeString (base64_EncodeToString b) = Some b.
Proof.
  unfold base64_DecodeString, base64_EncodeToString.
  rewrite String.list_byte_of_string_of_list_byte, graphic_no_break by apply b64_encode_graphic.
  apply b64_groups_encode.
Qed.

Lemma hex_EncodeToString_graphic b :
  Forall graphic (String.list_byte_of_string (hex_EncodeToString b)).
Proof.
  induction b as [|x b IH]; [done|]. cbn [hex_EncodeToString String.list_byte_of_string].
  repeat apply Forall_cons_2; [by destruct x..|done].
Qed.

(* ------------------------------------------------------------------ *)
(** ** Lemmas: TrimSpace *)

Definition ascii_space (c : byte) : Prop := c ∈ [x09; x0a; x0b; x0c; x0d; x20].

#[export] Instance ascii_space_dec c : Decision (ascii_space c).
Proof. unfold ascii_space. apply _. Defined.

Lemma drop_space c s : ascii_space c ->
  drop_rune space_runes (c :: s) = Some s /\
  drop_rune (map (@rev byte) space_runes) (c :: s) = Some s.
Proof. unfold ascii_space. rewrite !elem_of_cons, elem_of_nil. naive_solver. Qed.

Lemma drop_graphic c s : graphic c ->
  drop_rune space_runes (c :: s) = None /\
  drop_rune (map (@rev byte) space_runes) (c :: s) = None.
Proof. intros Hc. destruct c; try done; exfalso; by destruct Hc. Qed.

Section trim.
Context (runes : list (list byte)).
Context (Hdrop : forall c s, ascii_space c -> drop_rune runes (c :: s) = Some s).
Context (Hkeep : forall c s, graphic c -> drop_rune runes (c :: s) = None).

Lemma trim_front_spaces w c t : Forall ascii_space w -> graphic c ->
  trim_front runes (w ++ c :: t) = c :: t.
Proof.
  intros Hw Hc. unfold trim_front. rewrite length_app.
  generalize (length (c :: t)) as k. induction Hw as [|x w Hx Hw IH]; intros k; simpl.
  - destruct k; simpl; [done|]. by rewrite Hkeep.
  - by rewrite Hdrop.
Qed.

End trim.

(** White space around a text without any is what TrimSpace removes. *)
Lemma trim_bytes_around w t w' : Forall ascii_space w -> Forall ascii_space w' ->
  Forall graphic t -> t <> [] -> trim_bytes (w ++ t ++ w') = t.
Proof.
  intros Hw Hw' Ht Hne. unfold trim_bytes. destruct t as [|c t _] using rev_ind; [done|].
  assert (trim_front space_runes (w ++ (t ++ [c]) ++ w') = (t ++ [c]) ++ w') as ->.
  { assert (exists d t', (t ++ [c]) ++ w' = d :: t' /\ graphic d) as (d & t' & -> & Hd).
    { destruct t as [|d t]; inversion Ht; subst; by do 2 eexists. }
    exact (trim_front_spaces _ (fun x s Hx => proj1 (drop_space x s Hx))
      (fun x s Hx => proj1 (drop_graphic x s Hx)) w d t' Hw Hd). }
  rewrite !rev_app_distr. cbn [rev app]. rewrite (trim_front_spaces _ (fun x s Hx => proj2 (drop_space x s Hx))
    (fun x s Hx => proj2 (drop_graphic x s Hx))).
  - cbn [rev]. by rewrite rev_involutive.
  - by apply Forall_rev.
  - apply Forall_app in Ht as [_ Ht]. by inversion Ht.
Qed.
