(* ===== verification/Payload.v ===== *)
(** * Payload policy (payload.go) *)

From S2P Require Import Prelude Errors Types Clone.

Definition MaxMessageBodyBytes : Z := 2000.
Definition DefaultMessageTTL : Duration := 30 * Minute.
Definition MaxMessageTTL : Duration := 30 * Minute.
Definition MaxMessageExpiresAtUnix : Z := 2 ^ 32 - 1.

(** Checks generic DMQ wire-format body constraints. *)
Definition ValidateMessageBody (body : slice) : option error :=
  if len body >? MaxMessageBodyBytes then
    Some (Errorf "%w: %d bytes (max %d)"
            [ArgErr (ErrVar ErrMessageBodyTooLarge); ArgInt (len body);
             ArgInt MaxMessageBodyBytes])
  else None.

(** The DMQ wire ExpiresAt value for now + ttl. *)
Definition ExpiresAt (now : Time) (ttl : Duration) : result Z :=
  let ttl := if ttl <=? 0 then DefaultMessageTTL else ttl in
  let nowUnix := Time_Unix now in
  let out_of_range :=
    Errorf "%w: now %d plus ttl %s (max %d)"
      [ArgErr (ErrVar ErrMessageExpiryOutOfRange); ArgInt nowUnix; ArgDuration ttl;
       ArgInt MaxMessageExpiresAtUnix] in
  if nowUnix >? MaxMessageExpiresAtUnix then Err out_of_range
  else
    let now := if nowUnix <? 0 then Time_of_Unix 0 0 else now in
    let expires := Time_Unix (Time_Add now ttl) in
    if expires >? MaxMessageExpiresAtUnix then Err out_of_range
    else Ok (u32 expires).

(** Applies the payload policy and builds a payload suitable for signing. *)
Definition NewMessagePayload (now : Time) (ttl : Duration) (body : slice)
  : result DmqMessagePayload :=
  check (ValidateMessageBody body)
    (expiresAt ← ExpiresAt now ttl;
     mret (mkPayload None (cloneBytes body) 0 expiresAt)).

(** The lifetime [ExpiresAt] applies: a non-positive TTL means the default. *)
Definition effective_ttl (ttl : Duration) : Duration :=
  if ttl <=? 0 then DefaultMessageTTL else ttl.

(** The expiry the policy intends: whole seconds of now + ttl, a clock before
    the epoch counting as the epoch. *)
Definition intended_expiry (now : Time) (ttl : Duration) : Z :=
  (Z.max 0 now + effective_ttl ttl) / Second.

(* ------------------------------------------------------------------ *)
(** ** Lemmas *)

Lemma effective_ttl_pos ttl : 0 < effective_ttl ttl.
Proof. unfold effective_ttl. destruct (ttl <=? 0) eqn:E; zbool; [done|lia]. Qed.

Lemma intended_expiry_nonneg now ttl : 0 <= intended_expiry now ttl.
Proof.
  unfold intended_expiry. pose proof (effective_ttl_pos ttl).
  apply Z.div_pos; unfold Second; lia.
Qed.

Lemma ValidateMessageBody_spec body :
  match ValidateMessageBody body with
  | None => len body <= MaxMessageBodyBytes
  | Some e => MaxMessageBodyBytes < len body /\ errors_Is e ErrMessageBodyTooLarge = true
  end.
Proof.
  unfold ValidateMessageBody. destruct (_ >? _) eqn:E; zbool; [|lia].
  split; [lia|done].
Qed.

(** The clock clamp and the early range check change nothing: the result is
    the intended expiry or, past the wire format, the range error. *)
Lemma ExpiresAt_cases now ttl :
  if intended_expiry now ttl <=? MaxMessageExpiresAtUnix
  then ExpiresAt now ttl = Ok (intended_expiry now ttl)
  else fails_with (ExpiresAt now ttl) ErrMessageExpiryOutOfRange.
Proof.
  pose proof (intended_expiry_nonneg now ttl) as Hpos.
  unfold ExpiresAt. fold (effective_ttl ttl). cbv zeta.
  assert (Hclamp : (if Time_Unix now <? 0 then Time_of_Unix 0 0 else now) = Z.max 0 now).
  { unfold Time_Unix, Time_of_Unix.
    destruct (now / Second <? 0) eqn:E; zbool.
    - assert (now < 0); [|lia]. apply Z.nle_gt. intros H0.
      pose proof (Z.div_pos now Second H0 ltac:(done)). lia.
    - assert (0 <= now); [|lia]. apply Z.nlt_ge. intros H0.
      pose proof (Z.div_lt_upper_bound now Second 0 ltac:(done) ltac:(lia)). lia. }
  rewrite Hclamp. fold (Time_Add (Z.max 0 now) (effective_ttl ttl)).
  change (Time_Unix (Time_Add (Z.max 0 now) (effective_ttl ttl)))
    with (intended_expiry now ttl).
  assert (Hmono : Time_Unix now <= intended_expiry now ttl).
  { unfold Time_Unix, intended_expiry. pose proof (effective_ttl_pos ttl).
    apply Z.div_le_mono; [done|lia]. }
  destruct (intended_expiry now ttl <=? MaxMessageExpiresAtUnix) eqn:E; zbool.
  - destruct (Time_Unix now >? MaxMessageExpiresAtUnix) eqn:E1; zbool; [lia|].
    destruct (intended_expiry now ttl >? MaxMessageExpiresAtUnix) eqn:E2; zbool; [lia|].
    rewrite u32_id; [done|]. unfold is_u32, MaxMessageExpiresAtUnix in *. lia.
  - destruct (Time_Unix now >? MaxMessageExpiresAtUnix) eqn:E1; zbool; [by eexists|].
    destruct (intended_expiry now ttl >? MaxMessageExpiresAtUnix) eqn:E2; zbool; [|lia].
    by eexists.
Qed.

(** NewMessagePayload accepts exactly the bodies of at most 2000 bytes
    whose expiry (now + TTL in whole seconds, the default TTL for a
    non-positive one, the epoch for an earlier clock) fits the 32-bit wire
    field, and then the payload carries the body and that expiry; otherwise it
    fails with the sentinel of the first limit exceeded. *)
Theorem NewMessagePayload_correct now ttl body :
  match NewMessagePayload now ttl body with
  | Ok p =>
      len body <= MaxMessageBodyBytes /\ is_u32 (intended_expiry now ttl) /\
      p = mkPayload None body 0 (intended_expiry now ttl)
  | Err e =>
      (MaxMessageBodyBytes < len body /\ errors_Is e ErrMessageBodyTooLarge = true) \/
      (len body <= MaxMessageBodyBytes /\ MaxMessageExpiresAtUnix < intended_expiry now ttl /\
       errors_Is e ErrMessageExpiryOutOfRange = true)
  end.
Proof.
  unfold NewMessagePayload. pose proof (ValidateMessageBody_spec body) as Hb.
  destruct (ValidateMessageBody body) as [e|]; simpl; [by left|].
  pose proof (ExpiresAt_cases now ttl) as He. pose proof (intended_expiry_nonneg now ttl).
  destruct (_ <=? _) eqn:E; zbool.
  - rewrite He. simpl. rewrite cloneBytes_id. split; [done|]. split; [|done].
    unfold is_u32, MaxMessageExpiresAtUnix in *. lia.
  - destruct He as (e & -> & Hi). simpl. right. split_and!; [done|lia|done].
Qed.
