(* ===== verification/Peers.v ===== *)
(** * Peers and the peer selector (discovery.go)

    Building peers from addresses, topology files and static configuration,
    and the PeerSelector: a map from "source/address" to peer, read back in
    sorted order and under per-source-class quotas. *)

From S2P Require Import Prelude Errors Types Clone.

(* ------------------------------------------------------------------ *)
(** ** Building peers *)

(** net.JoinHostPort: a host with a colon is bracketed. *)
Definition JoinHostPort (host port : string) : string :=
  if contains_char ":"%char host then "[" +:+ host +:+ "]:" +:+ port
  else host +:+ ":" +:+ port.

Definition newPeer (host : string) (port : Z) (base : Peer) : Peer :=
  mkPeer
    (if port =? 0 then host else JoinHostPort host (FormatUint port))
    host port (pr_Source base) (pr_PoolID base) (pr_Stake base) (pr_Valency base)
    (pr_WarmValency base) (pr_Advertise base) (pr_Trustable base).

(** A peer literal with the given source and root-group settings. *)
Definition root_base (source : PeerSource) (valency warm : Z) (advertise trustable : bool)
  : Peer :=
  mkPeer "" "" 0 source "" 0 valency warm advertise trustable.

Definition TopologyPeers (cfg : option TopologyConfig) : list Peer :=
  match cfg with
  | None => []
  | Some cfg =>
      (root ← tc_LocalRoots cfg; ap ← tr_AccessPoints root;
       [newPeer (ap_Address ap) (ap_Port ap)
          (root_base PeerSourceTopologyLocalRoot (tr_Valency root) (tr_WarmValency root)
             (tr_Advertise root) (tr_Trustable root))])
      ++ (root ← tc_PublicRoots cfg; ap ← tr_AccessPoints root;
          [newPeer (ap_Address ap) (ap_Port ap)
             (root_base PeerSourceTopologyPublic (tr_Valency root) (tr_WarmValency root)
                (tr_Advertise root) false)])
      ++ (ap ← tc_BootstrapPeers cfg;
          [newPeer (ap_Address ap) (ap_Port ap)
             (root_base PeerSourceTopologyBootstrap 0 0 false false)])
  end.

Definition zero_ledger_config : LedgerPeerDiscoveryConfig :=
  mkLedgerConfig false 0 0 0 0 None false.

(** The topology parser belongs to another package. *)
Definition NewDiscoveryConfig (ParseTopologyFile : string -> result TopologyConfig)
  (topologyFile : string) (staticPeers : list Peer) : result DiscoveryConfig :=
  let static :=
    map (fun p => if bool_decide (pr_Source p = "")
                  then mkPeer (pr_Address p) (pr_Host p) (pr_Port p) PeerSourceStatic
                         (pr_PoolID p) (pr_Stake p) (pr_Valency p) (pr_WarmValency p)
                         (pr_Advertise p) (pr_Trustable p)
                  else p) (clonePeers staticPeers) in
  if bool_decide (topologyFile = "")
  then Ok (mkDiscovery None static false 0 0 zero_ledger_config)
  else
    topology ← ParseTopologyFile topologyFile;
    mret (mkDiscovery (Some topology) static false 0 0 zero_ledger_config).

(* ------------------------------------------------------------------ *)
(** ** PeerSelector *)

Record PeerSelectionConfig := mkSelection {
  sc_TopologyQuota : Z;
  sc_PeerShareQuota : Z;
  sc_LedgerQuota : Z;
  sc_BigLedgerQuota : Z
}.

Record PeerSelector := mkSelector {
  ps_cfg : PeerSelectionConfig;
  ps_peers : gmap string Peer
}.

Definition NewPeerSelector (cfg : PeerSelectionConfig) : PeerSelector :=
  mkSelector cfg ∅.

(** fmt.Sprintf("%s/%s", peer.Source, peer.Address) *)
Definition peer_key (p : Peer) : string := pr_Source p +:+ "/" +:+ pr_Address p.

(** The body of the loop of addPeersLocked. *)
Definition add_peer (m : gmap string Peer) (peer : Peer) : gmap string Peer :=
  if bool_decide (pr_Address peer = "") then
    if bool_decide (pr_Host peer = "") then m
    else
      let peer := newPeer (pr_Host peer) (pr_Port peer) peer in
      <[peer_key peer := peer]> m
  else <[peer_key peer := peer]> m.

Definition addPeersLocked (s : PeerSelector) (peers : list Peer) : PeerSelector :=
  mkSelector (ps_cfg s) (foldl add_peer (ps_peers s) peers).

Definition AddPeers (s : PeerSelector) (peers : list Peer) : PeerSelector :=
  addPeersLocked s peers.

Definition setPeersForSources (s : PeerSelector) (sources : list PeerSource)
  (peers : list Peer) : PeerSelector :=
  addPeersLocked
    (mkSelector (ps_cfg s)
       (filter (fun kp => pr_Source kp.2 ∉ sources) (ps_peers s)))
    peers.

Definition peer_less (a b : Peer) : bool :=
  if bool_decide (pr_Source a = pr_Source b)
  then string_less (pr_Address a) (pr_Address b)
  else string_less (pr_Source a) (pr_Source b).

Definition sortPeers (peers : list Peer) : list Peer := SliceStable peer_less peers.

(** Ranging over the map visits its values in an unspecified order: [enum]. *)
Definition Peers_enum (enum : list Peer) : list Peer := sortPeers enum.

Definition Peers (s : PeerSelector) : list Peer :=
  Peers_enum (map snd (map_to_list (ps_peers s))).

Definition peerQuotaClass := string.
Definition peerQuotaClassTopology : peerQuotaClass := "topology".
Definition peerQuotaClassSharing : peerQuotaClass := "peer-sharing".
Definition peerQuotaClassLedger : peerQuotaClass := "ledger".
Definition peerQuotaClassBig : peerQuotaClass := "big-ledger".

Definition isTopologyQuotaSource (source : PeerSource) : bool :=
  bool_decide (source ∈ [PeerSourceTopologyLocalRoot; PeerSourceTopologyPublic;
                         PeerSourceTopologyBootstrap; PeerSourceStatic]).

Definition quotaForSource (source : PeerSource) (cfg : PeerSelectionConfig)
  : peerQuotaClass * Z :=
  if isTopologyQuotaSource source then (peerQuotaClassTopology, sc_TopologyQuota cfg)
  else if bool_decide (source = PeerSourcePeerSharing)
  then (peerQuotaClassSharing, sc_PeerShareQuota cfg)
  else if bool_decide (source = PeerSourceLedger)
  then (peerQuotaClassLedger, sc_LedgerQuota cfg)
  else if bool_decide (source = PeerSourceBigLedger)
  then (peerQuotaClassBig, sc_BigLedgerQuota cfg)
  else (source, 0).

(** The loop of Select: what is left of the sorted peers, the selection so
    far and the per-class counters. *)
Fixpoint select_loop (cfg : PeerSelectionConfig) (n : Z) (peers selected : list Peer)
  (counts : gmap string Z) : list Peer :=
  match peers with
  | [] => selected
  | peer :: rest =>
      let '(class, quota) := quotaForSource (pr_Source peer) cfg in
      if (quota >? 0) && (default 0 (counts !! class) >=? quota)
      then select_loop cfg n rest selected counts
      else
        let selected := selected ++ [peer] in
        let counts := <[class := default 0 (counts !! class) + 1]> counts in
        if (n >? 0) && (Z.of_nat (length selected) >=? n) then selected
        else select_loop cfg n rest selected counts
  end.

Definition Select (s : PeerSelector) (n : Z) : list Peer :=
  select_loop (ps_cfg s) n (Peers s) [] ∅.

(** Every peer is stored under its own key. *)
Definition selector_ok (s : PeerSelector) : Prop :=
  map_Forall (fun k p => k = peer_key p) (ps_peers s).

(** What a selector can become: created empty, peers added, peers of some
    sources replaced. *)
Inductive selector_reachable : PeerSelector -> Prop :=
| sr_new cfg : selector_reachable (NewPeerSelector cfg)
| sr_add s ps : selector_reachable s -> selector_reachable (AddPeers s ps)
| sr_set s srcs ps :
    selector_reachable s -> selector_reachable (setPeersForSources s srcs ps).

(** The peers of a list counted against class [c]. *)
Definition in_class (cfg : PeerSelectionConfig) (c : peerQuotaClass) (p : Peer) : Prop :=
  (quotaForSource (pr_Source p) cfg).1 = c.

#[export] Instance in_class_dec cfg c p : Decision (in_class cfg c p).
Proof. unfold in_class. apply _. Defined.

Definition class_count (cfg : PeerSelectionConfig) (c : peerQuotaClass) (l : list Peer) : Z :=
  Z.of_nat (length (filter (in_class cfg c) l)).

(* ------------------------------------------------------------------ *)
(** ** Lemmas: the map *)

Lemma add_peer_ok m p :
  map_Forall (fun k p => k = peer_key p) m ->
  map_Forall (fun k p => k = peer_key p) (add_peer m p).
Proof.
  intros Hm. unfold add_peer. repeat case_bool_decide; [done| |];
    by apply map_Forall_insert_2.
Qed.

Lemma addPeersLocked_ok s ps : selector_ok s -> selector_ok (addPeersLocked s ps).
Proof.
  unfold selector_ok, addPeersLocked; simpl. generalize (ps_peers s).
  induction ps as [|p ps IH]; simpl; [done|]. intros m Hm. apply IH, add_peer_ok, Hm.
Qed.

Lemma NewPeerSelector_ok cfg : selector_ok (NewPeerSelector cfg).
Proof. apply map_Forall_empty. Qed.

Lemma setPeersForSources_ok s srcs ps :
  selector_ok s -> selector_ok (setPeersForSources s srcs ps).
Proof.
  intros Hs. apply addPeersLocked_ok. unfold selector_ok; simpl.
  intros k p [Hkp _]%map_lookup_filter_Some. by apply Hs.
Qed.

#[export] Hint Resolve addPeersLocked_ok NewPeerSelector_ok setPeersForSources_ok : dmq.

Lemma selector_reachable_ok s : selector_reachable s -> selector_ok s.
Proof. induction 1; eauto with dmq. Qed.

(** What addPeersLocked does to one address: the last peer given for it wins,
    and other addresses are left alone. *)
Definition normalized_peer (p : Peer) : option Peer :=
  if bool_decide (pr_Address p = "") then
    if bool_decide (pr_Host p = "") then None
    else Some (newPeer (pr_Host p) (pr_Port p) p)
  else Some p.

Lemma add_peer_lookup m p k :
  add_peer m p !! k =
    match normalized_peer p with
    | Some q => if decide (peer_key q = k) then Some q else m !! k
    | None => m !! k
    end.
Proof.
  unfold add_peer, normalized_peer. repeat case_bool_decide; try done;
    by rewrite lookup_insert.
Qed.

Lemma addPeersLocked_lookup s ps k q :
  ps_peers (addPeersLocked s ps) !! k = Some q ->
  ps_peers s !! k = Some q \/ exists p, p ∈ ps /\ normalized_peer p = Some q /\ peer_key q = k.
Proof.
  unfold addPeersLocked; simpl. generalize (ps_peers s) as m.
  induction ps as [|p ps IH]; intros m Hq; simpl in *; [by left|].
  destruct (IH _ Hq) as [Hm|(p' & Hin & Hp')]; [|right; exists p'; set_solver].
  rewrite add_peer_lookup in Hm. destruct (normalized_peer p) as [q'|] eqn:E; [|by left].
  case_decide; [|by left]. right. exists p. simplify_eq. set_solver.
Qed.

Lemma foldl_add_peer_is_Some m ps k : is_Some (m !! k) -> is_Some (foldl add_peer m ps !! k).
Proof.
  revert m. induction ps as [|p ps IH]; intros m Hm; simpl; [done|]. apply IH.
  rewrite add_peer_lookup. destruct (normalized_peer p); [|done]. case_decide; [by eexists|done].
Qed.

Lemma addPeersLocked_present s ps p q :
  p ∈ ps -> normalized_peer p = Some q -> is_Some (ps_peers (addPeersLocked s ps) !! peer_key q).
Proof.
  unfold addPeersLocked; simpl. generalize (ps_peers s) as m.
  induction ps as [|p' ps IH]; intros m Hin Hq; simpl in *; [set_solver|].
  apply elem_of_cons in Hin as [->|Hin]; [|by eapply IH].
  apply foldl_add_peer_is_Some. rewrite add_peer_lookup, Hq, decide_True by done. by eexists.
Qed.

Lemma addPeersLocked_keeps s ps k :
  (forall p q, p ∈ ps -> normalized_peer p = Some q -> peer_key q <> k) ->
  ps_peers (addPeersLocked s ps) !! k = ps_peers s !! k.
Proof.
  unfold addPeersLocked; simpl. generalize (ps_peers s) as m.
  induction ps as [|p ps IH]; intros m Hk; simpl in *; [done|].
  rewrite IH by (intros; eapply Hk; eauto; set_solver). rewrite add_peer_lookup.
  destruct (normalized_peer p) as [q|] eqn:E; [|done].
  rewrite decide_False; [done|]. eapply Hk; eauto. set_solver.
Qed.

(* ------------------------------------------------------------------ *)
(** ** Lemmas: the order *)

#[export] Instance peer_less_order : StrictWeakOrder peer_less.
Proof.
  split; unfold peer_less.
  - intros a b. repeat case_bool_decide; try congruence; apply string_less_asym.
  - intros [? ? ? sa] [? ? ? sb] [? ? ? sc]; simpl.
    destruct (decide (sa = sb)) as [<-|Hab], (decide (sa = sc)) as [<-|Hac];
      repeat (case_bool_decide; try congruence); try by apply string_less_negtrans.
    intros Hl1 Hl2. destruct Hab. by apply string_less_tie.
Qed.

Lemma peer_less_tie a b :
  peer_less a b = false -> peer_less b a = false ->
  pr_Source a = pr_Source b /\ pr_Address a = pr_Address b.
Proof.
  unfold peer_less. repeat case_bool_decide; try congruence.
  - intros. split; [done|]. by apply string_less_tie.
  - intros. exfalso. by apply H, string_less_tie.
Qed.

Lemma selector_tie s a b :
  selector_ok s ->
  a ∈ map snd (map_to_list (ps_peers s)) -> b ∈ map snd (map_to_list (ps_peers s)) ->
  peer_less a b = false -> peer_less b a = false -> a = b.
Proof.
  intros Hs Ha Hb H1 H2.
  apply list_elem_of_fmap in Ha as [[k a'] [-> Ha]].
  apply list_elem_of_fmap in Hb as [[k' b'] [-> Hb]].
  apply elem_of_map_to_list in Ha, Hb. simpl in *.
  destruct (peer_less_tie _ _ H1 H2) as [Hsrc Hadr].
  pose proof (Hs _ _ Ha) as Hk. pose proof (Hs _ _ Hb) as Hk'. simpl in *.
  assert (k = k') as <- by (unfold peer_key in *; congruence). congruence.
Qed.

Lemma Peers_enum_unique s enum :
  selector_ok s -> enum ≡ₚ map snd (map_to_list (ps_peers s)) ->
  Peers_enum enum = Peers s.
Proof.
  intros Hs Hp. symmetry. apply SliceStable_unique; [apply _| |done].
  intros a b. by apply selector_tie.
Qed.

Lemma elem_of_Peers s p : p ∈ Peers s <-> exists k, ps_peers s !! k = Some p.
Proof.
  unfold Peers, Peers_enum, sortPeers. rewrite SliceStable_perm, list_elem_of_fmap. split.
  - intros [[k p'] [-> Hk]]. exists k. by apply elem_of_map_to_list.
  - intros [k Hk]. exists (k, p). split; [done|]. by apply elem_of_map_to_list.
Qed.

Lemma Peers_NoDup_key s : selector_ok s -> NoDup (map peer_key (Peers s)).
Proof.
  intros Hs. unfold Peers, Peers_enum, sortPeers. rewrite SliceStable_perm.
  assert (map peer_key (map snd (map_to_list (ps_peers s))) = map fst (map_to_list (ps_peers s)))
    as ->; [|apply NoDup_fst_map_to_list].
  rewrite map_map. apply map_ext_in. intros [k p] Hin%list_elem_of_In%elem_of_map_to_list.
  simpl. symmetry. by apply Hs.
Qed.

Lemma Peers_strict s :
  selector_ok s -> StronglySorted (fun a b => peer_less a b = true) (Peers s).
Proof.
  intros Hs. pose proof (NoDup_fmap_1 peer_key _ (Peers_NoDup_key s Hs)) as Hnd.
  assert (H : StronglySorted (not_after peer_less) (Peers s)) by apply SliceStable_sorted, _.
  assert (Hin : forall p, p ∈ Peers s -> p ∈ map snd (map_to_list (ps_peers s))).
  { intros p. unfold Peers, Peers_enum, sortPeers. by rewrite SliceStable_perm. }
  induction H as [|a l Hl IH Ha]; [constructor|]. apply NoDup_cons in Hnd as [Hnin Hnd].
  constructor; [apply IH; [done|]; intros; apply Hin; set_solver|].
  rewrite Forall_forall in *. intros b Hb.
  destruct (peer_less a b) eqn:E; [done|]. exfalso. apply Hnin.
  rewrite (selector_tie s a b); [done|done|apply Hin; set_solver..|done|by apply Ha].
Qed.

(* ------------------------------------------------------------------ *)
(** ** Lemmas: selection under quotas *)

Section select.
Context (cfg : PeerSelectionConfig) (n : Z).
Implicit Types (l sel : list Peer) (counts : gmap string Z).

(** The counters agree with the selection. *)
Definition counts_ok sel counts : Prop :=
  forall c, default 0 (counts !! c) = class_count cfg c sel.

Lemma class_count_snoc c sel p :
  class_count cfg c (sel ++ [p])
    = class_count cfg c sel + (if decide (in_class cfg c p) then 1 else 0).
Proof.
  unfold class_count. rewrite filter_app, length_app, filter_cons, filter_nil.
  case_decide; simpl; lia.
Qed.

Lemma counts_ok_snoc sel counts p :
  counts_ok sel counts ->
  let c := (quotaForSource (pr_Source p) cfg).1 in
  counts_ok (sel ++ [p]) (<[c := default 0 (counts !! c) + 1]> counts).
Proof.
  intros Hc c d. rewrite class_count_snoc. unfold in_class. fold c.
  destruct (decide (c = d)) as [<-|Hne].
  - rewrite lookup_insert_eq. simpl. by rewrite Hc.
  - rewrite lookup_insert_ne by done. rewrite Hc. lia.
Qed.

(** One step of the loop, as a case distinction. *)
Lemma select_loop_cons p l sel counts :
  counts_ok sel counts ->
  let c := (quotaForSource (pr_Source p) cfg).1 in
  let q := (quotaForSource (pr_Source p) cfg).2 in
  (0 < q /\ q <= class_count cfg c sel /\
   select_loop cfg n (p :: l) sel counts = select_loop cfg n l sel counts) \/
  ((0 < q -> class_count cfg c sel < q) /\
   ((0 < n /\ n <= Z.of_nat (length (sel ++ [p])) /\
     select_loop cfg n (p :: l) sel counts = sel ++ [p]) \/
    ((0 < n -> Z.of_nat (length (sel ++ [p])) < n) /\
     exists counts', counts_ok (sel ++ [p]) counts' /\
       select_loop cfg n (p :: l) sel counts = select_loop cfg n l (sel ++ [p]) counts'))).
Proof.
  intros Hc c q. pose proof (counts_ok_snoc sel counts p Hc) as Hc'.
  simpl select_loop. unfold c, q in *. destruct (quotaForSource (pr_Source p) cfg) as [c0 q0].
  simpl in *. rewrite (Hc c0) in *.
  destruct (q0 >? 0) eqn:Eq, (class_count cfg c0 sel >=? q0) eqn:Ec; simpl; zbool; [by left|..];
    (right; split; [lia|]; destruct (n >? 0) eqn:En; simpl; zbool;
     [destruct (Z.of_nat (length (sel ++ [p])) >=? n) eqn:El; zbool;
      [left; by repeat split; lia|right; split; [lia|by eexists]]
     |right; split; [lia|by eexists]]).
Qed.

(** The selection grows by a sublist of the remaining peers. *)
Lemma select_loop_sublist l sel counts :
  counts_ok sel counts ->
  exists ext, select_loop cfg n l sel counts = sel ++ ext /\ ext `sublist_of` l.
Proof.
  revert sel counts. induction l as [|p l IH]; intros sel counts Hc.
  { exists []. by rewrite app_nil_r. }
  destruct (select_loop_cons p l sel counts Hc)
    as [(_ & _ & ->)|(_ & [(_ & _ & ->)|(_ & counts' & Hc' & ->)])].
  - destruct (IH _ _ Hc) as (ext & -> & ?). exists ext. by split; [|apply sublist_cons].
  - exists [p]. split; [done|]. apply sublist_skip, sublist_nil_l.
  - destruct (IH _ _ Hc') as (ext & -> & ?). exists (p :: ext).
    rewrite <-app_assoc. by split; [|apply sublist_skip].
Qed.

(** [bounded sel]: no class with a quota exceeds it, and neither does the total. *)
Definition with_quota (c : peerQuotaClass) (q : Z) (p : Peer) : Prop :=
  quotaForSource (pr_Source p) cfg = (c, q).

#[export] Instance with_quota_dec c q p : Decision (with_quota c q p).
Proof. unfold with_quota. apply _. Defined.

Lemma with_quota_count c q l :
  Z.of_nat (length (filter (with_quota c q) l)) <= class_count cfg c l.
Proof.
  unfold class_count. induction l as [|p l IH]; [done|].
  rewrite !filter_cons. repeat case_decide; simpl; try lia.
  exfalso. unfold with_quota, in_class in *. destruct (quotaForSource _ _). naive_solver.
Qed.

Definition quota_bounded sel : Prop :=
  forall c q, 0 < q -> Z.of_nat (length (filter (with_quota c q) sel)) <= q.

Lemma select_loop_bounded l sel counts :
  counts_ok sel counts -> quota_bounded sel ->
  (0 < n -> Z.of_nat (length sel) < n) ->
  quota_bounded (select_loop cfg n l sel counts) /\
  (0 < n -> Z.of_nat (length (select_loop cfg n l sel counts)) <= n).
Proof.
  revert sel counts. induction l as [|p l IH]; intros sel counts Hc Hb Hn.
  { split; [done|]. intros; simpl; specialize (Hn ltac:(done)); lia. }
  assert (Hstep : (0 < (quotaForSource (pr_Source p) cfg).2 ->
      class_count cfg (quotaForSource (pr_Source p) cfg).1 sel
        < (quotaForSource (pr_Source p) cfg).2) -> quota_bounded (sel ++ [p])).
  { intros Hlt c q Hq. rewrite filter_app, length_app, filter_cons, filter_nil.
    specialize (Hb c q Hq). case_decide as Hw; simpl; [|lia].
    unfold with_quota in Hw. rewrite Hw in Hlt. simpl in Hlt.
    pose proof (with_quota_count c q sel). lia. }
  destruct (select_loop_cons p l sel counts Hc)
    as [(_ & _ & ->)|(Hlt & [(? & ? & ->)|(? & counts' & Hc' & ->)])].
  - by apply IH.
  - split; [by apply Hstep|]. intros _. rewrite length_app in *. simpl in *.
    specialize (Hn ltac:(done)). lia.
  - apply IH; [done|by apply Hstep|done].
Qed.

(** A peer left out met a full class, when there is no overall limit. *)
Lemma select_loop_maximal l sel counts p :
  n <= 0 -> counts_ok sel counts -> p ∈ l -> p ∉ select_loop cfg n l sel counts ->
  let '(c, q) := quotaForSource (pr_Source p) cfg in
  0 < q <= class_count cfg c (select_loop cfg n l sel counts).
Proof.
  intros Hn. revert sel counts. induction l as [|p' l IH]; intros sel counts Hc Hin Hout.
  { by apply not_elem_of_nil in Hin. }
  destruct (quotaForSource (pr_Source p) cfg) as [c q] eqn:Eq.
  destruct (select_loop_cons p' l sel counts Hc)
    as [(? & Hle & Hl)|(_ & [(? & _ & _)|(_ & counts' & Hc' & Hl)])]; [| lia |];
    rewrite Hl in *; clear Hl.
  - apply elem_of_cons in Hin as [->|Hin]; [|by eapply IH].
    rewrite Eq in *; simpl in *.
    destruct (select_loop_sublist l sel counts Hc) as (ext & -> & _).
    unfold class_count in *. rewrite filter_app, length_app. lia.
  - apply elem_of_cons in Hin as [->|Hin]; [|by eapply IH].
    exfalso. apply Hout.
    destruct (select_loop_sublist l (sel ++ [p']) counts' Hc') as (ext & -> & _).
    set_solver.
Qed.

End select.

(* ------------------------------------------------------------------ *)
(** ** Properties *)

(** C38: PeerSelector.Peers is deterministic. Whatever order ranging over the
    peer map takes, the sorted result is the same list; it is strictly
    increasing by source and then address, and it holds exactly the stored
    peers. *)
Theorem Peers_deterministic s enum :
  selector_reachable s -> enum ≡ₚ map snd (map_to_list (ps_peers s)) ->
  Peers_enum enum = Peers s /\
  StronglySorted (fun a b => peer_less a b = true) (Peers s) /\
  (forall p, p ∈ Peers s <-> exists k, ps_peers s !! k = Some p).
Proof.
  intros Hs%selector_reachable_ok Hp. split; [by apply Peers_enum_unique|].
  split; [by apply Peers_strict|]. apply elem_of_Peers.
Qed.

(** PeerSelector.Select keeps the quotas and leaves nobody out without
    need. The selection is a sublist of the sorted peers, at most n long when
    n is positive; at most [q] of its peers fall under a positive quota [q]
    of a class; and, without an overall limit, a stored peer is left out only
    when its class has a positive quota that the selection already fills. *)
Theorem Select_quotas s n :
  Select s n `sublist_of` Peers s /\
  (0 < n -> Z.of_nat (length (Select s n)) <= n) /\
  (forall c q, 0 < q ->
     Z.of_nat (length (filter (fun p => quotaForSource (pr_Source p) (ps_cfg s) = (c, q))
                         (Select s n))) <= q) /\
  (n <= 0 -> forall p c q, p ∈ Peers s -> p ∉ Select s n ->
     quotaForSource (pr_Source p) (ps_cfg s) = (c, q) ->
     0 < q <= class_count (ps_cfg s) c (Select s n)).
Proof.
  assert (H0 : counts_ok (ps_cfg s) [] ∅) by (intros c; by rewrite lookup_empty).
  destruct (select_loop_bounded (ps_cfg s) n (Peers s) [] ∅ H0) as [Hq Hn].
  { intros c q Hq. simpl. lia. }
  { simpl. lia. }
  split_and!.
  - destruct (select_loop_sublist (ps_cfg s) n (Peers s) [] ∅ H0) as (ext & E & ?).
    unfold Select. by rewrite E.
  - exact Hn.
  - exact Hq.
  - intros Hle p c q Hin Hout Hcq.
    pose proof (select_loop_maximal (ps_cfg s) n (Peers s) [] ∅ p Hle H0 Hin Hout) as Hm.
    rewrite Hcq in Hm. exact Hm.
Qed.

(** setPeersForSources replaces the peers of the given sources. Afterwards
    a stored peer of one of those sources is one of the new peers; a stored
    peer of another source whose key no new peer takes is kept; and every new
    peer that has an address or a host is stored under its key. *)
Theorem setPeersForSources_replaces s srcs ps :
  selector_reachable s ->
  let s' := setPeersForSources s srcs ps in
  (forall k q, ps_peers s' !! k = Some q -> pr_Source q ∈ srcs ->
     exists p, p ∈ ps /\ normalized_peer p = Some q) /\
  (forall k q, ps_peers s !! k = Some q -> pr_Source q ∉ srcs ->
     (forall p q', p ∈ ps -> normalized_peer p = Some q' -> peer_key q' <> k) ->
     ps_peers s' !! k = Some q) /\
  (forall p q, p ∈ ps -> normalized_peer p = Some q -> is_Some (ps_peers s' !! peer_key q)).
Proof.
  intros _ s'. unfold s', setPeersForSources. split_and!.
  - intros k q Hq Hsrc. apply addPeersLocked_lookup in Hq as [Hq|(p & Hin & Hp & _)]; [|eauto].
    simpl in Hq. apply map_lookup_filter_Some in Hq as [_ Hn]. done.
  - intros k q Hq Hsrc Hfree. rewrite addPeersLocked_keeps by done. simpl.
    by apply map_lookup_filter_Some.
  - intros p q Hin Hp. by apply (addPeersLocked_present _ ps p).
Qed.

(** A selector with two static peers and one ledger peer, and its refresh. *)
Definition ex_selector : PeerSelector :=
  AddPeers (NewPeerSelector (mkSelection 1 0 0 0))
    [newPeer "b" 3001 (root_base PeerSourceStatic 0 0 false false);
     newPeer "a" 3001 (root_base PeerSourceStatic 0 0 false false);
     newPeer "l" 3001 (root_base PeerSourceLedger 0 0 false false)].

Lemma Peers_deterministic_witness :
  Peers_enum (rev (map snd (map_to_list (ps_peers ex_selector)))) = Peers ex_selector.
Proof.
  apply (Peers_deterministic ex_selector).
  - apply sr_add, sr_new.
  - rewrite rev_alt, rev_append_rev, app_nil_r. symmetry. apply Permutation_rev.
Defined.

