(* ===== verification/Ledger.v ===== *)
(** * Ledger peers (discovery.go)

    From a ledger relay snapshot to peers: relay addressing, the pool of all
    relays ordered by stake, the big-ledger pool of the pools that hold about
    90% of the stake, and the two snapshot providers with their conversions.

    Stakes are uint64: the accumulations wrap as the code's do. *)

From S2P Require Import Prelude Errors Types Clone Peers.
From Stdlib Require Import QArith.
#[local] Open Scope Z_scope.

(* ------------------------------------------------------------------ *)
(** ** net.IP.String *)

Definition hex_digit (z : Z) : string :=
  match z with
  | 0 => "0" | 1 => "1" | 2 => "2" | 3 => "3" | 4 => "4" | 5 => "5" | 6 => "6" | 7 => "7"
  | 8 => "8" | 9 => "9" | 10 => "a" | 11 => "b" | 12 => "c" | 13 => "d" | 14 => "e" | _ => "f"
  end.

(** Two lowercase hex digits. *)
Definition hex_byte (b : byte) : string :=
  hex_digit (Z_of_byte b / 16) +:+ hex_digit (Z_of_byte b mod 16).

Definition concat_strings (l : list string) : string := foldr String.append "" l.

(** A 16-bit group without leading zeros. *)
Definition hex_group (z : Z) : string :=
  (if z >=? 4096 then hex_digit (z / 4096) else "")
  +:+ (if z >=? 256 then hex_digit (z / 256 mod 16) else "")
  +:+ (if z >=? 16 then hex_digit (z / 16 mod 16) else "")
  +:+ hex_digit (z mod 16).

Fixpoint ip_groups (l : list byte) : list Z :=
  match l with
  | a :: b :: l' => (256 * Z_of_byte a + Z_of_byte b) :: ip_groups l'
  | _ => []
  end.

(** The length of the run of zero groups at the head. *)
Fixpoint zero_run (l : list Z) : nat :=
  match l with
  | 0 :: l' => S (zero_run l')
  | _ => 0%nat
  end.

(** The first longest run of at least two zero groups: (start, length). *)
Fixpoint best_run (i : nat) (l : list Z) (best : nat * nat) : nat * nat :=
  match l with
  | [] => best
  | _ :: l' =>
      let r := zero_run l in
      best_run (S i) l'
        (if (2 <=? r)%nat && (best.2 <? r)%nat then (i, r) else best)
  end.

Fixpoint print_groups (l : list Z) (i start run : nat) (skip : nat) : string :=
  match l with
  | [] => ""
  | g :: l' =>
      match skip with
      | S skip' => print_groups l' (S i) start run skip'
      | O =>
          if (i =? start)%nat && (2 <=? run)%nat
          then "::" +:+ print_groups l' (S i) start run (run - 1)
          else
            (if (0 <? i)%nat && negb ((i =? start + run)%nat && (2 <=? run)%nat) then ":" else "")
            +:+ hex_group g +:+ print_groups l' (S i) start run 0
      end
  end.

Definition ipv6_string (l : list byte) : string :=
  let gs := ip_groups l in
  let '(start, run) := best_run 0 gs (0, 0)%nat in
  print_groups gs 0 start run 0.

Definition dotted (a b c d : byte) : string :=
  FormatUint (Z_of_byte a) +:+ "." +:+ FormatUint (Z_of_byte b) +:+ "."
  +:+ FormatUint (Z_of_byte c) +:+ "." +:+ FormatUint (Z_of_byte d).

Definition IP_String (ip : slice) : string :=
  match content ip with
  | [] => "<nil>"
  | [a; b; c; d] => dotted a b c d
  | [x00; x00; x00; x00; x00; x00; x00; x00; x00; x00; xff; xff; a; b; c; d] => dotted a b c d
  | l => if (length l =? 16)%nat then ipv6_string l
         else "?" +:+ concat_strings (map hex_byte l)
  end.

(* ------------------------------------------------------------------ *)
(** ** Relays and pools *)

Definition IsSRV (r : LedgerRelay) : bool :=
  bool_decide (lr_Kind r = LedgerRelaySRV) || negb (bool_decide (lr_SRVName r = ""))
  || (bool_decide (lr_Kind r = "") && negb (bool_decide (lr_Hostname r = ""))
      && (lr_Port r =? 0)).

Definition ledgerRelayPeers (lp : LedgerPeer) (relay : LedgerRelay) : list Peer :=
  let base :=
    mkPeer "" "" 0 PeerSourceLedger (lp_PoolID lp) (lp_Stake lp) 0 0 false false in
  if IsSRV relay then
    let host :=
      if bool_decide (lr_SRVName relay = "") then lr_Hostname relay else lr_SRVName relay in
    if bool_decide (host = "") then [] else [newPeer host (lr_Port relay) base]
  else
    let port := if lr_Port relay =? 0 then 3001 else lr_Port relay in
    (if bool_decide (lr_Hostname relay = "") then []
     else [newPeer (lr_Hostname relay) port base])
    ++ (if len (lr_IPv4 relay) >? 0
        then [newPeer (IP_String (lr_IPv4 relay)) port base] else [])
    ++ (if len (lr_IPv6 relay) >? 0
        then [newPeer (IP_String (lr_IPv6 relay)) port base] else []).

Definition ledgerPeerPoolKey (peer : LedgerPeer) (index : nat) : string :=
  if bool_decide (lp_PoolID peer = "") then "idx:" +:+ FormatUint (Z.of_nat index)
  else "pool:" +:+ lp_PoolID peer.

(** The state of the first loop of bigLedgerPeers. *)
Record pool_acc := mkAcc {
  pa_pools : gmap string LedgerPeer;
  pa_order : list string;
  pa_total : Z
}.

Definition pool_step (acc : pool_acc) (i : nat) (peer : LedgerPeer) : pool_acc :=
  if lp_Stake peer =? 0 then acc
  else
    let key := ledgerPeerPoolKey peer i in
    match pa_pools acc !! key with
    | None =>
        mkAcc (<[key := peer]> (pa_pools acc)) (pa_order acc ++ [key])
          (u64 (pa_total acc + lp_Stake peer))
    | Some current =>
        if lp_Stake peer >? lp_Stake current then
          mkAcc (<[key := peer]> (pa_pools acc)) (pa_order acc)
            (u64 (pa_total acc + u64 (lp_Stake peer - lp_Stake current)))
        else acc
    end.

Fixpoint collect_pools (acc : pool_acc) (i : nat) (peers : list LedgerPeer) : pool_acc :=
  match peers with
  | [] => acc
  | peer :: rest => collect_pools (pool_step acc i peer) (S i) rest
  end.

Definition zero_ledger_peer : LedgerPeer := mkLedgerPeer "" 0 [].

(** pools[key].Stake *)
Definition pool_stake (pools : gmap string LedgerPeer) (key : string) : Z :=
  lp_Stake (default zero_ledger_peer (pools !! key)).

Definition pool_less (pools : gmap string LedgerPeer) (a b : string) : bool :=
  if pool_stake pools a =? pool_stake pools b then string_less a b
  else pool_stake pools a >? pool_stake pools b.

(** The selection loop: the keys taken before the accumulated stake reaches
    the threshold. *)
Fixpoint take_pools (pools : gmap string LedgerPeer) (threshold acc : Z) (order : list string)
  : list string :=
  match order with
  | [] => []
  | key :: rest =>
      let acc := u64 (acc + pool_stake pools key) in
      if acc >=? threshold then [key] else key :: take_pools pools threshold acc rest
  end.

(** The keys of the big-ledger pools, in selection order. *)
Definition selected_pools (peers : list LedgerPeer) : list string :=
  let acc := collect_pools (mkAcc ∅ [] 0) 0 peers in
  let threshold := pa_total acc - pa_total acc / 10 in
  take_pools (pa_pools acc) threshold 0
    (SliceStable (pool_less (pa_pools acc)) (pa_order acc)).

Definition as_big (p : Peer) : Peer :=
  mkPeer (pr_Address p) (pr_Host p) (pr_Port p) PeerSourceBigLedger (pr_PoolID p)
    (pr_Stake p) (pr_Valency p) (pr_WarmValency p) (pr_Advertise p) (pr_Trustable p).

(** The last loop: every relay of every entry whose pool was selected. *)
Fixpoint big_relays (selected : gset string) (i : nat) (peers : list LedgerPeer) : list Peer :=
  match peers with
  | [] => []
  | peer :: rest =>
      (if bool_decide (ledgerPeerPoolKey peer i ∈ selected)
       then relay ← lp_Relays peer; map as_big (ledgerRelayPeers peer relay)
       else [])
      ++ big_relays selected (S i) rest
  end.

Definition bigLedgerPeers (peers : list LedgerPeer) : list Peer :=
  let acc := collect_pools (mkAcc ∅ [] 0) 0 peers in
  if (pa_total acc =? 0) || bool_decide (pa_pools acc = ∅) then []
  else big_relays (list_to_set (selected_pools peers)) 0 peers.

Definition stake_less (a b : Peer) : bool :=
  if pr_Stake a =? pr_Stake b then string_less (pr_Address a) (pr_Address b)
  else pr_Stake a >? pr_Stake b.

(** Every relay of every entry, before sorting. *)
Definition all_relays (peers : list LedgerPeer) : list Peer :=
  lp ← peers; relay ← lp_Relays lp; ledgerRelayPeers lp relay.

Definition BuildLedgerPeerPools (snapshot : LedgerPeerSnapshot) : LedgerPeerPools :=
  mkPools (SliceStable stake_less (all_relays (sn_Peers snapshot)))
    (bigLedgerPeers (sn_Peers snapshot)).

(* ------------------------------------------------------------------ *)
(** ** Snapshot providers *)

(** ctx.Done() has fired iff ctx.Err() is not nil: a context is that error. *)
Definition Ctx := option error.

(** peergov.PoolRelay: the IP fields are pointers. *)
Record PoolRelay := mkPoolRelay {
  gr_Hostname : string;
  gr_Port : Z;
  gr_IPv4 : option slice;
  gr_IPv6 : option slice
}.

(** StakedLedgerPeerProvider: the answers of its two methods. *)
Record StakedLedgerPeerProvider := mkStaked {
  sp_GetLedgerPeers : result (list LedgerPeer);
  sp_CurrentSlot : Z
}.

(** peergov.LedgerPeerProvider, with the type assertion to the staked
    interface. *)
Record PeergovProvider := mkPeergov {
  gp_GetPoolRelays : result (list PoolRelay);
  gp_CurrentSlot : Z;
  gp_staked : option StakedLedgerPeerProvider
}.

Record DingoLedgerPeerProviderAdapter := mkAdapter {
  da_Provider : option PeergovProvider;
  da_StakedProvider : option StakedLedgerPeerProvider;
  da_AllowRelayOnly : bool
}.

Definition dingoRelayToLedgerRelay (relay : PoolRelay) : LedgerRelay :=
  let kind :=
    if negb (bool_decide (gr_Hostname relay = "")) && (gr_Port relay =? 0)
    then LedgerRelaySRV else LedgerRelaySingleHostName in
  let kind := match gr_IPv4 relay with Some _ => LedgerRelaySingleHostAddress | None => kind end in
  let kind := match gr_IPv6 relay with Some _ => LedgerRelaySingleHostAddress | None => kind end in
  (* append(net.IP(nil), ip...) is nil for an empty ip *)
  let copy_ip (ip : option slice) : slice :=
    match ip with
    | Some s => match content s with [] => None | l => Some l end
    | None => None
    end in
  mkRelay kind (gr_Hostname relay) "" (gr_Port relay)
    (copy_ip (gr_IPv4 relay)) (copy_ip (gr_IPv6 relay)).

Definition stakedProviderSnapshot (ctx : Ctx) (provider : StakedLedgerPeerProvider)
  : result LedgerPeerSnapshot :=
  check ctx
    (peers ← sp_GetLedgerPeers provider;
     mret (mkSnapshot (sp_CurrentSlot provider) (cloneLedgerPeers peers))).

Definition Dingo_LedgerPeerSnapshot (a : DingoLedgerPeerProviderAdapter) (ctx : Ctx)
  (kind : LedgerPeerSnapshotKind) : result LedgerPeerSnapshot :=
  match da_StakedProvider a with
  | Some sp => stakedProviderSnapshot ctx sp
  | None =>
      match da_Provider a with
      | Some (mkPeergov _ _ (Some sp)) => stakedProviderSnapshot ctx sp
      | None => Err (ErrVar ErrLedgerPeerSnapshotProviderUnset)
      | Some p =>
          if negb (da_AllowRelayOnly a) then
            Err (Errorf "%w: dingo peergov.LedgerPeerProvider does not expose pool stake metadata; use StakedProvider or LocalStateQueryLedgerPeerSnapshotProvider"
                   [ArgErr (ErrVar ErrLedgerPeerSnapshotUnsupported)])
          else if bool_decide (kind = LedgerPeerSnapshotBig) then
            Err (Errorf "%w: relay-only dingo peergov.LedgerPeerProvider cannot produce big-ledger peers"
                   [ArgErr (ErrVar ErrLedgerPeerSnapshotUnsupported)])
          else
            check ctx
              (relays ← gp_GetPoolRelays p;
               mret (mkSnapshot (gp_CurrentSlot p)
                 (map (fun r => mkLedgerPeer "" 0 [dingoRelayToLedgerRelay r]) relays)))
      end
  end.

(** localstatequery relay kinds; [RelayKindOther] is any other value. *)
Inductive RelayKind : Set :=
| RelayKindIPv4 | RelayKindIPv6 | RelayKindDomain | RelayKindSRV | RelayKindOther.

Record RelayAccessPoint := mkRelayAccessPoint {
  ra_Kind : RelayKind;
  ra_Port : option Z;
  ra_IPv4 : option slice;
  ra_IPv6 : option slice;
  ra_Domain : option string
}.

(** A *gcbor.Rat: nil (or holding nil), or numerator and positive denominator. *)
Record LSQPool := mkLSQPool {
  lq_PoolStake : option (Z * positive);
  lq_Relays : list RelayAccessPoint
}.

Record LSQSnapshot := mkLSQSnapshot {
  lq_Slot : option Z;
  lq_Pools : list LSQPool
}.

Inductive LSQPeerKind : Set := LedgerPeerKindAll | LedgerPeerKindBig.

Definition localStateQueryLedgerPeerKind (kind : LedgerPeerSnapshotKind) : result LSQPeerKind :=
  if bool_decide (kind = "") || bool_decide (kind = LedgerPeerSnapshotAll)
  then Ok LedgerPeerKindAll
  else if bool_decide (kind = LedgerPeerSnapshotBig) then Ok LedgerPeerKindBig
  else Err (Errorf "unknown ledger peer snapshot kind: %s" [ArgStr kind]).

Definition ledgerStakeFromRat (stake : option (Z * positive)) : Z :=
  match stake with
  | None => 0
  | Some (num, den) =>
      if num <=? 0 then 0
      else
        let scaled := Z.quot (num * max_u64) (Z.pos den) in
        if scaled >? max_u64 then max_u64 else scaled
  end.

Definition localStateQueryRelayToLedgerRelay (relay : RelayAccessPoint) : LedgerRelay :=
  let port := default 0 (ra_Port relay) in
  let ip (o : option slice) : slice := match o with Some s => cloneIP s | None => None end in
  match ra_Kind relay with
  | RelayKindIPv4 => mkRelay LedgerRelaySingleHostAddress "" "" port (ip (ra_IPv4 relay)) None
  | RelayKindIPv6 => mkRelay LedgerRelaySingleHostAddress "" "" port None (ip (ra_IPv6 relay))
  | RelayKindDomain =>
      mkRelay LedgerRelaySingleHostName (default "" (ra_Domain relay)) "" port None None
  | RelayKindSRV => mkRelay LedgerRelaySRV "" (default "" (ra_Domain relay)) 0 None None
  | RelayKindOther => mkRelay "" "" "" 0 None None
  end.

Definition convertLocalStateQueryLedgerPeerSnapshot (snapshot : option LSQSnapshot)
  : LedgerPeerSnapshot :=
  match snapshot with
  | None => mkSnapshot 0 []
  | Some s =>
      mkSnapshot (default 0 (lq_Slot s))
        (map (fun pool =>
                mkLedgerPeer "" (ledgerStakeFromRat (lq_PoolStake pool))
                  (map localStateQueryRelayToLedgerRelay (lq_Relays pool)))
           (lq_Pools s))
  end.

(** The client is its answer per kind. *)
Record LocalStateQueryLedgerPeerSnapshotProvider := mkLSQProvider {
  lqp_Client : option (LSQPeerKind -> result (option LSQSnapshot))
}.

(** The context is looked at before and after the query. *)
Definition LSQ_LedgerPeerSnapshot (p : LocalStateQueryLedgerPeerSnapshotProvider)
  (ctx ctx' : Ctx) (kind : LedgerPeerSnapshotKind) : result LedgerPeerSnapshot :=
  match lqp_Client p with
  | None => Err (ErrVar ErrLedgerPeerSnapshotProviderUnset)
  | Some get =>
      peerKind ← localStateQueryLedgerPeerKind kind;
      check ctx
        match get peerKind with
        | Err e =>
            if errors_Is_foreign e localstatequery_ErrLedgerPeerSnapshotUnsupportedVersion
            then Err (ErrVar ErrLedgerPeerSnapshotUnsupported)
            else Err e
        | Ok snapshot =>
            check ctx' (mret (convertLocalStateQueryLedgerPeerSnapshot snapshot))
        end
  end.

(* ------------------------------------------------------------------ *)
(** ** The reference notions: pools, their stake, sums *)

(** The (key, stake) pairs of the entries, keyed as the code keys them. *)
Fixpoint pool_entries (i : nat) (peers : list LedgerPeer) : list (string * Z) :=
  match peers with
  | [] => []
  | p :: rest => (ledgerPeerPoolKey p i, lp_Stake p) :: pool_entries (S i) rest
  end.

(** The stake of a pool is the largest stake among its entries. *)
Definition entry_stake (entries : list (string * Z)) (k : string) : Z :=
  foldr (fun e s => if bool_decide (e.1 = k) then Z.max e.2 s else s) 0 entries.

(** The pools that have stake, each once. *)
Definition pool_keys (entries : list (string * Z)) : list string :=
  remove_dups (map fst (filter (fun e => e.2 <> 0) entries)).

Definition sum_over {A} (f : A -> Z) (l : list A) : Z := foldr (fun x s => f x + s) 0 l.

Definition total_stake (peers : list LedgerPeer) : Z :=
  sum_over (entry_stake (pool_entries 0 peers)) (pool_keys (pool_entries 0 peers)).

(** The fraction of the total stake an LSQ pool entry reports. *)
Definition rat_stake (p : LSQPool) : Q :=
  match lq_PoolStake p with
  | Some (n, d) => if n <=? 0 then 0%Q else n # d
  | None => 0%Q
  end.

Definition rat_sum (l : list LSQPool) : Q := foldr (fun p q => Qplus (rat_stake p) q) 0%Q l.

(* ------------------------------------------------------------------ *)
(** ** Lemmas: sums *)

Lemma sum_over_app {A} (f : A -> Z) l k : sum_over f (l ++ k) = sum_over f l + sum_over f k.
Proof. induction l; simpl in *; lia. Qed.

Lemma sum_over_perm {A} (f : A -> Z) l k : l ≡ₚ k -> sum_over f l = sum_over f k.
Proof. induction 1; simpl in *; lia. Qed.

Lemma sum_over_ext {A} (f g : A -> Z) l :
  (forall x, x ∈ l -> f x = g x) -> sum_over f l = sum_over g l.
Proof.
  intros Hfg. induction l as [|x l IH]; simpl; [done|].
  rewrite Hfg by set_solver. rewrite IH; [done|]. intros. apply Hfg. set_solver.
Qed.

Lemma sum_over_nonneg {A} (f : A -> Z) l : (forall x, x ∈ l -> 0 <= f x) -> 0 <= sum_over f l.
Proof.
  intros Hf. induction l as [|x l IH]; simpl; [lia|].
  assert (0 <= f x) by (apply Hf; set_solver).
  assert (0 <= sum_over f l); [|unfold sum_over in *; lia]. apply IH. set_solver.
Qed.

Lemma sum_over_zero {A} (l : list A) : sum_over (fun _ => 0) l = 0.
Proof. by induction l. Qed.

Lemma sum_over_update (f : string -> Z) k v l :
  NoDup l -> k ∈ l ->
  sum_over (fun x => if decide (x = k) then v else f x) l = sum_over f l + (v - f k).
Proof.
  induction 1 as [|x l Hx Hnd IH]; intros Hk; [set_solver|]. simpl.
  fold (sum_over f l).
  fold (sum_over (fun x => if decide (x = k) then v else f x) l).
  case_decide as E; [subst x|].
  - rewrite (sum_over_ext _ f l); [lia|]. intros y Hy. case_decide; [subst; done|done].
  - rewrite IH by set_solver. lia.
Qed.

(* ------------------------------------------------------------------ *)
(** ** Lemmas: collecting the pools *)

(** What the accumulator means after the entries [seen] were read. *)
Record acc_ok (seen : list (string * Z)) (acc : pool_acc) : Prop := {
  ao_nodup : NoDup (pa_order acc);
  ao_dom : forall k, k ∈ pa_order acc <-> is_Some (pa_pools acc !! k);
  ao_stake : forall k, pool_stake (pa_pools acc) k = entry_stake seen k;
  ao_keys : forall k, k ∈ pa_order acc <-> k ∈ pool_keys seen;
  ao_total : pa_total acc = u64 (sum_over (pool_stake (pa_pools acc)) (pa_order acc))
}.

Lemma entry_stake_nonneg es k : 0 <= entry_stake es k.
Proof. induction es as [|e es IH]; simpl; [done|]. case_bool_decide; lia. Qed.

Lemma entry_stake_snoc es k v k' :
  entry_stake (es ++ [(k, v)]) k'
    = if decide (k = k') then Z.max (entry_stake es k') (Z.max v 0) else entry_stake es k'.
Proof.
  induction es as [|e es IH]; simpl.
  - case_bool_decide; case_decide; try congruence; lia.
  - rewrite IH. repeat case_bool_decide; case_decide; lia.
Qed.

Lemma elem_of_pool_keys es k :
  k ∈ pool_keys es <-> exists v, (k, v) ∈ es /\ v <> 0.
Proof.
  unfold pool_keys. rewrite elem_of_remove_dups, list_elem_of_fmap. split.
  - intros [[k' v] [-> [Hv Hin]%list_elem_of_filter]]. by exists v.
  - intros [v [Hin Hv]]. exists (k, v). split; [done|]. by apply list_elem_of_filter.
Qed.

Lemma pool_stake_insert pools k p k' :
  pool_stake (<[k := p]> pools) k'
    = if decide (k' = k) then lp_Stake p else pool_stake pools k'.
Proof.
  unfold pool_stake. case_decide as E; [subst; by rewrite lookup_insert_eq|].
  by rewrite lookup_insert_ne.
Qed.

Lemma u64_add_l a b : u64 (u64 a + b) = u64 (a + b).
Proof. apply Zplus_mod_idemp_l. Qed.

Lemma u64_add_r a b : u64 (a + u64 b) = u64 (a + b).
Proof. apply Zplus_mod_idemp_r. Qed.

Lemma pool_keys_snoc es key v k :
  k ∈ pool_keys (es ++ [(key, v)]) <-> k ∈ pool_keys es \/ (k = key /\ v <> 0).
Proof.
  rewrite !elem_of_pool_keys. setoid_rewrite elem_of_app.
  setoid_rewrite list_elem_of_singleton. naive_solver.
Qed.

(** An entry without stake, or with no more stake than its pool has. *)
Lemma acc_ok_skip es acc key v :
  acc_ok es acc -> v = 0 \/ (0 <= v <= entry_stake es key /\ key ∈ pa_order acc) ->
  acc_ok (es ++ [(key, v)]) acc.
Proof.
  intros [Hnd Hdom Hst Hk Ht] Hv. split; try done.
  - intros k. rewrite entry_stake_snoc, Hst.
    pose proof (entry_stake_nonneg es k). case_decide; subst; lia.
  - intros k. rewrite pool_keys_snoc, <-Hk. split; [by left|].
    intros [?|[-> ?]]; [done|]. destruct Hv as [?|[_ ?]]; [lia|done].
Qed.

(** An entry that raises the stake of a known pool. *)
Lemma acc_ok_raise es acc key p :
  acc_ok es acc -> key ∈ pa_order acc -> entry_stake es key < lp_Stake p ->
  acc_ok (es ++ [(key, lp_Stake p)])
    (mkAcc (<[key := p]> (pa_pools acc)) (pa_order acc)
       (u64 (pa_total acc + u64 (lp_Stake p - entry_stake es key)))).
Proof.
  intros [Hnd Hdom Hst Hk Ht] Hin Hlt. pose proof (entry_stake_nonneg es key).
  split; simpl; try done.
  - intros k. rewrite Hdom. destruct (decide (k = key)) as [->|].
    + rewrite lookup_insert_eq. split; intros; [by eexists|by apply Hdom].
    + by rewrite lookup_insert_ne.
  - intros k. rewrite pool_stake_insert, entry_stake_snoc, Hst.
    repeat case_decide; subst; try done; lia.
  - intros k. rewrite pool_keys_snoc, <-Hk. split; [by left|]. by intros [?|[-> _]].
  - rewrite Ht, u64_add_l, u64_add_r, <-Hst. f_equal.
    rewrite <-sum_over_update by done.
    apply sum_over_ext. intros k _. by rewrite pool_stake_insert.
Qed.

(** The first entry of a pool. *)
Lemma acc_ok_new es acc key p :
  acc_ok es acc -> key ∉ pa_order acc -> 0 < lp_Stake p ->
  acc_ok (es ++ [(key, lp_Stake p)])
    (mkAcc (<[key := p]> (pa_pools acc)) (pa_order acc ++ [key])
       (u64 (pa_total acc + lp_Stake p))).
Proof.
  intros [Hnd Hdom Hst Hk Ht] Hnin Hpos.
  assert (H0 : entry_stake es key = 0).
  { rewrite <-Hst. unfold pool_stake. rewrite Hdom in Hnin.
    destruct (pa_pools acc !! key); [|done]. destruct Hnin. by eexists. }
  split; simpl.
  - apply NoDup_app. split; [done|]. split; [set_solver|apply NoDup_singleton].
  - intros k. rewrite elem_of_app, list_elem_of_singleton, Hdom.
    destruct (decide (k = key)) as [->|].
    + rewrite lookup_insert_eq. split; [by eexists|by right].
    + rewrite lookup_insert_ne by done. tauto.
  - intros k. rewrite pool_stake_insert, entry_stake_snoc, Hst.
    repeat case_decide; subst; try done; lia.
  - intros k. rewrite pool_keys_snoc, elem_of_app, list_elem_of_singleton, Hk.
    intuition lia.
  - rewrite Ht, u64_add_l, sum_over_app. f_equal. simpl.
    rewrite pool_stake_insert, decide_True by done.
    rewrite (sum_over_ext _ (pool_stake (<[key:=p]> (pa_pools acc)))); [lia|].
    intros k Hk'. rewrite pool_stake_insert, decide_False; [done|]. by intros ->.
Qed.

Lemma pool_step_ok es acc i p :
  acc_ok es acc -> 0 <= lp_Stake p ->
  acc_ok (es ++ [(ledgerPeerPoolKey p i, lp_Stake p)]) (pool_step acc i p).
Proof.
  intros Hok Hp. unfold pool_step. set (key := ledgerPeerPoolKey p i).
  destruct (lp_Stake p =? 0) eqn:E0; zbool; [apply acc_ok_skip; auto|].
  destruct (pa_pools acc !! key) as [cur|] eqn:Ecur.
  - assert (Hin : key ∈ pa_order acc) by (apply Hok; by eexists).
    assert (Hcur : lp_Stake cur = entry_stake es key).
    { rewrite <-(ao_stake _ _ Hok). unfold pool_stake. by rewrite Ecur. }
    rewrite Hcur. destruct (_ >? _) eqn:Egt; zbool.
    + by apply acc_ok_raise.
    + apply acc_ok_skip; [done|]. right. split; [lia|done].
  - apply acc_ok_new; [done| |lia]. rewrite (ao_dom _ _ Hok), Ecur. by intros [].
Qed.

Lemma pool_entries_snoc i ps : forall es acc,
  Forall (fun p => 0 <= lp_Stake p) ps -> acc_ok es acc ->
  acc_ok (es ++ pool_entries i ps) (collect_pools acc i ps).
Proof.
  revert i. induction ps as [|p ps IH]; intros i es acc Hps Hacc; simpl.
  { by rewrite app_nil_r. }
  apply Forall_cons in Hps as [Hp Hps].
  replace (es ++ (ledgerPeerPoolKey p i, lp_Stake p) :: pool_entries (S i) ps)
    with ((es ++ [(ledgerPeerPoolKey p i, lp_Stake p)]) ++ pool_entries (S i) ps)
    by by rewrite <-app_assoc.
  apply IH; [done|]. by apply pool_step_ok.
Qed.

Lemma collect_ok ps :
  Forall (fun p => 0 <= lp_Stake p) ps ->
  acc_ok (pool_entries 0 ps) (collect_pools (mkAcc ∅ [] 0) 0 ps).
Proof.
  intros Hps. apply (pool_entries_snoc 0 ps [] _ Hps). split; simpl; try done.
  - apply NoDup_nil_2.
  - intros k. rewrite lookup_empty. split; [set_solver|by intros []].
Qed.

Lemma collect_order_perm ps :
  Forall (fun p => 0 <= lp_Stake p) ps ->
  pa_order (collect_pools (mkAcc ∅ [] 0) 0 ps) ≡ₚ pool_keys (pool_entries 0 ps).
Proof.
  intros Hok%collect_ok. apply NoDup_Permutation.
  - apply Hok.
  - apply NoDup_remove_dups.
  - intros k. by rewrite (ao_keys _ _ Hok).
Qed.

Lemma collect_total ps :
  Forall (fun p => 0 <= lp_Stake p) ps -> total_stake ps < 2 ^ 64 ->
  pa_total (collect_pools (mkAcc ∅ [] 0) 0 ps) = total_stake ps.
Proof.
  intros Hps Hlt. pose proof (collect_ok ps Hps) as Hok. rewrite (ao_total _ _ Hok).
  rewrite (sum_over_perm _ _ _ (collect_order_perm ps Hps)).
  rewrite (sum_over_ext _ (entry_stake (pool_entries 0 ps)));
    [|intros k _; apply Hok]. fold (total_stake ps).
  apply u64_id. split; [|done]. apply sum_over_nonneg. intros. apply entry_stake_nonneg.
Qed.

(* ------------------------------------------------------------------ *)
(** ** Lemmas: the selection loop *)

#[export] Instance pool_less_order pools : StrictWeakOrder (pool_less pools).
Proof. apply (descending_order (pool_stake pools) id). Qed.

Lemma pool_less_stake pools a b :
  not_after (pool_less pools) a b -> pool_stake pools b <= pool_stake pools a.
Proof.
  unfold not_after, pool_less. destruct (_ =? _) eqn:E; zbool; [lia|].
  intros H; zbool. lia.
Qed.

(** The loop stops at the first prefix that reaches the threshold. *)
Lemma take_pools_spec pools threshold order : forall acc,
  (forall k, k ∈ order -> 0 <= pool_stake pools k) ->
  0 <= acc < threshold -> threshold <= acc + sum_over (pool_stake pools) order < 2 ^ 64 ->
  let sel := take_pools pools threshold acc order in
  (exists rest, order = sel ++ rest) /\
  threshold <= acc + sum_over (pool_stake pools) sel /\
  (forall init k, sel = init ++ [k] -> acc + sum_over (pool_stake pools) init < threshold).
Proof.
  induction order as [|k order IH]; intros acc Hst Hacc Hsum; simpl in Hsum; [lia|].
  fold (sum_over (pool_stake pools) order) in Hsum.
  assert (0 <= pool_stake pools k) by (apply Hst; set_solver).
  assert (Hnn : 0 <= sum_over (pool_stake pools) order).
  { apply sum_over_nonneg. intros. apply Hst. set_solver. }
  cbn [take_pools]. rewrite u64_id by (unfold is_u64; lia).
  destruct (_ >=? _) eqn:E; zbool.
  - split; [by exists order|]. split; [simpl; lia|].
    intros init k' Hsel. destruct init as [|? []]; simplify_eq/=; lia.
  - destruct (IH (acc + pool_stake pools k)) as ((rest & Hrest) & Hge & Hmin); [|lia|lia|].
    { intros. apply Hst. set_solver. }
    split; [exists rest; by rewrite Hrest at 1|]. split; [simpl; unfold sum_over in *; lia|].
    intros [|k0 init] k' Hsel; simplify_eq/=; [lia|].
    specialize (Hmin init k' ltac:(done)). unfold sum_over in *. lia.
Qed.

Lemma elem_of_big_relays selected ps : forall i p,
  p ∈ big_relays selected i ps <->
  exists j lp relay q,
    ps !! j = Some lp /\ ledgerPeerPoolKey lp (i + j) ∈ selected /\
    relay ∈ lp_Relays lp /\ q ∈ ledgerRelayPeers lp relay /\ p = as_big q.
Proof.
  induction ps as [|lp ps IH]; intros i p; simpl.
  { split; [set_solver|]. intros (? & ? & ? & ? & Hl & _). by rewrite lookup_nil in Hl. }
  rewrite elem_of_app, IH. split.
  - intros [Hp|(j & lp' & relay & q & Hl & Hk & Hr)].
    + case_bool_decide as Hk; [|set_solver].
      apply list_elem_of_bind in Hp as (relay & Hq & Hr).
      apply list_elem_of_fmap in Hq as (q & -> & Hq).
      exists 0%nat, lp, relay, q. rewrite Nat.add_0_r. done.
    + exists (S j), lp', relay, q. rewrite Nat.add_succ_r. done.
  - intros ([|j] & lp' & relay & q & Hl & Hk & Hr & Hq & ->); simplify_eq/=.
    + left. rewrite Nat.add_0_r in Hk. rewrite bool_decide_true by done.
      apply list_elem_of_bind. exists relay. split; [|done].
      apply list_elem_of_fmap. eauto.
    + right. rewrite Nat.add_succ_r in Hk. exists j, lp', relay, q. done.
Qed.

(** The keys chosen: a highest-stake prefix that just reaches the threshold. *)
Lemma selected_pools_spec ps :
  Forall (fun p => 0 <= lp_Stake p) ps -> 0 < total_stake ps < 2 ^ 64 ->
  let stake := entry_stake (pool_entries 0 ps) in
  let threshold := total_stake ps - total_stake ps / 10 in
  exists rest, selected_pools ps ++ rest ≡ₚ pool_keys (pool_entries 0 ps) /\
    threshold <= sum_over stake (selected_pools ps) /\
    (forall init k, selected_pools ps = init ++ [k] -> sum_over stake init < threshold) /\
    (forall k k', k ∈ selected_pools ps -> k' ∈ rest -> stake k' <= stake k).
Proof.
  intros Hps Htot stake threshold. pose proof (collect_ok ps Hps) as Hok.
  pose proof (collect_order_perm ps Hps) as Hperm.
  unfold selected_pools. rewrite (collect_total ps Hps) by lia.
  set (acc := collect_pools (mkAcc ∅ [] 0) 0 ps) in *.
  set (sorted := SliceStable (pool_less (pa_pools acc)) (pa_order acc)).
  assert (Hs : forall k, pool_stake (pa_pools acc) k = stake k) by apply Hok.
  assert (Hsorted : sorted ≡ₚ pool_keys (pool_entries 0 ps)).
  { unfold sorted. by rewrite SliceStable_perm. }
  assert (Hsum : sum_over (pool_stake (pa_pools acc)) sorted = total_stake ps).
  { rewrite (sum_over_perm _ _ _ Hsorted). apply sum_over_ext. intros; apply Hs. }
  assert (0 <= threshold <= total_stake ps /\ 0 < threshold).
  { pose proof (Z.div_le_upper_bound (total_stake ps) 10 (total_stake ps)).
    pose proof (Z.div_lt (total_stake ps) 10). unfold threshold.
    pose proof (Z.div_pos (total_stake ps) 10). lia. }
  destruct (take_pools_spec (pa_pools acc) threshold sorted 0)
    as ((rest & Hrest) & Hge & Hmin); [|lia|lia|].
  { intros k _. rewrite Hs. apply entry_stake_nonneg. }
  fold threshold. set (sel := take_pools (pa_pools acc) threshold 0 sorted) in *.
  rewrite (sum_over_ext _ stake) in Hge by (intros; apply Hs).
  exists rest. split; [by rewrite <-Hrest|]. split; [lia|]. split.
  - intros init k E. specialize (Hmin init k E).
    rewrite (sum_over_ext _ stake) in Hmin by (intros; apply Hs). lia.
  - intros k k' Hk Hk'. rewrite <-!Hs. apply pool_less_stake.
    assert (Hss : StronglySorted (not_after (pool_less (pa_pools acc))) (sel ++ rest)).
    { rewrite <-Hrest. apply SliceStable_sorted, _. }
    eapply StronglySorted_app_1_elem_of; eauto.
Qed.

(* ------------------------------------------------------------------ *)
(** ** Lemmas: the All pool *)

#[export] Instance stake_less_order : StrictWeakOrder stake_less.
Proof. apply (descending_order pr_Stake pr_Address). Qed.

Lemma stake_not_after a b :
  not_after stake_less a b ->
  pr_Stake b < pr_Stake a \/
  (pr_Stake a = pr_Stake b /\ string_less (pr_Address b) (pr_Address a) = false).
Proof.
  unfold not_after, stake_less. destruct (_ =? _) eqn:E; zbool; [right; by split|].
  intros H; zbool. left. lia.
Qed.

(* ------------------------------------------------------------------ *)
(** ** Lemmas: scaled stakes *)

Lemma ledgerStakeFromRat_range r : is_u64 (ledgerStakeFromRat r).
Proof.
  unfold ledgerStakeFromRat, is_u64, max_u64. destruct r as [[n d]|]; [|lia].
  destruct (n <=? 0) eqn:E; zbool; [lia|].
  destruct (_ >? _) eqn:E2; zbool; [lia|].
  split; [|lia]. apply Z.quot_pos; lia.
Qed.

Lemma ledgerStakeFromRat_le_Q p :
  (inject_Z (ledgerStakeFromRat (lq_PoolStake p)) <= rat_stake p * inject_Z max_u64)%Q.
Proof.
  unfold ledgerStakeFromRat, rat_stake. destruct (lq_PoolStake p) as [[n d]|]; [|done].
  destruct (n <=? 0) eqn:E; [done|]; zbool.
  assert (Hq : (inject_Z (Z.quot (n * max_u64) (Z.pos d)) <= (n # d) * inject_Z max_u64)%Q).
  { unfold Qle, Qmult, inject_Z; simpl.
    rewrite Z.quot_div_nonneg by (unfold max_u64; lia).
    pose proof (Z.mul_div_le (n * max_u64) (Z.pos d) ltac:(lia)). lia. }
  destruct (_ >? _) eqn:E2; [|done]; zbool.
  eapply Qle_trans; [|exact Hq]. unfold Qle; simpl. lia.
Qed.

Lemma converted_stake_sum pools :
  (inject_Z (sum_over (fun p => ledgerStakeFromRat (lq_PoolStake p)) pools)
     <= rat_sum pools * inject_Z max_u64)%Q.
Proof.
  induction pools as [|p pools IH]; [done|]. simpl.
  rewrite Qmult_plus_distr_l, inject_Z_plus.
  apply Qplus_le_compat; [apply ledgerStakeFromRat_le_Q|done].
Qed.

Lemma entry_stake_cons_sum k v es ks :
  0 <= v -> NoDup ks ->
  sum_over (entry_stake ((k, v) :: es)) ks <= v + sum_over (entry_stake es) ks.
Proof.
  intros Hv. induction 1 as [|k' ks Hk' Hnd IH]; simpl; [lia|].
  fold (sum_over (entry_stake ((k, v) :: es)) ks) (sum_over (entry_stake es) ks) in *.
  pose proof (entry_stake_nonneg es k').
  case_bool_decide as E; simpl in E; [subst k'|unfold entry_stake in *; lia].
  rewrite (sum_over_ext _ (entry_stake es) ks); [unfold entry_stake in *; lia|].
  intros x Hx. cbn [entry_stake foldr]. rewrite bool_decide_false; [done|].
  simpl. by intros ->.
Qed.

(** A pool's stake is at most what its entries add up to, so the total is at
    most the sum over the entries. *)
Lemma sum_max_entries es :
  Forall (fun e => 0 <= e.2) es ->
  forall ks, NoDup ks -> sum_over (entry_stake es) ks <= sum_over snd es.
Proof.
  induction 1 as [|[k v] es Hv Hes IH]; intros ks Hnd.
  - apply Z.eq_le_incl. clear Hnd. induction ks; simpl in *; lia.
  - pose proof (entry_stake_cons_sum k v es ks Hv Hnd). specialize (IH ks Hnd).
    change (sum_over snd ((k, v) :: es)) with (v + sum_over snd es). lia.
Qed.

Lemma sum_pool_entries i ps : sum_over snd (pool_entries i ps) = sum_over lp_Stake ps.
Proof. revert i. induction ps as [|p ps IH]; intros i; simpl; [done|]. by rewrite IH. Qed.

Lemma pool_entries_nonneg i ps :
  Forall (fun p => 0 <= lp_Stake p) ps -> Forall (fun e => 0 <= e.2) (pool_entries i ps).
Proof. intros H. revert i. induction H; intros i; simpl; constructor; auto. Qed.

Lemma total_stake_le ps :
  Forall (fun p => 0 <= lp_Stake p) ps -> total_stake ps <= sum_over lp_Stake ps.
Proof.
  intros Hps. rewrite <-(sum_pool_entries 0).
  apply sum_max_entries; [by apply pool_entries_nonneg|apply NoDup_remove_dups].
Qed.

Lemma converted_stakes_nonneg s :
  Forall (fun p => 0 <= lp_Stake p) (sn_Peers (convertLocalStateQueryLedgerPeerSnapshot s)).
Proof.
  destruct s as [s|]; simpl; [|done]. apply Forall_forall. intros p Hp.
  apply list_elem_of_fmap in Hp as (q & -> & _). simpl.
  apply ledgerStakeFromRat_range.
Qed.

(* ------------------------------------------------------------------ *)
(** ** Properties *)

(** C36: bigLedgerPeers selects the highest-stake pools that hold 90% of the
    stake. For stakes whose total (each pool counted once, at its largest
    entry) fits in uint64, there is a list of distinct pools with stake such
    that: they hold at least total - total/10; without the last one they do
    not; no pool left out has more stake than one selected; and the result is
    exactly the relays of the entries of the selected pools, marked as
    big-ledger peers. *)
Theorem bigLedgerPeers_ninety_percent ps :
  Forall (fun p => 0 <= lp_Stake p) ps -> total_stake ps < 2 ^ 64 ->
  let stake := entry_stake (pool_entries 0 ps) in
  let threshold := total_stake ps - total_stake ps / 10 in
  exists sel rest,
    sel ++ rest ≡ₚ pool_keys (pool_entries 0 ps) /\
    threshold <= sum_over stake sel /\
    (forall init k, sel = init ++ [k] -> sum_over stake init < threshold) /\
    (forall k k', k ∈ sel -> k' ∈ rest -> stake k' <= stake k) /\
    (forall p, p ∈ bigLedgerPeers ps <->
       exists j lp relay q, ps !! j = Some lp /\ ledgerPeerPoolKey lp j ∈ sel /\
         relay ∈ lp_Relays lp /\ q ∈ ledgerRelayPeers lp relay /\ p = as_big q).
Proof.
  intros Hps Hlt stake threshold. pose proof (collect_ok ps Hps) as Hok.
  assert (Hnn : 0 <= total_stake ps).
  { apply sum_over_nonneg. intros. apply entry_stake_nonneg. }
  unfold bigLedgerPeers. rewrite (collect_total ps Hps Hlt).
  destruct (decide (total_stake ps = 0)) as [H0|H0].
  - exists [], (pool_keys (pool_entries 0 ps)). unfold threshold. rewrite H0. simpl.
    split_and!; [done|by vm_compute| |set_solver|].
    + intros [] k E; discriminate E.
    + intros p. split; [set_solver|]. intros (? & ? & ? & ? & _ & Hk & _). set_solver.
  - destruct (selected_pools_spec ps Hps ltac:(lia)) as (rest & Hp & Hge & Hmin & Hmax).
    exists (selected_pools ps), rest. split_and!; try done.
    intros p. rewrite (proj2 (Z.eqb_neq _ _) H0). simpl.
    rewrite bool_decide_false.
    + rewrite elem_of_big_relays. by setoid_rewrite elem_of_list_to_set.
    + intros He. pose proof (ao_total _ _ Hok) as Ht. rewrite (collect_total ps Hps Hlt), He in Ht.
      apply H0. rewrite Ht, (sum_over_ext _ (fun _ => 0)) by done.
      by rewrite sum_over_zero.
Qed.

(** C37: Stakes scaled from the fractions of a local-state-query snapshot never
    overflow. When the fractions of the snapshot's pools add up to at most 1,
    the converted stakes are uint64 values whose total is below 2^64, so the
    accumulations of bigLedgerPeers on that snapshot are exact. *)
Theorem converted_snapshot_no_overflow s :
  (rat_sum (lq_Pools s) <= 1)%Q ->
  let peers := sn_Peers (convertLocalStateQueryLedgerPeerSnapshot (Some s)) in
  Forall (fun p => is_u64 (lp_Stake p)) peers /\
  0 <= total_stake peers <= max_u64 /\
  pa_total (collect_pools (mkAcc ∅ [] 0) 0 peers) = total_stake peers.
Proof.
  intros Hq peers. pose proof (converted_stakes_nonneg (Some s)) as Hnn. fold peers in Hnn.
  assert (Hle : total_stake peers <= max_u64).
  { etrans; [by apply total_stake_le|].
    assert (sum_over lp_Stake peers
      = sum_over (fun p => ledgerStakeFromRat (lq_PoolStake p)) (lq_Pools s)) as ->.
    { unfold peers; simpl. unfold sum_over. rewrite foldr_fmap. done. }
    rewrite Zle_Qle. eapply Qle_trans; [apply converted_stake_sum|].
    rewrite <-(Qmult_1_l (inject_Z max_u64)) at 2. by apply Qmult_le_compat_r. }
  split_and!; [| |done|].
  - apply Forall_forall. intros p Hp. unfold peers in Hp; simpl in Hp.
    apply list_elem_of_fmap in Hp as (q & -> & _). apply ledgerStakeFromRat_range.
  - apply sum_over_nonneg. intros. apply entry_stake_nonneg.
  - apply collect_total; [done|]. unfold max_u64 in *. lia.
Qed.

(** The All pool of BuildLedgerPeerPools is every relay of the snapshot,
    ordered by descending stake and then by address, relays that tie on both
    staying in snapshot order. *)
Theorem BuildLedgerPeerPools_all_sorted snapshot :
  let all := pp_All (BuildLedgerPeerPools snapshot) in
  all ≡ₚ all_relays (sn_Peers snapshot) /\
  StronglySorted (fun a b => pr_Stake b < pr_Stake a \/
    (pr_Stake a = pr_Stake b /\ string_less (pr_Address b) (pr_Address a) = false)) all /\
  (forall st adr,
     filter (fun p => pr_Stake p = st /\ pr_Address p = adr) all
       = filter (fun p => pr_Stake p = st /\ pr_Address p = adr) (all_relays (sn_Peers snapshot))).
Proof.
  simpl. split; [apply SliceStable_perm|]. split.
  - apply (StronglySorted_weaken (not_after stake_less)).
    + intros a b Hab. by apply stake_not_after.
    + apply SliceStable_sorted. apply _.
  - intros st adr. apply SliceStable_stable.
    intros a b [Hs Ha] [Hs' Ha']. unfold stake_less.
    rewrite Hs, Hs', Z.eqb_refl, Ha, Ha'. apply (less_irrefl string_less).
Qed.

Definition ex_srv (name : string) : LedgerRelay := mkRelay LedgerRelaySRV "" name 0 None None.

Definition ex_pools : list LedgerPeer :=
  [mkLedgerPeer "a" 80 [ex_srv "a1"; ex_srv "a2"]; mkLedgerPeer "b" 10 [ex_srv "b1"];
   mkLedgerPeer "c" 5 [ex_srv "c1"]; mkLedgerPeer "a" 70 [ex_srv "a3"]].

Lemma bigLedgerPeers_witness :
  total_stake ex_pools = 95 /\
  exists sel, 95 - 95 / 10 <= sum_over (entry_stake (pool_entries 0 ex_pools)) sel.
Proof.
  split; [by vm_compute|].
  destruct (bigLedgerPeers_ninety_percent ex_pools) as (sel & rest & _ & Hge & _).
  - repeat constructor; simpl; lia.
  - by vm_compute.
  - exists sel. exact Hge.
Defined.

Lemma converted_snapshot_witness :
  total_stake (sn_Peers (convertLocalStateQueryLedgerPeerSnapshot
    (Some (mkLSQSnapshot (Some 7) [mkLSQPool (Some (2, 3%positive)) []; mkLSQPool (Some (1, 3%positive)) []]))))
  <= max_u64.
Proof.
  apply (converted_snapshot_no_overflow
    (mkLSQSnapshot (Some 7) [mkLSQPool (Some (2, 3%positive)) []; mkLSQPool (Some (1, 3%positive)) []])).
  vm_compute. discriminate.
Defined.
