(* ===== verification/Config.v ===== *)
(** * Configuration defaults (types.go, discovery.go)

    The zero-value handling of the configuration structs, field by field in
    the order of the code. *)

From S2P Require Import Prelude Errors Types Payload.

Definition defaultReconnectConfig (cfg : ReconnectConfig) : ReconnectConfig :=
  let initial := if rc_InitialBackoff cfg <=? 0 then Second else rc_InitialBackoff cfg in
  let max := if rc_MaxBackoff cfg <=? 0 then 2 * Minute else rc_MaxBackoff cfg in
  let max := if max <? initial then initial else max in
  mkReconnect initial max.

(** The two ledger targets default on exactly zero, so that a negative target
    keeps its meaning of no limit. *)
Definition defaultDiscoveryConfig (cfg : DiscoveryConfig) : DiscoveryConfig :=
  let topologyQuota := if dc_TopologyQuota cfg <=? 0 then 20 else dc_TopologyQuota cfg in
  let sharingQuota := if dc_PeerSharingQuota cfg <=? 0 then 20 else dc_PeerSharingQuota cfg in
  let l := dc_LedgerPeers cfg in
  mkDiscovery (dc_Topology cfg) (dc_StaticPeers cfg) (dc_PeerSharing cfg)
    sharingQuota topologyQuota
    (mkLedgerConfig (ld_Enabled l) (ld_UseLedgerAfterSlot l)
       (if ld_RefreshInterval l <=? 0 then Hour else ld_RefreshInterval l)
       (if ld_Target l =? 0 then 20 else ld_Target l)
       (if ld_BigLedgerTarget l =? 0 then 5 else ld_BigLedgerTarget l)
       (ld_Provider l) (ld_AllowUnsupported l)).

Lemma defaultReconnectConfig_ok cfg :
  let rc := defaultReconnectConfig cfg in
  0 < rc_InitialBackoff rc /\ rc_InitialBackoff rc <= rc_MaxBackoff rc.
Proof.
  unfold defaultReconnectConfig, Minute, Second. simpl.
  repeat split_match_goal; zbool; lia.
Qed.

Section topic_config.
Context {X : Type}.

Definition defaultTopicConfig (cfg : TopicConfig X) : TopicConfig X :=
  let q := cf_Queue cfg in
  let t := cf_TTL cfg in
  let maxMessages := if qc_MaxMessages q <=? 0 then 100 else qc_MaxMessages q in
  let subscriberBuffer := if qc_SubscriberBuffer q <=? 0 then 16 else qc_SubscriberBuffer q in
  let duplicateTTL := if qc_DuplicateTTL q <=? 0 then 10 * Minute else qc_DuplicateTTL q in
  let defaultTTL := if tp_DefaultTTL t <=? 0 then DefaultMessageTTL else tp_DefaultTTL t in
  let maxTTL := if tp_MaxTTL t <=? 0 then MaxMessageTTL else tp_MaxTTL t in
  let maxTTL := if maxTTL <? defaultTTL then defaultTTL else maxTTL in
  mkTopicConfig (cf_NetworkMagic cfg) (defaultDiscoveryConfig (cf_Discovery cfg))
    (mkQueueConfig maxMessages subscriberBuffer duplicateTTL)
    (mkTTLPolicy defaultTTL maxTTL (tp_Disable t))
    (defaultReconnectConfig (cf_Reconnect cfg)) (cf_Authentication cfg) (cf_Hooks cfg)
    (cf_Signer cfg).

(** What the rest of the package relies on. *)
Record topic_config_ok (cfg : TopicConfig X) : Prop := {
  ok_max_messages : 0 < qc_MaxMessages (cf_Queue cfg);
  ok_buffer : 0 < qc_SubscriberBuffer (cf_Queue cfg);
  ok_duplicate : 0 < qc_DuplicateTTL (cf_Queue cfg);
  ok_default_ttl : 0 < tp_DefaultTTL (cf_TTL cfg);
  ok_max_ttl : tp_DefaultTTL (cf_TTL cfg) <= tp_MaxTTL (cf_TTL cfg);
  ok_initial : 0 < rc_InitialBackoff (cf_Reconnect cfg);
  ok_max_backoff : rc_InitialBackoff (cf_Reconnect cfg) <= rc_MaxBackoff (cf_Reconnect cfg);
  ok_topology_quota : 0 < dc_TopologyQuota (cf_Discovery cfg);
  ok_sharing_quota : 0 < dc_PeerSharingQuota (cf_Discovery cfg);
  ok_refresh : 0 < ld_RefreshInterval (dc_LedgerPeers (cf_Discovery cfg));
  ok_target : ld_Target (dc_LedgerPeers (cf_Discovery cfg)) <> 0;
  ok_big_target : ld_BigLedgerTarget (dc_LedgerPeers (cf_Discovery cfg)) <> 0
}.

Lemma defaultTopicConfig_ok cfg : topic_config_ok (defaultTopicConfig cfg).
Proof.
  split; simpl; repeat case_match; zbool; try lia;
    unfold DefaultMessageTTL, MaxMessageTTL, Hour, Minute, Second in *; lia.
Qed.

(** A configuration that already satisfies the contract is left as it is. *)
Lemma defaultTopicConfig_fixes cfg : topic_config_ok cfg -> defaultTopicConfig cfg = cfg.
Proof.
  destruct cfg as [magic [top stat shq shr tq [en sl ri tg bt pv au]] [mm sb dt]
    [dttl mttl dis] [ib mb] auth hooks sgn].
  intros []; simpl in *. unfold defaultTopicConfig, defaultDiscoveryConfig,
    defaultReconnectConfig; simpl.
  repeat (case_match; zbool; try lia). done.
Qed.

(** defaultTopicConfig establishes every bound the runtime relies on
    (positive queue, buffer, window, TTLs and backoffs, MaxTTL at least
    DefaultTTL, MaxBackoff at least InitialBackoff, nonzero ledger targets),
    changes nothing when they already hold, and so is idempotent. *)
Theorem defaultTopicConfig_correct cfg :
  topic_config_ok (defaultTopicConfig cfg) /\
  (topic_config_ok cfg <-> defaultTopicConfig cfg = cfg) /\
  defaultTopicConfig (defaultTopicConfig cfg) = defaultTopicConfig cfg.
Proof.
  pose proof (defaultTopicConfig_ok cfg) as Hok. split; [done|]. split.
  - split; [apply defaultTopicConfig_fixes|by intros <-].
  - by apply defaultTopicConfig_fixes.
Qed.

End topic_config.
