(* ===== verification/Topic.v ===== *)
(** * The topic runtime (topic.go, and discoverPeers of discovery.go)

    A topic's state and its operations. Each operation is a function from the
    state to the state and what the caller observes; readings of the clock
    are arguments, one per call of Clock.Now; the hook calls of an operation
    are the events it returns. [submitSigned] is the composition of what runs
    before the lock is taken ([submit_validate]) and the critical section
    ([submit_commit]), which concurrent submissions interleave.

    A subscription and its channel are created together and addressed by a
    handle, the index in [rt_subs]; the subscribers map holds handles. An
    operation on a closed channel that panics in Go gives [None]. *)

From S2P Require Import Prelude Errors Types Clone Encoding Payload Peers Ledger Config.

(* ------------------------------------------------------------------ *)
(** ** Validation *)

Section validation.
Context {X : Type} `{Wire X}.

(** The map key of a message: string(msg.ID()). *)
Definition key_of (m : DmqMessage X) : string := go_string (msg_ID m).

(** The message after the call, which sets its ID; it is left unchanged when
    an error is returned. *)
Definition normalizeAndValidateMessage (msg : DmqMessage X) : result (DmqMessage X) :=
  check (ValidateMessageBody (pl_MessageBody (dm_Payload msg)))
    (let id := msg_ID msg in
     match ComputeDmqMessageID (dm_Payload msg) with
     | Err e => Err (Errorf "compute message ID: %w" [ArgErr e])
     | Ok computed =>
         if len id =? 0 then Ok (SetMessageID computed msg)
         else if negb (bytes_Equal id computed) then
           Err (Errorf "%w: expected %s got %s"
                  [ArgErr (ErrVar ErrMessageIDMismatch);
                   ArgStr (hex_EncodeToString (content computed));
                   ArgStr (hex_EncodeToString (content id))])
         else Ok (SetMessageID id msg)
     end).

(** The validator's error is known by its text. *)
Definition wrapTTLValidationError (err : option string) : option error :=
  match err with
  | None => None
  | Some errMsg =>
      if strings_Contains errMsg "has expired" then
        Some (Errorf "%w: %w" [ArgErr (ErrVar ErrMessageExpired); ArgErr (ErrNew errMsg)])
      else if strings_Contains errMsg "too far in future" then
        Some (Errorf "%w: %w" [ArgErr (ErrVar ErrMessageTTLTooFar); ArgErr (ErrNew errMsg)])
      else Some (ErrNew errMsg)
  end.

Definition validateMessageTTL (msg : DmqMessage X) (now : Time) (policy : TTLPolicy)
  : option error :=
  if tp_Disable policy then None
  else wrapTTLValidationError (ValidateMessageTTLAt (tp_MaxTTL policy) msg now).

Definition rejectReasonFromError (err : option error) : option RejectReason :=
  match err with
  | None => None
  | Some e =>
      Some (if errors_Is e ErrDuplicateMessage then AlreadyReceivedReason
            else if errors_Is e ErrMessageExpired then ExpiredReason
            else if errors_Is e ErrQueueFull || errors_Is e ErrManagerClosed
            then OtherReason e
            else InvalidReason e)
  end.

(** auth.VerifyMessage(msg), on a possibly nil authenticator. *)
Definition VerifyMessage (auth : option (MessageAuthenticator X)) (msg : DmqMessage X)
  : option string :=
  match auth with
  | Some verify => verify msg
  | None => nil_VerifyMessage msg
  end.

(** [unexpired cfg now m]: the queue may hold [m] at [now]. *)
Definition unexpired (policy : TTLPolicy) (now : Time) (m : DmqMessage X) : Prop :=
  validateMessageTTL m now policy = None.

#[export] Instance unexpired_dec policy now m : Decision (unexpired policy now m).
Proof. unfold unexpired. destruct (validateMessageTTL m now policy); [right|left]; done. Defined.

End validation.

(* ------------------------------------------------------------------ *)
(** ** State *)

(** A Go channel of envelopes. *)
Record chan (X : Type) := mkChan {
  ch_cap : Z;
  ch_buf : list (Message X);
  ch_closed : bool
}.
Arguments mkChan {X} _ _ _.
Arguments ch_cap {X} _.
Arguments ch_buf {X} _.
Arguments ch_closed {X} _.

Record Subscription (X : Type) := mkSubscription {
  su_C : chan X;
  su_id : Z;
  su_closed : bool
}.
Arguments mkSubscription {X} _ _ _.
Arguments su_C {X} _.
Arguments su_id {X} _.
Arguments su_closed {X} _.

Record topicRuntime (X : Type) := mkRuntime {
  rt_name : string;
  rt_cfg : TopicConfig X;
  rt_closed : bool;
  rt_queue : list (DmqMessage X);
  rt_seen : gmap string Time;
  rt_subscribers : gmap Z nat;
  rt_nextSubID : Z;
  rt_peerSelector : PeerSelector;
  rt_subs : list (Subscription X)
}.
Arguments mkRuntime {X} _ _ _ _ _ _ _ _ _.
Arguments rt_name {X} _.
Arguments rt_cfg {X} _.
Arguments rt_closed {X} _.
Arguments rt_queue {X} _.
Arguments rt_seen {X} _.
Arguments rt_subscribers {X} _.
Arguments rt_nextSubID {X} _.
Arguments rt_peerSelector {X} _.
Arguments rt_subs {X} _.

(** Hook calls, with their arguments. *)
Inductive event (X : Type) : Type :=
| EvAccepted (envelope : Message X)
| EvRejected (topic : string) (msg : DmqMessage X) (reason : RejectReason)
| EvPeerDiscovered (topic : string) (peers : list Peer)
| EvError (topic : string) (err : error).
Arguments EvAccepted {X} _.
Arguments EvRejected {X} _ _ _.
Arguments EvPeerDiscovered {X} _ _.
Arguments EvError {X} _ _.

Section runtime.
Context {X : Type} `{Wire X}.

(* Field updates. *)
Definition set_queue (t : topicRuntime X) q : topicRuntime X :=
  mkRuntime (rt_name t) (rt_cfg t) (rt_closed t) q (rt_seen t) (rt_subscribers t)
    (rt_nextSubID t) (rt_peerSelector t) (rt_subs t).
Definition set_seen (t : topicRuntime X) s : topicRuntime X :=
  mkRuntime (rt_name t) (rt_cfg t) (rt_closed t) (rt_queue t) s (rt_subscribers t)
    (rt_nextSubID t) (rt_peerSelector t) (rt_subs t).
Definition set_subs (t : topicRuntime X) subs : topicRuntime X :=
  mkRuntime (rt_name t) (rt_cfg t) (rt_closed t) (rt_queue t) (rt_seen t)
    (rt_subscribers t) (rt_nextSubID t) (rt_peerSelector t) subs.
Definition set_subscribers (t : topicRuntime X) s : topicRuntime X :=
  mkRuntime (rt_name t) (rt_cfg t) (rt_closed t) (rt_queue t) (rt_seen t) s
    (rt_nextSubID t) (rt_peerSelector t) (rt_subs t).
Definition set_closed (t : topicRuntime X) b : topicRuntime X :=
  mkRuntime (rt_name t) (rt_cfg t) b (rt_queue t) (rt_seen t) (rt_subscribers t)
    (rt_nextSubID t) (rt_peerSelector t) (rt_subs t).
Definition set_nextSubID (t : topicRuntime X) n : topicRuntime X :=
  mkRuntime (rt_name t) (rt_cfg t) (rt_closed t) (rt_queue t) (rt_seen t)
    (rt_subscribers t) n (rt_peerSelector t) (rt_subs t).
Definition set_peerSelector (t : topicRuntime X) s : topicRuntime X :=
  mkRuntime (rt_name t) (rt_cfg t) (rt_closed t) (rt_queue t) (rt_seen t)
    (rt_subscribers t) (rt_nextSubID t) s (rt_subs t).

Definition newTopicRuntime (name : string) (cfg : TopicConfig X) : topicRuntime X :=
  let d := cf_Discovery cfg in
  let sel := NewPeerSelector
    (mkSelection (dc_TopologyQuota d) (dc_PeerSharingQuota d)
       (ld_Target (dc_LedgerPeers d)) (ld_BigLedgerTarget (dc_LedgerPeers d))) in
  let sel := AddPeers sel (TopologyPeers (dc_Topology d)) in
  let sel := AddPeers sel (dc_StaticPeers d) in
  mkRuntime name cfg false [] ∅ ∅ 0 sel [].

(* ------------------------------------------------------------------ *)
(** ** Pruning *)

Definition pruneSeenLocked (t : topicRuntime X) (now : Time) : topicRuntime X :=
  let ttl := qc_DuplicateTTL (cf_Queue (rt_cfg t)) in
  if ttl <=? 0 then t
  else set_seen t (filter (fun kt => ¬ (Time_Sub now kt.2 > ttl)) (rt_seen t)).

(** The loop of pruneQueueLocked: [arr] is the backing array of the queue,
    [i] the range index, [w] the length of filtered, which shares the array:
    its append writes at index [w]. [n] counts the iterations left. *)
Fixpoint prune_loop (keep : DmqMessage X -> bool) (n i w : nat)
  (arr : list (DmqMessage X)) : nat * list (DmqMessage X) :=
  match n with
  | O => (w, arr)
  | S n' =>
      match arr !! i with
      | None => (w, arr)
      | Some m =>
          if keep m then prune_loop keep n' (S i) (S w) (<[w := m]> arr)
          else prune_loop keep n' (S i) w arr
      end
  end.

(** The length of filtered, and the array after clear(t.queue[len(filtered):]). *)
Definition prune_array (keep : DmqMessage X -> bool) (arr : list (DmqMessage X))
  : nat * list (DmqMessage X) :=
  let '(w, arr') := prune_loop keep (length arr) 0 0 arr in
  (w, take w arr' ++ replicate (length arr' - w) zero_message).

Definition pruneQueueLocked (t : topicRuntime X) (now : Time) : topicRuntime X :=
  let '(w, arr) :=
    prune_array (fun m => match validateMessageTTL m now (cf_TTL (rt_cfg t)) with
                          | None => true
                          | Some _ => false
                          end) (rt_queue t) in
  set_queue t (take w arr).

(* ------------------------------------------------------------------ *)
(** ** Hooks *)

Definition callRejected (t : topicRuntime X) (msg : DmqMessage X) (reason : RejectReason)
  : list (event X) :=
  if hk_OnMessageRejected (cf_Hooks (rt_cfg t)) then [EvRejected (rt_name t) msg reason]
  else [].

Definition callError (t : topicRuntime X) (err : option error) : list (event X) :=
  match err with
  | None => []
  | Some e => if hk_OnError (cf_Hooks (rt_cfg t)) then [EvError (rt_name t) e] else []
  end.

(** callRejected(ctx, msg, rejectReasonFromError(err)) for err != nil. *)
Definition reject_with (t : topicRuntime X) (msg : DmqMessage X) (err : error)
  : list (event X) :=
  match rejectReasonFromError (Some err) with
  | Some reason => callRejected t msg reason
  | None => []
  end.

(* ------------------------------------------------------------------ *)
(** ** Channels *)

(** select { case ch <- v: default: }: [None] is the panic of a send on a
    closed channel; a full buffer drops the value. *)
Definition try_send (v : Message X) (c : chan X) : option (chan X) :=
  if ch_closed c then None
  else if Z.of_nat (length (ch_buf c)) <? ch_cap c
  then Some (mkChan (ch_cap c) (ch_buf c ++ [v]) false)
  else Some c.

(** close(ch): [None] is the panic of closing a closed channel. *)
Definition chan_close (c : chan X) : option (chan X) :=
  if ch_closed c then None else Some (mkChan (ch_cap c) (ch_buf c) true).

Definition set_C (s : Subscription X) (c : chan X) : Subscription X :=
  mkSubscription c (su_id s) (su_closed s).

(** Apply a channel operation to the channel of handle [h]. *)
Definition on_chan (f : chan X -> option (chan X)) (h : nat) (subs : list (Subscription X))
  : option (list (Subscription X)) :=
  s ← subs !! h;
  c ← f (su_C s);
  Some (<[h := set_C s c]> subs).

Fixpoint each_chan (f : chan X -> option (chan X)) (hs : list nat)
  (subs : list (Subscription X)) : option (list (Subscription X)) :=
  match hs with
  | [] => Some subs
  | h :: hs' => subs' ← on_chan f h subs; each_chan f hs' subs'
  end.

(** Ranging over the subscribers map visits the handles in some order. *)
Definition subscriber_handles (t : topicRuntime X) : list nat :=
  map snd (map_to_list (rt_subscribers t)).

(* ------------------------------------------------------------------ *)
(** ** Submission *)

(** What runs before the lock: the message with its ID set, or the error and
    the hook calls. The message the caller holds afterwards comes first. *)
Definition submit_validate (t : topicRuntime X) (now : Time) (msg : DmqMessage X)
  : DmqMessage X * option (error * list (event X)) :=
  match normalizeAndValidateMessage msg with
  | Err e => (msg, Some (e, reject_with t msg e))
  | Ok msg =>
      match validateMessageTTL msg now (cf_TTL (rt_cfg t)) with
      | Some e => (msg, Some (e, reject_with t msg e))
      | None =>
          if ac_Required (cf_Authentication (rt_cfg t)) then
            match VerifyMessage (ac_Authenticator (cf_Authentication (rt_cfg t))) msg with
            | Some text =>
                (msg, Some (ErrNew text, callRejected t msg (InvalidReason (ErrNew text))))
            | None => (msg, None)
            end
          else (msg, None)
      end
  end.

Definition make_envelope (t : topicRuntime X) (msg : DmqMessage X) (source : MessageSource)
  (peer : option Peer) (now : Time) : Message X :=
  mkEnvelope (rt_name t) (cloneMessage msg) (cloneBytes (msg_ID msg))
    (cloneBytes (pl_MessageBody (dm_Payload msg))) source (clonePeerPtr peer) now.

(** The critical section and what follows it. *)
Definition submit_commit (t : topicRuntime X) (now : Time) (msg : DmqMessage X)
  (envelope : Message X) : option (topicRuntime X * option error * list (event X)) :=
  if rt_closed t then Some (t, Some (ErrVar ErrManagerClosed), [])
  else
    let t := pruneSeenLocked t now in
    let t := pruneQueueLocked t now in
    let key := go_string (msg_ID msg) in
    match rt_seen t !! key with
    | Some _ =>
        Some (t, Some (ErrVar ErrDuplicateMessage), callRejected t msg AlreadyReceivedReason)
    | None =>
        if Z.of_nat (length (rt_queue t)) >=? qc_MaxMessages (cf_Queue (rt_cfg t)) then
          Some (t, Some (ErrVar ErrQueueFull),
                callRejected t msg (OtherReason (ErrVar ErrQueueFull)))
        else
          let t := set_seen t (<[key := now]> (rt_seen t)) in
          let t := set_queue t (rt_queue t ++ [cloneMessage msg]) in
          subs ← each_chan (try_send envelope) (subscriber_handles t) (rt_subs t);
          Some (set_subs t subs, None,
                if hk_OnMessageAccepted (cf_Hooks (rt_cfg t)) then [EvAccepted envelope] else [])
    end.

(** The topic, the caller's message, the error and the hook calls after
    submitSigned; [now1] and [now2] are its two clock readings. *)
Definition submitSigned (t : topicRuntime X) (now1 now2 : Time)
  (msg : option (DmqMessage X)) (source : MessageSource) (peer : option Peer)
  : option (topicRuntime X * option (DmqMessage X) * option error * list (event X)) :=
  match msg with
  | None => Some (t, None, Some (ErrNew "message is nil"), [])
  | Some msg =>
      match submit_validate t now1 msg with
      | (msg, Some (e, evs)) => Some (t, Some msg, Some e, evs)
      | (msg, None) =>
          '(t', err, evs) ← submit_commit t now2 msg (make_envelope t msg source peer now2);
          Some (t', Some msg, err, evs)
      end
  end.

Definition publish (t : topicRuntime X) (now0 now1 now2 : Time) (body : slice)
  : option (topicRuntime X * result (option (DmqMessage X)) * list (event X)) :=
  match cf_Signer (rt_cfg t) with
  | None => Some (t, Err (ErrVar ErrSignerRequired), [])
  | Some Sign =>
      match NewMessagePayload now0 (tp_DefaultTTL (cf_TTL (rt_cfg t))) body with
      | Err e => Some (t, Err e, [])
      | Ok payload =>
          match Sign (rt_name t) payload with
          | Err e => Some (t, Err e, [])
          | Ok msg =>
              '(t', msg', err, evs) ← submitSigned t now1 now2 msg MessageSourceLocal None;
              match err with
              | Some e => Some (t', Err e, evs)
              | None => Some (t', Ok msg', evs)
              end
          end
      end
  end.

(* ------------------------------------------------------------------ *)
(** ** Queries *)

(** The loop of messageIDs. A message that does not encode is skipped. *)
Fixpoint message_ids_loop (policy : TTLPolicy) (now : Time) (max : Z)
  (queue : list (DmqMessage X)) (ids : list MessageIDAndSize) : list MessageIDAndSize :=
  match queue with
  | [] => ids
  | msg :: rest =>
      match validateMessageTTL msg now policy with
      | Some _ => message_ids_loop policy now max rest ids
      | None =>
          match cbor_Encode_message msg with
          | Err _ => message_ids_loop policy now max rest ids
          | Ok msgCBOR =>
              let ids := ids ++ [mkIDAndSize (cloneBytes (msg_ID msg))
                                   (u32 (Z.of_nat (length msgCBOR)))] in
              if (max >? 0) && (Z.of_nat (length ids) >=? max) then ids
              else message_ids_loop policy now max rest ids
          end
      end
  end.

Definition messageIDs (t : topicRuntime X) (now : Time) (max : Z)
  : topicRuntime X * list MessageIDAndSize :=
  let t := pruneQueueLocked t now in
  (t, message_ids_loop (cf_TTL (rt_cfg t)) now max (rt_queue t) []).

Definition hasSeen (t : topicRuntime X) (id : slice) : bool :=
  bool_decide (is_Some (rt_seen t !! go_string id)).

Definition messagesByIDs (t : topicRuntime X) (now : Time) (ids : list slice)
  : topicRuntime X * list (DmqMessage X) :=
  let t := pruneQueueLocked t now in
  let wanted : gset string := list_to_set (map go_string ids) in
  (t, msg ← rt_queue t;
      if bool_decide (go_string (msg_ID msg) ∉ wanted) then []
      else match validateMessageTTL msg now (cf_TTL (rt_cfg t)) with
           | Some _ => []
           | None => [cloneMessage msg]
           end).

(* ------------------------------------------------------------------ *)
(** ** Subscriptions *)

(** subscribe up to the lock: the atomic counter and the allocation. The new
    handle comes second. *)
Definition subscribe_alloc (t : topicRuntime X) : topicRuntime X * nat :=
  let id := u64 (rt_nextSubID t + 1) in
  let ch := mkChan (qc_SubscriberBuffer (cf_Queue (rt_cfg t))) [] false in
  (set_subs (set_nextSubID t id) (rt_subs t ++ [mkSubscription ch id false]),
   length (rt_subs t)).

(** subscribe under the lock. *)
Definition subscribe_register (t : topicRuntime X) (h : nat) : option (topicRuntime X) :=
  sub ← rt_subs t !! h;
  if rt_closed t then
    ch ← chan_close (su_C sub);
    Some (set_subs t (<[h := mkSubscription ch (su_id sub) true]> (rt_subs t)))
  else Some (set_subscribers t (<[su_id sub := h]> (rt_subscribers t))).

Definition subscribe (t : topicRuntime X) : option (topicRuntime X * nat) :=
  let '(t, h) := subscribe_alloc t in
  t' ← subscribe_register t h;
  Some (t', h).

Definition close (t : topicRuntime X) : option (topicRuntime X) :=
  if rt_closed t then Some t
  else
    subs ← each_chan chan_close (subscriber_handles t) (rt_subs t);
    Some (set_subscribers (set_subs (set_closed t true) subs) ∅).

Definition unsubscribe (t : topicRuntime X) (id : Z) : option (topicRuntime X) :=
  match rt_subscribers t !! id with
  | None => Some t
  | Some h =>
      subs ← on_chan chan_close h (rt_subs t);
      Some (set_subs (set_subscribers t (delete id (rt_subscribers t))) subs)
  end.

(** s.closed.CompareAndSwap(false, true): [None] when the swap did not happen. *)
Definition close_cas (t : topicRuntime X) (h : nat) : option (topicRuntime X) :=
  sub ← rt_subs t !! h;
  if su_closed sub then None
  else Some (set_subs t (<[h := mkSubscription (su_C sub) (su_id sub) true]> (rt_subs t))).

(** Subscription.Close on the subscription of handle [h]; the nil subscription
    has no handle. *)
Definition Subscription_Close (t : topicRuntime X) (h : option nat)
  : option (topicRuntime X * option error) :=
  match h with
  | None => Some (t, None)
  | Some h =>
      sub ← rt_subs t !! h;
      match close_cas t h with
      | None => Some (t, Some (ErrVar ErrSubscriptionClosed))
      | Some t =>
          t' ← unsubscribe t (su_id sub);
          Some (t', None)
      end
  end.

(** v, ok := <-sub.C when it does not block: the oldest value, or the zero
    value of a drained closed channel (the inner [None]). *)
Definition receive (t : topicRuntime X) (h : nat)
  : option (topicRuntime X * option (Message X)) :=
  sub ← rt_subs t !! h;
  match ch_buf (su_C sub) with
  | v :: rest =>
      Some (set_subs t (<[h := set_C sub (mkChan (ch_cap (su_C sub)) rest
                                             (ch_closed (su_C sub)))]> (rt_subs t)),
            Some v)
  | [] => if ch_closed (su_C sub) then Some (t, None) else None
  end.

(* ------------------------------------------------------------------ *)
(** ** Peer discovery *)

(** The snapshot is the provider's answer at this call. *)
Definition discoverPeers (t : topicRuntime X)
  : topicRuntime X * result (list Peer) * list (event X) :=
  let cfg := dc_LedgerPeers (cf_Discovery (rt_cfg t)) in
  if negb (ld_Enabled cfg) then (t, Ok (Peers (rt_peerSelector t)), [])
  else
    match ld_Provider cfg with
    | None =>
        if ld_AllowUnsupported cfg then (t, Ok (Peers (rt_peerSelector t)), [])
        else (t, Err (ErrVar ErrLedgerPeerSnapshotProviderUnset), [])
    | Some provider =>
        match provider LedgerPeerSnapshotAll with
        | Err e =>
            if ld_AllowUnsupported cfg && errors_Is e ErrLedgerPeerSnapshotUnsupported
            then (t, Ok (Peers (rt_peerSelector t)), [])
            else (t, Err e, [])
        | Ok snapshot =>
            let pools := BuildLedgerPeerPools snapshot in
            let t := set_peerSelector t
              (setPeersForSources (rt_peerSelector t) [PeerSourceLedger; PeerSourceBigLedger]
                 (pp_All pools ++ pp_Big pools)) in
            let peers := Peers (rt_peerSelector t) in
            (t, Ok peers,
             if hk_OnPeerDiscovered (cf_Hooks (rt_cfg t))
             then [EvPeerDiscovered (rt_name t) peers] else [])
        end
    end.

End runtime.
