(* ===== verification/TopicFacts.v ===== *)
(** * Facts about the topic operations

    What pruning, the channel operations and each operation of the topic
    compute, on every branch; and the invariant of the topic's state, which
    every operation preserves. *)

From S2P Require Import Prelude Errors Types Clone Encoding Concrete Payload Peers Ledger Config Topic.

(* ------------------------------------------------------------------ *)
(** ** Validation *)

Section validation_facts.
Context {X : Type} `{WireLaws X}.
Implicit Types m msg : DmqMessage X.

Lemma wrapTTLValidationError_None err : wrapTTLValidationError err = None <-> err = None.
Proof. destruct err; simpl; [|done]. repeat case_match; done. Qed.

#[export] Instance validateMessageTTL_proper :
  Proper (@msg_equiv X _ ==> eq ==> eq ==> eq) validateMessageTTL.
Proof.
  intros m m' Hm now ? <- policy ? <-. unfold validateMessageTTL. by rewrite Hm.
Qed.

#[export] Instance key_of_proper : Proper (@msg_equiv X _ ==> eq) key_of.
Proof. intros m m' Hm. by apply go_string_inj, Hm. Qed.

Lemma unexpired_clone policy now m : unexpired policy now (cloneMessage m) <-> unexpired policy now m.
Proof. unfold unexpired. by rewrite (cloneMessage_equiv m). Qed.

Lemma key_of_clone m : key_of (cloneMessage m) = key_of m.
Proof. apply cloneMessage_key. Qed.

(** The instants at which a message may be queued have no gap. *)
Lemma unexpired_interval policy m t1 t2 t3 :
  t1 <= t2 -> t2 <= t3 -> unexpired policy t1 m -> unexpired policy t3 m ->
  unexpired policy t2 m.
Proof.
  unfold unexpired, validateMessageTTL. destruct (tp_Disable policy); [done|].
  rewrite !wrapTTLValidationError_None. apply TTL_interval.
Qed.

(** Normalisation either fails, or leaves the signed content alone and makes
    the carried ID the computed one. *)
Lemma normalize_Ok msg msg' :
  normalizeAndValidateMessage msg = Ok msg' ->
  len (pl_MessageBody (dm_Payload msg)) <= MaxMessageBodyBytes /\
  (exists computed, ComputeDmqMessageID (dm_Payload msg) = Ok computed /\
     content (msg_ID msg') = content computed /\
     (len (msg_ID msg) = 0 \/ content (msg_ID msg) = content computed) /\
     exists id, msg' = SetMessageID id msg).
Proof.
  unfold normalizeAndValidateMessage. intros [Hb Hm]%check_Ok.
  pose proof (ValidateMessageBody_spec (pl_MessageBody (dm_Payload msg))) as Hlen.
  rewrite Hb in Hlen. split; [done|].
  destruct (ComputeDmqMessageID (dm_Payload msg)) as [computed|e] eqn:Ec; [|done].
  exists computed. split; [done|].
  destruct (len (msg_ID msg) =? 0) eqn:El; zbool; simplify_eq/=.
  - autorewrite with dmq_wire. eauto.
  - destruct (bytes_Equal (msg_ID msg) computed) eqn:Eb; simplify_eq/=.
    apply bytes_Equal_spec in Eb. autorewrite with dmq_wire. eauto.
Qed.

Lemma normalize_idem msg msg' :
  normalizeAndValidateMessage msg = Ok msg' ->
  exists msg'', normalizeAndValidateMessage msg' = Ok msg'' /\ msg_equiv msg'' msg'.
Proof.
  intros Hn. destruct (normalize_Ok _ _ Hn) as (Hb & computed & Hc & Hid & _ & id & ->).
  exists (SetMessageID (msg_ID (SetMessageID id msg)) (SetMessageID id msg)).
  split; [|apply SetMessageID_equiv].
  unfold normalizeAndValidateMessage. autorewrite with dmq_wire. rewrite Hc.
  pose proof (ValidateMessageBody_spec (pl_MessageBody (dm_Payload msg))) as Hv.
  destruct (ValidateMessageBody _); [lia|]. simpl.
  pose proof (Compute_nonempty _ _ Hc) as Hne.
  destruct (len _ =? 0) eqn:El; zbool.
  { apply len_zero in El. congruence. }
  by rewrite (proj2 (bytes_Equal_spec _ _) Hid).
Qed.

End validation_facts.

(* ------------------------------------------------------------------ *)
(** ** Pruning *)

Section prune_facts.
Context {X : Type} `{Wire X}.
Implicit Types t : topicRuntime X.

(** After [i] iterations the array is the kept prefix, [i - w] stale cells and
    the part not visited yet. *)
Lemma prune_loop_spec keep rest : forall kept stale : list (DmqMessage X),
  exists stale',
    prune_loop keep (length rest) (length kept + length stale) (length kept)
      (kept ++ stale ++ rest)
    = (length kept + length (filter (fun m => keep m = true) rest),
       kept ++ filter (fun m => keep m = true) rest ++ stale')%nat /\
    length stale' = (length stale + length rest
                     - length (filter (fun m => keep m = true) rest))%nat.
Proof.
  induction rest as [|m rest IH]; intros kept stale; simpl.
  { exists stale. rewrite !app_nil_r, Nat.add_0_r. split; [done|lia]. }
  rewrite app_assoc, lookup_app_r, length_app, Nat.sub_diag by (rewrite length_app; lia). simpl.
  pose proof (length_filter (fun m => keep m = true) rest) as Hlen.
  destruct (keep m) eqn:Hk.
  - rewrite filter_cons_True by done.
    destruct (IH (kept ++ [m]) (drop 1 (stale ++ [m]))) as (stale' & Heq & Hl).
    repeat rewrite ?length_app, ?length_drop in Heq;
      repeat rewrite ?length_app, ?length_drop in Hl. simpl in *.
    exists stale'. split; [|lia].
    assert (<[length kept := m]> ((kept ++ stale) ++ m :: rest)
            = (kept ++ [m]) ++ drop 1 (stale ++ [m]) ++ rest) as ->.
    { rewrite <-!app_assoc, insert_app_r_alt, Nat.sub_diag by lia. f_equal.
      destruct stale as [|s stale]; simpl; rewrite ?drop_0; [done|].
      by rewrite <-app_assoc. }
    etrans; [|etrans; [exact Heq|]].
    + f_equal; lia.
    + rewrite <-!app_assoc. simpl. f_equal. lia.
  - rewrite filter_cons_False by congruence.
    destruct (IH kept (stale ++ [m])) as (stale' & Heq & Hl).
    repeat rewrite ?length_app in Heq; rewrite ?length_app in Hl. simpl in *.
    exists stale'. split; [|lia]. rewrite <-app_assoc in *. simpl in *.
    etrans; [|exact Heq]. f_equal; lia.
Qed.

Lemma prune_array_spec keep (arr : list (DmqMessage X)) :
  prune_array keep arr =
    let kept := filter (fun m => keep m = true) arr in
    (length kept, kept ++ replicate (length arr - length kept) zero_message).
Proof.
  unfold prune_array.
  destruct (prune_loop_spec keep arr [] []) as (stale & Heq & Hl). simpl in *.
  rewrite Heq. simpl. rewrite take_app_length, length_app. f_equal. do 2 f_equal. lia.
Qed.

Lemma pruneQueueLocked_spec t now :
  pruneQueueLocked t now
  = set_queue t (filter (unexpired (cf_TTL (rt_cfg t)) now) (rt_queue t)).
Proof.
  unfold pruneQueueLocked. rewrite prune_array_spec. simpl. rewrite take_app_length.
  f_equal. apply list_filter_iff. intros m. unfold unexpired.
  destruct (validateMessageTTL _ _ _); naive_solver.
Qed.

Lemma pruneSeenLocked_lookup t now k s :
  0 < qc_DuplicateTTL (cf_Queue (rt_cfg t)) ->
  rt_seen (pruneSeenLocked t now) !! k = Some s <->
  rt_seen t !! k = Some s /\ Time_Sub now s <= qc_DuplicateTTL (cf_Queue (rt_cfg t)).
Proof.
  intros Hd. unfold pruneSeenLocked. destruct (_ <=? 0) eqn:E; zbool; [lia|].
  simpl. rewrite map_lookup_filter_Some. simpl. intuition lia.
Qed.

Lemma pruneSeenLocked_frame t now :
  pruneSeenLocked t now = set_seen t (rt_seen (pruneSeenLocked t now)).
Proof. unfold pruneSeenLocked. case_match; [by destruct t|done]. Qed.

End prune_facts.

(* ------------------------------------------------------------------ *)
(** ** Channels *)

Section chan_facts.
Context {X : Type} `{Wire X}.
Implicit Types t : topicRuntime X.
Implicit Types subs : list (Subscription X).

(** [f] succeeds on the channel of handle [h]. *)
Definition chan_ready (f : chan X -> option (chan X)) subs (h : nat) : Prop :=
  exists s c, subs !! h = Some s /\ f (su_C s) = Some c.

(** What applying [f] to the channels of [hs] leaves at each handle. *)
Definition after_each (f : chan X -> option (chan X)) (hs : list nat) subs subs' : Prop :=
  length subs' = length subs /\
  (forall h s, h ∈ hs -> subs !! h = Some s ->
     exists c, f (su_C s) = Some c /\ subs' !! h = Some (set_C s c)) /\
  (forall h, h ∉ hs -> subs' !! h = subs !! h).

Lemma each_chan_spec f hs subs :
  NoDup hs -> (forall h, h ∈ hs -> chan_ready f subs h) ->
  exists subs', each_chan f hs subs = Some subs' /\ after_each f hs subs subs'.
Proof.
  revert subs. induction hs as [|h hs IH]; intros subs Hnd Hr; simpl.
  { exists subs. split_and!; [done|]. split; [done|]. set_solver. }
  apply NoDup_cons in Hnd as [Hh Hnd].
  destruct (Hr h) as (s & c & Hs & Hc); [set_solver|].
  unfold on_chan. rewrite Hs. simpl. rewrite Hc. simpl.
  destruct (IH (<[h := set_C s c]> subs)) as (subs' & -> & Hlen & Hin & Hout); [done| |].
  { intros h' Hh'. destruct (Hr h') as (s' & c' & Hs' & Hc'); [set_solver|].
    exists s', c'. rewrite list_lookup_insert_ne by set_solver. done. }
  exists subs'. split; [done|]. split; [by rewrite Hlen, length_insert|]. split.
  - intros h' s' Hh' Hs'. destruct (decide (h' = h)) as [->|Hne].
    + simplify_eq. exists c. split; [done|]. rewrite Hout by done.
      apply list_lookup_insert_eq, lookup_lt_is_Some. by eexists.
    + apply (Hin h'); [set_solver|]. by rewrite list_lookup_insert_ne.
  - intros h' Hh'. rewrite Hout, list_lookup_insert_ne by set_solver. done.
Qed.

Lemma after_each_det f hs subs subs1 subs2 :
  (forall h, h ∈ hs -> chan_ready f subs h) ->
  after_each f hs subs subs1 -> after_each f hs subs subs2 -> subs1 = subs2.
Proof.
  intros Hr (_ & Hin1 & Hout1) (_ & Hin2 & Hout2). apply list_eq. intros h.
  destruct (decide (h ∈ hs)) as [Hh|Hh]; [|by rewrite Hout1, Hout2].
  destruct (Hr h Hh) as (s & c & Hs & Hc).
  destruct (Hin1 h s Hh Hs) as (c1 & ? & ->), (Hin2 h s Hh Hs) as (c2 & ? & ->). congruence.
Qed.

(** The order in which the range statement visits the subscribers does not
    matter. *)
Lemma each_chan_perm f hs hs' subs :
  NoDup hs -> (forall h, h ∈ hs -> chan_ready f subs h) -> hs ≡ₚ hs' ->
  each_chan f hs subs = each_chan f hs' subs.
Proof.
  intros Hnd Hr Hp.
  destruct (each_chan_spec f hs subs) as (s1 & -> & H1); [done..|].
  destruct (each_chan_spec f hs' subs) as (s2 & -> & H2).
  { by rewrite <-Hp. }
  { intros h. rewrite <-Hp. apply Hr. }
  f_equal. apply (after_each_det f hs subs); [done..|].
  destruct H2 as (? & Hin & Hout). split_and!; [done|..].
  - intros h s Hh. apply Hin. by rewrite <-Hp.
  - intros h Hh. apply Hout. by rewrite <-Hp.
Qed.

End chan_facts.

(* ------------------------------------------------------------------ *)
(** ** The invariant *)

Section invariant.
Context {X : Type} `{Wire X}.
Implicit Types t : topicRuntime X.

(** The sizes a topic is configured with hold, the subscribers map leads to
    open channels of the right subscription, and a closed topic has none. *)
Record rt_inv t : Prop := {
  inv_cfg : topic_config_ok (rt_cfg t);
  inv_queue : Z.of_nat (length (rt_queue t)) <= qc_MaxMessages (cf_Queue (rt_cfg t));
  inv_subscribers : forall id h, rt_subscribers t !! id = Some h ->
    exists s, rt_subs t !! h = Some s /\ su_id s = id /\ ch_closed (su_C s) = false;
  inv_buffers : forall h s, rt_subs t !! h = Some s ->
    ch_cap (su_C s) = qc_SubscriberBuffer (cf_Queue (rt_cfg t)) /\
    Z.of_nat (length (ch_buf (su_C s))) <= ch_cap (su_C s);
  inv_closed : rt_closed t = true -> rt_subscribers t = ∅;
  inv_next : rt_nextSubID t = u64 (Z.of_nat (length (rt_subs t)));
  inv_ids : forall h s, rt_subs t !! h = Some s -> su_id s = u64 (Z.of_nat h + 1);
  inv_selector : selector_ok (rt_peerSelector t)
}.

Lemma elem_of_handles t h :
  h ∈ subscriber_handles t <-> exists id, rt_subscribers t !! id = Some h.
Proof.
  unfold subscriber_handles. rewrite list_elem_of_fmap. split.
  - intros ([id h'] & -> & Hin). exists id. by apply elem_of_map_to_list.
  - intros [id Hid]. exists (id, h). split; [done|]. by apply elem_of_map_to_list.
Qed.

Lemma handles_NoDup t : rt_inv t -> NoDup (subscriber_handles t).
Proof.
  intros Ht. apply NoDup_fmap_2_strong; [|apply NoDup_map_to_list].
  intros [id h] [id' h'] Hi%elem_of_map_to_list Hi'%elem_of_map_to_list Heq.
  simpl in *. subst h'. f_equal.
  destruct (inv_subscribers _ Ht _ _ Hi) as (s & Hs & <- & _).
  destruct (inv_subscribers _ Ht _ _ Hi') as (s' & Hs' & <- & _). congruence.
Qed.

Lemma handles_open t h : rt_inv t -> h ∈ subscriber_handles t ->
  exists s, rt_subs t !! h = Some s /\ ch_closed (su_C s) = false.
Proof.
  intros Ht [id Hid]%elem_of_handles. destruct (inv_subscribers _ Ht _ _ Hid); naive_solver.
Qed.

(** The value a send leaves in an open channel: appended while there is room. *)
Definition sent (v : Message X) (c : chan X) : chan X :=
  if Z.of_nat (length (ch_buf c)) <? ch_cap c
  then mkChan (ch_cap c) (ch_buf c ++ [v]) (ch_closed c) else c.

Definition closed_chan (c : chan X) : chan X := mkChan (ch_cap c) (ch_buf c) true.

Lemma try_send_open v c : ch_closed c = false -> try_send v c = Some (sent v c).
Proof. unfold try_send, sent. intros ->. by destruct (_ <? _). Qed.

Lemma chan_close_open (c : chan X) : ch_closed c = false -> chan_close c = Some (closed_chan c).
Proof. unfold chan_close. by intros ->. Qed.

(** An operation [f] that acts as the total [g] on open channels, applied to
    every subscriber. *)
Definition mapped (g : chan X -> chan X) (hs : list nat) subs subs' : Prop :=
  length subs' = length subs /\
  forall h s, subs !! h = Some s ->
    subs' !! h = Some (if bool_decide (h ∈ hs) then set_C s (g (su_C s)) else s).

Lemma each_subscriber t f g :
  rt_inv t -> (forall c, ch_closed c = false -> f c = Some (g c)) ->
  exists subs', each_chan f (subscriber_handles t) (rt_subs t) = Some subs' /\
    mapped g (subscriber_handles t) (rt_subs t) subs'.
Proof.
  intros Ht Hf. destruct (each_chan_spec f (subscriber_handles t) (rt_subs t))
    as (subs' & Heq & Hlen & Hin & Hout).
  - by apply handles_NoDup.
  - intros h Hh. destruct (handles_open t h) as (s & Hs & Ho); [done..|].
    exists s, (g (su_C s)). auto.
  - exists subs'. split; [done|]. split; [done|]. intros h s Hs. case_bool_decide as Hh.
    + destruct (Hin h s Hh Hs) as (c & Hc & ->).
      destruct (handles_open t h) as (s' & Hs' & Ho); [done..|].
      simplify_eq. rewrite Hf in Hc by done. by simplify_eq.
    + by rewrite Hout.
Qed.

Lemma mapped_inv g hs (subs subs' : list (Subscription X)) h s :
  mapped g hs subs subs' -> subs' !! h = Some s ->
  exists s0, subs !! h = Some s0 /\
    s = if bool_decide (h ∈ hs) then set_C s0 (g (su_C s0)) else s0.
Proof.
  intros [Hlen Hm] Hs. destruct (lookup_lt_is_Some_2 subs h) as [s0 Hs0].
  { rewrite <-Hlen. apply lookup_lt_is_Some. by eexists. }
  exists s0. split; [done|]. pose proof (Hm _ _ Hs0). congruence.
Qed.

End invariant.

#[export] Hint Resolve handles_NoDup : dmq.

(* ------------------------------------------------------------------ *)
(** ** The operations *)

Section operations.
Context {X : Type} `{WireLaws X}.
Implicit Types t : topicRuntime X.

(** The topic after both prunings of a submission. *)
Definition pruned t (now : Time) : topicRuntime X :=
  set_queue (set_seen t (rt_seen (pruneSeenLocked t now)))
    (filter (unexpired (cf_TTL (rt_cfg t)) now) (rt_queue t)).

Lemma prune_both t now : pruneQueueLocked (pruneSeenLocked t now) now = pruned t now.
Proof. rewrite pruneQueueLocked_spec. rewrite pruneSeenLocked_frame. done. Qed.

Lemma filter_queue_inv t (P : DmqMessage X -> Prop) `{!forall m, Decision (P m)} :
  rt_inv t -> rt_inv (set_queue t (filter P (rt_queue t))).
Proof.
  intros []; split; simpl; auto.
  pose proof (filter_length_le P (rt_queue t)). lia.
Qed.

Lemma set_seen_inv t s : rt_inv t -> rt_inv (set_seen t s).
Proof. intros []; by split. Qed.

Lemma pruned_inv t now : rt_inv t -> rt_inv (pruned t now).
Proof. intros Ht. apply (filter_queue_inv (set_seen t _)). by apply set_seen_inv. Qed.

Lemma pruneQueueLocked_inv t now : rt_inv t -> rt_inv (pruneQueueLocked t now).
Proof. rewrite pruneQueueLocked_spec. apply filter_queue_inv. Qed.

(** The four outcomes of the critical section of submitSigned. *)
Inductive committed t (now : Time) (msg : DmqMessage X) (env : Message X)
  : topicRuntime X -> option error -> list (event X) -> Prop :=
| commit_closed :
    rt_closed t = true ->
    committed t now msg env t (Some (ErrVar ErrManagerClosed)) []
| commit_duplicate at' :
    rt_closed t = false ->
    rt_seen (pruneSeenLocked t now) !! key_of msg = Some at' ->
    committed t now msg env (pruned t now) (Some (ErrVar ErrDuplicateMessage))
      (callRejected t msg AlreadyReceivedReason)
| commit_full :
    rt_closed t = false ->
    rt_seen (pruneSeenLocked t now) !! key_of msg = None ->
    qc_MaxMessages (cf_Queue (rt_cfg t)) <= Z.of_nat (length (rt_queue (pruned t now))) ->
    committed t now msg env (pruned t now) (Some (ErrVar ErrQueueFull))
      (callRejected t msg (OtherReason (ErrVar ErrQueueFull)))
| commit_accepted subs' :
    rt_closed t = false ->
    rt_seen (pruneSeenLocked t now) !! key_of msg = None ->
    Z.of_nat (length (rt_queue (pruned t now))) < qc_MaxMessages (cf_Queue (rt_cfg t)) ->
    mapped (sent env) (subscriber_handles t) (rt_subs t) subs' ->
    committed t now msg env
      (set_subs
         (set_queue
            (set_seen t (<[key_of msg := now]> (rt_seen (pruneSeenLocked t now))))
            (rt_queue (pruned t now) ++ [cloneMessage msg])) subs')
      None
      (if hk_OnMessageAccepted (cf_Hooks (rt_cfg t)) then [EvAccepted env] else []).

Lemma submit_commit_spec t now msg env :
  rt_inv t ->
  exists t' err evs, submit_commit t now msg env = Some (t', err, evs) /\
    committed t now msg env t' err evs.
Proof.
  intros Ht. unfold submit_commit. destruct (rt_closed t) eqn:Hc.
  { do 3 eexists. split; [done|]. by constructor. }
  cbv zeta. rewrite prune_both. cbn [rt_seen pruned set_queue set_seen].
  fold (key_of msg).
  destruct (rt_seen (pruneSeenLocked t now) !! key_of msg) as [t0|] eqn:Hk.
  { do 3 eexists. split; [done|]. by apply (commit_duplicate t now msg env t0). }
  destruct (_ >=? _) eqn:Hlen; zbool.
  { do 3 eexists. split; [done|]. by apply (commit_full t now msg env). }
  destruct (each_subscriber t (try_send env) (sent env)) as (subs' & Heq & Hm);
    [done|apply try_send_open|].
  unfold subscriber_handles in *. cbn in *. rewrite Heq. cbn.
  do 3 eexists. split; [done|]. by apply (commit_accepted t now msg env).
Qed.

Lemma sent_length v (c : chan X) :
  Z.of_nat (length (ch_buf c)) <= ch_cap c ->
  Z.of_nat (length (ch_buf (sent v c))) <= ch_cap c.
Proof. unfold sent. destruct (_ <? _) eqn:E; zbool; simpl; rewrite ?length_app; simpl; lia. Qed.

Lemma sent_fields v (c : chan X) :
  ch_cap (sent v c) = ch_cap c /\ ch_closed (sent v c) = ch_closed c.
Proof. unfold sent. by destruct (_ <? _). Qed.

(** Replacing the channels of some subscriptions by ones of the same size,
    the subscribers' staying open. *)
Lemma mapped_subs_inv t g hs subs' :
  rt_inv t -> mapped g hs (rt_subs t) subs' ->
  (forall c, ch_cap (g c) = ch_cap c) ->
  (forall c, Z.of_nat (length (ch_buf c)) <= ch_cap c ->
             Z.of_nat (length (ch_buf (g c))) <= ch_cap c) ->
  (forall c, ch_closed (g c) = ch_closed c) \/ rt_subscribers t = ∅ ->
  rt_inv (set_subs t subs').
Proof.
  intros Ht Hm Hcap Hlen Hop. pose proof Ht as [? ? Hsub Hbuf ? Hnext Hids ?].
  split; simpl; auto.
  - intros id h Hid. destruct (Hsub _ _ Hid) as (s & Hs & Hi & Ho).
    destruct Hop as [Hop|Hop]; [|by rewrite Hop in Hid].
    rewrite (proj2 Hm _ _ Hs). eexists. split; [done|].
    case_bool_decide; simpl; [|done]. by rewrite Hop.
  - intros h s (s0 & Hs0 & ->)%(mapped_inv _ _ _ _ _ _ Hm). destruct (Hbuf _ _ Hs0).
    case_bool_decide; simpl; rewrite ?Hcap; auto.
  - by rewrite (proj1 Hm).
  - intros h s (s0 & Hs0 & ->)%(mapped_inv _ _ _ _ _ _ Hm).
    case_bool_decide; simpl; eauto.
Qed.

Lemma committed_inv t now msg env t' err evs :
  rt_inv t -> committed t now msg env t' err evs -> rt_inv t'.
Proof.
  intros Ht Hc. destruct Hc as [| | |subs' Hcl Hk Hl Hm]; try done; try by apply pruned_inv.
  apply (mapped_subs_inv
    (set_queue (set_seen t (<[key_of msg := now]> (rt_seen (pruneSeenLocked t now)))) _)
    (sent env) (subscriber_handles t)).
  - destruct Ht; split; simpl; auto. rewrite length_app. simpl in *. lia.
  - done.
  - intros c. apply sent_fields.
  - intros c. apply sent_length.
  - left. intros c. apply sent_fields.
Qed.

Lemma submit_validate_None t now msg msg' :
  submit_validate t now msg = (msg', None) <->
  normalizeAndValidateMessage msg = Ok msg' /\
  validateMessageTTL msg' now (cf_TTL (rt_cfg t)) = None /\
  (ac_Required (cf_Authentication (rt_cfg t)) = true ->
   VerifyMessage (ac_Authenticator (cf_Authentication (rt_cfg t))) msg' = None).
Proof.
  unfold submit_validate. repeat case_match; naive_solver.
Qed.

Lemma submitSigned_total t now1 now2 msg source peer :
  rt_inv t ->
  exists t' msg' err evs, submitSigned t now1 now2 msg source peer = Some (t', msg', err, evs) /\
    rt_inv t'.
Proof.
  intros Ht. unfold submitSigned. destruct msg as [msg|]; [|by eauto 10].
  destruct (submit_validate t now1 msg) as [msg' [[e evs]|]]; [by eauto 10|].
  destruct (submit_commit_spec t now2 msg' (make_envelope t msg' source peer now2))
    as (t' & err & evs & -> & Hc); [done|]. simpl.
  do 4 eexists. split; [done|]. by eapply committed_inv.
Qed.

Lemma publish_total t now0 now1 now2 body :
  rt_inv t -> exists t' r evs, publish t now0 now1 now2 body = Some (t', r, evs) /\ rt_inv t'.
Proof.
  intros Ht. unfold publish. destruct (cf_Signer _) as [Sign|]; [|by eauto 10].
  destruct (NewMessagePayload _ _ _); [|by eauto 10].
  destruct (Sign _ _) as [msg|]; [|by eauto 10].
  destruct (submitSigned_total t now1 now2 msg MessageSourceLocal None)
    as (t' & msg' & err & evs & -> & Ht'); [done|]. simpl.
  destruct err; by eauto 10.
Qed.

End operations.

#[export] Hint Resolve pruned_inv pruneQueueLocked_inv set_seen_inv committed_inv : dmq.

(* ------------------------------------------------------------------ *)
(** ** Queries *)

Section queries.
Context {X : Type} `{WireLaws X}.
Implicit Types t : topicRuntime X.

(** What a queued message is announced as; a message that does not encode is
    not announced. *)
Definition summary (m : DmqMessage X) : option MessageIDAndSize :=
  match cbor_Encode_message m with
  | Ok enc => Some (mkIDAndSize (msg_ID m) (u32 (Z.of_nat (length enc))))
  | Err _ => None
  end.

(** The limit of messageIDs: none unless positive. *)
Definition limit {A} (max : Z) (l : list A) : list A :=
  if max >? 0 then take (Z.to_nat max) l else l.

Lemma message_ids_loop_spec policy now max queue ids :
  (max > 0 -> Z.of_nat (length ids) < max) ->
  message_ids_loop policy now max queue ids
  = ids ++ (if max >? 0 then take (Z.to_nat max - length ids) else fun l => l)
             (omap summary (filter (unexpired policy now) queue)).
Proof.
  revert ids. induction queue as [|m queue IH]; intros ids Hids; simpl.
  { by destruct (max >? 0); rewrite ?take_nil, app_nil_r. }
  destruct (validateMessageTTL m now policy) eqn:Hv.
  { rewrite filter_cons_False; [by apply IH|]. unfold unexpired. congruence. }
  rewrite filter_cons_True by done. simpl. unfold summary at 1.
  destruct (cbor_Encode_message m) as [enc|e]; simpl; [|by apply IH].
  rewrite cloneBytes_id. destruct (max >? 0) eqn:Em; simpl; zbool.
  - rewrite length_app. simpl. destruct (_ >=? max) eqn:Elen; zbool.
    + replace (Z.to_nat max - length ids)%nat with 1%nat by lia. simpl. by rewrite take_0.
    + rewrite IH; rewrite length_app; simpl; [|lia].
      rewrite <-app_assoc. simpl. f_equal.
      replace (Z.to_nat max - length ids)%nat
        with (S (Z.to_nat max - (length ids + 1)))%nat by lia. done.
  - rewrite IH by lia. by rewrite <-app_assoc.
Qed.

Lemma messageIDs_spec t now max :
  messageIDs t now max =
    (pruneQueueLocked t now,
     limit max (omap summary (filter (unexpired (cf_TTL (rt_cfg t)) now) (rt_queue t)))).
Proof.
  unfold messageIDs. rewrite pruneQueueLocked_spec. f_equal. simpl.
  rewrite message_ids_loop_spec by (simpl; lia). simpl. rewrite filter_idem, Nat.sub_0_r.
  unfold limit. by destruct (max >? 0).
Qed.

Lemma messagesByIDs_spec t now ids :
  messagesByIDs t now ids =
    (pruneQueueLocked t now,
     map cloneMessage
       (filter (fun m => unexpired (cf_TTL (rt_cfg t)) now m /\ key_of m ∈ map go_string ids)
          (rt_queue t))).
Proof.
  unfold messagesByIDs. rewrite pruneQueueLocked_spec. f_equal. simpl.
  induction (rt_queue t) as [|m queue IH]; [done|].
  rewrite filter_cons. case_decide as Hu.
  - rewrite bind_cons, IH. unfold unexpired in Hu. rewrite Hu.
    fold (key_of m). case_bool_decide as Hw; rewrite elem_of_list_to_set in Hw; simpl.
    + by rewrite filter_cons_False by tauto.
    + by rewrite filter_cons_True by done.
  - rewrite filter_cons_False by tauto. apply IH.
Qed.

End queries.

(* ------------------------------------------------------------------ *)
(** ** Subscriptions *)

Section subscriptions.
Context {X : Type} `{WireLaws X}.
Implicit Types t : topicRuntime X.

Lemma newTopicRuntime_inv name (cfg : TopicConfig X) : topic_config_ok cfg -> rt_inv (newTopicRuntime name cfg).
Proof.
  intros Hc. split; simpl; try done.
  - destruct Hc. simpl. lia.
  - eauto using addPeersLocked_ok, NewPeerSelector_ok.
Qed.

(** Overwriting one subscription by one with the same ID and channel sizes. *)
Lemma insert_sub_inv t h s s' :
  rt_inv t -> rt_subs t !! h = Some s ->
  su_id s' = su_id s -> ch_cap (su_C s') = ch_cap (su_C s) ->
  Z.of_nat (length (ch_buf (su_C s'))) <= ch_cap (su_C s) ->
  (ch_closed (su_C s') = ch_closed (su_C s) \/
   forall id, rt_subscribers t !! id <> Some h) ->
  rt_inv (set_subs t (<[h := s']> (rt_subs t))).
Proof.
  intros Ht Hs Hid Hcap Hlen Hop. destruct Ht as [? ? Hsub Hbuf ? Hnext Hids ?].
  pose proof (fun k => lookup_insert_present _ h k s' s Hs) as Hlook.
  split; simpl; auto.
  - intros id k Hk. rewrite Hlook. destruct (Hsub _ _ Hk) as (s0 & Hs0 & Hi & Ho).
    case_decide; [subst k|by eauto]. simplify_eq. exists s'. split_and!; [done..|].
    destruct Hop as [->|Hop]; [done|]. by destruct (Hop _ Hk).
  - intros k s0. rewrite Hlook. case_decide; [subst|by apply Hbuf].
    intros [= <-]. rewrite Hcap. split; [|done]. by apply (Hbuf _ _ Hs).
  - by rewrite length_insert.
  - intros k s0. rewrite Hlook. case_decide; [subst|by apply Hids].
    intros [= <-]. rewrite Hid. by apply Hids.
Qed.

Lemma subscribe_alloc_inv t : rt_inv t -> rt_inv (subscribe_alloc t).1.
Proof.
  intros [Hc ? Hsub Hbuf ? Hnext Hids ?]. split; simpl; auto.
  - intros id h Hid. destruct (Hsub _ _ Hid) as (s & Hs & ?). exists s.
    split; [|done]. by apply lookup_app_l_Some.
  - intros h s [Hs|[? Hs]]%lookup_app_Some; [by apply (Hbuf h)|].
    apply list_lookup_singleton_Some in Hs as [_ <-]. simpl. destruct Hc. lia.
  - rewrite length_app, Hnext. unfold u64. simpl. rewrite Zplus_mod_idemp_l. f_equal. lia.
  - intros h s [Hs|[? Hs]]%lookup_app_Some; [by apply (Hids h)|].
    apply list_lookup_singleton_Some in Hs as [? <-]. simpl. rewrite Hnext.
    unfold u64. rewrite Zplus_mod_idemp_l. f_equal. lia.
Qed.

Lemma subscribe_register_inv t h s :
  rt_inv t -> rt_subs t !! h = Some s -> ch_closed (su_C s) = false ->
  exists t', subscribe_register t h = Some t' /\ rt_inv t' /\
    (if rt_closed t
     then t' = set_subs t (<[h := mkSubscription (closed_chan (su_C s)) (su_id s) true]> (rt_subs t))
     else t' = set_subscribers t (<[su_id s := h]> (rt_subscribers t))).
Proof.
  intros Ht Hs Ho. unfold subscribe_register. rewrite Hs. simpl.
  destruct (rt_closed t) eqn:Hc.
  - rewrite chan_close_open by done. simpl. eexists. split; [done|]. split; [|done].
    destruct (inv_buffers _ Ht _ _ Hs). eapply insert_sub_inv; try done.
    right. intros id. by rewrite (inv_closed _ Ht Hc).
  - eexists. split; [done|]. split; [|done].
    destruct Ht as [? ? Hsub Hbuf ? Hnext Hids ?]. split; simpl; auto.
    + intros id k [[<- <-]|[? Hk]]%lookup_insert_Some; eauto.
    + congruence.
Qed.

(** A fresh subscription, before registration. *)
Definition fresh_sub t : Subscription X :=
  mkSubscription (mkChan (qc_SubscriberBuffer (cf_Queue (rt_cfg t))) [] false)
    (u64 (rt_nextSubID t + 1)) false.

Lemma subscribe_alloc_fresh t :
  rt_subs (subscribe_alloc t).1 !! (subscribe_alloc t).2 = Some (fresh_sub t).
Proof. simpl. by rewrite lookup_app_r, Nat.sub_diag by lia. Qed.

Lemma subscribe_total t :
  rt_inv t ->
  exists t', subscribe t = Some (t', length (rt_subs t)) /\ rt_inv t' /\
    rt_cfg t' = rt_cfg t /\ rt_closed t' = rt_closed t /\ rt_queue t' = rt_queue t /\
    rt_seen t' = rt_seen t.
Proof.
  intros Ht. pose proof (subscribe_alloc_inv t Ht) as Ha.
  destruct (subscribe_register_inv _ _ _ Ha (subscribe_alloc_fresh t) eq_refl)
    as (t' & Hr & Ht' & Hd).
  exists t'. unfold subscribe. rewrite (surjective_pairing (subscribe_alloc t)), Hr.
  split; [done|]. split; [done|]. simpl in Hd.
  destruct (rt_closed t) eqn:Hc; subst t'; done.
Qed.

Lemma close_inv t :
  rt_inv t ->
  exists t', close t = Some t' /\ rt_inv t' /\
    (if rt_closed t then t' = t
     else exists subs', mapped closed_chan (subscriber_handles t) (rt_subs t) subs' /\
            t' = set_subscribers (set_subs (set_closed t true) subs') ∅).
Proof.
  intros Ht. unfold close. destruct (rt_closed t) eqn:Hc; [by eauto|].
  destruct (each_subscriber t chan_close closed_chan) as (subs' & -> & Hm);
    [done|apply chan_close_open|]. simpl.
  eexists. split; [done|]. split; [|by eauto].
  assert (rt_inv (set_subscribers (set_closed t true) ∅)) as Ht0 by (destruct Ht; by split).
  apply (mapped_subs_inv _ closed_chan (subscriber_handles t) subs' Ht0 Hm);
    [done..|by right].
Qed.

Lemma unsubscribe_inv t id :
  rt_inv t ->
  exists t', unsubscribe t id = Some t' /\ rt_inv t' /\
    (match rt_subscribers t !! id with
     | None => t' = t
     | Some h => exists s, rt_subs t !! h = Some s /\
         t' = set_subs (set_subscribers t (delete id (rt_subscribers t)))
                (<[h := set_C s (closed_chan (su_C s))]> (rt_subs t))
     end).
Proof.
  intros Ht. unfold unsubscribe. destruct (rt_subscribers t !! id) as [h|] eqn:Hid; [|by eauto].
  destruct (inv_subscribers _ Ht _ _ Hid) as (s & Hs & Hi & Ho).
  unfold on_chan. rewrite Hs. simpl. rewrite chan_close_open by done. simpl.
  eexists. split; [done|]. split; [|by eauto].
  assert (rt_inv (set_subscribers t (delete id (rt_subscribers t)))) as Ht0.
  { destruct Ht as [? ? Hsub ? Hcl ? ? ?]. split; simpl; auto.
    - intros i k [_ Hk]%lookup_delete_Some. by apply Hsub.
    - intros Hc. by rewrite Hcl, delete_empty. }
  destruct (inv_buffers _ Ht _ _ Hs).
  apply (insert_sub_inv _ h s _ Ht0); simpl; try done. right.
  intros i [Hne Hk]%lookup_delete_Some.
  destruct (inv_subscribers _ Ht _ _ Hk) as (s' & Hs' & Hi' & _). congruence.
Qed.

Lemma close_cas_inv t h t' : rt_inv t -> close_cas t h = Some t' -> rt_inv t'.
Proof.
  intros Ht. unfold close_cas. destruct (rt_subs t !! h) as [s|] eqn:Hs; simpl; [|done].
  destruct (su_closed s); [done|]. intros [= <-]. destruct (inv_buffers _ Ht _ _ Hs).
  eapply insert_sub_inv; try done. by left.
Qed.

Lemma receive_inv t h t' v : rt_inv t -> receive t h = Some (t', v) -> rt_inv t'.
Proof.
  intros Ht. unfold receive. destruct (rt_subs t !! h) as [s|] eqn:Hs; simpl; [|done].
  destruct (inv_buffers _ Ht _ _ Hs) as [_ Hlen].
  destruct (ch_buf (su_C s)) as [|x rest] eqn:Hb; [by case_match; intros [= <- _]|].
  intros [= <- _]. apply (insert_sub_inv _ h s); simpl in *; [done..|lia|by left].
Qed.

Lemma discoverPeers_inv t : rt_inv t -> rt_inv (discoverPeers t).1.1.
Proof.
  intros Ht. unfold discoverPeers. repeat case_match; try done;
    destruct Ht; split; simpl; auto using setPeersForSources_ok.
Qed.

End subscriptions.

#[export] Hint Resolve newTopicRuntime_inv subscribe_alloc_inv close_cas_inv receive_inv
  discoverPeers_inv : dmq.

(* ------------------------------------------------------------------ *)
(** ** What no operation changes *)

Section identity.
Context {X : Type} `{WireLaws X}.
Implicit Types t : topicRuntime X.

(** The same topic: name and configuration. *)
Definition same_topic t t' : Prop := rt_name t' = rt_name t /\ rt_cfg t' = rt_cfg t.

Lemma submitSigned_same t now1 now2 msg source peer t' msg' err evs :
  rt_inv t -> submitSigned t now1 now2 msg source peer = Some (t', msg', err, evs) ->
  same_topic t t'.
Proof.
  intros Ht. unfold submitSigned. destruct msg as [msg|]; [|by intros [= <- _ _ _]].
  destruct (submit_validate t now1 msg) as [m [[e evs0]|]]; [by intros [= <- _ _ _]|].
  destruct (submit_commit_spec t now2 m (make_envelope t m source peer now2))
    as (t0 & err0 & evs0 & -> & Hc); [done|].
  simpl. intros [= <- _ _ _]. by destruct Hc.
Qed.

Lemma publish_same t now0 now1 now2 body t' r evs :
  rt_inv t -> publish t now0 now1 now2 body = Some (t', r, evs) -> same_topic t t'.
Proof.
  intros Ht. unfold publish. destruct (cf_Signer _) as [Sign|]; [|by intros [= <- _ _]].
  destruct (NewMessagePayload _ _ _); [|by intros [= <- _ _]].
  destruct (Sign _ _) as [msg|]; [|by intros [= <- _ _]].
  destruct (submitSigned t now1 now2 msg MessageSourceLocal None)
    as [[[[t0 m0] err] evs0]|] eqn:Hs; [|done]. simpl.
  destruct err; intros [= <- _ _]; by eapply submitSigned_same.
Qed.

Lemma subscribe_same t t' h : subscribe t = Some (t', h) -> same_topic t t'.
Proof.
  unfold subscribe. rewrite (surjective_pairing (subscribe_alloc t)).
  destruct (subscribe_register _ _) as [t0|] eqn:Hr; [|done]. simpl. intros [= <- _].
  unfold subscribe_register in Hr. rewrite subscribe_alloc_fresh in Hr. simpl in Hr.
  by destruct (rt_closed t); simplify_eq/=.
Qed.

Lemma discoverPeers_same t : same_topic t (discoverPeers t).1.1.
Proof. unfold discoverPeers. repeat case_match; done. Qed.

Lemma close_closes t :
  rt_inv t -> exists t', close t = Some t' /\ rt_inv t' /\ same_topic t t' /\ rt_closed t' = true.
Proof.
  intros Ht. destruct (close_inv t Ht) as (t' & -> & Ht' & Hd). exists t'.
  destruct (rt_closed t) eqn:Hc; [by subst t'|]. by destruct Hd as (subs' & _ & ->).
Qed.

End identity.
