(* ===== verification/Examples.v ===== *)
(** * Concrete topics

    A topic on the concrete wire format with default configuration and all
    hooks set, and a few messages: the inputs the witnesses evaluate on. *)

From S2P Require Import Prelude Errors Types Clone Concrete Payload Peers Ledger Config Topic TopicFacts.

Definition ex_discovery : DiscoveryConfig :=
  mkDiscovery None [] false 0 0 (mkLedgerConfig false 0 0 0 0 None false).

(** A queue of [max] messages and subscriber buffers of [buf]; zero means the
    default. *)
Definition ex_config (max buf : Z) : TopicConfig unit :=
  defaultTopicConfig
    (mkTopicConfig 1 ex_discovery (mkQueueConfig max buf 0) (mkTTLPolicy 0 0 false)
       (mkReconnect 0 0) (mkAuthConfig false None false) (mkHooks true true true true) None).

Definition ex_topic (max buf : Z) : topicRuntime unit := newTopicRuntime "t" (ex_config max buf).

(** Messages that expire 1000 and 1500 seconds after the epoch. *)
Definition ex_msg1 : DmqMessage unit := toy_msg [x61] 1000.
Definition ex_msg2 : DmqMessage unit := toy_msg [x62; x63] 1500.

(** [sec n]: n seconds after the epoch. *)
Definition sec (n : Z) : Time := Time_of_Unix n 0.

Lemma ex_topic_inv max buf : rt_inv (ex_topic max buf).
Proof. apply newTopicRuntime_inv, defaultTopicConfig_ok. Qed.

(** [m] with its ID set, as submission leaves it. *)
Definition ex_identified (m : DmqMessage unit) : DmqMessage unit :=
  toy_set (toy_compute (dm_Payload m)) m.
