(* ===== verification/TopicTheorems.v ===== *)
(** * What the topic promises

    The properties of the topic's operations, one call at a time. *)

From S2P Require Import Prelude Errors Types Clone Encoding Concrete Payload Peers Ledger Config Topic TopicFacts Examples.

Section theorems.
Context {X : Type} `{WireLaws X}.
Implicit Types t : topicRuntime X.

(** C26: The in-place compaction of pruneQueueLocked leaves in the queue exactly
    the messages that still pass the TTL check, in order, overwrites every
    vacated cell of the backing array with the zero message so that no pruned
    message is retained, and touches nothing else of the topic. *)
Theorem pruneQueueLocked_compacts t now :
  let live := filter (unexpired (cf_TTL (rt_cfg t)) now) (rt_queue t) in
  pruneQueueLocked t now = set_queue t live /\
  prune_array (fun m => bool_decide (unexpired (cf_TTL (rt_cfg t)) now m)) (rt_queue t)
    = (length live, live ++ replicate (length (rt_queue t) - length live) zero_message).
Proof.
  split; [apply pruneQueueLocked_spec|]. rewrite prune_array_spec. cbv zeta.
  assert (forall q : list (DmqMessage X),
    filter (fun m => bool_decide (unexpired (cf_TTL (rt_cfg t)) now m) = true) q
    = filter (unexpired (cf_TTL (rt_cfg t)) now) q) as ->; [|done].
  intros q. apply list_filter_iff. intros m. apply bool_decide_eq_true.
Qed.

(** The conditions under which a submission is admitted. *)
Record admitted t (now1 now2 : Time) (msg msg' : DmqMessage X) : Prop := {
  ad_normal : normalizeAndValidateMessage msg = Ok msg';
  ad_ttl : unexpired (cf_TTL (rt_cfg t)) now1 msg';
  ad_auth : ac_Required (cf_Authentication (rt_cfg t)) = true ->
    VerifyMessage (ac_Authenticator (cf_Authentication (rt_cfg t))) msg' = None;
  ad_open : rt_closed t = false;
  ad_new : forall at', rt_seen t !! key_of msg' = Some at' ->
    qc_DuplicateTTL (cf_Queue (rt_cfg t)) < Time_Sub now2 at';
  ad_room : Z.of_nat (length (filter (unexpired (cf_TTL (rt_cfg t)) now2) (rt_queue t)))
            < qc_MaxMessages (cf_Queue (rt_cfg t))
}.

Lemma seen_pruned_None t now k :
  rt_inv t ->
  rt_seen (pruneSeenLocked t now) !! k = None <->
  (forall at', rt_seen t !! k = Some at' ->
     qc_DuplicateTTL (cf_Queue (rt_cfg t)) < Time_Sub now at').
Proof.
  intros Ht. pose proof (ok_duplicate _ (inv_cfg _ Ht)) as Hd. rewrite eq_None_not_Some. split.
  - intros Hn at' Hat. apply Z.nle_gt. intros Hle. apply Hn. exists at'.
    by apply pruneSeenLocked_lookup.
  - intros Hall [at' Hat]. apply pruneSeenLocked_lookup in Hat as [Hat Hle]; [|done].
    specialize (Hall _ Hat). lia.
Qed.

Lemma pruned_seen_incl t now :
  rt_inv t ->
  map_Forall (fun k at' => rt_seen t !! k = Some at') (rt_seen (pruneSeenLocked t now)).
Proof.
  intros Ht k at' Hat. by apply pruneSeenLocked_lookup in Hat as [Hat _];
    [|apply ok_duplicate, (inv_cfg _ Ht)].
Qed.

(** C1: submitSigned never panics, and succeeds exactly when the message is
    well formed (body size, ID), within its TTL, authentic when the topic
    requires it, the topic is open, its ID was not accepted within
    DuplicateTTL, and fewer than MaxMessages unexpired messages are queued. *)
Theorem submitSigned_admits t now1 now2 msg source peer :
  rt_inv t ->
  exists t' msg' err evs,
    submitSigned t now1 now2 (Some msg) source peer = Some (t', Some msg', err, evs) /\
    (err = None <-> admitted t now1 now2 msg msg').
Proof.
  intros Ht. unfold submitSigned.
  destruct (submit_validate t now1 msg) as [msg' [[e evs]|]] eqn:Hv.
  - do 4 eexists. split; [done|]. split; [done|]. intros [Hn Hl Ha _ _ _].
    assert (submit_validate t now1 msg = (msg', None)); [|congruence].
    by apply submit_validate_None.
  - apply submit_validate_None in Hv as (Hn & Hl & Ha).
    destruct (submit_commit_spec t now2 msg' (make_envelope t msg' source peer now2))
      as (t' & err & evs & -> & Hc); [done|].
    do 4 eexists. split; [done|]. destruct Hc as [Hcl|at' Hcl Hs|Hcl Hs Hf|subs' Hcl Hs Hf Hm].
    + split; [done|]. intros []. congruence.
    + split; [done|]. intros [_ _ _ _ Hnew _]. apply seen_pruned_None in Hnew; [|done]. congruence.
    + split; [done|]. intros [_ _ _ _ _ Hroom]. simpl in *. lia.
    + split; [|done]. intros _. split; try done. by apply seen_pruned_None.
Qed.

(** C9: An accepted submission appends a copy of the message to the unexpired
    part of the queue, records its ID with the acceptance time, offers the same
    envelope to every subscriber (delivered when its buffer has room, dropped
    otherwise) and to no one else, reports it to the accept hook, and leaves
    configuration, subscriber set and peers alone. *)
Theorem submitSigned_effect t now1 now2 msg msg' source peer t' evs :
  rt_inv t ->
  submitSigned t now1 now2 (Some msg) source peer = Some (t', Some msg', None, evs) ->
  let env := make_envelope t msg' source peer now2 in
  rt_queue t' = filter (unexpired (cf_TTL (rt_cfg t)) now2) (rt_queue t) ++ [cloneMessage msg'] /\
  rt_seen t' !! key_of msg' = Some now2 /\
  msg_equiv (en_Message env) msg' /\ en_ID env = msg_ID msg' /\
  (forall h s, rt_subs t !! h = Some s ->
     rt_subs t' !! h = Some (if bool_decide (h ∈ subscriber_handles t)
                             then set_C s (sent env (su_C s)) else s)) /\
  evs = (if hk_OnMessageAccepted (cf_Hooks (rt_cfg t)) then [EvAccepted env] else []) /\
  rt_cfg t' = rt_cfg t /\ rt_subscribers t' = rt_subscribers t /\
  rt_peerSelector t' = rt_peerSelector t /\ rt_closed t' = false.
Proof.
  intros Ht. unfold submitSigned.
  destruct (submit_validate t now1 msg) as [m [[e evs0]|]] eqn:Hv; [done|].
  destruct (submit_commit_spec t now2 m (make_envelope t m source peer now2))
    as (t0 & err & evs0 & -> & Hc); [done|].
  simpl. intros [= <- <- -> <-]. inversion Hc; subst; simpl.
  split_and!; try done.
  - apply lookup_insert_eq.
  - apply cloneMessage_equiv.
  - apply cloneBytes_id.
  - match goal with Hm : mapped _ _ _ _ |- _ => by apply Hm end.
Qed.

(** C10: A refused submission queues nothing, delivers nothing and, except on a
    closed topic, calls the reject hook exactly once, with the very reason a
    local-message-submission client is answered with. *)
Theorem submitSigned_refusal t now1 now2 msg msg' source peer t' e evs :
  rt_inv t ->
  submitSigned t now1 now2 (Some msg) source peer = Some (t', Some msg', Some e, evs) ->
  rt_subs t' = rt_subs t /\ rt_subscribers t' = rt_subscribers t /\
  (rt_queue t' = rt_queue t \/
   rt_queue t' = filter (unexpired (cf_TTL (rt_cfg t)) now2) (rt_queue t)) /\
  map_Forall (fun k at' => rt_seen t !! k = Some at') (rt_seen t') /\
  ((rt_closed t = true /\ e = ErrVar ErrManagerClosed /\ evs = []) \/
   exists reason, rejectReasonFromError (Some e) = Some reason /\
     evs = if hk_OnMessageRejected (cf_Hooks (rt_cfg t))
           then [EvRejected (rt_name t) msg' reason] else []).
Proof.
  intros Ht. unfold submitSigned.
  destruct (submit_validate t now1 msg) as [m [[e' evs0]|]] eqn:Hv.
  - intros [= <- <- <- <-]. split; [done|]. split; [done|]. split; [by left|].
    split; [by intros k at'|]. right. unfold submit_validate, reject_with, callRejected in Hv.
    repeat case_match; simplify_eq/=; eauto.
  - destruct (submit_commit_spec t now2 m (make_envelope t m source peer now2))
      as (t0 & err & evs0 & -> & Hc); [done|].
    simpl. intros [= <- <- -> <-].
    inversion Hc; subst; simpl; (split_and!; [done|done|by auto| |by eauto]);
      solve [by intros k at'|by apply pruned_seen_incl].
Qed.

Lemma elem_of_limit {A} max (l : list A) x : x ∈ limit max l -> x ∈ l.
Proof. unfold limit. case_match; [|done]. apply subseteq_take. Qed.

Lemma accepted_queue t now1 now2 msg msg' source peer t' evs :
  rt_inv t ->
  submitSigned t now1 now2 (Some msg) source peer = Some (t', Some msg', None, evs) ->
  cloneMessage msg' ∈ rt_queue t' /\ rt_cfg t' = rt_cfg t.
Proof.
  intros Ht Hs. unfold submitSigned in Hs.
  destruct (submit_validate t now1 msg) as [m [[e evs0]|]]; [done|].
  destruct (submit_commit_spec t now2 m (make_envelope t m source peer now2))
    as (t0 & err & evs0 & Heq & Hc); [done|].
  rewrite Heq in Hs. simplify_eq/=. inversion Hc; subst; simpl. split; [|done].
  apply elem_of_app. right. by apply list_elem_of_singleton.
Qed.

(** What is announced can be fetched: messageIDs respects its limit, and a
    fetch by an ID it returned, at the same time, gives messages, all with that
    ID and all unexpired. *)
Theorem announced_can_be_fetched t now max :
  let '(t', ids) := messageIDs t now max in
  (0 < max -> Z.of_nat (length ids) <= max) /\
  forall s, s ∈ ids ->
    let msgs := (messagesByIDs t' now [ms_MessageID s]).2 in
    msgs <> [] /\
    Forall (fun m => key_of m = go_string (ms_MessageID s) /\
                     unexpired (cf_TTL (rt_cfg t)) now m) msgs.
Proof.
  rewrite messageIDs_spec. split.
  - intros Hmax. unfold limit. destruct (max >? 0) eqn:E; zbool; [|lia].
    rewrite length_take. lia.
  - intros s Hs%elem_of_limit%list_elem_of_omap. destruct Hs as (m & Hm & Hsum).
    rewrite messagesByIDs_spec. simpl.
    assert (key_of m = go_string (ms_MessageID s)) as Hk.
    { unfold summary in Hsum. case_match; by simplify_eq/=. }
    rewrite pruneQueueLocked_spec. simpl. split.
    + intros Hnil%fmap_nil_inv. apply list_elem_of_filter in Hm as [Hu Hm].
      eapply (not_elem_of_nil m). rewrite <-Hnil.
      apply list_elem_of_filter. split; [|by apply list_elem_of_filter].
      split; [done|]. rewrite Hk. by apply list_elem_of_singleton.
    + apply Forall_forall. intros m' Hm'.
      apply list_elem_of_fmap in Hm' as (m0 & -> & ((Hu & Hin) & _)%list_elem_of_filter).
      apply list_elem_of_singleton in Hin. rewrite key_of_clone, unexpired_clone. done.
Qed.

(** C25: An accepted message can be fetched by its ID, right after acceptance,
    at every time at which it has not expired and at no other. *)
Theorem accepted_can_be_fetched t now1 now2 now3 msg msg' source peer t' evs :
  rt_inv t ->
  submitSigned t now1 now2 (Some msg) source peer = Some (t', Some msg', None, evs) ->
  let msgs := (messagesByIDs t' now3 [msg_ID msg']).2 in
  unexpired (cf_TTL (rt_cfg t)) now3 msg' <-> Exists (fun m => msg_equiv m msg') msgs.
Proof.
  intros Ht Hs. destruct (accepted_queue _ _ _ _ _ _ _ _ _ Ht Hs) as [Hq Hcfg].
  rewrite messagesByIDs_spec, Hcfg. simpl. rewrite Exists_exists. split.
  - intros Hu. exists (cloneMessage (cloneMessage msg')). split.
    + apply list_elem_of_fmap_2, list_elem_of_filter. split; [|done].
      rewrite unexpired_clone, key_of_clone. split; [done|]. by apply list_elem_of_singleton.
    + by rewrite !cloneMessage_equiv.
  - intros (m & Hm & Heq). apply list_elem_of_fmap in Hm as (m0 & -> & [[Hu _] _]%list_elem_of_filter).
    unfold unexpired in *. by rewrite <-Heq, cloneMessage_equiv.
Qed.

End theorems.

(* ------------------------------------------------------------------ *)
(** ** Witnesses *)

(** The first submission to an open topic with a subscriber, its result, and
    a second submission of the same message. *)
Definition ex_sub1 : topicRuntime unit :=
  match subscribe (ex_topic 2 1) with Some (t, _) => t | None => ex_topic 2 1 end.

Definition ex_sub2 : topicRuntime unit :=
  match submitSigned ex_sub1 (sec 10) (sec 10) (Some ex_msg1) MessageSourceLocal None with
  | Some (t, _, _, _) => t
  | None => ex_sub1
  end.

Lemma ex_sub1_inv : rt_inv ex_sub1.
Proof.
  pose proof (subscribe_alloc_inv _ (ex_topic_inv 2 1)) as Hi.
  destruct (subscribe_register_inv _ 0 (mkSubscription (mkChan 1 [] false) 1 false) Hi)
    as (t' & Hr & Ht' & _); [done..|].
  unfold ex_sub1, subscribe. destruct (subscribe_alloc (ex_topic 2 1)) as [t h] eqn:Ha.
  injection Ha as <- <-. simpl in *. by injection Hr as <-.
Qed.

Lemma submitSigned_admits_witness :
  exists t' msg' err evs,
    submitSigned ex_sub1 (sec 10) (sec 10) (Some ex_msg1) MessageSourceLocal None
      = Some (t', Some msg', err, evs) /\
    (err = None <-> admitted ex_sub1 (sec 10) (sec 10) ex_msg1 msg').
Proof. apply (submitSigned_admits ex_sub1), ex_sub1_inv. Defined.

Lemma submitSigned_effect_witness :
  rt_queue ex_sub2 = [ex_identified ex_msg1] /\
  rt_seen ex_sub2 !! key_of (ex_identified ex_msg1) = Some (sec 10).
Proof.
  destruct (submitSigned_effect ex_sub1 (sec 10) (sec 10) ex_msg1 (ex_identified ex_msg1)
    MessageSourceLocal None ex_sub2
    [EvAccepted (make_envelope ex_sub1 (ex_identified ex_msg1) MessageSourceLocal None (sec 10))])
    as (Hq & Hs & _); [apply ex_sub1_inv|by vm_compute|].
  split; [by vm_compute|exact Hs].
Defined.

Lemma submitSigned_refusal_witness :
  exists t' evs,
    submitSigned ex_sub2 (sec 20) (sec 20) (Some ex_msg1) MessageSourceLocal None
      = Some (t', Some (ex_identified ex_msg1), Some (ErrVar ErrDuplicateMessage), evs) /\
    rt_subs t' = rt_subs ex_sub2.
Proof.
  do 2 eexists. split; [by vm_compute|].
  refine (proj1 (submitSigned_refusal ex_sub2 (sec 20) (sec 20) ex_msg1 (ex_identified ex_msg1)
    MessageSourceLocal None _ (ErrVar ErrDuplicateMessage) _ _ _)).
  - destruct (submitSigned_total ex_sub1 (sec 10) (sec 10) (Some ex_msg1) MessageSourceLocal None
      ex_sub1_inv) as (t' & m' & err & evs & Heq & Ht').
    unfold ex_sub2. by rewrite Heq.
  - by vm_compute.
Defined.

Lemma accepted_can_be_fetched_witness :
  Exists (fun m => msg_equiv m (ex_identified ex_msg1))
    (messagesByIDs ex_sub2 (sec 999) [msg_ID (ex_identified ex_msg1)]).2.
Proof.
  apply (accepted_can_be_fetched ex_sub1 (sec 10) (sec 10) (sec 999) ex_msg1
    (ex_identified ex_msg1) MessageSourceLocal None ex_sub2
    [EvAccepted (make_envelope ex_sub1 (ex_identified ex_msg1) MessageSourceLocal None (sec 10))]).
  - apply ex_sub1_inv.
  - by vm_compute.
  - by vm_compute.
Defined.

