(* ===== verification/TopicSpec.v ===== *)
(** * The topic as a log: abstract specification and refinement

    To its clients a topic is an append-only log of accepted messages with
    their acceptance times. Whether a submission is accepted, what is
    announced and what can be fetched are questions about that log and the
    clock alone: a message is a duplicate when its ID was last accepted within
    the duplicate window, and the queue is the part of the log that has not
    expired. The implementation keeps a pruned queue and a pruned map instead;
    with a clock that does not run backwards no client can tell the
    difference. *)

From S2P Require Import Prelude Errors Types Clone Concrete Payload Peers Ledger Config Topic TopicFacts Examples.

Section spec.
Context {X : Type} `{WireLaws X}.

(** What clients can do, with the clock readings of the call. *)
Inductive op : Type :=
| OpSubmit (now1 now2 : Time) (msg : DmqMessage X) (source : MessageSource) (peer : option Peer)
| OpIDs (now : Time) (max : Z)
| OpFetch (now : Time) (ids : list slice)
| OpHasSeen (id : slice)
| OpSubscribe
| OpUnsubscribe (id : Z)
| OpClose.

(** What the caller learns. *)
Inductive obs : Type :=
| ObsError (e : option error)
| ObsIDs (ids : list MessageIDAndSize)
| ObsMessages (msgs : list (DmqMessage X))
| ObsSeen (b : bool)
| ObsUnit.

(* ------------------------------------------------------------------ *)
(** ** The abstract topic *)

Record topic_log := mkLog {
  al_log : list (Time * DmqMessage X);
  al_closed : bool;
  (** when the last submission reached an open topic *)
  al_last : Time
}.

(** The most recent acceptance of an ID. *)
Fixpoint last_accept (log : list (Time * DmqMessage X)) (k : string) : option Time :=
  match log with
  | [] => None
  | (at', m) :: log' =>
      match last_accept log' k with
      | Some t => Some t
      | None => if bool_decide (key_of m = k) then Some at' else None
      end
  end.

Definition in_window (cfg : TopicConfig X) (now : Time) (o : option Time) : option Time :=
  match o with
  | Some t => if Time_Sub now t <=? qc_DuplicateTTL (cf_Queue cfg) then Some t else None
  | None => None
  end.

(** The messages of the log that are live at [now]. *)
Definition live (cfg : TopicConfig X) (now : Time) (a : topic_log) : list (DmqMessage X) :=
  filter (unexpired (cf_TTL cfg) now) (map snd (al_log a)).

(** What a message must satisfy on its own. *)
Definition validated (cfg : TopicConfig X) (now : Time) (msg : DmqMessage X)
  : result (DmqMessage X) :=
  m ← normalizeAndValidateMessage msg;
  check (validateMessageTTL m now (cf_TTL cfg))
    (if ac_Required (cf_Authentication cfg)
     then check (ErrNew <$> VerifyMessage (ac_Authenticator (cf_Authentication cfg)) m) (Ok m)
     else Ok m).

Definition spec_commit (cfg : TopicConfig X) (a : topic_log) (now : Time) (m : DmqMessage X)
  : topic_log * option error :=
  if al_closed a then (a, Some (ErrVar ErrManagerClosed))
  else
    let a := mkLog (al_log a) (al_closed a) now in
    match in_window cfg now (last_accept (al_log a) (key_of m)) with
    | Some _ => (a, Some (ErrVar ErrDuplicateMessage))
    | None =>
        if Z.of_nat (length (live cfg now a)) >=? qc_MaxMessages (cf_Queue cfg)
        then (a, Some (ErrVar ErrQueueFull))
        else (mkLog (al_log a ++ [(now, cloneMessage m)]) (al_closed a) now, None)
    end.

Definition spec_step (cfg : TopicConfig X) (a : topic_log) (o : op) : topic_log * obs :=
  match o with
  | OpSubmit now1 now2 msg _ _ =>
      match validated cfg now1 msg with
      | Err e => (a, ObsError (Some e))
      | Ok m => let '(a', e) := spec_commit cfg a now2 m in (a', ObsError e)
      end
  | OpIDs now max => (a, ObsIDs (limit max (omap summary (live cfg now a))))
  | OpFetch now ids =>
      (a, ObsMessages
            (map cloneMessage
               (filter (fun m => key_of m ∈ map go_string ids) (live cfg now a))))
  | OpHasSeen id =>
      (a, ObsSeen (bool_decide
                     (is_Some (in_window cfg (al_last a) (last_accept (al_log a) (go_string id))))))
  | OpSubscribe => (a, ObsUnit)
  | OpUnsubscribe _ => (a, ObsUnit)
  | OpClose => (mkLog (al_log a) true (al_last a), ObsUnit)
  end.

Fixpoint spec_run (cfg : TopicConfig X) (a : topic_log) (ops : list op) : list obs :=
  match ops with
  | [] => []
  | o :: ops' => let '(a', ob) := spec_step cfg a o in ob :: spec_run cfg a' ops'
  end.

(* ------------------------------------------------------------------ *)
(** ** The implementation, on the same operations *)

Definition impl_step (t : topicRuntime X) (o : op) : option (topicRuntime X * obs) :=
  match o with
  | OpSubmit now1 now2 msg source peer =>
      '(t', _, e, _) ← submitSigned t now1 now2 (Some msg) source peer;
      Some (t', ObsError e)
  | OpIDs now max => let '(t', ids) := messageIDs t now max in Some (t', ObsIDs ids)
  | OpFetch now ids => let '(t', ms) := messagesByIDs t now ids in Some (t', ObsMessages ms)
  | OpHasSeen id => Some (t, ObsSeen (hasSeen t id))
  | OpSubscribe => '(t', _) ← subscribe t; Some (t', ObsUnit)
  | OpUnsubscribe id => t' ← unsubscribe t id; Some (t', ObsUnit)
  | OpClose => t' ← close t; Some (t', ObsUnit)
  end.

Fixpoint impl_run (t : topicRuntime X) (ops : list op) : option (list obs) :=
  match ops with
  | [] => Some []
  | o :: ops' => '(t', ob) ← impl_step t o; rest ← impl_run t' ops'; Some (ob :: rest)
  end.

(** The clock after an operation that started with the clock at [clock], and
    that its readings do not go backwards. *)
Definition clock_after (clock : Time) (o : op) : Time :=
  match o with
  | OpSubmit _ now2 _ _ _ => now2
  | OpIDs now _ | OpFetch now _ => now
  | _ => clock
  end.

Definition clock_ok (clock : Time) (o : op) : Prop :=
  match o with
  | OpSubmit now1 now2 _ _ _ => clock <= now1 /\ now1 <= now2
  | OpIDs now _ | OpFetch now _ => clock <= now
  | _ => True
  end.

Fixpoint clocks_ok (clock : Time) (ops : list op) : Prop :=
  match ops with
  | [] => True
  | o :: ops' => clock_ok clock o /\ clocks_ok (clock_after clock o) ops'
  end.

(* ------------------------------------------------------------------ *)
(** ** The simulation relation *)

Record simulates (cfg : TopicConfig X) (clock : Time) (a : topic_log) (t : topicRuntime X)
  : Prop := {
  sim_inv : rt_inv t;
  sim_cfg : rt_cfg t = cfg;
  sim_closed : rt_closed t = al_closed a;
  sim_last : al_log a = [] \/ al_last a <= clock;
  sim_seen : forall k, rt_seen t !! k = in_window cfg (al_last a) (last_accept (al_log a) k);
  sim_queue : forall now, clock <= now ->
    filter (unexpired (cf_TTL cfg) now) (rt_queue t) = live cfg now a;
  sim_past : Forall (fun m => exists t1, t1 <= clock /\ unexpired (cf_TTL cfg) t1 m)
               (rt_queue t)
}.

Lemma last_accept_snoc log now m k :
  last_accept (log ++ [(now, m)]) k
  = if bool_decide (key_of m = k) then Some now else last_accept log k.
Proof.
  induction log as [|[at' m'] log IH]; simpl; [done|]. rewrite IH.
  by destruct (bool_decide (key_of m = k)).
Qed.

Lemma validated_spec t now msg :
  match submit_validate t now msg with
  | (m, None) => validated (rt_cfg t) now msg = Ok m
  | (_, Some (e, _)) => validated (rt_cfg t) now msg = Err e
  end.
Proof.
  unfold submit_validate, validated. destruct (normalizeAndValidateMessage msg); simpl; [|done].
  destruct (validateMessageTTL _ _ _); simpl; [done|].
  destruct (ac_Required _); [|done]. by destruct (VerifyMessage _ _).
Qed.

(** Pruning at [now] moves the clock to [now]. *)
Lemma filter_later policy now now' (q : list (DmqMessage X)) :
  now <= now' -> Forall (fun m => exists t1, t1 <= now /\ unexpired policy t1 m) q ->
  filter (unexpired policy now') (filter (unexpired policy now) q)
  = filter (unexpired policy now') q.
Proof.
  intros Hle. induction 1 as [|m q (t1 & Ht1 & Hu) _ IH]; [done|].
  rewrite (filter_cons (unexpired policy now)). case_decide as Hn.
  - rewrite !filter_cons, IH. done.
  - rewrite filter_cons_False; [done|]. intros Hn'. apply Hn. by apply (unexpired_interval _ m t1 now now').
Qed.

Lemma past_later policy clock clock' (q : list (DmqMessage X)) :
  clock <= clock' ->
  Forall (fun m => exists t1, t1 <= clock /\ unexpired policy t1 m) q ->
  Forall (fun m => exists t1, t1 <= clock' /\ unexpired policy t1 m) q.
Proof.
  intros Hle Hq. eapply Forall_impl; [exact Hq|]. intros m (t1 & ? & ?).
  exists t1. split; [lia|done].
Qed.

Lemma in_window_prune cfg last now o :
  last <= now -> in_window cfg now (in_window cfg last o) = in_window cfg now o.
Proof.
  intros Hle. destruct o as [t|]; simpl; [|done].
  destruct (Time_Sub last t <=? _) eqn:E; simpl; [done|]. zbool.
  pose proof (Time_Sub_mono_l _ _ t Hle).
  destruct (Time_Sub now t <=? _) eqn:E'; [|done]. zbool. lia.
Qed.

Lemma simulates_seen_pruned cfg clock a t now k :
  simulates cfg clock a t -> clock <= now ->
  rt_seen (pruneSeenLocked t now) !! k = in_window cfg now (last_accept (al_log a) k).
Proof.
  intros Hs Hle. pose proof (sim_inv _ _ _ _ Hs) as Ht.
  pose proof (ok_duplicate _ (inv_cfg _ Ht)) as Hd.
  assert (rt_seen (pruneSeenLocked t now) !! k = in_window cfg now (rt_seen t !! k)) as ->.
  { apply option_eq. intros s. rewrite pruneSeenLocked_lookup, (sim_cfg _ _ _ _ Hs) by done.
    unfold in_window. destruct (rt_seen t !! k) as [t0|]; [|naive_solver].
    destruct (_ <=? _) eqn:E; zbool; naive_solver lia. }
  rewrite (sim_seen _ _ _ _ Hs). destruct (sim_last _ _ _ _ Hs) as [->|Hl]; [done|].
  apply in_window_prune. lia.
Qed.

Lemma simulates_later cfg clock clock' a t :
  clock <= clock' -> simulates cfg clock a t -> simulates cfg clock' a t.
Proof.
  intros Hle [? ? ? Hlast ? Hqs Hpast]. split; auto.
  - destruct Hlast; [by left|right; lia].
  - intros now Hn. apply Hqs. lia.
  - by eapply past_later.
Qed.

(** The specification does not see the subscribers. *)
Lemma simulates_frame cfg clock a t t' :
  simulates cfg clock a t -> rt_inv t' -> rt_cfg t' = rt_cfg t -> rt_closed t' = rt_closed t ->
  rt_queue t' = rt_queue t -> rt_seen t' = rt_seen t -> simulates cfg clock a t'.
Proof.
  intros [] Ht' Hcfg Hcl Hq Hseen. split; try congruence; try done;
    intros; rewrite ?Hq, ?Hseen; auto.
Qed.

(** A pruned topic simulates the same log at the new clock. *)
Lemma simulates_pruneQueue cfg clock a t now :
  simulates cfg clock a t -> clock <= now -> simulates cfg now a (pruneQueueLocked t now).
Proof.
  intros Hs Hle. pose proof (pruneQueueLocked_inv _ now (sim_inv _ _ _ _ Hs)) as Hinv.
  pose proof (past_later _ _ now _ Hle (sim_past _ _ _ _ Hs)) as Hp.
  rewrite pruneQueueLocked_spec in *.
  destruct Hs as [_ Hcfg Hcl Hlast Hseen Hq _]. split; simpl in *; auto.
  - destruct Hlast; [by left|right; lia].
  - intros now' Hle'. rewrite Hcfg, filter_later by done. apply Hq. lia.
  - rewrite Hcfg. apply Forall_forall. intros m [_ Hm]%list_elem_of_filter.
    by eapply Forall_forall in Hp.
Qed.

Lemma simulates_pruned cfg clock a t now :
  simulates cfg clock a t -> clock <= now ->
  simulates cfg now (mkLog (al_log a) (al_closed a) now) (pruned t now).
Proof.
  intros Hs Hle. pose proof (simulates_pruneQueue _ _ _ _ _ Hs Hle) as Hp.
  pose proof (simulates_seen_pruned cfg clock a t now) as Hseen.
  destruct Hp as [_ Hcfg Hcl _ _ Hq Hpast]. rewrite pruneQueueLocked_spec in Hcfg, Hcl, Hq, Hpast.
  split; simpl in *; auto; [|by right].
  apply pruned_inv. apply Hs.
Qed.

(** The critical section of a submission follows the specification. *)
Lemma simulates_commit cfg clock a t now1 now2 m env :
  simulates cfg clock a t -> clock <= now1 -> now1 <= now2 -> unexpired (cf_TTL cfg) now1 m ->
  exists t' err evs, submit_commit t now2 m env = Some (t', err, evs) /\
    err = (spec_commit cfg a now2 m).2 /\
    simulates cfg now2 (spec_commit cfg a now2 m).1 t'.
Proof.
  intros Hs H1 H2 Hu. assert (clock <= now2) as Hle by lia.
  pose proof (simulates_pruned _ _ _ _ _ Hs Hle) as Hp.
  destruct (submit_commit_spec t now2 m env (sim_inv _ _ _ _ Hs)) as (t' & err & evs & Heq & Hc).
  exists t', err, evs. split; [done|].
  pose proof (committed_inv _ _ _ _ _ _ _ (sim_inv _ _ _ _ Hs) Hc) as Hinv.
  pose proof (simulates_seen_pruned cfg clock a t now2 (key_of m) Hs Hle) as Hk.
  pose proof (sim_queue _ _ _ _ Hp now2 ltac:(lia)) as Hq. simpl in Hq.
  rewrite (sim_cfg _ _ _ _ Hs), filter_idem in Hq.
  unfold spec_commit. cbv zeta. rewrite <-Hq. cbn [al_log al_closed]. rewrite <-Hk.
  pose proof (sim_closed _ _ _ _ Hs) as Hcl.
  destruct Hc as [Hc|at' Hc Hsn|Hc Hsn Hf|subs' Hc Hsn Hf Hm]; rewrite Hc in Hcl;
    rewrite <-Hcl in *; simpl in *.
  - split; [done|]. by apply simulates_later with clock.
  - by rewrite Hsn.
  - rewrite Hsn. rewrite (sim_cfg _ _ _ _ Hs) in Hf.
    destruct (_ >=? _) eqn:E; zbool; [done|lia].
  - rewrite Hsn. rewrite (sim_cfg _ _ _ _ Hs) in Hf.
    destruct (_ >=? _) eqn:E; zbool; [lia|]. simpl. split; [done|].
    destruct Hp as [_ Hcfg _ _ Hseen Hqs Hpast]. split; simpl in *; auto; [by right|..].
    + intros k. rewrite last_accept_snoc, key_of_clone. case_bool_decide as Hkk.
      * subst k. rewrite lookup_insert_eq. unfold in_window.
        pose proof (ok_duplicate _ (inv_cfg _ (sim_inv _ _ _ _ Hs))) as Hd.
        rewrite (sim_cfg _ _ _ _ Hs) in Hd.
        destruct (_ <=? _) eqn:E'; [done|]. zbool.
        rewrite Time_Sub_exact in E'; unfold is_i64; lia.
      * rewrite lookup_insert_ne by done. apply Hseen.
    + intros now Hn. unfold live in *. simpl. rewrite map_app, !filter_app. simpl.
      f_equal. by apply Hqs.
    + apply Forall_app. split; [done|]. apply Forall_singleton.
      exists now1. split; [done|]. by apply unexpired_clone.
Qed.

(** One operation: same observation, related states. *)
Lemma simulates_step cfg clock a t o :
  simulates cfg clock a t -> clock_ok clock o ->
  exists t', impl_step t o = Some (t', (spec_step cfg a o).2) /\
    simulates cfg (clock_after clock o) (spec_step cfg a o).1 t'.
Proof.
  intros Hs Hok. pose proof (sim_inv _ _ _ _ Hs) as Ht.
  destruct o as [now1 now2 msg source peer|now max|now ids|id| |id|];
    cbn [impl_step spec_step clock_ok clock_after fst snd] in *.
  - destruct Hok as [H1 H2]. unfold submitSigned.
    pose proof (validated_spec t now1 msg) as Hv. rewrite (sim_cfg _ _ _ _ Hs) in Hv.
    destruct (submit_validate t now1 msg) as [m [[e evs]|]] eqn:Hsv; rewrite Hv.
    { eexists. split; [done|]. apply simulates_later with clock; [simpl; lia|done]. }
    apply submit_validate_None in Hsv as (_ & Hu & _). rewrite (sim_cfg _ _ _ _ Hs) in Hu.
    destruct (simulates_commit cfg clock a t now1 now2 m
      (make_envelope t m source peer now2)) as (t' & err & evs & -> & -> & Hs'); [done..|].
    destruct (spec_commit cfg a now2 m). simpl in *. eauto.
  - rewrite messageIDs_spec, (sim_cfg _ _ _ _ Hs), (sim_queue _ _ _ _ Hs) by done.
    eexists. split; [done|]. by apply simulates_pruneQueue with clock.
  - rewrite messagesByIDs_spec, (sim_cfg _ _ _ _ Hs). eexists.
    split; [|by apply simulates_pruneQueue with clock].
    rewrite <-(sim_queue _ _ _ _ Hs) by done. do 4 f_equal.
    rewrite list_filter_filter. apply list_filter_iff. tauto.
  - eexists. split; [|done]. unfold hasSeen. by rewrite (sim_seen _ _ _ _ Hs).
  - destruct (subscribe_total t Ht) as (t' & -> & Ht' & ? & ? & ? & ?).
    eexists. split; [done|]. by apply simulates_frame with t.
  - destruct (unsubscribe_inv t id Ht) as (t' & -> & Ht' & Hd). eexists. split; [done|].
    apply simulates_frame with t; try done; destruct (rt_subscribers t !! id); naive_solver.
  - destruct (close_inv t Ht) as (t' & -> & Ht' & Hd). eexists. split; [done|].
    destruct Hs as [? ? Hcl ? ? ? ?].
    destruct (rt_closed t) eqn:Hc; [subst t'; by split|].
    destruct Hd as (subs' & _ & ->). by split.
Qed.

Lemma simulates_run cfg clock a t ops :
  simulates cfg clock a t -> clocks_ok clock ops ->
  impl_run t ops = Some (spec_run cfg a ops).
Proof.
  revert clock a t. induction ops as [|o ops IH]; intros clock a t Hs Hok; [done|].
  destruct Hok as [Ho Hok]. cbn [impl_run spec_run].
  destruct (simulates_step _ _ _ _ _ Hs Ho) as (t' & -> & Hs').
  destruct (spec_step cfg a o) as [a' ob]. simpl in *. by rewrite (IH _ _ _ Hs' Hok).
Qed.

Lemma simulates_new name cfg clock :
  topic_config_ok cfg -> simulates cfg clock (mkLog [] false clock) (newTopicRuntime name cfg).
Proof. intros Hc. split; try done; [by apply newTopicRuntime_inv|by left]. Qed.

(** C2: Refinement: from creation on, under any sequence of operations whose
    clock readings do not go backwards, the topic never panics and answers
    exactly as the append-only log does: duplicates are the IDs accepted within
    DuplicateTTL, the queue is the unexpired part of the log, whatever the
    subscribers do. *)
Theorem topic_refines_log name cfg clock ops :
  topic_config_ok cfg -> clocks_ok clock ops ->
  impl_run (newTopicRuntime name cfg) ops = Some (spec_run cfg (mkLog [] false clock) ops).
Proof. intros Hc Hok. by eapply simulates_run; [apply simulates_new|]. Qed.

End spec.

(** Two messages, a duplicate inside the window, one after it, a full queue,
    an expiry. *)
Definition ex_ops : list (@op unit) :=
  [OpSubscribe; OpSubmit (sec 10) (sec 10) ex_msg1 MessageSourceLocal None;
   OpSubmit (sec 20) (sec 21) ex_msg1 MessageSourceRemote None;
   OpIDs (sec 30) 0; OpSubmit (sec 40) (sec 40) ex_msg2 MessageSourceLocal None;
   OpSubmit (sec 50) (sec 50) (toy_msg [x64] 900) MessageSourceLocal None;
   OpHasSeen (msg_ID (ex_identified ex_msg1)); OpFetch (sec 1200) [msg_ID (ex_identified ex_msg2)];
   OpClose; OpSubmit (sec 1300) (sec 1300) ex_msg2 MessageSourceLocal None].

Lemma topic_refines_log_witness :
  impl_run (ex_topic 2 1) ex_ops
  = Some (spec_run (ex_config 2 1) (mkLog [] false (sec 0)) ex_ops).
Proof.
  apply (topic_refines_log "t" (ex_config 2 1) (sec 0) ex_ops).
  - apply defaultTopicConfig_ok.
  - unfold ex_ops, sec, Time_of_Unix, Second. simpl. lia.
Defined.
