(* ===== verification/TopicSteps.v ===== *)
(** * Concurrent use of a topic

    Goroutines submit, subscribe, receive and close at the same time. The
    mutex makes the critical sections atomic, but a submission validates and
    reads the clock before it takes the lock, a subscription is numbered and
    allocated before it is registered, and Subscription.Close marks itself
    before it unsubscribes. The system state holds what is under way between
    those points; an action is one atomic section; the reachable states are
    those of all interleavings.

    The state also records history: the accepted envelopes in the order of
    their critical sections, each with the latest clock reading any submission
    had committed with by then, and what each subscription has received. *)

From S2P Require Import Prelude Errors Types Clone Concrete Payload Peers Ledger Config Topic TopicFacts Examples.

Section system.
Context {X : Type} `{WireLaws X}.

(** A validated submission that waits for the lock. *)
Record pending := mkPending {
  pd_msg : DmqMessage X;
  pd_env : Message X;
  pd_now : Time
}.

Record entry := mkEntry {
  le_msg : DmqMessage X;
  le_env : Message X;
  le_at : Time;
  le_clock : Time
}.

Record sys := mkSys {
  sy_rt : topicRuntime X;
  sy_pending : list pending;
  sy_alloc : gset nat;
  sy_unsub : list Z;
  sy_log : list entry;
  sy_clock : option Time;
  sy_recv : gmap nat (list (Message X))
}.

Inductive action : Type :=
| ABegin (now1 now2 : Time) (msg : DmqMessage X) (source : MessageSource) (peer : option Peer)
| ACommit (i : nat)
| APrune (now : Time)
| AAlloc
| ARegister (h : nat)
| ACas (h : nat)
| AUnsub (i : nat)
| AClose
| AReceive (h : nat)
| ADiscover.

(** What an action does: it may not be possible in the state, panic, or
    complete. *)
Inductive outcome : Type :=
| Disabled
| Panic
| Next (s : sys).

Definition with_rt (s : sys) (t : topicRuntime X) : sys :=
  mkSys t (sy_pending s) (sy_alloc s) (sy_unsub s) (sy_log s) (sy_clock s) (sy_recv s).

Definition or_panic (o : option sys) : outcome :=
  match o with Some s => Next s | None => Panic end.

Definition received (s : sys) (h : nat) : list (Message X) := default [] (sy_recv s !! h).

Definition later (c : option Time) (now : Time) : Time :=
  match c with Some c => Z.max c now | None => now end.

(** The critical section of one submission, with the history. *)
Definition commit_step (s : sys) (i : nat) (p : pending) : option sys :=
  '(t', err, _) ← submit_commit (sy_rt s) (pd_now p) (pd_msg p) (pd_env p);
  let clock := later (sy_clock s) (pd_now p) in
  Some (mkSys t' (delete i (sy_pending s)) (sy_alloc s) (sy_unsub s)
          (match err with
           | None => sy_log s ++ [mkEntry (pd_msg p) (pd_env p) (pd_now p) clock]
           | Some _ => sy_log s
           end)
          (Some clock) (sy_recv s)).

Definition sys_step (s : sys) (a : action) : outcome :=
  let t := sy_rt s in
  match a with
  | ABegin now1 now2 msg source peer =>
      match submit_validate t now1 msg with
      | (m, None) =>
          Next (mkSys t (sy_pending s ++ [mkPending m (make_envelope t m source peer now2) now2])
                  (sy_alloc s) (sy_unsub s) (sy_log s) (sy_clock s) (sy_recv s))
      | (_, Some _) => Disabled
      end
  | ACommit i =>
      match sy_pending s !! i with
      | Some p => or_panic (commit_step s i p)
      | None => Disabled
      end
  | APrune now => Next (with_rt s (pruneQueueLocked t now))
  | AAlloc =>
      let '(t', h) := subscribe_alloc t in
      Next (mkSys t' (sy_pending s) ({[h]} ∪ sy_alloc s) (sy_unsub s) (sy_log s) (sy_clock s)
              (sy_recv s))
  | ARegister h =>
      if bool_decide (h ∈ sy_alloc s) then
        or_panic (t' ← subscribe_register t h;
                  Some (mkSys t' (sy_pending s) (sy_alloc s ∖ {[h]}) (sy_unsub s) (sy_log s)
                          (sy_clock s) (sy_recv s)))
      else Disabled
  | ACas h =>
      if bool_decide (h ∈ sy_alloc s) then Disabled
      else
        match rt_subs t !! h, close_cas t h with
        | Some sub, Some t' =>
            Next (mkSys t' (sy_pending s) (sy_alloc s) (su_id sub :: sy_unsub s) (sy_log s)
                    (sy_clock s) (sy_recv s))
        | _, _ => Disabled
        end
  | AUnsub i =>
      match sy_unsub s !! i with
      | Some id =>
          or_panic (t' ← unsubscribe t id;
                    Some (mkSys t' (sy_pending s) (sy_alloc s) (delete i (sy_unsub s))
                            (sy_log s) (sy_clock s) (sy_recv s)))
      | None => Disabled
      end
  | AClose => or_panic (t' ← close t; Some (with_rt s t'))
  | AReceive h =>
      match receive t h with
      | Some (t', Some v) =>
          Next (mkSys t' (sy_pending s) (sy_alloc s) (sy_unsub s) (sy_log s) (sy_clock s)
                  (<[h := received s h ++ [v]]> (sy_recv s)))
      | Some (t', None) => Next (with_rt s t')
      | None => Disabled
      end
  | ADiscover => Next (with_rt s (discoverPeers t).1.1)
  end.

Definition sys_init (name : string) (cfg : TopicConfig X) : sys :=
  mkSys (newTopicRuntime name cfg) [] ∅ [] [] None ∅.

Inductive reachable (name : string) (cfg : TopicConfig X) : sys -> Prop :=
| reach_init : reachable name cfg (sys_init name cfg)
| reach_step s a s' : reachable name cfg s -> sys_step s a = Next s' -> reachable name cfg s'.

Fixpoint sys_exec (s : sys) (acts : list action) : outcome :=
  match acts with
  | [] => Next s
  | a :: acts' =>
      match sys_step s a with
      | Next s' => sys_exec s' acts'
      | o => o
      end
  end.

Lemma reachable_exec name cfg s acts s' :
  reachable name cfg s -> sys_exec s acts = Next s' -> reachable name cfg s'.
Proof.
  revert s. induction acts as [|a acts IH]; intros s Hs; simpl; [by intros [= <-]|].
  destruct (sys_step s a) as [| |s1] eqn:E; try done. intros He.
  apply (IH s1); [|done]. by apply reach_step with s a.
Qed.

(* ------------------------------------------------------------------ *)
(** ** The invariant, part by part *)

(** A message that passed validation at some time, up to copying. *)
Definition vetted (cfg : TopicConfig X) (m : DmqMessage X) : Prop :=
  exists m0 computed t1, msg_equiv m m0 /\
    len (pl_MessageBody (dm_Payload m0)) <= MaxMessageBodyBytes /\
    ComputeDmqMessageID (dm_Payload m0) = Ok computed /\
    content (msg_ID m0) = content computed /\
    unexpired (cf_TTL cfg) t1 m0 /\
    (ac_Required (cf_Authentication cfg) = true ->
     VerifyMessage (ac_Authenticator (cf_Authentication cfg)) m0 = None).

Definition vetted_inv (cfg : TopicConfig X) (s : sys) : Prop :=
  rt_cfg (sy_rt s) = cfg /\
  Forall (vetted cfg) (rt_queue (sy_rt s)) /\
  Forall (fun p => vetted cfg (pd_msg p) /\ vetted cfg (en_Message (pd_env p)) /\
                   en_ReceivedAt (pd_env p) = pd_now p /\
                   go_string (en_ID (pd_env p)) = key_of (pd_msg p)) (sy_pending s) /\
  Forall (fun e => vetted cfg (en_Message (le_env e)) /\
                   en_ReceivedAt (le_env e) = le_at e /\
                   go_string (en_ID (le_env e)) = key_of (le_msg e)) (sy_log s).

(** Nothing that was accepted within the window is forgotten. *)
Definition within (cfg : TopicConfig X) (now at' : Time) : Prop :=
  Time_Sub now at' <= qc_DuplicateTTL (cf_Queue cfg).

Definition seen_inv (cfg : TopicConfig X) (s : sys) : Prop :=
  rt_cfg (sy_rt s) = cfg /\
  (forall e c, e ∈ sy_log s -> sy_clock s = Some c -> within cfg c (le_at e) ->
     rt_seen (sy_rt s) !! key_of (le_msg e) = Some (le_at e)) /\
  (sy_clock s = None -> sy_log s = []) /\
  (forall i j e e', (i < j)%nat -> sy_log s !! i = Some e -> sy_log s !! j = Some e' ->
     key_of (le_msg e) = key_of (le_msg e') -> ~ within cfg (le_clock e') (le_at e)).

(** What a subscription has received, and what waits in its buffer, are
    accepted messages in the order of acceptance. *)
Definition delivery_inv (s : sys) : Prop :=
  (forall h sub, rt_subs (sy_rt s) !! h = Some sub ->
     sublist (received s h ++ ch_buf (su_C sub)) (map le_env (sy_log s))) /\
  (forall h, rt_subs (sy_rt s) !! h = None -> sy_recv s !! h = None).

(** Allocated subscriptions are open and not registered yet. *)
Definition alloc_inv (s : sys) : Prop :=
  forall h, h ∈ sy_alloc s ->
    exists sub, rt_subs (sy_rt s) !! h = Some sub /\ ch_closed (su_C sub) = false /\
      su_closed sub = false /\ forall id, rt_subscribers (sy_rt s) !! id <> Some h.

(** While fewer than 2^64 subscriptions were made: a returned subscription
    whose channel is open is registered; the channel of a subscription nobody
    closed is open as long as the topic is; what is to be unsubscribed was
    closed by its owner. *)
Definition lifecycle_inv (s : sys) : Prop :=
  Z.of_nat (length (rt_subs (sy_rt s))) < 2 ^ 64 ->
  (forall h sub, rt_subs (sy_rt s) !! h = Some sub -> h ∉ sy_alloc s ->
     ch_closed (su_C sub) = false -> rt_subscribers (sy_rt s) !! su_id sub = Some h) /\
  (forall h sub, rt_subs (sy_rt s) !! h = Some sub -> su_closed sub = false ->
     rt_closed (sy_rt s) = false -> ch_closed (su_C sub) = false) /\
  (forall id, id ∈ sy_unsub s -> exists h sub, rt_subs (sy_rt s) !! h = Some sub /\
     su_id sub = id /\ su_closed sub = true).

(* ------------------------------------------------------------------ *)
(** ** What the actions do, in states that satisfy the basic invariant *)

Definition base_inv (s : sys) : Prop := rt_inv (sy_rt s) /\ alloc_inv s.

Inductive stepped (s : sys) : sys -> Prop :=
| sd_begin now1 now2 msg m source peer :
    submit_validate (sy_rt s) now1 msg = (m, None) ->
    stepped s (mkSys (sy_rt s)
      (sy_pending s ++ [mkPending m (make_envelope (sy_rt s) m source peer now2) now2])
      (sy_alloc s) (sy_unsub s) (sy_log s) (sy_clock s) (sy_recv s))
| sd_commit i p t' err evs :
    sy_pending s !! i = Some p ->
    committed (sy_rt s) (pd_now p) (pd_msg p) (pd_env p) t' err evs ->
    stepped s (mkSys t' (delete i (sy_pending s)) (sy_alloc s) (sy_unsub s)
      (match err with
       | None => sy_log s ++ [mkEntry (pd_msg p) (pd_env p) (pd_now p)
                                (later (sy_clock s) (pd_now p))]
       | Some _ => sy_log s
       end) (Some (later (sy_clock s) (pd_now p))) (sy_recv s))
| sd_prune now :
    stepped s (with_rt s (set_queue (sy_rt s)
      (filter (unexpired (cf_TTL (rt_cfg (sy_rt s))) now) (rt_queue (sy_rt s)))))
| sd_alloc :
    stepped s (mkSys (subscribe_alloc (sy_rt s)).1 (sy_pending s)
      ({[length (rt_subs (sy_rt s))]} ∪ sy_alloc s) (sy_unsub s) (sy_log s) (sy_clock s)
      (sy_recv s))
| sd_register h sub :
    h ∈ sy_alloc s -> rt_subs (sy_rt s) !! h = Some sub -> ch_closed (su_C sub) = false ->
    rt_closed (sy_rt s) = false ->
    stepped s (mkSys
      (set_subscribers (sy_rt s) (<[su_id sub := h]> (rt_subscribers (sy_rt s))))
      (sy_pending s) (sy_alloc s ∖ {[h]}) (sy_unsub s) (sy_log s) (sy_clock s) (sy_recv s))
| sd_register_closed h sub :
    h ∈ sy_alloc s -> rt_subs (sy_rt s) !! h = Some sub -> rt_closed (sy_rt s) = true ->
    stepped s (mkSys
      (set_subs (sy_rt s)
         (<[h := mkSubscription (closed_chan (su_C sub)) (su_id sub) true]> (rt_subs (sy_rt s))))
      (sy_pending s) (sy_alloc s ∖ {[h]}) (sy_unsub s) (sy_log s) (sy_clock s) (sy_recv s))
| sd_cas h sub :
    h ∉ sy_alloc s -> rt_subs (sy_rt s) !! h = Some sub -> su_closed sub = false ->
    stepped s (mkSys
      (set_subs (sy_rt s)
         (<[h := mkSubscription (su_C sub) (su_id sub) true]> (rt_subs (sy_rt s))))
      (sy_pending s) (sy_alloc s) (su_id sub :: sy_unsub s) (sy_log s) (sy_clock s) (sy_recv s))
| sd_unsub_gone i id :
    sy_unsub s !! i = Some id -> rt_subscribers (sy_rt s) !! id = None ->
    stepped s (mkSys (sy_rt s) (sy_pending s) (sy_alloc s) (delete i (sy_unsub s)) (sy_log s)
      (sy_clock s) (sy_recv s))
| sd_unsub i id h sub :
    sy_unsub s !! i = Some id -> rt_subscribers (sy_rt s) !! id = Some h ->
    rt_subs (sy_rt s) !! h = Some sub ->
    stepped s (mkSys
      (set_subs (set_subscribers (sy_rt s) (delete id (rt_subscribers (sy_rt s))))
         (<[h := set_C sub (closed_chan (su_C sub))]> (rt_subs (sy_rt s))))
      (sy_pending s) (sy_alloc s) (delete i (sy_unsub s)) (sy_log s) (sy_clock s) (sy_recv s))
| sd_close subs' :
    rt_closed (sy_rt s) = false ->
    mapped closed_chan (subscriber_handles (sy_rt s)) (rt_subs (sy_rt s)) subs' ->
    stepped s (with_rt s (set_subscribers (set_subs (set_closed (sy_rt s) true) subs') ∅))
| sd_receive h sub v rest :
    rt_subs (sy_rt s) !! h = Some sub -> ch_buf (su_C sub) = v :: rest ->
    stepped s (mkSys
      (set_subs (sy_rt s)
         (<[h := set_C sub (mkChan (ch_cap (su_C sub)) rest (ch_closed (su_C sub)))]>
            (rt_subs (sy_rt s))))
      (sy_pending s) (sy_alloc s) (sy_unsub s) (sy_log s) (sy_clock s)
      (<[h := received s h ++ [v]]> (sy_recv s)))
| sd_selector sel :
    selector_ok sel -> stepped s (with_rt s (set_peerSelector (sy_rt s) sel))
| sd_same : stepped s (with_rt s (sy_rt s)).

Lemma discoverPeers_selector (t : topicRuntime X) :
  rt_inv t -> exists sel, selector_ok sel /\ (discoverPeers t).1.1 = set_peerSelector t sel.
Proof.
  intros Ht. pose proof (inv_selector _ Ht) as Hs. unfold discoverPeers.
  assert (t = set_peerSelector t (rt_peerSelector t)) as Heq by (by destruct t).
  repeat case_match; simpl; eauto using setPeersForSources_ok.
Qed.

Lemma sys_step_spec s a :
  base_inv s ->
  match sys_step s a with
  | Disabled => True
  | Panic => False
  | Next s' => stepped s s' /\ rt_inv (sy_rt s')
  end.
Proof.
  intros [Ht Ha]. destruct a as [now1 now2 msg src peer|i|now| |h|h|i| |h|]; cbn [sys_step].
  - destruct (submit_validate _ _ _) as [m [?|]] eqn:E; [done|]. split; [by econstructor|done].
  - destruct (sy_pending s !! i) as [p|] eqn:E; [|done]. unfold commit_step.
    destruct (submit_commit_spec (sy_rt s) (pd_now p) (pd_msg p) (pd_env p) Ht)
      as (t' & err & evs & -> & Hc). simpl. split; [by eapply sd_commit|by eapply committed_inv].
  - rewrite pruneQueueLocked_spec. split; [apply sd_prune|].
    rewrite <-pruneQueueLocked_spec. by apply pruneQueueLocked_inv.
  - split; [apply sd_alloc|by apply subscribe_alloc_inv].
  - case_bool_decide as Hh; [|done]. destruct (Ha h Hh) as (sub & Hs & Ho & _).
    destruct (subscribe_register_inv _ _ _ Ht Hs Ho) as (t' & -> & Ht' & Hd). simpl.
    split; [|done]. destruct (rt_closed (sy_rt s)) eqn:Hc; subst t'; by econstructor.
  - case_bool_decide as Hh; [done|].
    destruct (rt_subs (sy_rt s) !! h) as [sub|] eqn:Hs; [|done].
    destruct (close_cas (sy_rt s) h) as [t'|] eqn:Hc; [|done].
    split; [|by eapply close_cas_inv]. unfold close_cas in Hc. rewrite Hs in Hc. simpl in Hc.
    destruct (su_closed sub) eqn:Hcl; [done|]. simplify_eq. by apply sd_cas.
  - destruct (sy_unsub s !! i) as [id|] eqn:Hi; [|done].
    destruct (unsubscribe_inv _ id Ht) as (t' & -> & Ht' & Hd). simpl. split; [|done].
    destruct (rt_subscribers (sy_rt s) !! id) as [h|] eqn:Hid.
    + destruct Hd as (sub & Hs & ->). by eapply sd_unsub.
    + subst t'. by eapply sd_unsub_gone.
  - destruct (close_inv _ Ht) as (t' & -> & Ht' & Hd). simpl. split; [|done].
    destruct (rt_closed (sy_rt s)) eqn:Hc; [subst t'; apply sd_same|].
    destruct Hd as (subs' & Hm & ->). by apply sd_close.
  - destruct (receive (sy_rt s) h) as [[t' v]|] eqn:Hr; [|done].
    pose proof (receive_inv _ _ _ _ Ht Hr) as Ht'. unfold receive in Hr.
    destruct (rt_subs (sy_rt s) !! h) as [sub|] eqn:Hs; [|done]. simpl in Hr.
    destruct (ch_buf (su_C sub)) as [|v' rest] eqn:Hb; simplify_eq/=.
    + destruct (ch_closed (su_C sub)); simplify_eq. split; [apply sd_same|done].
    + split; [by apply sd_receive|done].
  - destruct (discoverPeers_selector _ Ht) as (sel & Hsel & Heq).
    pose proof (discoverPeers_inv _ Ht) as Hi. rewrite Heq in *. split; [by apply sd_selector|done].
Qed.

Lemma committed_subs t now msg env t' err evs h :
  committed t now msg env t' err evs -> h ∉ subscriber_handles t ->
  rt_subs t' !! h = rt_subs t !! h.
Proof.
  intros Hc Hh. destruct Hc as [| | |subs' ? ? ? [Hlen Hm]]; try done. simpl.
  destruct (rt_subs t !! h) as [s|] eqn:Hs.
  - by rewrite (Hm _ _ Hs), bool_decide_false by done.
  - apply lookup_ge_None. apply lookup_ge_None in Hs. lia.
Qed.

Lemma committed_frame t now msg env t' err evs :
  committed t now msg env t' err evs ->
  rt_subscribers t' = rt_subscribers t /\ rt_cfg t' = rt_cfg t /\ rt_closed t' = rt_closed t /\
  length (rt_subs t') = length (rt_subs t).
Proof. intros Hc. destruct Hc as [| | |subs' ? ? ? [Hlen Hm]]; simpl; auto. Qed.

Lemma not_handle t h :
  (forall id, rt_subscribers t !! id <> Some h) -> h ∉ subscriber_handles (X:=X) t.
Proof. rewrite elem_of_handles. naive_solver. Qed.

Ltac step_cases Hst :=
  destruct Hst as [now1 now2 msg m src peer Hv|i p t' err evs Hpend Hcom|now| |h sub Hal Hsub Ho Hcl
    |h sub Hal Hsub Hcl|h sub Hal Hsub Hcl|i id Hi Hgone|i id h sub Hi Hid Hsub|subs' Hcl Hm
    |h sub v rest Hsub Hb|sel Hsel|]; simpl in *.

Lemma alloc_preserved s s' : base_inv s -> stepped s s' -> alloc_inv s'.
Proof.
  intros [Ht Ha] Hst h' Hh'. step_cases Hst; try by apply Ha.
  - destruct (Ha h' Hh') as (sub & Hs & Ho & Hcl & Hn).
    destruct (committed_frame _ _ _ _ _ _ _ Hcom) as (-> & _).
    rewrite (committed_subs _ _ _ _ _ _ _ _ Hcom) by (by apply not_handle). eauto.
  - apply elem_of_union in Hh' as [->%elem_of_singleton|Hh'].
    + exists (fresh_sub (sy_rt s)). split; [apply subscribe_alloc_fresh|]. split_and!; [done..|].
      intros id Hid. destruct (inv_subscribers _ Ht _ _ Hid) as (s0 & Hs0 & _).
      apply lookup_lt_Some in Hs0. lia.
    + destruct (Ha h' Hh') as (sub & Hs & Hrest). exists sub. split; [|done].
      by apply lookup_app_l_Some.
  - apply elem_of_difference in Hh' as [Hh' Hne%not_elem_of_singleton].
    destruct (Ha h' Hh') as (sub' & Hs' & Ho' & Hc' & Hn). exists sub'. split_and!; [done..|].
    intros id [[_ ?]|[_ ?]]%lookup_insert_Some; naive_solver.
  - apply elem_of_difference in Hh' as [Hh' Hne%not_elem_of_singleton].
    rewrite (lookup_insert_present _ _ _ _ _ Hsub), decide_False by done. by apply Ha.
  - rewrite (lookup_insert_present _ _ _ _ _ Hsub), decide_False by congruence. by apply Ha.
  - destruct (Ha h' Hh') as (sub' & Hs' & Ho' & Hc' & Hn). exists sub'.
    rewrite (lookup_insert_present _ _ _ _ _ Hsub), decide_False by congruence.
    split_and!; [done..|]. intros id' [_ ?]%lookup_delete_Some. naive_solver.
  - destruct (Ha h' Hh') as (sub' & Hs' & Ho' & Hc' & Hn). exists sub'.
    rewrite (proj2 Hm _ _ Hs'), bool_decide_false by (by apply not_handle). done.
  - destruct (Ha h' Hh') as (sub' & Hs' & Ho' & Hc' & Hn).
    rewrite (lookup_insert_present _ _ _ _ _ Hsub). case_decide; [subst h'|by eauto].
    simplify_eq. eexists. split; [done|]. done.
Qed.

Lemma base_reachable name cfg s :
  topic_config_ok cfg -> reachable name cfg s -> base_inv s.
Proof.
  intros Hcfg. induction 1 as [|s a s' _ IH Hst].
  - split; [by apply newTopicRuntime_inv|]. intros h Hh. set_solver.
  - pose proof (sys_step_spec s a IH) as Hs. rewrite Hst in Hs. destruct Hs as [Hs Ht].
    split; [done|]. by eapply alloc_preserved.
Qed.

(** Rule induction with the basic invariant at hand. *)
Lemma reachable_inv (P : sys -> Prop) name cfg :
  topic_config_ok cfg -> P (sys_init name cfg) ->
  (forall s s', base_inv s -> base_inv s' -> P s -> stepped s s' -> P s') ->
  forall s, reachable name cfg s -> P s.
Proof.
  intros Hcfg Hinit Hstep. induction 1 as [|s a s' Hr IH Hst]; [done|].
  pose proof (base_reachable _ _ _ Hcfg Hr) as Hb.
  pose proof (sys_step_spec s a Hb) as Hs. rewrite Hst in Hs. destruct Hs as [Hs Ht].
  eapply (Hstep s); [done| |done|done]. split; [done|]. by eapply alloc_preserved.
Qed.

(* ------------------------------------------------------------------ *)
(** ** Vetting *)

Lemma vetted_equiv cfg m m' : msg_equiv m m' -> vetted cfg m' -> vetted cfg m.
Proof.
  intros He (m0 & c & t1 & He' & Hrest). exists m0, c, t1. split; [by transitivity m'|done].
Qed.

Lemma validate_vetted t now msg m :
  submit_validate t now msg = (m, None) -> vetted (rt_cfg t) m.
Proof.
  intros (Hn & Hu & Ha)%submit_validate_None.
  destruct (normalize_Ok _ _ Hn) as (Hb & c & Hc & Hid & _ & id & ->).
  exists (SetMessageID id msg), c, now. split; [reflexivity|].
  rewrite SetMessageID_body, Compute_SetMessageID. done.
Qed.

Lemma filter_vetted cfg (P : DmqMessage X -> Prop) `{!forall m, Decision (P m)} q :
  Forall (vetted cfg) q -> Forall (vetted cfg) (filter P q).
Proof.
  intros Hq. apply Forall_forall. intros m [_ Hm]%list_elem_of_filter.
  by eapply Forall_forall in Hq.
Qed.

Lemma committed_queue_vetted cfg t now msg env t' err evs :
  committed t now msg env t' err evs -> Forall (vetted cfg) (rt_queue t) -> vetted cfg msg ->
  Forall (vetted cfg) (rt_queue t').
Proof.
  intros Hc Hq Hm. destruct Hc; simpl; try done; try by apply filter_vetted.
  apply Forall_app. split; [by apply filter_vetted|]. apply Forall_singleton.
  apply (vetted_equiv _ _ msg); [apply cloneMessage_equiv|done].
Qed.

Lemma vetted_preserved cfg s s' :
  base_inv s -> vetted_inv cfg s -> stepped s s' -> vetted_inv cfg s'.
Proof.
  intros _ (Hcfg & Hq & Hp & Hl) Hst. unfold vetted_inv.
  step_cases Hst; try (by split_and!).
  - split_and!; try done. apply Forall_app. split; [done|]. apply Forall_singleton.
    apply validate_vetted in Hv. rewrite Hcfg in Hv. simpl. split_and!; try done.
    + apply (vetted_equiv _ _ m); [apply cloneMessage_equiv|done].
    + by rewrite cloneBytes_id.
  - destruct (proj1 (Forall_lookup _ _) Hp _ _ Hpend) as (Hm & He & Hr & Hk).
    destruct (committed_frame _ _ _ _ _ _ _ Hcom) as (_ & -> & _).
    split_and!; [done|..].
    + by eapply committed_queue_vetted.
    + by apply Forall_delete.
    + destruct err; [done|]. apply Forall_app. split; [done|]. by apply Forall_singleton.
  - split_and!; try done. by apply filter_vetted.
Qed.

(* ------------------------------------------------------------------ *)
(** ** Duplicate suppression *)

Lemma within_mono cfg c c' at' : c <= c' -> within cfg c' at' -> within cfg c at'.
Proof. intros Hle. unfold within. pose proof (Time_Sub_mono_l c c' at' Hle). lia. Qed.

Lemma seen_before cfg s e now :
  seen_inv cfg s -> e ∈ sy_log s -> within cfg (later (sy_clock s) now) (le_at e) ->
  rt_seen (sy_rt s) !! key_of (le_msg e) = Some (le_at e) /\ within cfg now (le_at e).
Proof.
  intros (_ & Hseen & Hnil & _) He Hw. destruct (sy_clock s) as [c|] eqn:Hc; simpl in Hw.
  - split; [apply (Hseen e c); try done|]; apply (within_mono _ _ (Z.max c now)); (done || lia).
  - rewrite Hnil in He by done. by apply not_elem_of_nil in He.
Qed.

Lemma seen_before_pruned cfg s e now :
  rt_inv (sy_rt s) -> seen_inv cfg s -> e ∈ sy_log s ->
  within cfg (later (sy_clock s) now) (le_at e) ->
  rt_seen (pruneSeenLocked (sy_rt s) now) !! key_of (le_msg e) = Some (le_at e).
Proof.
  intros Ht Hs He Hw. destruct (seen_before _ _ _ _ Hs He Hw) as [Hk Hn].
  apply pruneSeenLocked_lookup; [apply ok_duplicate, (inv_cfg _ Ht)|].
  destruct Hs as (-> & _). done.
Qed.

Lemma seen_preserved cfg s s' :
  base_inv s -> seen_inv cfg s -> stepped s s' -> seen_inv cfg s'.
Proof.
  intros [Ht _] Hs Hst. pose proof Hs as (Hcfg & Hseen & Hnil & Hdup).
  step_cases Hst; try (by split_and!).
  destruct (committed_frame _ _ _ _ _ _ _ Hcom) as (_ & Hcfg' & _).
  split; [simpl; congruence|].
  destruct Hcom as [| | |subs' Hcl Hk Hl Hm]; simpl.
  - split_and!; try done. intros e c He [= <-] Hw. by eapply seen_before.
  - split_and!; try done. intros e c He [= <-] Hw. by eapply seen_before_pruned.
  - split_and!; try done. intros e c He [= <-] Hw. by eapply seen_before_pruned.
  - split_and!; try done.
    + intros e c [He| ->%list_elem_of_singleton]%elem_of_app [= <-] Hw; simpl in *;
        [|by rewrite lookup_insert_eq].
      pose proof (seen_before_pruned _ _ _ _ Ht Hs He Hw) as Hse.
      rewrite lookup_insert_ne; [done|congruence].
    + intros i' j e e' Hij Hi Hj Hkey.
      apply lookup_snoc_Some in Hj as [[Hj Hj']|[-> <-]].
      * apply (Hdup i' j); try done. rewrite lookup_app_l in Hi; [done|lia].
      * rewrite lookup_app_l in Hi by done. simpl in *. intros Hw.
        apply list_elem_of_lookup_2 in Hi.
        pose proof (seen_before_pruned _ _ _ _ Ht Hs Hi Hw). congruence.
Qed.

(* ------------------------------------------------------------------ *)
(** ** Delivery *)

Lemma sent_sublist (rcv : list (Message X)) (c : chan X) log env :
  sublist (rcv ++ ch_buf c) log -> sublist (rcv ++ ch_buf (sent env c)) (log ++ [env]).
Proof.
  intros Hs. unfold sent. destruct (_ <? _); simpl.
  - rewrite app_assoc. by apply sublist_app.
  - by apply sublist_inserts_r.
Qed.

(** Changing a subscription but not its buffer. *)
Lemma delivery_insert s h sub sub' :
  delivery_inv s -> rt_subs (sy_rt s) !! h = Some sub ->
  ch_buf (su_C sub') = ch_buf (su_C sub) ->
  (forall h' x, <[h := sub']> (rt_subs (sy_rt s)) !! h' = Some x ->
     sublist (received s h' ++ ch_buf (su_C x)) (map le_env (sy_log s))) /\
  (forall h', <[h := sub']> (rt_subs (sy_rt s)) !! h' = None -> sy_recv s !! h' = None).
Proof.
  intros [Hd Hn] Hs Hb. split; intros h' *; rewrite (lookup_insert_present _ _ _ _ _ Hs);
    case_decide; try done; [|by apply Hd|by apply Hn].
  subst. intros [= <-]. rewrite Hb. by apply Hd.
Qed.

Lemma delivery_preserved s s' :
  base_inv s -> delivery_inv s -> stepped s s' -> delivery_inv s'.
Proof.
  intros [Ht _] Hdel Hst. pose proof Hdel as [Hd Hn]. unfold received in Hd.
  step_cases Hst; try (by apply Hdel); unfold delivery_inv, received; simpl.
  - destruct (committed_frame _ _ _ _ _ _ _ Hcom) as (_ & _ & _ & Hlen). split.
    + intros h sub Hs. destruct Hcom as [| | |subs' Hcl Hk Hl Hm]; simpl in *; try by apply Hd.
      apply (mapped_inv _ _ _ _ _ _ Hm) in Hs as (s0 & Hs0 & ->).
      rewrite map_app. simpl. case_bool_decide; simpl.
      * by apply sent_sublist, Hd.
      * by apply sublist_inserts_r, Hd.
    + intros h Hh%lookup_ge_None. apply Hn, lookup_ge_None. lia.
  - split.
    + intros h sub [Hs|[Hh Hs]]%lookup_app_Some; [by apply Hd|].
      apply list_lookup_singleton_Some in Hs as [Hz <-]. simpl.
      rewrite Hn; [apply sublist_nil_l|]. apply lookup_ge_None. lia.
    + intros h Hh%lookup_ge_None. rewrite length_app in Hh. apply Hn, lookup_ge_None. lia.
  - by apply (delivery_insert s h sub).
  - by apply (delivery_insert s h sub).
  - by apply (delivery_insert s h sub).
  - split.
    + intros h sub (s0 & Hs0 & ->)%(mapped_inv _ _ _ _ _ _ Hm). case_bool_decide; by apply (Hd _ _ Hs0).
    + intros h Hh%lookup_ge_None. apply Hn, lookup_ge_None. rewrite <-(proj1 Hm). done.
  - split; intros h'; rewrite (lookup_insert_present _ _ _ _ _ Hsub).
    + intros sub'. case_decide as Hh.
      * subst h'. intros [= <-]. rewrite lookup_insert_eq. simpl. rewrite <-app_assoc. simpl.
        rewrite <-Hb. by apply Hd.
      * rewrite lookup_insert_ne by done. by apply Hd.
    + case_decide; [done|]. intros Hh. rewrite lookup_insert_ne by done. by apply Hn.
Qed.

(* ------------------------------------------------------------------ *)
(** ** Subscription lifecycle *)

Lemma su_id_inj (t : topicRuntime X) h h' sub sub' :
  rt_inv t -> Z.of_nat (length (rt_subs t)) < 2 ^ 64 ->
  rt_subs t !! h = Some sub -> rt_subs t !! h' = Some sub' -> su_id sub = su_id sub' -> h = h'.
Proof.
  intros Ht Hb Hs Hs' Heq. pose proof (lookup_lt_Some _ _ _ Hs). pose proof (lookup_lt_Some _ _ _ Hs').
  rewrite (inv_ids _ Ht _ _ Hs), (inv_ids _ Ht _ _ Hs'), !u64_id in Heq; unfold is_u64; lia.
Qed.

(** The same subscription, with the same marks. *)
Definition same_marks (a b : Subscription X) : Prop :=
  su_id a = su_id b /\ su_closed a = su_closed b /\ ch_closed (su_C a) = ch_closed (su_C b).

(** The lifecycle does not depend on the buffers. *)
Lemma lifecycle_marks s s' :
  lifecycle_inv s -> sy_alloc s' = sy_alloc s -> sy_unsub s' = sy_unsub s ->
  rt_subscribers (sy_rt s') = rt_subscribers (sy_rt s) ->
  rt_closed (sy_rt s') = rt_closed (sy_rt s) ->
  length (rt_subs (sy_rt s')) = length (rt_subs (sy_rt s)) ->
  (forall h sub, rt_subs (sy_rt s) !! h = Some sub ->
     exists sub', rt_subs (sy_rt s') !! h = Some sub' /\ same_marks sub sub') ->
  lifecycle_inv s'.
Proof.
  intros Hl Ha Hu Hr Hc Hlen Hm Hb. rewrite Hlen in Hb. destruct (Hl Hb) as (L1 & L2 & L3).
  assert (Hback : forall h sub', rt_subs (sy_rt s') !! h = Some sub' ->
    exists sub, rt_subs (sy_rt s) !! h = Some sub /\ same_marks sub sub').
  { intros h sub' Hs'. destruct (lookup_lt_is_Some_2 (rt_subs (sy_rt s)) h) as [sub Hs].
    - rewrite <-Hlen. by eapply lookup_lt_Some.
    - exists sub. split; [done|]. destruct (Hm _ _ Hs). naive_solver. }
  rewrite Ha, Hu, Hr, Hc. split_and!.
  - intros h sub' (sub & Hs & <- & _ & <-)%Hback. by apply L1.
  - intros h sub' (sub & Hs & _ & <- & <-)%Hback. by apply (L2 h sub).
  - intros id (h & sub & Hs & Hi & Hcl)%L3. destruct (Hm _ _ Hs) as (sub' & Hs' & Hi' & Hc' & _).
    exists h, sub'. split_and!; congruence.
Qed.

(** Marking a subscription closed keeps what is to be unsubscribed marked. *)
Lemma closed_marks (subs : list (Subscription X)) h sub c (P : Z -> Prop) :
  subs !! h = Some sub ->
  (forall id, P id -> exists k x, subs !! k = Some x /\ su_id x = id /\ su_closed x = true) ->
  forall id, P id -> exists k x,
    <[h := mkSubscription c (su_id sub) true]> subs !! k = Some x /\ su_id x = id /\
    su_closed x = true.
Proof.
  intros Hs L3 id (k & x & Hx & Hi & Hc)%L3. exists k.
  rewrite (lookup_insert_present _ _ _ _ _ Hs). case_decide; [subst; simplify_eq|]; by eexists.
Qed.

Lemma lifecycle_alloc s : lifecycle_inv s ->
  lifecycle_inv (mkSys (subscribe_alloc (sy_rt s)).1 (sy_pending s)
    ({[length (rt_subs (sy_rt s))]} ∪ sy_alloc s) (sy_unsub s) (sy_log s) (sy_clock s) (sy_recv s)).
Proof.
  intros Hl Hb. simpl in Hb. rewrite length_app in Hb. destruct Hl as (L1 & L2 & L3); [lia|].
  unfold fresh_sub in *. split_and!; simpl.
  - intros h sub [Hs|[Hh Hs]]%lookup_app_Some Hal Ho; [apply L1; set_solver|].
    apply list_lookup_singleton_Some in Hs as [Hz <-]. set_unfold. lia.
  - intros h sub [Hs|[Hh Hs]]%lookup_app_Some; [by eapply L2|].
    by apply list_lookup_singleton_Some in Hs as [Hz <-].
  - intros id (h & sub & Hs & ?)%L3. exists h, sub. split; [by apply lookup_app_l_Some|done].
Qed.

(** Unregistering a subscription whose Close is under way. *)
Lemma lifecycle_unsub s i id h sub :
  rt_inv (sy_rt s) -> lifecycle_inv s ->
  sy_unsub s !! i = Some id -> rt_subscribers (sy_rt s) !! id = Some h ->
  rt_subs (sy_rt s) !! h = Some sub ->
  lifecycle_inv (mkSys
    (set_subs (set_subscribers (sy_rt s) (delete id (rt_subscribers (sy_rt s))))
       (<[h := set_C sub (closed_chan (su_C sub))]> (rt_subs (sy_rt s))))
    (sy_pending s) (sy_alloc s) (delete i (sy_unsub s)) (sy_log s) (sy_clock s) (sy_recv s)).
Proof.
  intros Ht Hl Hi Hid Hsub Hb. simpl in Hb. rewrite length_insert in Hb.
  destruct (Hl Hb) as (L1 & L2 & L3).
  destruct (inv_subscribers _ Ht _ _ Hid) as (sub0 & Hs0 & Hi0 & _).
  assert (sub0 = sub) as -> by congruence. subst id.
  destruct (L3 (su_id sub)) as (h0 & sub1 & Hs1 & Hi1 & Hc1); [by eapply list_elem_of_lookup_2|].
  assert (h0 = h) as -> by (by eapply su_id_inj).
  assert (sub1 = sub) as -> by congruence.
  split_and!; simpl.
  - intros h' sub'. rewrite (lookup_insert_present _ _ _ _ _ Hsub).
    case_decide as Hne; [by intros [= <-]|]. intros Hs' Hal' Ho'.
    rewrite lookup_delete_ne; [by apply L1|].
    intros Heq. by apply Hne, (su_id_inj (sy_rt s) h' h sub' sub).
  - intros h' sub'. rewrite (lookup_insert_present _ _ _ _ _ Hsub).
    case_decide as Hne; [intros [= <-]; simpl; congruence|by eapply L2].
  - intros id' Hid'. apply list_elem_of_delete_inv in Hid'.
    destruct (L3 id' Hid') as (h' & sub' & Hs' & Hrest).
    exists h'. rewrite (lookup_insert_present _ _ _ _ _ Hsub).
    case_decide; [subst; simplify_eq; by eexists|by eexists].
Qed.

Lemma lifecycle_preserved s s' :
  base_inv s -> lifecycle_inv s -> stepped s s' -> lifecycle_inv s'.
Proof.
  intros [Ht _] Hl Hst. step_cases Hst; try (by apply Hl).
  - destruct (committed_frame _ _ _ _ _ _ _ Hcom) as (Hr & _ & Hc & Hlen).
    apply (lifecycle_marks s); simpl; try done.
    intros h sub Hs. destruct Hcom as [| | |subs' Hcl Hk Hl' Hm]; simpl in *; try by exists sub.
    eexists. split; [by apply Hm|]. case_bool_decide; [|done].
    split_and!; try done. simpl. symmetry. apply sent_fields.
  - by apply lifecycle_alloc.
  - intros Hb. destruct (Hl Hb) as (L1 & L2 & L3). split_and!; simpl; [|done..].
    intros h' sub' Hs' Hal' Ho'. destruct (decide (h' = h)) as [->|Hne].
    + simplify_eq. apply lookup_insert_eq.
    + rewrite lookup_insert_ne; [apply L1; set_solver|].
      intros Heq. by apply Hne, (su_id_inj (sy_rt s) h' h sub' sub).
  - intros Hb. simpl in Hb. rewrite length_insert in Hb. destruct (Hl Hb) as (L1 & L2 & L3).
    split_and!; simpl.
    + intros h' sub'. rewrite (lookup_insert_present _ _ _ _ _ Hsub).
      case_decide; [naive_solver|]. intros ? ? ?. apply L1; set_solver.
    + congruence.
    + by eapply (closed_marks _ _ _ _ (.∈ sy_unsub s)).
  - intros Hb. simpl in Hb. rewrite length_insert in Hb. destruct (Hl Hb) as (L1 & L2 & L3).
    split_and!; simpl.
    + intros h' sub'. rewrite (lookup_insert_present _ _ _ _ _ Hsub).
      case_decide; [subst; intros [= <-]; by apply (L1 h sub)|by apply L1].
    + intros h' sub'. rewrite (lookup_insert_present _ _ _ _ _ Hsub).
      case_decide; [by intros [= <-]|by eapply L2].
    + intros id [->|Hid]%elem_of_cons; [|by eapply (closed_marks _ _ _ _ (.∈ sy_unsub s))].
      exists h. rewrite (lookup_insert_present _ _ _ _ _ Hsub), decide_True by done. by eexists.
  - intros Hb. destruct (Hl Hb) as (L1 & L2 & L3). split_and!; simpl; try done.
    intros id' Hid'. by eapply L3, list_elem_of_delete_inv.
  - by eapply lifecycle_unsub.
  - intros Hb. simpl in Hb. rewrite (proj1 Hm) in Hb. destruct (Hl Hb) as (L1 & L2 & L3). split_and!; simpl; try done.
    + intros h' sub' (s0 & Hs0 & ->)%(mapped_inv _ _ _ _ _ _ Hm).
      case_bool_decide as Hh; [done|]. intros Hal Ho. destruct Hh. apply elem_of_handles.
      exists (su_id s0). by apply L1.
    + intros id (h & sub & Hs & Hi & Hc)%L3. exists h. rewrite (proj2 Hm _ _ Hs).
      eexists. split; [done|]. by case_bool_decide.
  - apply (lifecycle_marks s); simpl; try done; [apply length_insert|].
    intros h' sub' Hs'. rewrite (lookup_insert_present _ _ _ _ _ Hsub).
    case_decide; [subst; simplify_eq; by eexists|by eexists].
Qed.

(* ------------------------------------------------------------------ *)
(** ** What holds in every reachable state *)

(** C3: However submissions, subscriptions, receives and closes interleave, no
    action panics (no send on or close of a closed channel), the queue never
    exceeds MaxMessages and no subscriber buffer exceeds SubscriberBuffer. *)
Theorem concurrent_safety name cfg s :
  topic_config_ok cfg -> reachable name cfg s ->
  (forall a, sys_step s a <> Panic) /\
  Z.of_nat (length (rt_queue (sy_rt s))) <= qc_MaxMessages (cf_Queue (rt_cfg (sy_rt s))) /\
  Forall (fun sub => Z.of_nat (length (ch_buf (su_C sub)))
                     <= qc_SubscriberBuffer (cf_Queue (rt_cfg (sy_rt s)))) (rt_subs (sy_rt s)).
Proof.
  intros Hcfg Hr. pose proof (base_reachable _ _ _ Hcfg Hr) as Hb. split_and!.
  - intros a Hp. pose proof (sys_step_spec s a Hb) as Hs. by rewrite Hp in Hs.
  - apply Hb.
  - apply Forall_lookup. intros h sub Hs. destruct (inv_buffers _ (proj1 Hb) _ _ Hs) as [<- ?]. done.
Qed.

Lemma seen_reachable name cfg s :
  topic_config_ok cfg -> reachable name cfg s -> seen_inv cfg s.
Proof.
  intros Hcfg. revert s. apply reachable_inv; [done| |].
  - by split_and!.
  - intros s s' Hb _ Hs Hst. by eapply seen_preserved.
Qed.

Lemma lifecycle_reachable name cfg s :
  topic_config_ok cfg -> reachable name cfg s -> lifecycle_inv s.
Proof.
  intros Hcfg. revert s. apply reachable_inv; [done| |].
  - intros _. split_and!; try done. intros id Hin. by apply not_elem_of_nil in Hin.
  - intros s s' Hb _ Hs Hst. by eapply lifecycle_preserved.
Qed.

Lemma delivery_reachable name cfg s :
  topic_config_ok cfg -> reachable name cfg s -> delivery_inv s.
Proof.
  intros Hcfg. revert s. apply reachable_inv; [done|by split|].
  intros s s' Hb _ Hs Hst. by eapply delivery_preserved.
Qed.

Lemma vetted_reachable name cfg s :
  topic_config_ok cfg -> reachable name cfg s -> vetted_inv cfg s.
Proof.
  intros Hcfg. revert s. apply reachable_inv; [done|by split_and!|].
  intros s s' Hb _ Hs Hst. by eapply vetted_preserved.
Qed.

(** A submission reads the clock before it takes the lock, so that the lock can
    be taken out of the order of the clocks. [in_order d]: the submission that
    commits read its clock at most [d] before the latest reading of those that
    committed already. *)
Definition in_order (d : Z) (s : sys) (a : action) : bool :=
  match a with
  | ACommit i =>
      match sy_pending s !! i, sy_clock s with
      | Some p, Some c => c - d <=? pd_now p
      | _, _ => true
      end
  | _ => true
  end.

Inductive reachable_within (d : Z) (name : string) (cfg : TopicConfig X) : sys -> Prop :=
| within_init : reachable_within d name cfg (sys_init name cfg)
| within_step s a s' : reachable_within d name cfg s -> in_order d s a = true ->
    sys_step s a = Next s' -> reachable_within d name cfg s'.

(** A schedule followed in that order. *)
Fixpoint sys_exec_within (d : Z) (s : sys) (acts : list action) : outcome :=
  match acts with
  | [] => Next s
  | a :: acts' =>
      if in_order d s a then
        match sys_step s a with
        | Next s' => sys_exec_within d s' acts'
        | o => o
        end
      else Disabled
  end.

Lemma reachable_within_exec d name cfg s acts s' :
  reachable_within d name cfg s -> sys_exec_within d s acts = Next s' ->
  reachable_within d name cfg s'.
Proof.
  revert s. induction acts as [|a acts IH]; intros s Hs; simpl; [by intros [= <-]|].
  destruct (in_order d s a) eqn:Ho; [|done].
  destruct (sys_step s a) as [| |s1] eqn:E; try done. intros He.
  apply (IH s1); [|done]. by apply within_step with s a.
Qed.

Lemma within_reachable d name cfg s : reachable_within d name cfg s -> reachable name cfg s.
Proof. induction 1; econstructor; eauto. Qed.

Lemma skew_mono d d' name cfg s :
  d <= d' -> reachable_within d name cfg s -> reachable_within d' name cfg s.
Proof.
  intros Hd. induction 1 as [|s a s' _ IH Ho Hst]; [constructor|].
  apply within_step with s a; [done| |done]. unfold in_order in *.
  repeat case_match; try done. zbool. apply Z.leb_le. lia.
Qed.

(** Every reachable state is so within some bound. *)
Lemma reachable_within_some name cfg s :
  reachable name cfg s -> exists d, 0 <= d /\ reachable_within d name cfg s.
Proof.
  induction 1 as [|s a s' _ (d & Hd & IH) Hst]; [exists 0; split; [done|constructor]|].
  assert (exists d', d <= d' /\ in_order d' s a = true) as (d' & Hle & Ho).
  { unfold in_order. destruct a; try by exists d.
    destruct (sy_pending s !! i) as [p|], (sy_clock s) as [c|]; try by exists d.
    exists (Z.max d (c - pd_now p)). split; [lia|]. apply Z.leb_le. lia. }
  exists d'. split; [lia|]. apply within_step with s a; [|done|done].
  by apply (skew_mono d d').
Qed.

(** Only a commit adds to the log, and at most one entry. *)
Lemma step_log s a s' :
  sys_step s a = Next s' ->
  sy_log s' = sy_log s \/
  exists i p, a = ACommit i /\ sy_pending s !! i = Some p /\
    sy_log s' = sy_log s ++ [mkEntry (pd_msg p) (pd_env p) (pd_now p) (later (sy_clock s) (pd_now p))].
Proof.
  destruct a; simpl; intros Hst; unfold or_panic in Hst.
  2:{ destruct (sy_pending s !! i) as [p|] eqn:Hp; [|done]. unfold commit_step in Hst.
      destruct (submit_commit _ _ _ _) as [[[t' err] evs]|]; simplify_eq/=.
      destruct err; [by left|]. right. by exists i, p. }
  all: left; unfold mbind, option_bind in Hst; simplify_eq/=; repeat (case_match; simplify_eq/=); done.
Qed.

Lemma within_log d name cfg s :
  0 <= d -> reachable_within d name cfg s ->
  Forall (fun e => le_clock e - d <= le_at e <= le_clock e) (sy_log s).
Proof.
  intros Hd. induction 1 as [|s a s' _ IH Ho Hst]; [constructor|].
  destruct (step_log s a s' Hst) as [->|(i & p & -> & Hp & ->)]; [done|].
  apply Forall_app. split; [done|]. apply Forall_singleton. simpl in *. rewrite Hp in Ho.
  unfold later. destruct (sy_clock s) as [c|]; zbool; lia.
Qed.

(** C8: Two acceptances of one message ID are more than DuplicateTTL apart, up
    to the disorder of the clocks. The lock can be taken out of the order in
    which the clock was read; when no submission commits with a clock reading
    more than [d] older than one that committed before it, the acceptance times
    are more than DuplicateTTL - [d] apart (with clocks in the order of the
    lock, more than DuplicateTTL), and from the first of them to the latest
    clock reading committed with at the second it is more than DuplicateTTL
    whatever [d] is. *)
Theorem duplicates_outside_window d name cfg s i j e e' :
  topic_config_ok cfg -> 0 <= d -> reachable_within d name cfg s ->
  (i < j)%nat -> sy_log s !! i = Some e -> sy_log s !! j = Some e' ->
  key_of (le_msg e) = key_of (le_msg e') ->
  qc_DuplicateTTL (cf_Queue cfg) - d < le_at e' - le_at e /\
  qc_DuplicateTTL (cf_Queue cfg) < Time_Sub (le_clock e') (le_at e).
Proof.
  intros Hcfg Hd Hw Hij Hi Hj Hk. pose proof (within_reachable _ _ _ _ Hw) as Hr.
  assert (qc_DuplicateTTL (cf_Queue cfg) < Time_Sub (le_clock e') (le_at e)) as Hlt.
  { apply Z.nle_gt. destruct (seen_reachable _ _ _ Hcfg Hr) as (_ & _ & _ & Hdup). by eapply Hdup. }
  split; [|done]. pose proof (Forall_lookup_1 _ _ _ _ (within_log _ _ _ _ Hd Hw) Hj) as He.
  pose proof (ok_duplicate _ Hcfg). unfold Time_Sub, min_i64 in Hlt. simpl in He. lia.
Qed.

(** C11: What a subscription has received so far, followed by what its buffer
    holds, is a subsequence of the accepted messages in the order they were
    accepted: nothing is invented, reordered or delivered twice. *)
Theorem delivery_in_order name cfg s h sub :
  topic_config_ok cfg -> reachable name cfg s -> rt_subs (sy_rt s) !! h = Some sub ->
  sublist (received s h ++ ch_buf (su_C sub)) (map le_env (sy_log s)).
Proof.
  intros Hcfg Hr Hs. by apply (delivery_reachable _ _ _ Hcfg Hr).
Qed.

(** C12: As long as fewer than 2^64 subscriptions were made: on an open topic a
    subscription that subscribe returned and nobody closed has an open channel
    and is registered for delivery; once the topic is closed nobody is
    registered and the channel of every returned subscription is closed. *)
Theorem subscription_lifecycle name cfg s h sub :
  topic_config_ok cfg -> reachable name cfg s ->
  Z.of_nat (length (rt_subs (sy_rt s))) < 2 ^ 64 ->
  rt_subs (sy_rt s) !! h = Some sub -> h ∉ sy_alloc s ->
  if rt_closed (sy_rt s)
  then rt_subscribers (sy_rt s) = ∅ /\ ch_closed (su_C sub) = true
  else su_closed sub = false ->
       ch_closed (su_C sub) = false /\ rt_subscribers (sy_rt s) !! su_id sub = Some h.
Proof.
  intros Hcfg Hr Hb Hs Hal. pose proof (base_reachable _ _ _ Hcfg Hr) as [Ht _].
  destruct (lifecycle_reachable _ _ _ Hcfg Hr Hb) as (L1 & L2 & _). destruct (rt_closed (sy_rt s)) eqn:Hc.
  - pose proof (inv_closed _ Ht Hc) as He. split; [done|]. apply not_false_is_true.
    intros Ho. specialize (L1 _ _ Hs Hal Ho). by rewrite He in L1.
  - intros Hcl. assert (ch_closed (su_C sub) = false) by (by eapply L2). auto.
Qed.

(** C13: Every queued message, and every envelope ever accepted, carries the ID
    computed from its payload, a body of at most 2000 bytes, passed the TTL
    check at some time and, when the topic requires authentication, passed the
    authenticator. *)
Theorem accepted_are_vetted name cfg s :
  topic_config_ok cfg -> reachable name cfg s ->
  Forall (vetted cfg) (rt_queue (sy_rt s)) /\
  Forall (fun e => vetted cfg (en_Message (le_env e)) /\
                   en_ReceivedAt (le_env e) = le_at e /\
                   go_string (en_ID (le_env e)) = key_of (le_msg e)) (sy_log s).
Proof.
  intros Hcfg Hr. by destruct (vetted_reachable _ _ _ Hcfg Hr) as (_ & Hq & _ & Hl).
Qed.

End system.
Arguments pending X : clear implicits.
Arguments entry X : clear implicits.
Arguments sys X : clear implicits.
Arguments action X : clear implicits.
Arguments outcome X : clear implicits.

(* ------------------------------------------------------------------ *)
(** ** Witnesses *)

(** Two submissions of one message race; one wins. After the duplicate window
    the message is accepted again. A second message is dropped for the slow
    subscriber; then everything is closed. *)
Definition ex_actions : list (action unit) :=
  [AAlloc; AAlloc; ARegister 1; ARegister 0;
   ABegin (sec 10) (sec 11) ex_msg1 MessageSourceLocal None;
   ABegin (sec 10) (sec 10) ex_msg1 MessageSourceRemote None;
   ACommit 1; ACommit 0;
   ABegin (sec 700) (sec 700) ex_msg1 MessageSourceRemote None; ACommit 0;
   AReceive 0; ACas 1; APrune (sec 700)].

Definition ex_state : sys unit :=
  match sys_exec (sys_init "t" (ex_config 3 1)) ex_actions with
  | Next s => s
  | _ => sys_init "t" (ex_config 3 1)
  end.

Lemma ex_reachable : reachable "t" (ex_config 3 1) ex_state.
Proof.
  apply (reachable_exec "t" (ex_config 3 1) (sys_init "t" (ex_config 3 1)) ex_actions).
  - apply reach_init.
  - by vm_compute.
Qed.

Lemma ex_config_ok max buf : topic_config_ok (ex_config max buf).
Proof. apply defaultTopicConfig_ok. Qed.

Lemma concurrent_safety_witness :
  (forall a, sys_step ex_state a <> Panic) /\
  Z.of_nat (length (rt_queue (sy_rt ex_state))) <= 3.
Proof.
  destruct (concurrent_safety _ _ _ (ex_config_ok 3 1) ex_reachable) as (Hp & Hq & _).
  exact (conj Hp Hq).
Defined.

(** The same schedule, in the order of the clocks. *)
Lemma ex_reachable_within : reachable_within 0 "t" (ex_config 3 1) ex_state.
Proof.
  apply (reachable_within_exec 0 "t" (ex_config 3 1) (sys_init "t" (ex_config 3 1)) ex_actions).
  - constructor.
  - by vm_compute.
Qed.

Lemma duplicates_outside_window_witness :
  qc_DuplicateTTL (cf_Queue (ex_config 3 1)) - 0 < sec 700 - sec 10 /\
  qc_DuplicateTTL (cf_Queue (ex_config 3 1)) < Time_Sub (sec 700) (sec 10).
Proof.
  refine (duplicates_outside_window 0 _ _ ex_state 0 1
    (mkEntry (ex_identified ex_msg1)
       (make_envelope (ex_topic 3 1) (ex_identified ex_msg1) MessageSourceRemote None (sec 10))
       (sec 10) (sec 10))
    (mkEntry (ex_identified ex_msg1)
       (make_envelope (ex_topic 3 1) (ex_identified ex_msg1) MessageSourceRemote None (sec 700))
       (sec 700) (sec 700)) (ex_config_ok 3 1) _ ex_reachable_within _ _ _ _);
    [lia|lia|by vm_compute|by vm_compute|by vm_compute].
Defined.

Lemma delivery_in_order_witness :
  exists sub, rt_subs (sy_rt ex_state) !! 0%nat = Some sub /\
    sublist (received ex_state 0 ++ ch_buf (su_C sub)) (map le_env (sy_log ex_state)).
Proof.
  destruct (rt_subs (sy_rt ex_state) !! 0%nat) as [sub|] eqn:E.
  - exists sub. split; [done|].
    exact (delivery_in_order _ _ _ _ _ (ex_config_ok 3 1) ex_reachable E).
  - by vm_compute in E.
Defined.

Lemma subscription_lifecycle_witness :
  exists sub, rt_subs (sy_rt ex_state) !! 0%nat = Some sub /\
    rt_subscribers (sy_rt ex_state) !! su_id sub = Some 0%nat.
Proof.
  destruct (rt_subs (sy_rt ex_state) !! 0%nat) as [sub|] eqn:E; [|by vm_compute in E].
  exists sub. split; [done|].
  pose proof (subscription_lifecycle "t" (ex_config 3 1) ex_state 0 sub (ex_config_ok 3 1)
    ex_reachable) as Hl.
  assert (rt_closed (sy_rt ex_state) = false) as Hc by (by vm_compute).
  rewrite Hc in Hl. apply Hl; [by vm_compute|done| |].
  - apply (bool_decide_eq_false_1 (0%nat ∈ sy_alloc ex_state)). by vm_compute.
  - assert (su_closed <$> rt_subs (sy_rt ex_state) !! 0%nat = Some false) as Hx by (by vm_compute).
    rewrite E in Hx. by injection Hx.
Defined.

Lemma accepted_are_vetted_witness : Forall (vetted (ex_config 3 1)) (rt_queue (sy_rt ex_state)).
Proof. exact (proj1 (accepted_are_vetted _ _ _ (ex_config_ok 3 1) ex_reachable)). Defined.
