(* ===== verification/Sharing.v ===== *)
(** * Who shares which bytes (the copies made in topic.go)

    The other files treat a byte slice as its content. Here slices are
    references into arrays of a heap, so that it matters which arrays the
    caller of submitSigned, the subscribers, the hook and the peers that fetch
    messages can write to, and which only the queue refers to. Everything a
    message value holds besides its byte slices is copied by assignment and
    left out. How a message keeps its ID is the message library's business:
    ID and SetMessageID are an interface, [IdCalls], and [IdLaws] is what
    cloneMessage relies on, above all that SetMessageID stores copies.

    A slice given away exposes its whole array: Go lets its holder reslice it
    up to the array's capacity. *)

From S2P Require Import Prelude Errors Types Clone.
From stdpp Require Import relations fin_sets.
#[local] Open Scope Z_scope.

(* ------------------------------------------------------------------ *)
(** ** The heap *)

Abbreviation heap := (gmap nat (list byte)).

(** A slice that is not nil: an array, an offset and a length. *)
Record href := mkRef { rf_loc : nat; rf_off : nat; rf_len : nat }.

Definition hslice := option href.

(** The bytes a slice shows. *)
Definition read_ref (h : heap) (r : href) : list byte :=
  take (rf_len r) (drop (rf_off r) (default [] (h !! rf_loc r))).

Definition read (h : heap) (s : hslice) : slice := fmap (read_ref h) s.

(** make, and append to a nil slice: a new array. *)
Definition alloc (h : heap) (l : list byte) : heap * hslice :=
  let loc := fresh (dom h) in (<[loc := l]> h, Some (mkRef loc 0 (length l))).

(** cloneBytes: make and copy. *)
Definition h_cloneBytes (h : heap) (src : hslice) : heap * hslice :=
  match src with
  | None => (h, None)
  | Some r => alloc h (go_copy (make_bytes (rf_len r)) (read_ref h r))
  end.

(** The slices behind the ID of a DmqMessage: the payload's MessageID and what
    the library keeps besides. *)
Record hids := mkHIds { hi_MessageID : hslice; hi_private : hslice }.

(** The byte slices of a DmqMessage. *)
Record hmsg := mkHMsg {
  hm_ids : hids;
  hm_MessageBody : hslice;
  hm_KESSignature : hslice;
  hm_KESVerificationKey : hslice;
  hm_ColdSignature : hslice;
  hm_ColdVerificationKey : hslice
}.

(** ID and SetMessageID of the message library. *)
Class IdCalls := {
  lib_ID : heap -> hids -> heap * hslice;
  lib_SetMessageID : heap -> hids -> hslice -> heap * hids
}.

Definition h_cloneMessage `{IdCalls} (h : heap) (msg : hmsg) : heap * hmsg :=
  let '(h, id) := lib_ID h (hm_ids msg) in
  let '(h, ids) := lib_SetMessageID h (hm_ids msg) id in
  let '(h, body) := h_cloneBytes h (hm_MessageBody msg) in
  let '(h, sig) := h_cloneBytes h (hm_KESSignature msg) in
  let '(h, vkey) := h_cloneBytes h (hm_KESVerificationKey msg) in
  let '(h, coldSig) := h_cloneBytes h (hm_ColdSignature msg) in
  let '(h, coldKey) := h_cloneBytes h (hm_ColdVerificationKey msg) in
  (h, mkHMsg ids body sig vkey coldSig coldKey).

(** cloneBytes(msg.ID()) *)
Definition h_messageID `{IdCalls} (h : heap) (msg : hmsg) : heap * hslice :=
  let '(h, id) := lib_ID h (hm_ids msg) in h_cloneBytes h id.

(** The byte slices of an envelope. *)
Record henv := mkHEnv { he_Message : hmsg; he_ID : hslice; he_Body : hslice }.

(** The envelope submitSigned builds. *)
Definition h_envelope `{IdCalls} (h : heap) (msg : hmsg) : heap * henv :=
  let '(h, m) := h_cloneMessage h msg in
  let '(h, i) := h_messageID h msg in
  let '(h, b) := h_cloneBytes h (hm_MessageBody msg) in
  (h, mkHEnv m i b).

(** The same envelope goes to every subscriber. *)
Definition h_deliver (subs : list nat) (env : henv) : list (nat * henv) := map (fun ch => (ch, env)) subs.

(* ------------------------------------------------------------------ *)
(** ** What can be reached *)

Definition slice_locs (s : hslice) : gset nat := match s with Some r => {[rf_loc r]} | None => ∅ end.

Definition id_slices (ids : hids) : list hslice := [hi_MessageID ids; hi_private ids].

(** The slices that cloneMessage copies itself, and all of them. *)
Definition data_slices (m : hmsg) : list hslice :=
  [hm_MessageBody m; hm_KESSignature m; hm_KESVerificationKey m; hm_ColdSignature m; hm_ColdVerificationKey m].

Definition msg_slices (m : hmsg) : list hslice := id_slices (hm_ids m) ++ data_slices m.

Definition locs (l : list hslice) : gset nat := ⋃ (map slice_locs l).

Definition env_slices (e : henv) : list hslice := msg_slices (he_Message e) ++ [he_ID e; he_Body e].

(** Go's invariant on slices: they lie within their array. *)
Definition in_bounds (h : heap) (s : hslice) : Prop :=
  match s with
  | None => True
  | Some r => exists a, h !! rf_loc r = Some a /\ (rf_off r + rf_len r <= length a)%nat
  end.

Definition contents (h : heap) (l : list hslice) : list slice := map (read h) l.

(** The bytes that ID answers. *)
Definition id_content `{IdCalls} (h : heap) (ids : hids) : list byte :=
  let '(h', id) := lib_ID h ids in content (read h' id).

(** What a message says: its ID and the content of its other slices. *)
Definition msg_content `{IdCalls} (h : heap) (m : hmsg) : list byte * list slice :=
  (id_content h (hm_ids m), contents h (data_slices m)).

(** What is relied on: ID answers a slice, its own or a copy, and looks at the
    message's arrays only; SetMessageID gives the message new arrays that hold
    a copy of the ID. *)
Class IdLaws `{IdCalls} : Prop := {
  ID_answers h ids h' id : Forall (in_bounds h) (id_slices ids) -> lib_ID h ids = (h', id) ->
    h ⊆ h' /\ in_bounds h' id;
  ID_local h h' ids : (forall loc, loc ∈ locs (id_slices ids) -> h' !! loc = h !! loc) ->
    id_content h' ids = id_content h ids;
  SetMessageID_copies h ids id h' ids' : in_bounds h id -> lib_SetMessageID h ids id = (h', ids') ->
    h ⊆ h' /\ locs (id_slices ids') ## dom h /\ Forall (in_bounds h') (id_slices ids') /\
    id_content h' ids' = content (read h id)
}.

(** The heap, the queue (each message with what it held when it was accepted),
    the envelopes not delivered yet, and the arrays the world outside the
    topic can write to. *)
Record hstate := mkHState {
  hs_heap : heap;
  hs_queue : list (hmsg * (list byte * list slice));
  hs_pending : list henv;
  hs_outside : gset nat
}.

(** What can happen: the outside makes and writes arrays; submitSigned, in its
    two parts (the envelope before the lock, the rest under it, with a message
    the caller may have changed in between); messagesByIDs; messageIDs;
    pruning. *)
Inductive share_step `{IdCalls} : hstate -> hstate -> Prop :=
| share_alloc h q ps out l h' s :
    alloc h l = (h', s) ->
    share_step (mkHState h q ps out) (mkHState h' q ps (out ∪ slice_locs s))
| share_write h q ps out loc l :
    loc ∈ out -> fmap length (h !! loc) = Some (length l) ->
    share_step (mkHState h q ps out) (mkHState (<[loc := l]> h) q ps out)
| share_envelope h q ps out msg h' env :
    locs (msg_slices msg) ⊆ out -> Forall (in_bounds h) (msg_slices msg) ->
    h_envelope h msg = (h', env) ->
    share_step (mkHState h q ps out) (mkHState h' q (env :: ps) out)
| share_commit h q ps out msg env h' m :
    locs (msg_slices msg) ⊆ out -> Forall (in_bounds h) (msg_slices msg) ->
    env ∈ ps -> h_cloneMessage h msg = (h', m) ->
    share_step (mkHState h q ps out)
      (mkHState h' (q ++ [(m, msg_content h msg)]) ps (out ∪ locs (env_slices env)))
| share_fetch h q ps out msg c h' m :
    (msg, c) ∈ q -> h_cloneMessage h msg = (h', m) ->
    share_step (mkHState h q ps out) (mkHState h' q ps (out ∪ locs (msg_slices m)))
| share_announce h q ps out msg c h' id :
    (msg, c) ∈ q -> h_messageID h msg = (h', id) ->
    share_step (mkHState h q ps out) (mkHState h' q ps (out ∪ slice_locs id))
| share_prune h q q' ps out :
    q' `sublist_of` q -> share_step (mkHState h q ps out) (mkHState h q' ps out).

Definition share_init : hstate := mkHState ∅ [] [] ∅.

(* ------------------------------------------------------------------ *)
(** ** Copies *)

Lemma locs_cons s l : locs (s :: l) = slice_locs s ∪ locs l.
Proof. done. Qed.

Lemma slice_locs_Some r : slice_locs (Some r) = {[rf_loc r]}.
Proof. done. Qed.

Lemma in_bounds_mono h h' s : h ⊆ h' -> in_bounds h s -> in_bounds h' s.
Proof.
  destruct s as [r|]; [|done]. intros Hs (a & Ha & Hl). exists a. split; [|done].
  by eapply lookup_weaken.
Qed.

Lemma all_in_bounds_mono h h' l : h ⊆ h' -> Forall (in_bounds h) l -> Forall (in_bounds h') l.
Proof. intros Hs Hl. eapply Forall_impl; [exact Hl|]. intros s. by apply in_bounds_mono. Qed.

Lemma in_bounds_locs h l : Forall (in_bounds h) l -> locs l ⊆ dom h.
Proof.
  induction 1 as [|s l Hs _ IH]; [apply empty_subseteq|]. rewrite locs_cons. apply union_subseteq.
  split; [|done]. destruct s as [r|]; [|set_solver]. destruct Hs as (a & Ha & _). simpl.
  apply singleton_subseteq_l, elem_of_dom. by exists a.
Qed.

(** Heaps that agree on the arrays of [l]. *)
Lemma contents_agree h h' l :
  (forall loc, loc ∈ locs l -> h' !! loc = h !! loc) -> contents h' l = contents h l.
Proof.
  induction l as [|s l IH]; intros Hag; [done|]. simpl. rewrite IH.
  - f_equal. destruct s as [r|]; [|done]. simpl. unfold read_ref. rewrite Hag; [done|].
    rewrite locs_cons. apply elem_of_union_l. rewrite slice_locs_Some. set_solver.
  - intros loc Hl. apply Hag. rewrite locs_cons. by apply elem_of_union_r.
Qed.

Lemma contents_mono h h' l : h ⊆ h' -> Forall (in_bounds h) l -> contents h' l = contents h l.
Proof.
  intros Hs Hl. apply contents_agree. intros loc Hloc. apply (in_bounds_locs h l Hl) in Hloc.
  apply elem_of_dom in Hloc as [a Ha].
  transitivity (Some a); [by eapply lookup_weaken|done].
Qed.

(** [l'] are private copies, in [h'], of the slices [l] of [h]. *)
Record copies (h : heap) (l : list hslice) (h' : heap) (l' : list hslice) : Prop := {
  cp_heap : h ⊆ h';
  cp_fresh : locs l' ## dom h;
  cp_bounds : Forall (in_bounds h') l';
  cp_same : contents h' l' = contents h l
}.

Lemma alloc_spec h l h' s :
  alloc h l = (h', s) -> h ⊆ h' /\ slice_locs s ## dom h /\ in_bounds h' s /\ read h' s = Some l.
Proof.
  unfold alloc. intros [= <- <-]. pose proof (is_fresh (dom h)) as Hf. split_and!.
  - by apply insert_subseteq, not_elem_of_dom.
  - simpl. set_solver.
  - exists l. simpl. by rewrite lookup_insert_eq.
  - simpl. unfold read_ref. simpl. rewrite lookup_insert_eq. simpl. by rewrite firstn_all.
Qed.

Lemma read_ref_length h r : in_bounds h (Some r) -> length (read_ref h r) = rf_len r.
Proof.
  intros (a & Ha & Hl). unfold read_ref. rewrite Ha. simpl. rewrite length_take, length_drop. lia.
Qed.

Lemma h_cloneBytes_spec h s h' s' :
  in_bounds h s -> h_cloneBytes h s = (h', s') -> copies h [s] h' [s'].
Proof.
  intros Hb. unfold h_cloneBytes. destruct s as [r|].
  - pose proof (read_ref_length h r Hb) as Hlen.
    rewrite go_copy_same_length by (unfold make_bytes; by rewrite length_replicate).
    intros (H1 & H2 & H3 & H4)%alloc_spec. split; [done| | |].
    + rewrite locs_cons. apply disjoint_union_l. split; [done|apply disjoint_empty_l].
    + by constructor.
    + simpl. by rewrite H4.
  - intros [= <- <-]. split; [done|apply disjoint_empty_l|by repeat constructor|done].
Qed.

Lemma copies_nil h : copies h [] h [].
Proof. split; [done|apply disjoint_empty_l|constructor|done]. Qed.

Lemma copies_app h l1 h1 l1' l2 h2 l2' :
  Forall (in_bounds h) l2 -> copies h l1 h1 l1' -> copies h1 l2 h2 l2' ->
  copies h (l1 ++ l2) h2 (l1' ++ l2').
Proof.
  intros Hb [S1 F1 B1 C1] [S2 F2 B2 C2]. split.
  - by transitivity h1.
  - apply subseteq_dom in S1. unfold locs in *. rewrite map_app, union_list_app_L.
    apply disjoint_union_l. set_solver.
  - apply Forall_app. split; [by eapply all_in_bounds_mono|done].
  - unfold contents in *. rewrite !map_app, C2.
    change (contents h2 l1' ++ contents h1 l2 = contents h l1 ++ contents h l2).
    rewrite (contents_mono h1 h2 l1' S2 B1), (contents_mono h h1 l2 S1 Hb). unfold contents.
    by rewrite C1.
Qed.

Lemma copies_cons h s h1 s' l h2 l' :
  Forall (in_bounds h) (s :: l) -> h_cloneBytes h s = (h1, s') ->
  (Forall (in_bounds h1) l -> copies h1 l h2 l') -> copies h (s :: l) h2 (s' :: l').
Proof.
  intros [Hs Hl]%Forall_cons Hc Hrest. apply (h_cloneBytes_spec h s h1 s' Hs) in Hc.
  apply (copies_app h [s] h1 [s']); [done|done|]. apply Hrest.
  eapply all_in_bounds_mono; [apply Hc|done].
Qed.

(** What a step that adds arrays keeps. *)
Lemma agree_mono h h' l :
  h ⊆ h' -> Forall (in_bounds h) l -> forall loc, loc ∈ locs l -> h' !! loc = h !! loc.
Proof.
  intros Hs Hl loc Hloc. apply (in_bounds_locs h l Hl), elem_of_dom in Hloc as [a Ha].
  transitivity (Some a); [by eapply lookup_weaken|done].
Qed.

Lemma locs_app l l' : locs (l ++ l') = locs l ∪ locs l'.
Proof. unfold locs. by rewrite map_app, union_list_app_L. Qed.

Section library.
Context `{IdLaws}.

Lemma id_content_mono h h' ids :
  h ⊆ h' -> Forall (in_bounds h) (id_slices ids) -> id_content h' ids = id_content h ids.
Proof. intros Hs Hb. apply ID_local. by apply agree_mono. Qed.

Lemma msg_content_agree h h' m :
  (forall loc, loc ∈ locs (msg_slices m) -> h' !! loc = h !! loc) -> msg_content h' m = msg_content h m.
Proof.
  unfold msg_slices. rewrite locs_app. intros Hag. unfold msg_content. f_equal.
  - apply ID_local. intros loc Hl. apply Hag. by apply elem_of_union_l.
  - apply contents_agree. intros loc Hl. apply Hag. by apply elem_of_union_r.
Qed.

Lemma msg_content_mono h h' m :
  h ⊆ h' -> Forall (in_bounds h) (msg_slices m) -> msg_content h' m = msg_content h m.
Proof. intros Hs Hb. apply msg_content_agree. by apply agree_mono. Qed.

(** [m'] is, in [h'], a private copy of the message [m] of [h]. *)
Record msg_copy (h : heap) (m : hmsg) (h' : heap) (m' : hmsg) : Prop := {
  mc_heap : h ⊆ h';
  mc_fresh : locs (msg_slices m') ## dom h;
  mc_bounds : Forall (in_bounds h') (msg_slices m');
  mc_same : msg_content h' m' = msg_content h m
}.

Lemma msg_copy_dom h m h' m' : msg_copy h m h' m' -> locs (msg_slices m') ⊆ dom h'.
Proof. intros Hc. apply in_bounds_locs, Hc. Qed.

Lemma h_cloneMessage_spec h m h' m' :
  Forall (in_bounds h) (msg_slices m) -> h_cloneMessage h m = (h', m') -> msg_copy h m h' m'.
Proof.
  unfold h_cloneMessage. intros [Hi Hb]%Forall_app.
  destruct (lib_ID h _) as [h0 id] eqn:E0. destruct (ID_answers _ _ _ _ Hi E0) as [S0 B0].
  destruct (lib_SetMessageID h0 _ id) as [h1 ids] eqn:E1.
  destruct (SetMessageID_copies _ _ _ _ _ B0 E1) as (S1 & F1 & B1 & C1).
  assert (h ⊆ h1) as S01 by (by transitivity h0).
  pose proof (all_in_bounds_mono h h1 _ S01 Hb) as Hb1.
  destruct (h_cloneBytes h1 _) as [h2 s2] eqn:E2. destruct (h_cloneBytes h2 _) as [h3 s3] eqn:E3.
  destruct (h_cloneBytes h3 _) as [h4 s4] eqn:E4. destruct (h_cloneBytes h4 _) as [h5 s5] eqn:E5.
  destruct (h_cloneBytes h5 _) as [h6 s6] eqn:E6. intros [= <- <-].
  assert (copies h1 (data_slices m) h6 [s2; s3; s4; s5; s6]) as [S2 F2 B2 C2].
  { clear Hb. unfold data_slices in *.
    repeat (eapply copies_cons; [done|eassumption|]; clear Hb1; intros Hb1). apply copies_nil. }
  apply subseteq_dom in S01 as D01. apply subseteq_dom in S0 as D0. split.
  - by transitivity h1.
  - unfold msg_slices. rewrite locs_app. simpl. apply disjoint_union_l. split; set_solver.
  - apply Forall_app. split; [by eapply all_in_bounds_mono|done].
  - unfold msg_content. simpl. f_equal.
    + rewrite (id_content_mono h1 h6 ids S2 B1), C1. unfold id_content. by rewrite E0.
    + etrans; [exact C2|]. exact (contents_mono h h1 (data_slices m) S01 Hb).
Qed.

Lemma h_messageID_spec h m h' s :
  Forall (in_bounds h) (msg_slices m) -> h_messageID h m = (h', s) ->
  h ⊆ h' /\ slice_locs s ## dom h /\ in_bounds h' s /\ content (read h' s) = id_content h (hm_ids m).
Proof.
  unfold h_messageID, id_content. intros [Hi _]%Forall_app.
  destruct (lib_ID h _) as [h0 id] eqn:E0. destruct (ID_answers _ _ _ _ Hi E0) as [S0 B0].
  intros Hc%h_cloneBytes_spec; [|done]. destruct Hc as [S1 F1 B1 C1].
  apply subseteq_dom in S0 as D0. rewrite locs_cons in F1. apply Forall_cons in B1 as [B1 _].
  injection C1 as C1. split_and!; [by transitivity h0|set_solver|done|by rewrite C1].
Qed.

(** The slices of an envelope are new. *)
Lemma h_envelope_spec h m h' env :
  Forall (in_bounds h) (msg_slices m) -> h_envelope h m = (h', env) ->
  h ⊆ h' /\ locs (env_slices env) ## dom h /\ Forall (in_bounds h') (env_slices env).
Proof.
  unfold h_envelope, env_slices. intros Hm.
  destruct (h_cloneMessage h m) as [h1 m1] eqn:E1. destruct (h_messageID h1 m) as [h2 i2] eqn:E2.
  destruct (h_cloneBytes h2 (hm_MessageBody m)) as [h3 b3] eqn:E3. intros [= <- <-].
  apply (h_cloneMessage_spec _ _ _ _ Hm) in E1 as [S1 F1 B1 _].
  apply (all_in_bounds_mono h h1) in Hm as Hm1; [|done].
  apply (h_messageID_spec _ _ _ _ Hm1) in E2 as (S2 & F2 & B2 & _).
  assert (in_bounds h2 (hm_MessageBody m)) as Hb.
  { apply (all_in_bounds_mono h1 h2) in Hm1; [|done]. apply Forall_app in Hm1 as [_ Hm1].
    by apply Forall_cons in Hm1 as [? _]. }
  apply (h_cloneBytes_spec _ _ _ _ Hb) in E3 as [S3 F3 B3 _]. apply Forall_cons in B3 as [B3 _].
  apply subseteq_dom in S1 as D1. apply subseteq_dom in S2 as D2. rewrite locs_cons in F3.
  assert (h2 ⊆ h3) as S23 by done. split_and!.
  - transitivity h1; [done|]. by transitivity h2.
  - cbn [he_Message he_ID he_Body]. rewrite locs_app, !locs_cons. set_solver.
  - cbn [he_Message he_ID he_Body]. apply Forall_app. split.
    + eapply all_in_bounds_mono; [|exact B1]. by transitivity h2.
    + repeat constructor; [by eapply in_bounds_mono|done].
Qed.

(* ------------------------------------------------------------------ *)
(** ** Nobody else can write to the queue *)

(** A queued message: out of reach, and as it was accepted. *)
Definition private (h : heap) (reach : gset nat) (mc : hmsg * (list byte * list slice)) : Prop :=
  locs (msg_slices mc.1) ## reach /\ Forall (in_bounds h) (msg_slices mc.1) /\
  msg_content h mc.1 = mc.2.

(** What is out of the topic's hands, or about to be. *)
Definition reach (st : hstate) : gset nat :=
  hs_outside st ∪ ⋃ (map (fun e => locs (env_slices e)) (hs_pending st)).

Record share_inv (st : hstate) : Prop := {
  si_dom : reach st ⊆ dom (hs_heap st);
  si_queue : Forall (private (hs_heap st) (reach st)) (hs_queue st)
}.

Lemma private_mono h h' r r' mc :
  h ⊆ h' -> r' ∖ r ## dom h -> private h r mc -> private h' r' mc.
Proof.
  intros Hh Hr (H1 & H2 & H3). split_and!.
  - pose proof (in_bounds_locs _ _ H2). set_solver.
  - by eapply all_in_bounds_mono.
  - rewrite <- H3. by apply msg_content_mono.
Qed.

Lemma queue_mono h h' r r' q :
  h ⊆ h' -> r' ∖ r ## dom h -> Forall (private h r) q -> Forall (private h' r') q.
Proof. intros Hh Hr Hq. eapply Forall_impl; [exact Hq|]. intros mc. by apply private_mono. Qed.

(** A step that only adds fresh arrays and exposes some of them. *)
Lemma share_inv_extend st st' fresh_locs :
  share_inv st -> hs_queue st' = hs_queue st -> hs_heap st ⊆ hs_heap st' ->
  reach st' ⊆ reach st ∪ fresh_locs -> fresh_locs ## dom (hs_heap st) ->
  fresh_locs ⊆ dom (hs_heap st') -> share_inv st'.
Proof.
  intros [Hd Hq] Hqq Hh Hr Hf Hfd. apply subseteq_dom in Hh as Hdom. split.
  - set_solver.
  - rewrite Hqq. eapply queue_mono; [exact Hh| |exact Hq]. set_solver.
Qed.

Lemma pending_reach st e : e ∈ hs_pending st -> locs (env_slices e) ⊆ reach st.
Proof.
  intros He. unfold reach. apply union_subseteq_r'. intros x Hx. apply elem_of_union_list.
  exists (locs (env_slices e)). split; [|done]. apply list_elem_of_In, in_map_iff.
  exists e. split; [done|]. by apply list_elem_of_In.
Qed.

Lemma in_bounds_dom h s : in_bounds h s -> slice_locs s ⊆ dom h.
Proof.
  intros Hb. apply (Forall_singleton (in_bounds h)) in Hb. apply in_bounds_locs in Hb.
  rewrite locs_cons in Hb. set_solver.
Qed.

Lemma queued_in_bounds st m c :
  share_inv st -> (m, c) ∈ hs_queue st -> Forall (in_bounds (hs_heap st)) (msg_slices m).
Proof.
  intros [_ Hq] Hm. rewrite Forall_forall in Hq. by destruct (Hq _ Hm) as (_ & ? & _).
Qed.

Lemma write_private h r mc loc l :
  loc ∈ r -> private h r mc -> private (<[loc := l]> h) r mc.
Proof.
  intros Hl (H1 & H2 & H3).
  assert (forall x, x ∈ locs (msg_slices mc.1) -> <[loc := l]> h !! x = h !! x) as Hag.
  { intros x Hx. apply lookup_insert_ne. set_solver. }
  split_and!; [done| |].
  - apply Forall_forall. intros s Hs. rewrite Forall_forall in H2. specialize (H2 s Hs).
    destruct s as [rf|]; [|done]. destruct H2 as (a & Ha & Hb). exists a. split; [|done].
    rewrite Hag; [done|]. unfold locs. apply elem_of_union_list. exists {[rf_loc rf]}.
    split; [|set_solver]. apply list_elem_of_In, in_map_iff. exists (Some rf).
    split; [done|]. by apply list_elem_of_In.
  - rewrite <- H3. by apply msg_content_agree.
Qed.

Lemma share_step_inv st st' : share_inv st -> share_step st st' -> share_inv st'.
Proof.
  intros Hi Hst. destruct Hst as
    [h q ps out l h' s Ha|h q ps out loc l Hl Hlen|h q ps out msg h' env Hin Hb He
    |h q ps out msg env h' m Hin Hb He Hc|h q ps out msg c h' m Hq Hc|h q ps out msg c h' id Hq Hc
    |h q q' ps out Hs].
  - destruct (alloc_spec _ _ _ _ Ha) as (H1 & H2 & H3 & _).
    apply (share_inv_extend _ _ (slice_locs s) Hi); simpl; try done.
    + unfold reach. simpl. set_solver.
    + by apply in_bounds_dom.
  - destruct Hi as [Hd Hq]. split; simpl in *.
    + rewrite dom_insert. set_solver.
    + eapply Forall_impl; [exact Hq|]. intros mc. apply write_private. unfold reach. simpl. set_solver.
  - destruct (h_envelope_spec _ _ _ _ Hb He) as (H1 & H2 & H3).
    apply (share_inv_extend _ _ (locs (env_slices env)) Hi); simpl; try done.
    + unfold reach. simpl. set_solver.
    + by apply in_bounds_locs.
  - pose proof (h_cloneMessage_spec _ _ _ _ Hb Hc) as Hcp.
    pose proof (pending_reach (mkHState h q ps out) env He) as Hp. destruct Hi as [Hd Hq].
    assert (reach (mkHState h' (q ++ [(m, msg_content h msg)]) ps
              (out ∪ locs (env_slices env))) ⊆ reach (mkHState h q ps out)) as Hr.
    { unfold reach in *. simpl in *. set_solver. }
    pose proof (mc_heap _ _ _ _ Hcp) as Hh. apply subseteq_dom in Hh as Hdom. split.
    + simpl in *. set_solver.
    + simpl. apply Forall_app. split; [eapply queue_mono; [exact Hh| |exact Hq]; set_solver|].
      apply Forall_singleton. destruct Hcp as [_ Hf Hb' Hs]. simpl in *.
      split_and!; [set_solver|done|done].
  - pose proof (queued_in_bounds _ _ _ Hi Hq) as Hb.
    pose proof (h_cloneMessage_spec _ _ _ _ Hb Hc) as Hcp.
    apply (share_inv_extend (mkHState h q ps out) _ (locs (msg_slices m))); simpl;
      try apply Hcp; try done.
    + unfold reach. simpl. set_solver.
    + by apply msg_copy_dom in Hcp.
  - pose proof (queued_in_bounds _ _ _ Hi Hq) as Hb.
    destruct (h_messageID_spec _ _ _ _ Hb Hc) as (H1 & H2 & H3 & _).
    apply (share_inv_extend (mkHState h q ps out) _ (slice_locs id)); simpl; try done.
    + unfold reach. simpl. set_solver.
    + by apply in_bounds_dom.
  - destruct Hi as [Hd Hq]. split; [done|]. simpl in *.
    rewrite Forall_forall in *. intros mc Hmc. apply Hq. by eapply elem_of_sublist.
Qed.

Lemma share_reachable st : rtc share_step share_init st -> share_inv st.
Proof.
  intros Hr. assert (share_inv share_init) as Hi.
  { split; simpl; [|constructor]. unfold reach. simpl. set_solver. }
  revert Hi. induction Hr as [|st1 st2 st3 Hst _ IH]; [done|]. intros Hi.
  apply IH. by eapply share_step_inv.
Qed.

(* ------------------------------------------------------------------ *)
(** ** Theorems *)

(** C19: The copies isolate the queue. Whatever the submitter, the subscribers,
    the accept hook and those who fetched messages or IDs write through the
    slices they hold, at any time and also in the middle of a submission, a
    queued message's ID, body, signature and keys stay what they were when it
    was accepted, the copy a peer fetches and the ID it is announced by have
    that same content, and the queue's arrays are never among those that
    anybody outside can reach. Of the message library, which keeps the ID, it
    is assumed that SetMessageID stores copies and that ID looks at the
    message's own arrays. *)
Theorem queue_isolated st m c :
  rtc share_step share_init st -> (m, c) ∈ hs_queue st ->
  msg_content (hs_heap st) m = c /\
  locs (msg_slices m) ## hs_outside st /\
  (forall h' m', h_cloneMessage (hs_heap st) m = (h', m') -> msg_content h' m' = c) /\
  (forall h' id, h_messageID (hs_heap st) m = (h', id) -> content (read h' id) = c.1).
Proof.
  intros Hi%share_reachable Hm. pose proof (queued_in_bounds _ _ _ Hi Hm) as H2.
  destruct Hi as [_ Hq]. rewrite Forall_forall in Hq.
  destruct (Hq _ Hm) as (H1 & _ & H3). simpl in *. split_and!; [done| | |].
  - unfold reach in H1. set_solver.
  - intros h' m' Hc. rewrite <- H3. apply (h_cloneMessage_spec _ _ _ _ H2 Hc).
  - intros h' id Hc. rewrite <- H3. by apply (h_messageID_spec _ _ _ _ H2 Hc).
Qed.
End library.

(* ------------------------------------------------------------------ *)
(** ** Witness

    A library whose ID hands out its own slice and whose SetMessageID stores
    two copies. *)

#[export] Instance toy_ids : IdCalls := {
  lib_ID h ids := (h, hi_private ids);
  lib_SetMessageID h _ id :=
    let '(h, a) := h_cloneBytes h id in
    let '(h, b) := h_cloneBytes h id in
    (h, mkHIds a b)
}.

#[export] Instance toy_ids_laws : IdLaws.
Proof.
  split.
  - intros h ids h' id [_ [Hb _]%Forall_cons]%Forall_cons [= <- <-]. by split.
  - intros h h' ids Hag. unfold id_content. simpl. f_equal.
    assert (contents h' [hi_private ids] = contents h [hi_private ids]) as [= Hc]; [|done].
    apply contents_agree. intros loc Hl. apply Hag. unfold id_slices. rewrite locs_cons.
    by apply elem_of_union_r.
  - intros h ids id h' ids' Hb. simpl. destruct (h_cloneBytes h id) as [h1 a] eqn:E1.
    destruct (h_cloneBytes h1 id) as [h2 b] eqn:E2. intros [= <- <-].
    apply (h_cloneBytes_spec _ _ _ _ Hb) in E1 as [S1 F1 B1 _].
    apply (in_bounds_mono _ _ _ S1) in Hb as Hb1.
    apply (h_cloneBytes_spec _ _ _ _ Hb1) in E2 as [S2 F2 B2 C2].
    assert (contents h1 [id] = contents h [id]) as C1 by (apply contents_mono; by repeat constructor).
    apply subseteq_dom in S1 as D1. rewrite locs_cons in F1, F2. split_and!.
    + by transitivity h1.
    + unfold id_slices. simpl. rewrite !locs_cons. set_solver.
    + apply Forall_cons in B1 as [B1 _]. unfold id_slices. simpl. constructor; [|done].
      by eapply in_bounds_mono.
    + unfold id_content. simpl. rewrite C1 in C2. injection C2 as C2. by rewrite C2.
Qed.

(** A caller's message of two arrays, the body's and the ID's, submitted, and
    then overwritten. *)
Definition share_body : hstate := mkHState {[0%nat := [x01; x02]]} [] [] {[0%nat]}.
Definition share_caller : hstate :=
  let '(h, s) := alloc (hs_heap share_body) [x0a] in
  mkHState h [] [] ({[0%nat]} ∪ slice_locs s).
Definition share_msg : hmsg :=
  mkHMsg (mkHIds (Some (mkRef 1 0 1)) (Some (mkRef 1 0 1))) (Some (mkRef 0 0 2)) None None None None.

Definition share_enveloped : hstate :=
  let '(h, env) := h_envelope (hs_heap share_caller) share_msg in
  mkHState h [] [env] (hs_outside share_caller).

Definition share_committed : hstate :=
  match hs_pending share_enveloped with
  | env :: _ =>
      let '(h, m) := h_cloneMessage (hs_heap share_enveloped) share_msg in
      mkHState h [(m, msg_content (hs_heap share_enveloped) share_msg)] [env]
        (hs_outside share_caller ∪ locs (env_slices env))
  | [] => share_enveloped
  end.

Definition overwrite (loc : nat) (l : list byte) (st : hstate) : hstate :=
  mkHState (<[loc := l]> (hs_heap st)) (hs_queue st) (hs_pending st) (hs_outside st).

Definition share_overwritten : hstate := overwrite 1 [xff] (overwrite 0 [xff; xff] share_committed).

Lemma share_msg_bounds h :
  h !! 0%nat = Some [x01; x02] -> h !! 1%nat = Some [x0a] -> Forall (in_bounds h) (msg_slices share_msg).
Proof. intros H0 H1. repeat constructor; simpl; by (eexists; split; [eassumption|simpl; lia]). Qed.

Lemma share_msg_locs : locs (msg_slices share_msg) = hs_outside share_caller.
Proof. vm_compute. reflexivity. Qed.

(** Up to the steps' results, which evaluate. *)
Lemma share_step_eq st st' st'' : share_step st st' -> st' = st'' -> share_step st st''.
Proof. by intros H <-. Qed.

Lemma share_overwritten_reachable : rtc share_step share_init share_overwritten.
Proof.
  apply (rtc_l _ _ share_body).
  { eapply share_step_eq; [by apply (share_alloc ∅ [] [] ∅ [x01; x02])|vm_compute; reflexivity]. }
  apply (rtc_l _ _ share_caller).
  { eapply share_step_eq; [by apply (share_alloc _ [] [] {[0%nat]} [x0a])|vm_compute; reflexivity]. }
  apply (rtc_l _ _ share_enveloped).
  { eapply share_step_eq; [eapply (share_envelope _ _ _ _ share_msg)|].
    - rewrite share_msg_locs. done.
    - apply share_msg_bounds; vm_compute; reflexivity.
    - reflexivity.
    - vm_compute. reflexivity. }
  apply (rtc_l _ _ share_committed).
  { destruct (hs_pending share_enveloped) as [|env ps] eqn:Hp; [by vm_compute in Hp|].
    eapply share_step_eq; [eapply (share_commit _ _ _ _ share_msg env)|].
    - rewrite share_msg_locs. done.
    - apply share_msg_bounds; vm_compute; reflexivity.
    - vm_compute in Hp. injection Hp as <- _. left.
    - reflexivity.
    - vm_compute in Hp. injection Hp as <- _. vm_compute. reflexivity. }
  apply (rtc_l _ _ (overwrite 0 [xff; xff] share_committed)).
  { apply (share_write _ _ _ _ 0%nat [xff; xff]); vm_compute; reflexivity. }
  apply rtc_once, (share_write _ _ _ _ 1%nat [xff]); vm_compute; reflexivity.
Qed.

Lemma queue_isolated_witness :
  exists m, hs_queue share_overwritten = [(m, ([x0a], [Some [x01; x02]; None; None; None; None]))] /\
    msg_content (hs_heap share_overwritten) m = ([x0a], [Some [x01; x02]; None; None; None; None]) /\
    msg_content (hs_heap share_overwritten) share_msg
      = ([xff], [Some [xff; xff]; None; None; None; None]).
Proof.
  eexists. split; [vm_compute; reflexivity|]. split; [|vm_compute; reflexivity].
  refine (proj1 (queue_isolated share_overwritten _ _ share_overwritten_reachable _)).
  vm_compute. left.
Defined.

(** The comment on Message calls its byte slices private copies, safe to
    retain. They are private of the queue and of the submitter, but not of the
    other subscribers: all receive the same envelope, so what one writes into
    the body the others read. *)
Theorem subscribers_share_arrays :
  exists env loc (h := hs_heap share_committed), hs_pending share_committed = [env] /\
    h_deliver [1%nat; 2%nat] env = [(1%nat, env); (2%nat, env)] /\
    slice_locs (he_Body env) = {[loc]} /\ read h (he_Body env) = Some [x01; x02] /\
    read (<[loc := [xff; x02]]> h) (he_Body env) = Some [xff; x02].
Proof.
  eexists _, _. split; [vm_compute; reflexivity|]. split; [reflexivity|].
  split; [reflexivity|]. by vm_compute.
Qed.
