(* ===== verification/Service.v ===== *)
(** * The node-to-node service (network.go)

    What a NodeToNodeService keeps under its mutex and the operations on it:
    the outbound address set, the live connections, closing; and the
    reconnect loop with its backoff. A dial is its outcome, a listener is the
    answer of its Close, a connection is a number and whether it was closed.
    Here an operation is one step; [Network] has the goroutines. *)

From S2P Require Import Prelude Errors Types Clone Peers Config Topic.

Definition defaultNodeToNodeRequestInterval : Duration := Second.
Definition defaultNodeToNodeRequestCount : Z := 64.
Definition defaultNodeToNodeDialTimeout : Duration := 10 * Second.

(** Which hooks are not nil. *)
Record NodeToNodeHooks := mkN2NHooks {
  nh_OnPeerConnected : bool;
  nh_OnPeerDisconnected : bool;
  nh_OnError : bool
}.

Record NodeToNodeConfig := mkN2NConfig {
  nc_ListenAddress : string;
  nc_Peers : list Peer;
  nc_RequestInterval : Duration;
  nc_RequestCount : Z;
  nc_DialTimeout : Duration;
  nc_Reconnect : ReconnectConfig;
  nc_Hooks : NodeToNodeHooks
}.

(** A net.Listener, by what its Close answers. *)
Definition Listener := option error.

Record NodeToNodeService := mkService {
  sv_topic : string;
  sv_cfg : NodeToNodeConfig;
  (** s.ctx is done *)
  sv_cancelled : bool;
  sv_closed : bool;
  sv_listener : option Listener;
  (** the tracked connections *)
  sv_peers : gset nat;
  (** the connections Close was called on *)
  sv_conns_closed : gset nat;
  sv_outbound : gset string;
  sv_listenErr : option error;
  (** the outbound loops started, in order *)
  sv_loops : list Peer
}.

(** Calls of the service's own hooks. *)
Inductive service_event : Type :=
| SvConnected (topic : string) (peer : Peer)
| SvDisconnected (topic : string) (peer : Peer) (err : option error)
| SvError (topic : string) (err : error).

Definition newNodeToNodeService (topic : string) (cfg : NodeToNodeConfig) : NodeToNodeService :=
  mkService topic
    (mkN2NConfig (nc_ListenAddress cfg) (nc_Peers cfg) (nc_RequestInterval cfg)
       (nc_RequestCount cfg) (nc_DialTimeout cfg) (defaultReconnectConfig (nc_Reconnect cfg))
       (nc_Hooks cfg))
    false false None ∅ ∅ ∅ None [].

Definition normalizeNodeToNodePeer (peer : Peer) : option Peer :=
  let with_source (p : Peer) :=
    if bool_decide (pr_Source p = "")
    then mkPeer (pr_Address p) (pr_Host p) (pr_Port p) PeerSourceStatic (pr_PoolID p)
           (pr_Stake p) (pr_Valency p) (pr_WarmValency p) (pr_Advertise p) (pr_Trustable p)
    else p in
  if bool_decide (pr_Address peer = "") then
    if bool_decide (pr_Host peer = "") then None
    else Some (with_source (newPeer (pr_Host peer) (pr_Port peer) peer))
  else Some (with_source peer).

Definition AddPeer (s : NodeToNodeService) (peer : Peer) : NodeToNodeService :=
  match normalizeNodeToNodePeer peer with
  | None => s
  | Some peer =>
      if sv_closed s then s
      else if bool_decide (pr_Address peer ∈ sv_outbound s) then s
      else mkService (sv_topic s) (sv_cfg s) (sv_cancelled s) (sv_closed s) (sv_listener s)
             (sv_peers s) (sv_conns_closed s) ({[pr_Address peer]} ∪ sv_outbound s)
             (sv_listenErr s) (sv_loops s ++ [peer])
  end.

Definition addConnection (s : NodeToNodeService) (c : nat) : NodeToNodeService :=
  if sv_closed s then
    mkService (sv_topic s) (sv_cfg s) (sv_cancelled s) (sv_closed s) (sv_listener s)
      (sv_peers s) ({[c]} ∪ sv_conns_closed s) (sv_outbound s) (sv_listenErr s) (sv_loops s)
  else
    mkService (sv_topic s) (sv_cfg s) (sv_cancelled s) (sv_closed s) (sv_listener s)
      ({[c]} ∪ sv_peers s) (sv_conns_closed s) (sv_outbound s) (sv_listenErr s) (sv_loops s).

Definition removeConnection (s : NodeToNodeService) (c : nat) : NodeToNodeService :=
  mkService (sv_topic s) (sv_cfg s) (sv_cancelled s) (sv_closed s) (sv_listener s)
    (sv_peers s ∖ {[c]}) (sv_conns_closed s) (sv_outbound s) (sv_listenErr s) (sv_loops s).

Definition setListenError (s : NodeToNodeService) (err : error) : NodeToNodeService :=
  mkService (sv_topic s) (sv_cfg s) (sv_cancelled s) (sv_closed s) (sv_listener s)
    (sv_peers s) (sv_conns_closed s) (sv_outbound s) (Some err) (sv_loops s).

Definition set_listener (s : NodeToNodeService) (l : Listener) : NodeToNodeService :=
  mkService (sv_topic s) (sv_cfg s) (sv_cancelled s) (sv_closed s) (Some l)
    (sv_peers s) (sv_conns_closed s) (sv_outbound s) (sv_listenErr s) (sv_loops s).

(** ListenAddr: [Addr] is the method of the listener; nil without one. *)
Definition ListenAddr {A} (Addr : Listener -> A) (s : NodeToNodeService) : option A :=
  match sv_listener s with
  | None => None
  | Some l => Some (Addr l)
  end.

Definition PeerCount (s : NodeToNodeService) : Z := Z.of_nat (size (sv_peers s)).

(** Close, apart from unregistering from the manager. Waiting for the
    goroutines removes the connections they served; the listen error is the one
    they leave. *)
Definition service_Close (s : NodeToNodeService) : NodeToNodeService * option error :=
  if sv_closed s then (s, sv_listenErr s)
  else
    let errs := match sv_listener s with Some l => [l] | None => [] end in
    let errs :=
      errs ++ match sv_listenErr s with
              | Some e => if errors_Is_foreign e net_ErrClosed then [] else [Some e]
              | None => []
              end in
    (mkService (sv_topic s) (sv_cfg s) true true (sv_listener s) ∅
       (sv_conns_closed s ∪ sv_peers s) (sv_outbound s) (sv_listenErr s) (sv_loops s),
     errors_Join errs).

Definition requestInterval (s : NodeToNodeService) : Duration :=
  if nc_RequestInterval (sv_cfg s) >? 0 then nc_RequestInterval (sv_cfg s)
  else defaultNodeToNodeRequestInterval.

Definition requestCount (s : NodeToNodeService) : Z :=
  if nc_RequestCount (sv_cfg s) >? 0 then nc_RequestCount (sv_cfg s)
  else defaultNodeToNodeRequestCount.

Definition dialTimeout (s : NodeToNodeService) : Duration :=
  if nc_DialTimeout (sv_cfg s) >? 0 then nc_DialTimeout (sv_cfg s)
  else defaultNodeToNodeDialTimeout.

Definition callPeerConnected (s : NodeToNodeService) (peer : Peer) : list service_event :=
  if nh_OnPeerConnected (nc_Hooks (sv_cfg s)) then [SvConnected (sv_topic s) peer] else [].

Definition callPeerDisconnected (s : NodeToNodeService) (peer : Peer) (err : option error)
  : list service_event :=
  if nh_OnPeerDisconnected (nc_Hooks (sv_cfg s)) then [SvDisconnected (sv_topic s) peer err]
  else [].

(** Errors go to the topic's hook first, then to the service's. *)
Definition service_callError {X} (t : topicRuntime X) (s : NodeToNodeService)
  (err : option error) : list (event X) * list service_event :=
  match err with
  | None => ([], [])
  | Some e =>
      (callError t (Some e),
       if nh_OnError (nc_Hooks (sv_cfg s)) then [SvError (sv_topic s) e] else [])
  end.

(** The reconnect loop, on the outcomes of its dials: each iteration serves one
    connection (or fails to), reports the error unless it is a cancellation or
    a closed connection, and schedules the wait before the next. [stop] tells
    that the context ended before or during the wait. *)
Fixpoint outbound_loop (cfg : ReconnectConfig) (peer : Peer) (backoff : Duration)
  (dials : list (option error * bool)) : list Duration * list error :=
  match dials with
  | [] => ([], [])
  | (err, stop) :: rest =>
      let backoff := match err with None => rc_InitialBackoff cfg | Some _ => backoff end in
      let reported :=
        match err with
        | Some e =>
            if negb (errors_Is_foreign e context_Canceled)
               && negb (errors_Is_foreign e net_ErrClosed)
            then [Errorf "DMQ node-to-node peer %s: %w" [ArgStr (pr_Address peer); ArgErr e]]
            else []
        | None => []
        end in
      if stop : bool then ([backoff], reported)
      else
        let next := i64 (backoff * 2) in
        let next := if next >? rc_MaxBackoff cfg then rc_MaxBackoff cfg else next in
        let '(waits, errs) := outbound_loop cfg peer next rest in
        (backoff :: waits, reported ++ errs)
  end.

Definition outboundLoop (s : NodeToNodeService) (peer : Peer)
  (dials : list (option error * bool)) : list Duration * list error :=
  outbound_loop (nc_Reconnect (sv_cfg s)) peer (rc_InitialBackoff (nc_Reconnect (sv_cfg s))) dials.

(* ------------------------------------------------------------------ *)
(** ** The outbound set *)

(** Every started loop has its own address, and those are the tracked ones. *)
Record service_ok (s : NodeToNodeService) : Prop := {
  so_nodup : NoDup (map pr_Address (sv_loops s));
  so_outbound : sv_outbound s = list_to_set (map pr_Address (sv_loops s));
  so_peers : sv_closed s = true -> sv_peers s = ∅ /\ sv_cancelled s = true;
  so_source : Forall (fun p => pr_Address p <> "" \/ pr_Host p <> "") (sv_loops s)
}.

(** What happens to a service. *)
Inductive service_step (s : NodeToNodeService) : NodeToNodeService -> Prop :=
| ss_add p : service_step s (AddPeer s p)
| ss_connect c : service_step s (addConnection s c)
| ss_disconnect c : service_step s (removeConnection s c)
| ss_listen l : service_step s (set_listener s l)
| ss_listen_error e : service_step s (setListenError s e)
| ss_close : service_step s (service_Close s).1.

Inductive service_reachable (topic : string) (cfg : NodeToNodeConfig)
  : NodeToNodeService -> Prop :=
| sre_new : service_reachable topic cfg (newNodeToNodeService topic cfg)
| sre_step s s' :
    service_reachable topic cfg s -> service_step s s' -> service_reachable topic cfg s'.

Lemma AddPeer_ok s p : service_ok s -> service_ok (AddPeer s p).
Proof.
  intros Hs. unfold AddPeer. destruct (normalizeNodeToNodePeer p) as [q|] eqn:Hq; [|done].
  destruct (sv_closed s) eqn:Hc; [done|]. case_bool_decide as Hin; [done|].
  destruct Hs as [Hn Ho Hp Hsrc]. rewrite Ho in Hin. split; simpl.
  - rewrite map_app. apply NoDup_app. split_and!; [done| |apply NoDup_singleton].
    intros x Hx ->%list_elem_of_singleton. apply Hin. by apply elem_of_list_to_set.
  - rewrite map_app, list_to_set_app_L, Ho. simpl. set_solver.
  - done.
  - apply Forall_app. split; [done|]. apply Forall_singleton.
    unfold normalizeNodeToNodePeer in Hq. repeat case_bool_decide; simplify_eq/=; tauto.
Qed.

Lemma service_step_ok s s' : service_ok s -> service_step s s' -> service_ok s'.
Proof.
  intros Hs Hst. destruct Hst as [p|c|c|l|e|]; [by apply AddPeer_ok|..].
  - unfold addConnection. destruct Hs as [? ? Hp ?].
    destruct (sv_closed s); by split.
  - destruct Hs as [? ? Hp ?]. split; simpl; auto. intros Hc.
    destruct (Hp Hc) as [-> ?]. split; [set_solver|done].
  - by destruct Hs.
  - by destruct Hs.
  - unfold service_Close. destruct (sv_closed s) eqn:Hc; [done|]. destruct Hs. by split.
Qed.

Lemma service_reachable_ok topic cfg s : service_reachable topic cfg s -> service_ok s.
Proof.
  intros Hr. induction Hr as [|s s' Hr IH Hst]; [|by eapply service_step_ok].
  split; simpl; (done || constructor).
Qed.

(** In every reachable state of a service each address is dialled by at
    most one reconnect loop and the outbound set is exactly the addresses
    dialled, every loop has somewhere to dial, and a closed service is
    cancelled, tracks no connection, and starts no new loop. *)
Theorem service_dials_once topic cfg s p :
  service_reachable topic cfg s ->
  service_ok s /\ (sv_closed s = true -> AddPeer s p = s).
Proof.
  intros Hr. split; [by eapply service_reachable_ok|].
  intros Hc. unfold AddPeer. rewrite Hc. by destruct (normalizeNodeToNodePeer p).
Qed.

(* ------------------------------------------------------------------ *)
(** ** Backoff *)

(** Waits double from InitialBackoff up to MaxBackoff; a connection that ended
    without error starts over. *)
Definition expected_wait (cfg : ReconnectConfig) (failures : nat) : Duration :=
  Z.min (rc_MaxBackoff cfg) (rc_InitialBackoff cfg * 2 ^ Z.of_nat failures).

Fixpoint expected_waits (cfg : ReconnectConfig) (failures : nat)
  (dials : list (option error * bool)) : list Duration :=
  match dials with
  | [] => []
  | (err, stop) :: rest =>
      let n := match err with None => 0%nat | Some _ => failures end in
      expected_wait cfg n ::
        if stop : bool then [] else expected_waits cfg (S n) rest
  end.

Section backoff.
Context (cfg : ReconnectConfig).
Context (Hpos : 0 < rc_InitialBackoff cfg) (Hle : rc_InitialBackoff cfg <= rc_MaxBackoff cfg).

Lemma expected_wait_bounds n :
  rc_InitialBackoff cfg <= expected_wait cfg n <= rc_MaxBackoff cfg.
Proof.
  unfold expected_wait. assert (1 <= 2 ^ Z.of_nat n) by (apply Z.pow_le_mono_r_iff with (a:=2) (b:=0); lia).
  nia.
Qed.

Lemma expected_wait_0 : expected_wait cfg 0 = rc_InitialBackoff cfg.
Proof. unfold expected_wait. change (2 ^ Z.of_nat 0) with 1. lia. Qed.

Lemma expected_waits_bounds n dials :
  Forall (fun w => rc_InitialBackoff cfg <= w <= rc_MaxBackoff cfg) (expected_waits cfg n dials).
Proof.
  revert n. induction dials as [|[err stop] dials IH]; intros n; simpl; [constructor|].
  constructor; [apply expected_wait_bounds|]. destruct stop; [constructor|apply IH].
Qed.

Lemma expected_wait_S n :
  rc_MaxBackoff cfg < 2 ^ 62 ->
  (let next := i64 (expected_wait cfg n * 2) in
   if next >? rc_MaxBackoff cfg then rc_MaxBackoff cfg else next) = expected_wait cfg (S n).
Proof.
  intros Hmax. pose proof (expected_wait_bounds n) as Hb. cbv zeta.
  rewrite i64_id by (unfold is_i64; lia). unfold expected_wait in *.
  rewrite Nat2Z.inj_succ, Z.pow_succ_r by lia.
  destruct (_ >? _) eqn:E; zbool; lia.
Qed.

Lemma outbound_loop_spec peer n dials :
  rc_MaxBackoff cfg < 2 ^ 62 ->
  (outbound_loop cfg peer (expected_wait cfg n) dials).1 = expected_waits cfg n dials.
Proof.
  intros Hmax. revert n. induction dials as [|[err stop] dials IH]; intros n; [done|]. simpl.
  assert (match err with None => rc_InitialBackoff cfg | Some _ => expected_wait cfg n end
          = expected_wait cfg (match err with None => 0%nat | Some _ => n end)) as ->.
  { destruct err; [done|]. by rewrite expected_wait_0. }
  generalize (match err with None => 0%nat | Some _ => n end) as k. intros k.
  destruct stop; [done|]. pose proof (expected_wait_S k Hmax) as Hk. cbv zeta in Hk. rewrite Hk.
  pose proof (IH (S k)) as HI. destruct (outbound_loop _ _ _ _) as [waits errs]. simpl in *.
  by rewrite HI.
Qed.

End backoff.

(** The reconnect loop waits InitialBackoff * 2^k after the k-th failure in
    a row, capped at MaxBackoff, and starts over after a connection that ended
    cleanly; with the defaults applied at creation, and a MaxBackoff below 2^62
    ns (146 years, so that doubling stays in int64), every wait lies between
    the two bounds. *)
Theorem reconnect_backoff topic cfg peer dials :
  let s := newNodeToNodeService topic cfg in
  let rc := nc_Reconnect (sv_cfg s) in
  rc_MaxBackoff rc < 2 ^ 62 ->
  (outboundLoop s peer dials).1 = expected_waits rc 0 dials /\
  Forall (fun w => rc_InitialBackoff rc <= w <= rc_MaxBackoff rc) (outboundLoop s peer dials).1.
Proof.
  intros s rc Hmax.
  destruct (defaultReconnectConfig_ok (nc_Reconnect cfg)) as [Hpos Hle].
  assert ((outboundLoop s peer dials).1 = expected_waits rc 0 dials) as Heq.
  { rewrite <-(outbound_loop_spec rc Hpos Hle peer 0 dials Hmax). unfold outboundLoop.
    by rewrite expected_wait_0. }
  split; [done|]. rewrite Heq. by apply expected_waits_bounds.
Qed.

