(* ===== verification/Manager.v ===== *)
(** * The manager (manager.go, and StartNodeToNode of network.go)

    The registry of topics and services. Topics and services are shared
    objects: a topic is held in the manager's map, a service is addressed by
    its index in [w_services], the services ever created, and the manager's
    set holds indices. A topic operation that panics gives [None]. *)

From S2P Require Import Prelude Errors Types Clone Concrete Payload Peers Ledger Config Topic TopicFacts Examples Service.

(** ManagerConfig of types.go, but for the logger and the clock, whose readings
    are arguments. *)
Record ManagerConfig (X : Type) := mkManagerConfig {
  mc_Signer : option (Signer X);
  mc_Authenticator : option (MessageAuthenticator X)
}.
Arguments mkManagerConfig {X} _ _.
Arguments mc_Signer {X} _.
Arguments mc_Authenticator {X} _.

Record Manager (X : Type) := mkManager {
  mg_signer : option (Signer X);
  mg_auth : option (MessageAuthenticator X);
  (** m.ctx is done *)
  mg_cancelled : bool;
  mg_topics : gmap string (topicRuntime X);
  mg_services : gset nat;
  mg_closed : bool
}.
Arguments mkManager {X} _ _ _ _ _ _.
Arguments mg_signer {X} _.
Arguments mg_auth {X} _.
Arguments mg_cancelled {X} _.
Arguments mg_topics {X} _.
Arguments mg_services {X} _.
Arguments mg_closed {X} _.

Record World (X : Type) := mkWorld {
  w_manager : Manager X;
  w_services : list NodeToNodeService
}.
Arguments mkWorld {X} _ _.
Arguments w_manager {X} _.
Arguments w_services {X} _.

Section manager.
Context {X : Type} `{Wire X}.

Definition NewManager (cfg : ManagerConfig X) : Manager X :=
  mkManager (mc_Signer cfg) (mc_Authenticator cfg) false ∅ ∅ false.

Definition set_topics (m : Manager X) ts : Manager X :=
  mkManager (mg_signer m) (mg_auth m) (mg_cancelled m) ts (mg_services m) (mg_closed m).
Definition set_services (m : Manager X) ss : Manager X :=
  mkManager (mg_signer m) (mg_auth m) (mg_cancelled m) (mg_topics m) ss (mg_closed m).

(** The signer and authenticator a topic ends up with. *)
Definition fill_config (m : Manager X) (cfg : TopicConfig X) : TopicConfig X :=
  let signer := match cf_Signer cfg with None => mg_signer m | s => s end in
  let a := cf_Authentication cfg in
  let auth :=
    match ac_Authenticator a with
    | None => if ac_Required a then mg_auth m else None
    | v => v
    end in
  mkTopicConfig (cf_NetworkMagic cfg) (cf_Discovery cfg) (cf_Queue cfg) (cf_TTL cfg)
    (cf_Reconnect cfg) (mkAuthConfig (ac_Required a) auth (ac_AllowUnauthenticated a))
    (cf_Hooks cfg) signer.

Definition RegisterTopic (m : Manager X) (topic : string) (cfg : TopicConfig X)
  : Manager X * option error :=
  if bool_decide (topic = "") then (m, Some (ErrNew "topic is required"))
  else if mg_closed m then (m, Some (ErrVar ErrManagerClosed))
  else
    match mg_topics m !! topic with
    | Some _ => (m, Some (ErrVar ErrTopicExists))
    | None =>
        let cfg := fill_config m (defaultTopicConfig cfg) in
        match ac_Required (cf_Authentication cfg), ac_Authenticator (cf_Authentication cfg) with
        | true, None => (m, Some (ErrVar ErrAuthenticatorRequired))
        | _, _ => (set_topics m (<[topic := newTopicRuntime topic cfg]> (mg_topics m)), None)
        end
    end.

(** Manager.topic *)
Definition topic (m : Manager X) (name : string) : result (topicRuntime X) :=
  if mg_closed m then Err (ErrVar ErrManagerClosed)
  else
    match mg_topics m !! name with
    | None => Err (ErrVar ErrTopicNotFound)
    | Some rt => Ok rt
    end.

(** The manager after the shared topic changed. *)
Definition put (m : Manager X) (name : string) (rt : topicRuntime X) : Manager X :=
  set_topics m (<[name := rt]> (mg_topics m)).

Definition Publish (m : Manager X) (name : string) (now0 now1 now2 : Time) (body : slice)
  : option (Manager X * result (option (DmqMessage X)) * list (event X)) :=
  match topic m name with
  | Err e => Some (m, Err e, [])
  | Ok rt =>
      '(rt', r, evs) ← publish rt now0 now1 now2 body;
      Some (put m name rt', r, evs)
  end.

Definition submit_to (m : Manager X) (name : string) (now1 now2 : Time)
  (msg : option (DmqMessage X)) (source : MessageSource) (peer : option Peer)
  : option (Manager X * option error * list (event X)) :=
  match topic m name with
  | Err e => Some (m, Some e, [])
  | Ok rt =>
      '(rt', _, err, evs) ← submitSigned rt now1 now2 msg source peer;
      Some (put m name rt', err, evs)
  end.

Definition SubmitSigned (m : Manager X) (name : string) (now1 now2 : Time)
  (msg : option (DmqMessage X)) : option (Manager X * option error * list (event X)) :=
  submit_to m name now1 now2 msg MessageSourceLocal None.

Definition SubmitRemote (m : Manager X) (name : string) (now1 now2 : Time)
  (msg : option (DmqMessage X)) (peer : option Peer)
  : option (Manager X * option error * list (event X)) :=
  submit_to m name now1 now2 msg MessageSourceRemote peer.

(** The subscription is the handle. *)
Definition Subscribe (m : Manager X) (name : string) : option (Manager X * result nat) :=
  match topic m name with
  | Err e => Some (m, Err e)
  | Ok rt => '(rt', h) ← subscribe rt; Some (put m name rt', Ok h)
  end.

Definition TopicPeers (m : Manager X) (name : string)
  : Manager X * result (list Peer) * list (event X) :=
  match topic m name with
  | Err e => (m, Err e, [])
  | Ok rt => let '(rt', r, evs) := discoverPeers rt in (put m name rt', r, evs)
  end.

Definition registerService (m : Manager X) (id : nat) : Manager X * option error :=
  if mg_closed m then (m, Some (ErrVar ErrManagerClosed))
  else (set_services m ({[id]} ∪ mg_services m), None).

Definition unregisterService (m : Manager X) (id : nat) : Manager X :=
  set_services m (mg_services m ∖ {[id]}).

(** NodeToNodeService.Close: a first call unregisters the service. *)
Definition Close (w : World X) (id : nat) : World X * option error :=
  match w_services w !! id with
  | None => (w, None)
  | Some s =>
      let '(s', err) := service_Close s in
      (mkWorld (if sv_closed s then w_manager w else unregisterService (w_manager w) id)
         (<[id := s']> (w_services w)), err)
  end.

Fixpoint close_services (w : World X) (ids : list nat) : World X * list (option error) :=
  match ids with
  | [] => (w, [])
  | id :: ids' =>
      let '(w, err) := Close w id in
      let '(w, errs) := close_services w ids' in
      (w, err :: errs)
  end.

Fixpoint close_topics (m : Manager X) (names : list string) : option (Manager X) :=
  match names with
  | [] => Some m
  | name :: names' =>
      match mg_topics m !! name with
      | None => close_topics m names'
      | Some rt => rt' ← close rt; close_topics (put m name rt') names'
      end
  end.

(** Shutdown. The goroutine's work is done when the state is observed; [early]
    is ctx.Err() when the context ended before it. *)
Definition Shutdown (w : World X) (early : option error) : option (World X * option error) :=
  let m := w_manager w in
  if mg_closed m then Some (w, None)
  else
    let topics := map fst (map_to_list (mg_topics m)) in
    let services := elements (mg_services m) in
    let m := mkManager (mg_signer m) (mg_auth m) true (mg_topics m) (mg_services m) true in
    let '(w, errs) := close_services (mkWorld m (w_services w)) services in
    m ← close_topics (w_manager w) topics;
    Some (mkWorld m (w_services w),
          match early with Some e => Some e | None => errors_Join errs end).

(** NodeToNodeService.start on the service [id]: [ctx] is ctx.Err(), [listen]
    what the operating system answers to the listen call. *)
Definition start (w : World X) (id : nat) (ctx : option error) (listen : result Listener)
  : World X * option error * list (event X) :=
  match w_services w !! id with
  | None => (w, None, [])
  | Some s =>
      match ctx with
      | Some e => (w, Some e, [])
      | None =>
          let listened :=
            if bool_decide (nc_ListenAddress (sv_cfg s) = "") then Ok s
            else match listen with
                 | Err e =>
                     Err (Errorf "listen DMQ node-to-node address %q: %w"
                            [ArgStr (nc_ListenAddress (sv_cfg s)); ArgErr e])
                 | Ok l => Ok (set_listener s l)
                 end in
          match listened with
          | Err e => (w, Some e, [])
          | Ok s =>
              let w := mkWorld (w_manager w) (<[id := s]> (w_services w)) in
              let '(m, peers, evs) := TopicPeers (w_manager w) (sv_topic s) in
              match peers with
              | Err e => ((Close (mkWorld m (w_services w)) id).1, Some e, evs)
              | Ok peers =>
                  (mkWorld m (<[id := foldl AddPeer s (peers ++ nc_Peers (sv_cfg s))]>
                                (w_services w)), None, evs)
              end
          end
      end
  end.

(** The service is its index; the warning about unauthenticated networking is
    a log line. *)
Definition StartNodeToNode (w : World X) (ctx_nil : bool) (ctx : option error) (name : string)
  (cfg : NodeToNodeConfig) (listen : result Listener)
  : World X * result nat * list (event X) :=
  if ctx_nil then (w, Err (ErrNew "context is nil"), [])
  else
    match topic (w_manager w) name with
    | Err e => (w, Err e, [])
    | Ok rt =>
        let a := cf_Authentication (rt_cfg rt) in
        if cf_NetworkMagic (rt_cfg rt) =? 0 then (w, Err (ErrVar ErrNetworkMagicRequired), [])
        else if negb (ac_Required a) && negb (ac_AllowUnauthenticated a)
        then (w, Err (ErrVar ErrAuthenticationRequired), [])
        else
          let id := length (w_services w) in
          let w := mkWorld (w_manager w) (w_services w ++ [newNodeToNodeService name cfg]) in
          match registerService (w_manager w) id with
          | (m, Some e) => (mkWorld m (w_services w), Err e, [])
          | (m, None) =>
              match start (mkWorld m (w_services w)) id ctx listen with
              | (w, Some e, evs) => ((Close w id).1, Err e, evs)
              | (w, None, evs) => (w, Ok id, evs)
              end
          end
    end.

(* ------------------------------------------------------------------ *)
(** ** The invariant *)

(** A registered topic is well formed, stored under its name, and has an
    authenticator when it requires one. *)
Record topic_ok (name : string) (rt : topicRuntime X) : Prop := {
  to_inv : rt_inv rt;
  to_name : rt_name rt = name;
  to_auth : ac_Required (cf_Authentication (rt_cfg rt)) = true ->
    is_Some (ac_Authenticator (cf_Authentication (rt_cfg rt)))
}.

Definition topics_ok (m : Manager X) : Prop := map_Forall topic_ok (mg_topics m).

(** The registered services are those that exist and are open; a closed manager
    is cancelled. *)
Record world_ok (w : World X) : Prop := {
  wo_topics : topics_ok (w_manager w);
  wo_cancel : mg_closed (w_manager w) = mg_cancelled (w_manager w);
  wo_services : forall id, id ∈ mg_services (w_manager w) <->
    exists s, w_services w !! id = Some s /\ sv_closed s = false
}.

Lemma fill_config_ok m cfg : topic_config_ok cfg -> topic_config_ok (fill_config m cfg).
Proof. intros []. by split. Qed.

Lemma topic_ok_same name rt rt' :
  topic_ok name rt -> rt_inv rt' -> same_topic rt rt' -> topic_ok name rt'.
Proof. intros [? ? ?] Hi [Hn Hc]. split; [done|congruence|]. by rewrite Hc. Qed.

Lemma put_ok m name rt : topics_ok m -> topic_ok name rt -> topics_ok (put m name rt).
Proof. intros Hm Ht. by apply map_Forall_insert_2. Qed.

End manager.

Section manager_facts.
Context {X : Type} `{WireLaws X}.
Implicit Types m : Manager X.
Implicit Types w : World X.

Lemma RegisterTopic_spec m name cfg :
  match RegisterTopic m name cfg with
  | (m', Some e) =>
      m' = m /\
      ((name = "" /\ e = ErrNew "topic is required") \/
       (mg_closed m = true /\ e = ErrVar ErrManagerClosed) \/
       (is_Some (mg_topics m !! name) /\ e = ErrVar ErrTopicExists) \/
       (ac_Required (cf_Authentication cfg) = true /\
        ac_Authenticator (cf_Authentication cfg) = None /\ mg_auth m = None /\
        e = ErrVar ErrAuthenticatorRequired))
  | (m', None) =>
      name <> "" /\ mg_closed m = false /\ mg_topics m !! name = None /\
      exists rt, m' = set_topics m (<[name := rt]> (mg_topics m)) /\ topic_ok name rt /\
        rt_closed rt = false /\ rt_queue rt = [] /\
        cf_Signer (rt_cfg rt) = match cf_Signer cfg with None => mg_signer m | s => s end
  end.
Proof.
  unfold RegisterTopic. case_bool_decide as Hn; [by eauto|].
  destruct (mg_closed m) eqn:Hc; [by eauto|].
  destruct (mg_topics m !! name) as [rt|] eqn:Ht; [by eauto 10|].
  set (cfg' := fill_config m (defaultTopicConfig cfg)).
  assert (Hok : rt_inv (newTopicRuntime name cfg')).
  { apply newTopicRuntime_inv, fill_config_ok, defaultTopicConfig_ok. }
  destruct (ac_Required (cf_Authentication cfg')) eqn:Hr.
  - destruct (ac_Authenticator (cf_Authentication cfg')) as [v|] eqn:Ha.
    + split_and!; try done. eexists. split_and!; done.
    + split; [done|]. do 3 right. simpl in Hr, Ha. rewrite Hr in Ha. by destruct (ac_Authenticator _).
  - split_and!; try done. eexists. split_and!; try done. split; try done. simpl in *. by rewrite Hr.
Qed.

(** RegisterTopic refuses an empty name, a closed manager, a name in use
    and a topic that requires authentication when neither it nor the manager
    has an authenticator, changing nothing; otherwise it adds one fresh, open,
    well-formed topic, whose signer and (required) authenticator fall back to
    the manager's, so that a nil authenticator is never called. *)
Theorem RegisterTopic_correct m name cfg :
  match RegisterTopic m name cfg with
  | (m', Some e) =>
      m' = m /\
      ((name = "" /\ e = ErrNew "topic is required") \/
       (mg_closed m = true /\ e = ErrVar ErrManagerClosed) \/
       (is_Some (mg_topics m !! name) /\ e = ErrVar ErrTopicExists) \/
       (ac_Required (cf_Authentication cfg) = true /\
        ac_Authenticator (cf_Authentication cfg) = None /\ mg_auth m = None /\
        e = ErrVar ErrAuthenticatorRequired))
  | (m', None) =>
      name <> "" /\ mg_closed m = false /\ mg_topics m !! name = None /\
      exists rt, m' = set_topics m (<[name := rt]> (mg_topics m)) /\ topic_ok name rt /\
        rt_closed rt = false /\ rt_queue rt = [] /\
        cf_Signer (rt_cfg rt) = match cf_Signer cfg with None => mg_signer m | s => s end
  end.
Proof. apply RegisterTopic_spec. Qed.

(** The submitted message reaches only the named topic. *)
Definition only_topic (name : string) m m' : Prop :=
  (forall other, other <> name -> mg_topics m' !! other = mg_topics m !! other) /\
  mg_services m' = mg_services m /\ mg_closed m' = mg_closed m.

Lemma put_only m name rt : only_topic name m (put m name rt).
Proof. split; [|done]. intros other Ho. simpl. by rewrite lookup_insert_ne. Qed.

Lemma topic_Ok m name rt :
  topic m name = Ok rt <-> mg_closed m = false /\ mg_topics m !! name = Some rt.
Proof. unfold topic. destruct (mg_closed m), (mg_topics m !! name); naive_solver. Qed.

Lemma submit_to_total m name now1 now2 msg source peer :
  topics_ok m ->
  exists m' err evs, submit_to m name now1 now2 msg source peer = Some (m', err, evs) /\
    topics_ok m' /\ only_topic name m m'.
Proof.
  intros Hm. unfold submit_to. destruct (topic m name) as [rt|e] eqn:Ht.
  - apply topic_Ok in Ht as [_ Ht]. pose proof (Hm _ _ Ht) as Hrt.
    destruct (submitSigned_total rt now1 now2 msg source peer (to_inv _ _ Hrt))
      as (rt' & msg' & err & evs & Heq & Hi). rewrite Heq. simpl.
    do 3 eexists. split; [done|]. split; [|apply put_only]. apply put_ok; [done|].
    apply (topic_ok_same _ rt); [done..|]. by eapply submitSigned_same; [apply Hrt|].
  - do 3 eexists. by split_and!.
Qed.

Lemma TopicPeers_ok m name :
  topics_ok m ->
  topics_ok (TopicPeers m name).1.1 /\ only_topic name m (TopicPeers m name).1.1 /\
  mg_cancelled (TopicPeers m name).1.1 = mg_cancelled m.
Proof.
  intros Hm. unfold TopicPeers. destruct (topic m name) as [rt|e] eqn:Ht; [|done].
  apply topic_Ok in Ht as [_ Ht]. pose proof (Hm _ _ Ht) as Hrt.
  pose proof (discoverPeers_inv rt (to_inv _ _ Hrt)) as Hi.
  pose proof (discoverPeers_same rt) as Hs.
  destruct (discoverPeers rt) as [[rt' r] evs]. simpl in *.
  split; [|split; [apply put_only|done]].
  apply put_ok; [done|]. by apply (topic_ok_same _ rt).
Qed.

(** On a manager with well-formed topics, Publish, SubmitSigned,
    SubmitRemote, Subscribe and TopicPeers never panic, keep every topic well
    formed, and change no topic but the one named. *)
Theorem manager_operations_isolated m name now0 now1 now2 body msg peer :
  topics_ok m ->
  (exists m' r evs, Publish m name now0 now1 now2 body = Some (m', r, evs) /\
     topics_ok m' /\ only_topic name m m') /\
  (exists m' r evs, SubmitSigned m name now1 now2 msg = Some (m', r, evs) /\
     topics_ok m' /\ only_topic name m m') /\
  (exists m' r evs, SubmitRemote m name now1 now2 msg peer = Some (m', r, evs) /\
     topics_ok m' /\ only_topic name m m') /\
  (exists m' r, Subscribe m name = Some (m', r) /\ topics_ok m' /\ only_topic name m m') /\
  topics_ok (TopicPeers m name).1.1 /\ only_topic name m (TopicPeers m name).1.1.
Proof.
  intros Hm. split; [|split; [by apply submit_to_total|split; [by apply submit_to_total|]]].
  - unfold Publish. destruct (topic m name) as [rt|e] eqn:Ht; [|by do 3 eexists; split_and!].
    apply topic_Ok in Ht as [_ Ht]. pose proof (Hm _ _ Ht) as Hrt.
    destruct (publish_total rt now0 now1 now2 body (to_inv _ _ Hrt)) as (rt' & r & evs & Heq & Hi).
    rewrite Heq. simpl. do 3 eexists. split; [done|]. split; [|apply put_only].
    apply put_ok; [done|]. apply (topic_ok_same _ rt); [done..|].
    by eapply publish_same; [apply Hrt|].
  - destruct (TopicPeers_ok m name Hm) as (Hp1 & Hp2 & _). split; [|done].
    unfold Subscribe. destruct (topic m name) as [rt|e] eqn:Ht; [|by do 2 eexists; split_and!].
    apply topic_Ok in Ht as [_ Ht]. pose proof (Hm _ _ Ht) as Hrt.
    destruct (subscribe_total rt (to_inv _ _ Hrt)) as (rt' & Heq & Hi & _). rewrite Heq. simpl.
    do 2 eexists. split; [done|]. split; [|apply put_only]. apply put_ok; [done|].
    apply (topic_ok_same _ rt); [done..|]. by eapply subscribe_same.
Qed.

(* ------------------------------------------------------------------ *)
(** ** Closing *)

Lemma service_Close_closed s : sv_closed (service_Close s).1 = true.
Proof. unfold service_Close. by destruct (sv_closed s) eqn:Hc. Qed.

(** What Close leaves alone. *)
Definition same_manager m m' : Prop :=
  mg_topics m' = mg_topics m /\ mg_closed m' = mg_closed m /\
  mg_cancelled m' = mg_cancelled m.

Lemma Close_ok w id :
  world_ok w ->
  world_ok (Close w id).1 /\ same_manager (w_manager w) (w_manager (Close w id).1) /\
  mg_services (w_manager (Close w id).1) = mg_services (w_manager w) ∖ {[id]} /\
  length (w_services (Close w id).1) = length (w_services w).
Proof.
  intros Hw. unfold Close. destruct (w_services w !! id) as [s|] eqn:Hs.
  2:{ split_and!; try done. apply set_eq. intros k. rewrite elem_of_difference, elem_of_singleton.
      split; [|tauto]. intros Hk. split; [done|]. intros ->. apply Hw in Hk as (s & Hk & _). congruence. }
  pose proof (service_Close_closed s) as Hcl. destruct (service_Close s) as [s' err] eqn:Hsc.
  simpl in *. destruct (sv_closed s) eqn:Hc.
  - assert (s' = s) as -> by (unfold service_Close in Hsc; rewrite Hc in Hsc; by simplify_eq).
    rewrite list_insert_id by done. destruct w as [m ss]. split_and!; try done. simpl in *.
    apply set_eq. intros k. rewrite elem_of_difference, elem_of_singleton.
    split; [|tauto]. intros Hk. split; [done|]. intros ->. apply Hw in Hk as (s0 & Hk & ?).
    simpl in Hk. congruence.
  - split_and!; try done; [|apply length_insert].
    destruct Hw as [Ht Hca Hsv]. split; simpl; try done. intros k.
    rewrite elem_of_difference, elem_of_singleton, (lookup_insert_present _ _ _ _ _ Hs), Hsv.
    case_decide as Hk; [subst k|tauto].
    split; [tauto|]. intros (s0 & [= <-] & Ho). congruence.
Qed.

Lemma close_services_ok w ids :
  world_ok w ->
  world_ok (close_services w ids).1 /\
  same_manager (w_manager w) (w_manager (close_services w ids).1) /\
  mg_services (w_manager (close_services w ids).1)
    = mg_services (w_manager w) ∖ list_to_set ids /\
  length (w_services (close_services w ids).1) = length (w_services w).
Proof.
  revert w. induction ids as [|id ids IH]; intros w Hw; simpl.
  { split_and!; try done. set_solver. }
  destruct (Close_ok w id Hw) as (Hw1 & (Ht1 & Hc1 & Hx1) & Hs1 & Hl1).
  destruct (Close w id) as [w1 err]. simpl in *.
  destruct (IH w1 Hw1) as (Hw2 & (Ht2 & Hc2 & Hx2) & Hs2 & Hl2).
  destruct (close_services w1 ids) as [w2 errs]. simpl in *.
  unfold same_manager. rewrite Ht2, Ht1, Hc2, Hc1, Hx2, Hx1, Hl2, Hl1, Hs2, Hs1.
  split_and!; try done. set_solver.
Qed.

Lemma close_topics_ok m names :
  topics_ok m ->
  exists m', close_topics m names = Some m' /\ topics_ok m' /\
    mg_services m' = mg_services m /\ mg_closed m' = mg_closed m /\
    mg_cancelled m' = mg_cancelled m /\ dom (mg_topics m') = dom (mg_topics m) /\
    (forall n rt', mg_topics m' !! n = Some rt' ->
       n ∈ names \/ (exists rt, mg_topics m !! n = Some rt /\ rt_closed rt = true) ->
       rt_closed rt' = true).
Proof.
  revert m. induction names as [|name names IH]; intros m Hm; simpl.
  { exists m. split_and!; try done. set_solver. }
  destruct (mg_topics m !! name) as [rt|] eqn:Hn.
  - destruct (close_closes rt (to_inv _ _ (Hm _ _ Hn))) as (rt1 & -> & Hi & Hs & Hc). simpl.
    destruct (IH (put m name rt1)) as (m' & -> & Hm' & ? & ? & ? & Hd & Hcl).
    { apply put_ok; [done|]. by apply (topic_ok_same _ rt); [apply Hm|..]. }
    exists m'. split_and!; try done.
    { rewrite Hd. simpl. rewrite dom_insert_lookup_L; [done|by eexists]. }
    intros n rt' Hrt' Hor. apply (Hcl n rt' Hrt'). simpl.
    destruct (decide (n = name)) as [->|Hne].
    + right. exists rt1. by rewrite lookup_insert_eq.
    + rewrite lookup_insert_ne by done. destruct Hor as [Hin|Hor]; [left|by right].
      apply elem_of_cons in Hin. tauto.
  - destruct (IH m Hm) as (m' & -> & Hm' & ? & ? & ? & Hd & Hcl).
    exists m'. split_and!; try done. intros n rt' Hrt' Hor. apply (Hcl n rt' Hrt').
    destruct Hor as [Hin|Hor]; [|by right]. apply elem_of_cons in Hin as [->|Hin]; [|by left].
    exfalso. apply (elem_of_dom_2 (D:=gset string)) in Hrt'. rewrite Hd in Hrt'.
    by apply elem_of_dom in Hrt' as [? ?]; congruence.
Qed.

(** Shutdown completes whatever the caller's context does: every topic is
    closed, every service ever started is closed and none stays registered, the
    manager is cancelled; from then on every operation fails with
    ErrManagerClosed and another Shutdown does nothing and reports no error. *)
Lemma Shutdown_closes w early :
  world_ok w -> mg_closed (w_manager w) = false ->
  exists w' err, Shutdown w early = Some (w', err) /\ world_ok w' /\
    map_Forall (fun _ rt => rt_closed rt = true) (mg_topics (w_manager w')) /\
    dom (mg_topics (w_manager w')) = dom (mg_topics (w_manager w)) /\
    Forall (fun s => sv_closed s = true) (w_services w') /\
    mg_services (w_manager w') = ∅ /\ mg_cancelled (w_manager w') = true /\
    (forall name, topic (w_manager w') name = Err (ErrVar ErrManagerClosed)) /\
    (forall name cfg, name <> "" ->
       (RegisterTopic (w_manager w') name cfg).2 = Some (ErrVar ErrManagerClosed)) /\
    (forall early', Shutdown w' early' = Some (w', None)).
Proof.
  intros Hw Hopen. unfold Shutdown at 1. rewrite Hopen.
  set (m1 := mkManager _ _ true _ _ true).
  set (w1 := mkWorld m1 (w_services w)).
  assert (world_ok w1) as Hw1. { destruct Hw. by split. }
  destruct (close_services_ok w1 (elements (mg_services (w_manager w))) Hw1)
    as (Hw2 & (Ht2 & Hc2 & Hx2) & Hs2 & _).
  destruct (close_services w1 _) as [w2 errs]. simpl in *.
  destruct (close_topics_ok (w_manager w2) (map fst (map_to_list (mg_topics (w_manager w)))))
    as (m3 & -> & Hm3 & Hs3 & Hc3 & Hx3 & Hd3 & Hcl3); [apply Hw2|]. simpl.
  rewrite list_to_set_elements_L, difference_diag_L in Hs2.
  assert (mg_closed m3 = true) as Hclosed by congruence.
  do 2 eexists. split; [done|]. split_and!; simpl; try congruence.
  - destruct Hw2 as [_ _ Hsv]. split; simpl; [done|congruence|]. by rewrite Hs3.
  - intros n rt Hn. apply (Hcl3 n rt Hn). left.
    apply (elem_of_dom_2 (D:=gset string)) in Hn. rewrite Hd3, Ht2 in Hn.
    apply elem_of_dom in Hn as [rt0 Hn0]. apply list_elem_of_fmap.
    exists (n, rt0). split; [done|]. by apply elem_of_map_to_list.
  - apply Forall_lookup. intros id s Hs. apply not_false_is_true. intros Ho.
    assert (id ∈ mg_services (w_manager w2)) as Hin by (apply Hw2; by eexists).
    rewrite Hs2 in Hin. set_solver.
  - intros name. unfold topic. by rewrite Hclosed.
  - intros name cfg Hn. unfold RegisterTopic. by rewrite bool_decide_false, Hclosed.
  - intros early'. unfold Shutdown. simpl. by rewrite Hclosed.
Qed.

(* ------------------------------------------------------------------ *)
(** ** Starting a service *)

Lemma world_ok_update m ss id s s' m' :
  world_ok (mkWorld m ss) -> ss !! id = Some s -> sv_closed s' = sv_closed s ->
  topics_ok m' -> mg_services m' = mg_services m -> mg_closed m' = mg_closed m ->
  mg_cancelled m' = mg_cancelled m -> world_ok (mkWorld m' (<[id := s']> ss)).
Proof.
  intros [_ Hc Hsv] Hs Hcl Hm' Hss Hmc Hmx. simpl in *. split; simpl; [done|congruence|].
  intros k. rewrite Hss, Hsv, (lookup_insert_present _ _ _ _ _ Hs). case_decide; [subst k|done].
  split; intros (s0 & Hs0 & Ho); simplify_eq; eexists; (split; [done|congruence]).
Qed.

Lemma world_ok_register m ss s :
  world_ok (mkWorld m ss) -> sv_closed s = false ->
  (length ss ∉ mg_services m) /\
  world_ok (mkWorld (set_services m ({[length ss]} ∪ mg_services m)) (ss ++ [s])).
Proof.
  intros [Ht Hc Hsv] Ho. simpl in *.
  assert (length ss ∉ mg_services m) as Hnew.
  { intros (s0 & Hs0 & _)%Hsv. apply lookup_lt_Some in Hs0. lia. }
  split; [done|]. split; simpl; [done..|]. intros k.
  rewrite elem_of_union, elem_of_singleton, Hsv. setoid_rewrite lookup_app_Some.
  setoid_rewrite list_lookup_singleton_Some. split.
  - intros [->|(s0 & Hs0 & Ho0)]; [|by eauto]. exists s. split; [|done]. right. split; [lia|].
    split; [lia|done].
  - intros (s0 & [Hs0|(Hge & Hz & <-)] & Ho0); [right; by eauto|]. left. lia.
Qed.

Lemma AddPeers_closed s ps : sv_closed (foldl AddPeer s ps) = sv_closed s.
Proof.
  revert s. induction ps as [|p ps IH]; intros s; simpl; [done|]. rewrite IH.
  unfold AddPeer. by repeat case_match.
Qed.

(** start leaves the world well formed and the registered services alone, or
    closes the one it was starting. *)
Lemma start_ok w id s ctx listen :
  world_ok w -> w_services w !! id = Some s -> sv_closed s = false ->
  let '(w', err, _) := start w id ctx listen in
  world_ok w' /\ mg_closed (w_manager w') = mg_closed (w_manager w) /\
  length (w_services w') = length (w_services w) /\
  match err with
  | None => mg_services (w_manager w') = mg_services (w_manager w) /\ ctx = None /\
      exists s', w_services w' !! id = Some s' /\ sv_closed s' = false
  | Some _ => mg_services (w_manager w') ∖ {[id]} = mg_services (w_manager w) ∖ {[id]}
  end.
Proof.
  intros Hw Hs Ho. unfold start. rewrite Hs. destruct ctx as [e|]; [done|]. cbv zeta.
  destruct (if bool_decide _ then _ else _) as [s1|e] eqn:Hl; [|done].
  assert (sv_closed s1 = false) as Ho1 by (repeat case_match; by simplify_eq/=).
  destruct w as [m ss]. simpl in *.
  assert (<[id := s1]> ss !! id = Some s1) as Hs1.
  { by rewrite (lookup_insert_present _ _ _ _ _ Hs), decide_True. }
  destruct (TopicPeers_ok m (sv_topic s1) (wo_topics _ Hw)) as (Hm' & (_ & Hss & Hmc) & Hmx).
  destruct (TopicPeers m (sv_topic s1)) as [[m' peers] evs]. simpl in *.
  assert (world_ok (mkWorld m' (<[id := s1]> ss))) as Hw1.
  { apply (world_ok_update m ss id s s1 m'); congruence || done. }
  destruct peers as [peers|e].
  - split_and!; simpl; try done; [|by rewrite !length_insert|].
    + apply (world_ok_update m' _ id s1); try done. apply AddPeers_closed.
    + eexists. rewrite (lookup_insert_present _ _ _ _ _ Hs1), decide_True by done.
      split; [done|]. by rewrite AddPeers_closed.
  - destruct (Close_ok (mkWorld m' (<[id := s1]> ss)) id Hw1) as (Hw2 & (_ & Hc2 & _) & Hs2 & Hl2).
    split_and!; [done|simpl in *; congruence| |rewrite Hs2; simpl; set_solver].
    rewrite Hl2. simpl. apply length_insert.
Qed.

Lemma StartNodeToNode_spec w ctx_nil ctx name cfg listen :
  world_ok w ->
  let '(w', r, _) := StartNodeToNode w ctx_nil ctx name cfg listen in
  world_ok w' /\
  match r with
  | Ok id =>
      ctx_nil = false /\ ctx = None /\ id = length (w_services w) /\
      mg_services (w_manager w') = {[id]} ∪ mg_services (w_manager w) /\
      exists rt, topic (w_manager w) name = Ok rt /\ cf_NetworkMagic (rt_cfg rt) <> 0 /\
        (ac_Required (cf_Authentication (rt_cfg rt)) = true \/
         ac_AllowUnauthenticated (cf_Authentication (rt_cfg rt)) = true)
  | Err _ => mg_services (w_manager w') = mg_services (w_manager w)
  end.
Proof.
  intros Hw. unfold StartNodeToNode. destruct ctx_nil; [done|].
  destruct (topic (w_manager w) name) as [rt|e] eqn:Ht; [|done].
  destruct (cf_NetworkMagic (rt_cfg rt) =? 0) eqn:Hmagic; [done|].
  destruct (negb _ && negb _) eqn:Ha; [done|].
  unfold registerService. pose proof Ht as [Hopen _]%topic_Ok. simpl. rewrite Hopen.
  destruct w as [m ss]. simpl in *.
  destruct (world_ok_register m ss (newNodeToNodeService name cfg) Hw eq_refl) as [Hnew Hw1].
  pose proof (start_ok _ (length ss) (newNodeToNodeService name cfg) ctx listen Hw1) as Hst.
  destruct (start _ _ _ _) as [[w2 err] evs].
  destruct Hst as (Hw2 & Hc2 & Hl2 & Hr); [|done|].
  { simpl. by rewrite lookup_app_r, Nat.sub_diag by lia. }
  destruct err as [e|].
  - destruct (Close_ok w2 (length ss) Hw2) as (Hw3 & _ & Hs3 & _). split; [done|].
    rewrite Hs3, Hr. simpl. set_solver.
  - destruct Hr as (Hs2 & -> & _). split; [done|]. split_and!; try done.
    exists rt. zbool. split_and!; try done.
    apply andb_false_iff in Ha as [Ha|Ha]; apply negb_false_iff in Ha; auto.
Qed.

(** C29: StartNodeToNode starts a service only with a live context, on a
    registered topic of an open manager, with a network magic, and with
    authentication required or explicitly waived; the new service is then
    open and registered. On any failure no service is left open or
    registered that was not there before. *)
Theorem StartNodeToNode_guarded w ctx_nil ctx name cfg listen :
  world_ok w ->
  let '(w', r, _) := StartNodeToNode w ctx_nil ctx name cfg listen in
  world_ok w' /\
  match r with
  | Ok id =>
      ctx_nil = false /\ ctx = None /\ id = length (w_services w) /\
      mg_services (w_manager w') = {[id]} ∪ mg_services (w_manager w) /\
      exists rt, topic (w_manager w) name = Ok rt /\ cf_NetworkMagic (rt_cfg rt) <> 0 /\
        (ac_Required (cf_Authentication (rt_cfg rt)) = true \/
         ac_AllowUnauthenticated (cf_Authentication (rt_cfg rt)) = true)
  | Err _ => mg_services (w_manager w') = mg_services (w_manager w)
  end.
Proof. apply StartNodeToNode_spec. Qed.

End manager_facts.

(* ------------------------------------------------------------------ *)
(** ** Witnesses *)

(** A manager with two topics and one service. *)
Definition ex_manager : Manager unit :=
  (RegisterTopic (RegisterTopic (NewManager (mkManagerConfig None None)) "t" (ex_config 2 1)).1 "u"
     (ex_config 2 1)).1.

Definition ex_n2n : NodeToNodeConfig :=
  mkN2NConfig ":0" [mkPeer "a:1" "" 0 "" "" 0 0 0 false false] 0 0 0 (mkReconnect 0 0)
    (mkN2NHooks false false false).

Lemma ex_manager_ok : topics_ok ex_manager.
Proof.
  assert (Hok : forall n, topic_ok n (newTopicRuntime n
    (fill_config (NewManager (mkManagerConfig None None)) (defaultTopicConfig (ex_config 2 1))))).
  { intros n. split; [|done|done].
    apply newTopicRuntime_inv, fill_config_ok, defaultTopicConfig_ok. }
  apply map_Forall_insert_2; [apply Hok|]. apply map_Forall_insert_2; [apply Hok|].
  apply map_Forall_empty.
Qed.

Definition ex_world1 : World unit := mkWorld (registerService ex_manager 0).1
  [newNodeToNodeService "t" ex_n2n].

Lemma ex_world1_ok : world_ok ex_world1.
Proof.
  apply (world_ok_register ex_manager [] (newNodeToNodeService "t" ex_n2n)); [|done].
  split; [apply ex_manager_ok|done|]. intros id. simpl. split; [set_solver|].
  intros (s & Hs & _). done.
Qed.

Lemma StartNodeToNode_guarded_witness :
  let '(w', r, _) := StartNodeToNode ex_world1 false None "t" ex_n2n (Err (ErrNew "in use")) in
  r = Err (ErrVar ErrAuthenticationRequired) /\
  mg_services (w_manager w') = mg_services (w_manager ex_world1).
Proof.
  pose proof (StartNodeToNode_guarded ex_world1 false None "t" ex_n2n (Err (ErrNew "in use"))
    ex_world1_ok) as Hg.
  destruct (StartNodeToNode _ _ _ _ _ _) as [[w' r] evs] eqn:Heq.
  assert (r = Err (ErrVar ErrAuthenticationRequired)) as ->.
  { apply (f_equal (fun x => x.1.2)) in Heq. simpl in Heq. subst r. by vm_compute. }
  split; [done|]. exact (proj2 Hg).
Defined.
