(* ===== verification/Flow.v ===== *)
(** * Protocol wiring (protocol.go)

    The callbacks the package hands to the CIP-0137 mini-protocols, and the
    per-connection flow state of message submission. A call into the protocol
    library is an output of the handler together with the library's answer:
    [send] for the messages a server sends, [reply] for those of a client.
    A held blocking request is the list of rechecks of its loop: the topic at
    each recheck and the clock; the list ends when the connection or the
    context does. *)

From S2P Require Import Prelude Errors Types Clone Concrete Payload Peers Ledger Config Topic TopicFacts Examples TopicTheorems Service Manager.

Record submissionFlowOptions := mkFlowOptions {
  fo_requestCount : Z;
  fo_holdInterval : Duration
}.

Record submissionFlow := mkFlow {
  fl_peer : option Peer;
  fl_opts : submissionFlowOptions;
  fl_announced : gset string;
  fl_outstanding : Z
}.

(** The flows of a returned config, one per connection. *)
Record submissionFlows := mkFlows {
  fs_peer : option Peer;
  fs_opts : submissionFlowOptions;
  fs_flows : gmap string submissionFlow
}.

(** What a server asks its peer for. *)
Inductive request : Type :=
| RequestMessageIdsBlocking (ack count : Z)
| RequestMessages (ids : list slice).

Definition set_announced (f : submissionFlow) (a : gset string) : submissionFlow :=
  mkFlow (fl_peer f) (fl_opts f) a (fl_outstanding f).
Definition set_outstanding (f : submissionFlow) (n : Z) : submissionFlow :=
  mkFlow (fl_peer f) (fl_opts f) (fl_announced f) n.
Definition put_flow (fs : submissionFlows) (id : string) (f : submissionFlow)
  : submissionFlows :=
  mkFlows (fs_peer fs) (fs_opts fs) (<[id := f]> (fs_flows fs)).

Definition forConnection (fs : submissionFlows) (id : string)
  : submissionFlows * submissionFlow :=
  match fs_flows fs !! id with
  | Some f => (fs, f)
  | None =>
      let f := mkFlow (fs_peer fs) (fs_opts fs) ∅ 0 in
      (put_flow fs id f, f)
  end.

(** What the goroutine of forConnection does when the connection ends. *)
Definition connection_ended (fs : submissionFlows) (id : string) : submissionFlows :=
  mkFlows (fs_peer fs) (fs_opts fs) (delete id (fs_flows fs)).

Definition requestIDs (f : submissionFlow) : submissionFlow * request :=
  let ack := fl_outstanding f in
  let f := set_outstanding f 0 in
  let count := fo_requestCount (fl_opts f) in
  let count := if count =? 0 then defaultNodeToNodeRequestCount else count in
  (f, RequestMessageIdsBlocking ack count).

Definition flow_start (f : submissionFlow) : submissionFlow * request := requestIDs f.

(** The first loop of newIDs: the live keys and the new IDs so far. *)
Fixpoint new_ids_loop (announced : gset string) (max : Z) (queued : list MessageIDAndSize)
  (live : gset string) (ids : list MessageIDAndSize) : gset string * list MessageIDAndSize :=
  match queued with
  | [] => (live, ids)
  | id :: rest =>
      let key := go_string (ms_MessageID id) in
      let live := {[key]} ∪ live in
      if bool_decide (key ∈ announced) || (Z.of_nat (length ids) >=? max)
      then new_ids_loop announced max rest live ids
      else new_ids_loop announced max rest live (ids ++ [id])
  end.

Section flow.
Context {X : Type} `{Wire X}.

Definition newIDs (f : submissionFlow) (t : topicRuntime X) (now : Time) (max : Z)
  : topicRuntime X * submissionFlow * list MessageIDAndSize :=
  let '(t, queued) := messageIDs t now 0 in
  let '(live, ids) := new_ids_loop (fl_announced f) max queued ∅ [] in
  let announced := filter (fun k => k ∈ live) (fl_announced f) in
  let announced := announced ∪ list_to_set (map (fun id => go_string (ms_MessageID id)) ids) in
  (t, set_announced f announced, ids).

(** The time between two rechecks of a held request. *)
Definition hold_interval (f : submissionFlow) : Duration :=
  let interval := fo_holdInterval (fl_opts f) in
  if interval <=? 0 then defaultNodeToNodeRequestInterval else interval.

(** The hold loop of replyIDs: the IDs replied with, if it came to that, the
    topic left by the last recheck, and the report of the library's error. *)
Fixpoint replyIDs (reply : list MessageIDAndSize -> option error) (f : submissionFlow)
  (blocking : bool) (count : Z) (checks : list (topicRuntime X * Time))
  : submissionFlow * option (topicRuntime X * list MessageIDAndSize * list (event X)) :=
  match checks with
  | [] => (f, None)
  | (t, now) :: rest =>
      let '(t, f, ids) := newIDs f t now count in
      if negb (bool_decide (ids = [])) || negb blocking
      then (f, Some (t, ids, callError t (reply ids)))
      else replyIDs reply f blocking count rest
  end.

(** Submitting a batch, with the two clock readings of each message and the
    reports of the errors. *)
Fixpoint submit_all (t : topicRuntime X) (source : MessageSource) (peer : option Peer)
  (msgs : list (DmqMessage X * (Time * Time)))
  : option (topicRuntime X * list (event X)) :=
  match msgs with
  | [] => Some (t, [])
  | (msg, (now1, now2)) :: rest =>
      '(t, _, err, evs) ← submitSigned t now1 now2 (Some msg) source peer;
      let evs := evs ++ callError t err in
      '(t, evs') ← submit_all t source peer rest;
      Some (t, evs ++ evs')
  end.

(** LocalMessageSubmissionConfig: the callback answers with a reason. *)
Definition LocalMessageSubmissionConfig (m : Manager X) (name : string)
  : result (topicRuntime X) := topic m name.

Definition localSubmitMessage (t : topicRuntime X) (now1 now2 : Time)
  (msg : option (DmqMessage X))
  : option (topicRuntime X * option RejectReason * list (event X)) :=
  '(t, _, err, evs) ← submitSigned t now1 now2 msg MessageSourceLocal None;
  Some (t, rejectReasonFromError err, evs).

(** LocalMessageNotificationConfig: the callback submits every message. *)
Definition LocalMessageNotificationConfig (m : Manager X) (name : string)
  : result (topicRuntime X) := topic m name.

Definition localReplyMessages (t : topicRuntime X) (msgs : list (DmqMessage X * (Time * Time)))
  : option (topicRuntime X * list (event X)) :=
  submit_all t MessageSourceRemote None msgs.

(** messageSubmissionConfig: the callbacks below, on fresh flows. *)
Definition messageSubmissionConfig (m : Manager X) (name : string) (peer : option Peer)
  (opts : submissionFlowOptions) : result (topicRuntime X * submissionFlows) :=
  rt ← topic m name;
  mret (rt, mkFlows peer opts ∅).

Definition MessageSubmissionConfig (m : Manager X) (name : string)
  : result (topicRuntime X * submissionFlows) :=
  messageSubmissionConfig m name None (mkFlowOptions 0 0).

(** The RequestMessageIds callback: nothing without a client, [reply] being the
    client's answer otherwise. *)
Definition onRequestMessageIds (reply : option (list MessageIDAndSize -> option error)) (fs : submissionFlows) (conn : string)
  (blocking : bool) (count : Z) (checks : list (topicRuntime X * Time))
  : submissionFlows * option (topicRuntime X * list MessageIDAndSize * list (event X)) :=
  match reply with
  | None => (fs, None)
  | Some reply =>
      let '(fs, flow) := forConnection fs conn in
      let '(flow, r) := replyIDs reply flow blocking count checks in
      (put_flow fs conn flow, r)
  end.

(** The RequestMessages callback: what the client replies with, and the report
    of its error. *)
Definition onRequestMessages (reply : option (list (DmqMessage X) -> option error))
  (t : topicRuntime X) (now : Time) (ids : list slice)
  : topicRuntime X * option (list (DmqMessage X)) * list (event X) :=
  match reply with
  | None => (t, None, [])
  | Some reply =>
      let '(t, msgs) := messagesByIDs t now ids in
      (t, Some msgs, callError t (reply msgs))
  end.

(** The ReplyMessageIds callback of the server side: the flow of the
    connection, the next request, and the report of the library's error.
    [send] is the library's answer to a request; a nil server has none. *)
Definition onReplyMessageIds (send : option (request -> option error)) (fs : submissionFlows)
  (t : topicRuntime X) (conn : string) (ids : list MessageIDAndSize)
  : submissionFlows * option request * list (event X) :=
  match send with
  | None => (fs, None, [])
  | Some send =>
      let '(fs, flow) := forConnection fs conn in
      let flow := set_outstanding flow (u16 (Z.of_nat (length ids))) in
      let wanted :=
        map (fun id => cloneBytes (ms_MessageID id))
          (filter (fun id => hasSeen t (ms_MessageID id) = false) ids) in
      if bool_decide (wanted = []) then
        let '(flow, req) := requestIDs flow in
        (put_flow fs conn flow, Some req, callError t (send req))
      else
        let req := RequestMessages wanted in
        (put_flow fs conn flow, Some req, callError t (send req))
  end.

(** The ReplyMessages callback. *)
Definition onReplyMessages (send : option (request -> option error)) (fs : submissionFlows)
  (t : topicRuntime X) (conn : string) (msgs : list (DmqMessage X * (Time * Time)))
  : option (submissionFlows * topicRuntime X * option request * list (event X)) :=
  '(t, evs) ← submit_all t MessageSourceRemote (fs_peer fs) msgs;
  match send with
  | None => Some (fs, t, None, evs)
  | Some send =>
      let '(fs, flow) := forConnection fs conn in
      let '(flow, req) := requestIDs flow in
      Some (put_flow fs conn flow, t, Some req, evs ++ callError t (send req))
  end.

End flow.

(* ------------------------------------------------------------------ *)
(** ** Announcing *)

Definition id_key (id : MessageIDAndSize) : string := go_string (ms_MessageID id).

Definition keys (ids : list MessageIDAndSize) : gset string := list_to_set (map id_key ids).

Lemma elem_of_keys k ids : k ∈ keys ids <-> exists id, id ∈ ids /\ id_key id = k.
Proof.
  unfold keys. rewrite elem_of_list_to_set, list_elem_of_fmap. naive_solver.
Qed.

Lemma new_ids_loop_spec announced max queued live ids :
  new_ids_loop announced max queued live ids
  = (live ∪ keys queued,
     ids ++ take (Z.to_nat max - length ids) (filter (fun id => id_key id ∉ announced) queued)).
Proof.
  revert live ids. induction queued as [|id queued IH]; intros live ids; simpl.
  { rewrite filter_nil, take_nil, app_nil_r. f_equal. unfold keys. simpl. set_solver. }
  fold (id_key id).
  assert (forall live', {[id_key id]} ∪ live' ∪ keys queued = live' ∪ keys (id :: queued)) as Hk.
  { intros live'. unfold keys. simpl. set_solver. }
  rewrite filter_cons. destruct (bool_decide (id_key id ∈ announced)) eqn:Ha; simpl.
  - apply bool_decide_eq_true in Ha. rewrite IH, Hk, decide_False by tauto. done.
  - apply bool_decide_eq_false in Ha. rewrite decide_True by done.
    destruct (_ >=? max) eqn:Hm; zbool; rewrite IH, Hk; [|rewrite length_app; simpl].
    + by replace (Z.to_nat max - length ids)%nat with 0%nat by lia.
    + f_equal. rewrite <-app_assoc. simpl. f_equal.
      by replace (Z.to_nat max - length ids)%nat
        with (S (Z.to_nat max - (length ids + 1)))%nat by lia.
Qed.

Section announcing.
Context {X : Type} `{WireLaws X}.
Implicit Types t : topicRuntime X.

(** The IDs a topic has to announce at [now]. *)
Definition queued_ids t (now : Time) : list MessageIDAndSize :=
  omap summary (filter (unexpired (cf_TTL (rt_cfg t)) now) (rt_queue t)).

Lemma newIDs_spec f t now max :
  let fresh := filter (fun id => id_key id ∉ fl_announced f) (queued_ids t now) in
  let ids := take (Z.to_nat max) fresh in
  newIDs f t now max =
    (pruneQueueLocked t now,
     set_announced f (filter (fun k => k ∈ keys (queued_ids t now)) (fl_announced f) ∪ keys ids),
     ids).
Proof.
  unfold newIDs. rewrite messageIDs_spec. cbn [limit]. change (0 >? 0) with false.
  rewrite new_ids_loop_spec. cbv zeta. fold (queued_ids t now). simpl.
  rewrite Nat.sub_0_r, union_empty_l_L. done.
Qed.

(** C27: newIDs announces, in queue order and at most max at a time, IDs that
    are queued and unexpired and were not announced on this connection, and
    leaves none out while there is room; afterwards the flow remembers exactly
    the announced IDs that are still queued, so that no ID is announced again
    while it stays in the queue. *)
Theorem newIDs_correct f t now max :
  let '(t', f', ids) := newIDs f t now max in
  sublist ids (queued_ids t now) /\
  Forall (fun id => id_key id ∉ fl_announced f) ids /\
  Z.of_nat (length ids) <= Z.max 0 max /\
  (Z.of_nat (length ids) < max ->
   forall id, id ∈ queued_ids t now -> id_key id ∈ fl_announced f \/ id ∈ ids) /\
  (forall k, k ∈ fl_announced f' <->
     k ∈ keys (queued_ids t now) /\ (k ∈ fl_announced f \/ k ∈ keys ids)) /\
  t' = pruneQueueLocked t now /\ fl_outstanding f' = fl_outstanding f.
Proof.
  rewrite newIDs_spec. set (fresh := filter _ (queued_ids t now)).
  assert (sublist (take (Z.to_nat max) fresh) fresh) as Htake by apply sublist_take.
  assert (sublist fresh (queued_ids t now)) as Hfresh by apply sublist_filter.
  split_and!; try done.
  - by etrans.
  - apply Forall_forall. intros id Hid. eapply elem_of_sublist in Hid; [|done].
    by apply list_elem_of_filter in Hid as [? _].
  - rewrite length_take. lia.
  - rewrite length_take. intros Hlt id Hid. rewrite take_ge by lia.
    destruct (decide (id_key id ∈ fl_announced f)); [by left|right].
    by apply list_elem_of_filter.
  - intros k. simpl. rewrite elem_of_union, elem_of_filter. split; [|tauto].
    intros [?|Hk]; [tauto|]. split; [|by right].
    apply elem_of_keys in Hk as (id & Hid & <-). apply elem_of_keys. exists id. split; [|done].
    eapply elem_of_sublist; [done|]. by etrans.
Qed.

Lemma newIDs_empty f t now max f' t' :
  0 < max -> newIDs f t now max = (t', f', []) ->
  (forall id, id ∈ queued_ids t now -> id_key id ∈ fl_announced f) /\
  fl_announced f' ⊆ fl_announced f.
Proof.
  rewrite newIDs_spec. intros Hmax [= <- <- Hnil]. split.
  - intros id Hid. destruct (decide (id_key id ∈ fl_announced f)) as [|Hn]; [done|].
    assert (id ∈ filter (fun id => id_key id ∉ fl_announced f) (queued_ids t now)) as Hin
      by (by apply list_elem_of_filter).
    destruct (filter _ (queued_ids t now)); [by apply not_elem_of_nil in Hin|].
    by destruct (Z.to_nat max) eqn:E; [lia|].
  - simpl. rewrite Hnil. unfold keys. simpl. set_solver.
Qed.

(** C28: A reply to a blocking request is never empty and never longer than the
    count asked for, and a request is held only as long as there is nothing to
    announce: once a recheck finds a queued, unexpired ID that was not
    announced on the connection, a reply is sent. Whatever the options, two
    rechecks are a positive time apart. A reply the library refuses is reported
    to the error hook. *)
Theorem blocking_reply reply f count checks f' r :
  0 < count -> replyIDs (X:=X) reply f true count checks = (f', r) ->
  0 < hold_interval f /\
  match r with
  | Some (t, ids, evs) => ids <> [] /\ Z.of_nat (length ids) <= count /\
      evs = callError t (reply ids)
  | None => Forall (fun c => forall id, id ∈ queued_ids c.1 c.2 -> id_key id ∈ fl_announced f) checks
  end.
Proof.
  intros Hc Hr. split.
  { unfold hold_interval. destruct (_ <=? 0) eqn:E; zbool; [done|lia]. }
  revert f Hr. induction checks as [|[t now] checks IH]; intros f; simpl.
  { intros [= _ <-]. constructor. }
  destruct (newIDs f t now count) as [[t1 f1] ids] eqn:Hn.
  case_bool_decide as Hi; simpl.
  - subst ids. intros Hr. specialize (IH _ Hr).
    destruct (newIDs_empty _ _ _ _ _ _ Hc Hn) as [Hall Hsub].
    destruct r as [[[t2 ids] evs]|]; [done|]. constructor; [done|].
    eapply Forall_impl; [exact IH|]. intros c Hc' id Hid. by apply Hsub, Hc'.
  - intros [= _ <-]. split; [done|]. rewrite newIDs_spec in Hn. injection Hn as _ _ <-.
    rewrite length_take. split; [lia|done].
Qed.

(** ** Announcing twice *)

(** What an acceptance leaves behind. *)
Lemma accepted_state t now1 now2 msg msg' source peer t' evs :
  rt_inv t -> submitSigned t now1 now2 (Some msg) source peer = Some (t', Some msg', None, evs) ->
  submit_validate t now1 msg = (msg', None) /\ rt_inv t' /\ rt_cfg t' = rt_cfg t /\
  rt_closed t' = false /\ rt_seen t' !! key_of msg' = Some now2 /\
  rt_queue t' = filter (unexpired (cf_TTL (rt_cfg t)) now2) (rt_queue t) ++ [cloneMessage msg'].
Proof.
  intros Ht. unfold submitSigned. destruct (submit_validate t now1 msg) as [m [[e evs0]|]]; [done|].
  destruct (submit_commit_spec t now2 m (make_envelope t m source peer now2))
    as (t0 & err & evs0 & -> & Hc); [done|].
  simpl. intros [= <- <- -> <-]. pose proof (committed_inv _ _ _ _ _ _ _ Ht Hc) as Hi.
  inversion Hc; subst. split_and!; try done. simpl. apply lookup_insert_eq.
Qed.

(** A message accepted twice is the last and the last but one of the queue. *)
Lemma accepted_again t now1 now2 now3 now4 msg msg' source source' peer peer' t1 evs :
  rt_inv t -> submitSigned t now1 now2 (Some msg) source peer = Some (t1, Some msg', None, evs) ->
  qc_DuplicateTTL (cf_Queue (rt_cfg t)) < Time_Sub now4 now2 ->
  unexpired (cf_TTL (rt_cfg t)) now3 msg' -> unexpired (cf_TTL (rt_cfg t)) now4 msg' ->
  Z.of_nat (length (rt_queue t)) + 1 < qc_MaxMessages (cf_Queue (rt_cfg t)) ->
  exists t2 evs' q, submitSigned t1 now3 now4 (Some msg) source' peer' = Some (t2, Some msg', None, evs') /\
    rt_cfg t2 = rt_cfg t /\ rt_queue t2 = q ++ [cloneMessage msg'; cloneMessage msg'] /\
    (length q <= length (rt_queue t))%nat.
Proof.
  intros Ht Hs Hw Hu3 Hu4 Hroom.
  destruct (accepted_state _ _ _ _ _ _ _ _ _ Ht Hs) as (Hv & Ht1 & Hcfg & Hcl & Hseen & Hq).
  assert (submit_validate t1 now3 msg = (msg', None)) as Hv1.
  { apply submit_validate_None in Hv as (Hn & _ & Ha). apply submit_validate_None.
    rewrite Hcfg. by split_and!. }
  unfold submitSigned. rewrite Hv1.
  destruct (submit_commit_spec t1 now4 msg' (make_envelope t1 msg' source' peer' now4) Ht1)
    as (t2 & err & evs2 & -> & Hc).
  assert (rt_seen (pruneSeenLocked t1 now4) !! key_of msg' = None) as Hnone.
  { apply seen_pruned_None; [done|]. intros at' Hat. rewrite Hseen in Hat. simplify_eq. by rewrite Hcfg. }
  set (q := filter (unexpired (cf_TTL (rt_cfg t)) now4)
              (filter (unexpired (cf_TTL (rt_cfg t)) now2) (rt_queue t))).
  assert (rt_queue (pruned t1 now4) = q ++ [cloneMessage msg']) as Hp.
  { simpl. rewrite Hcfg, Hq, filter_app. f_equal. rewrite filter_cons_True, filter_nil; [done|].
    by apply unexpired_clone. }
  assert (length q <= length (rt_queue t))%nat as Hlen.
  { unfold q. etrans; [apply filter_length_le|apply filter_length_le]. }
  inversion Hc as [Hcl'|at' _ Hs'|_ _ Hfull|subs' _ _ _ _]; subst; [congruence|congruence| |].
  { exfalso. rewrite Hp, Hcfg, length_app in Hfull. simpl in Hfull. lia. }
  do 3 eexists. split; [done|]. split; [done|]. simpl rt_queue in *. rewrite Hp, <- app_assoc.
  by split.
Qed.

(** C40: When the duplicate window ends before a message expires, the message is
    accepted a second time, the queue then holds it twice, and one reply
    announces its ID twice. So it is whatever the topic, if the message can be
    encoded, the queue has room for it, the ID is new to the connection and the
    peer asks for enough IDs; by default the window is ten minutes and a
    message may live for thirty. *)
Theorem reply_may_repeat_an_ID t now1 now2 now3 now4 msg msg' source source' peer peer' t1 evs f max :
  rt_inv t -> submitSigned t now1 now2 (Some msg) source peer = Some (t1, Some msg', None, evs) ->
  qc_DuplicateTTL (cf_Queue (rt_cfg t)) < Time_Sub now4 now2 ->
  unexpired (cf_TTL (rt_cfg t)) now3 msg' -> unexpired (cf_TTL (rt_cfg t)) now4 msg' ->
  Z.of_nat (length (rt_queue t)) + 1 < qc_MaxMessages (cf_Queue (rt_cfg t)) ->
  is_Ok (cbor_Encode_message (cloneMessage msg')) = true ->
  key_of msg' ∉ fl_announced f -> Z.of_nat (length (rt_queue t)) + 2 <= max ->
  exists t2 evs' q id ids,
    submitSigned t1 now3 now4 (Some msg) source' peer' = Some (t2, Some msg', None, evs') /\
    rt_queue t2 = q ++ [cloneMessage msg'; cloneMessage msg'] /\
    (newIDs f t2 now4 max).2 = ids ++ [id; id] /\ id_key id = key_of msg'.
Proof.
  intros Ht Hs Hw Hu3 Hu4 Hroom Henc Hnew Hmax.
  destruct (accepted_again t now1 now2 now3 now4 msg msg' source source' peer peer' t1 evs)
    as (t2 & evs' & q & Hs2 & Hcfg & Hq & Hlen); [done..|].
  destruct (cbor_Encode_message (cloneMessage msg')) as [enc|] eqn:He; [|done].
  set (id := mkIDAndSize (msg_ID (cloneMessage msg')) (u32 (Z.of_nat (length enc)))).
  assert (summary (cloneMessage msg') = Some id) as Hsum by (unfold summary; by rewrite He).
  assert (id_key id = key_of msg') as Hkey by apply key_of_clone.
  set (q' := filter (unexpired (cf_TTL (rt_cfg t)) now4) q).
  assert (queued_ids t2 now4 = omap summary q' ++ [id; id]) as Hids.
  { unfold queued_ids. rewrite Hcfg, Hq, filter_app, omap_app. f_equal.
    rewrite !filter_cons_True, filter_nil by (by apply unexpired_clone). simpl. by rewrite Hsum. }
  exists t2, evs', q, id, (filter (fun id => id_key id ∉ fl_announced f) (omap summary q')).
  split_and!; [done|done| |done]. rewrite newIDs_spec. simpl.
  rewrite Hids, filter_app, !filter_cons_True, filter_nil by (by rewrite Hkey).
  apply take_ge. rewrite length_app. simpl.
  assert (length (filter (fun id => id_key id ∉ fl_announced f) (omap summary q')) <= length q)%nat.
  { etrans; [apply filter_length_le|]. etrans; [apply length_omap_le|]. apply filter_length_le. }
  lia.
Qed.

End announcing.

(* ------------------------------------------------------------------ *)
(** ** Acknowledging

    The server side of one connection: it has asked for IDs or for messages,
    and each reply of the peer leads to the next request. *)

Section acknowledging.
Context {X : Type} `{WireLaws X}.
Context (send : request -> option error) (conn : string).

Record session := mkSession {
  ss_flows : submissionFlows;
  ss_wants_messages : bool;
  (** IDs the peer announced, and IDs acknowledged to it, so far *)
  ss_announced : Z;
  ss_acked : Z
}.

(** A reply of the peer, with the topic at that time. *)
Inductive input : Type :=
| InIDs (t : topicRuntime X) (ids : list MessageIDAndSize)
| InMessages (t : topicRuntime X) (msgs : list (DmqMessage X * (Time * Time))).

Definition ack_of (req : option request) : Z :=
  match req with Some (RequestMessageIdsBlocking ack _) => ack | _ => 0 end.

Definition wants_messages (req : option request) : bool :=
  match req with Some (RequestMessages _) => true | _ => false end.

(** [None]: the reply does not answer the outstanding request. *)
Definition session_step (s : session) (i : input) : option session :=
  match i with
  | InIDs t ids =>
      if ss_wants_messages s then None
      else
        let '(fs, req, _) := onReplyMessageIds (Some send) (ss_flows s) t conn ids in
        Some (mkSession fs (wants_messages req) (ss_announced s + Z.of_nat (length ids))
                (ss_acked s + ack_of req))
  | InMessages t msgs =>
      if ss_wants_messages s then
        '(fs, _, req, _) ← onReplyMessages (Some send) (ss_flows s) t conn msgs;
        Some (mkSession fs (wants_messages req) (ss_announced s) (ss_acked s + ack_of req))
      else None
  end.

Fixpoint session_run (s : session) (inputs : list input) : option session :=
  match inputs with
  | [] => Some s
  | i :: inputs' => s' ← session_step s i; session_run s' inputs'
  end.

(** The first request, on a fresh flow. *)
Definition session_start (fs : submissionFlows) : session :=
  let '(fs, flow) := forConnection fs conn in
  let '(flow, req) := flow_start flow in
  mkSession (put_flow fs conn flow) (wants_messages (Some req)) 0 (ack_of (Some req)).

Definition outstanding (fs : submissionFlows) : Z :=
  match fs_flows fs !! conn with Some f => fl_outstanding f | None => 0 end.

(** A peer may not announce more than it was asked for, a uint16. *)
Definition bounded_input (i : input) : Prop :=
  match i with InIDs _ ids => Z.of_nat (length ids) < 2 ^ 16 | InMessages _ _ => True end.

Definition balanced (s : session) : Prop :=
  ss_acked s + outstanding (ss_flows s) = ss_announced s /\
  (ss_wants_messages s = false -> outstanding (ss_flows s) = 0).

Lemma forConnection_outstanding fs :
  fl_outstanding (forConnection fs conn).2 = outstanding fs.
Proof. unfold forConnection, outstanding. by destruct (fs_flows fs !! conn). Qed.

Lemma outstanding_put fs f : outstanding (put_flow fs conn f) = fl_outstanding f.
Proof. unfold outstanding. simpl. by rewrite lookup_insert_eq. Qed.

Lemma session_step_balanced s i s' :
  balanced s -> bounded_input i -> session_step s i = Some s' -> balanced s'.
Proof.
  intros [Hbal Hzero] Hb. unfold session_step, balanced.
  destruct i as [t ids|t msgs]; destruct (ss_wants_messages s) eqn:Hw; try done.
  - unfold onReplyMessageIds. destruct (forConnection (ss_flows s) conn) as [fs flow] eqn:Hf.
    specialize (Hzero eq_refl). simpl in Hb. cbv zeta.
    case_bool_decide; intros [= <-]; simpl; rewrite outstanding_put; simpl;
      rewrite (u16_id (Z.of_nat (length ids))) by (unfold is_u16; lia); split; (done || lia).
  - unfold onReplyMessages. destruct (submit_all t _ _ msgs) as [[t' evs]|]; [|done]. simpl.
    pose proof (forConnection_outstanding (ss_flows s)) as Ho.
    destruct (forConnection (ss_flows s) conn) as [fs flow] eqn:Hf. simpl in *.
    intros [= <-]. simpl. rewrite outstanding_put. simpl. split; [lia|done].
Qed.

(** On a connection whose peer answers each request with at most the count
    asked for (below 2^16), the number of IDs acknowledged plus the number
    outstanding always equals the number announced, and everything announced is
    acknowledged whenever new IDs are requested. *)
Theorem acks_balanced peer opts inputs s :
  Forall bounded_input inputs ->
  session_run (session_start (mkFlows peer opts ∅)) inputs = Some s ->
  ss_acked s + outstanding (ss_flows s) = ss_announced s /\
  (ss_wants_messages s = false -> ss_acked s = ss_announced s).
Proof.
  intros Hb Hr. assert (balanced s) as [Hbal Hz].
  { assert (balanced (session_start (mkFlows peer opts ∅))) as Hstart.
    { unfold session_start, balanced, forConnection. simpl. rewrite lookup_empty. simpl.
      rewrite outstanding_put. done. }
    revert Hstart Hr. generalize (session_start (mkFlows peer opts ∅)).
    induction Hb as [|i inputs Hi _ IH]; intros s0 Hstart; simpl; [by intros [= <-]|].
    destruct (session_step s0 i) as [s1|] eqn:Hs; [|done]. simpl.
    apply IH. by eapply session_step_balanced. }
  split; [done|]. intros Hw. specialize (Hz Hw). lia.
Qed.

End acknowledging.

(* ------------------------------------------------------------------ *)
(** ** Witnesses *)

(** A topic holding two messages at second 20. *)
Definition ex_two : topicRuntime unit :=
  match submit_all (ex_topic 3 1) MessageSourceLocal None
          [(ex_msg1, (sec 10, sec 10)); (ex_msg2, (sec 11, sec 11))] with
  | Some (t, _) => t
  | None => ex_topic 3 1
  end.

Definition ex_flow : submissionFlow := mkFlow None (mkFlowOptions 0 0) ∅ 0.

Lemma newIDs_correct_witness :
  let '(_, f', ids) := newIDs ex_flow ex_two (sec 20) 1 in
  length ids = 1%nat /\ sublist ids (queued_ids ex_two (sec 20)).
Proof.
  pose proof (newIDs_correct ex_flow ex_two (sec 20) 1) as Hc.
  destruct (newIDs ex_flow ex_two (sec 20) 1) as [[t' f'] ids] eqn:Hn.
  split; [|exact (proj1 Hc)].
  assert (length (newIDs ex_flow ex_two (sec 20) 1).2 = 1%nat) as Hl by (by vm_compute).
  by rewrite Hn in Hl.
Defined.

Lemma blocking_reply_witness :
  exists f' t ids,
    replyIDs (fun _ => None) ex_flow true 64 [(ex_topic 3 1, sec 20); (ex_two, sec 21)]
      = (f', Some (t, ids, [])) /\
    ids <> [] /\ Z.of_nat (length ids) <= 64.
Proof.
  destruct (replyIDs (fun _ => None) ex_flow true 64 [(ex_topic 3 1, sec 20); (ex_two, sec 21)]) as [f' r] eqn:E.
  pose proof (blocking_reply (fun _ => None) ex_flow 64
    [(ex_topic 3 1, sec 20); (ex_two, sec 21)] f' r ltac:(lia) E) as [_ Hr].
  destruct r as [[[t ids] evs]|].
  { destruct Hr as (Hne & Hle & Hevs). exists f', t, ids. split; [|by split].
    rewrite Hevs. reflexivity. }
  apply (f_equal (fun x => match x.2 with Some _ => true | None => false end)) in E.
  by vm_compute in E.
Defined.

(** A message that lives for a thousand seconds, sent at second 10 and, after
    the ten minutes of the default window, at second 700. *)
Definition ex_once : topicRuntime unit :=
  match submitSigned (ex_topic 3 1) (sec 10) (sec 10) (Some ex_msg1) MessageSourceRemote None with
  | Some (t, _, _, _) => t
  | None => ex_topic 3 1
  end.

Lemma reply_may_repeat_an_ID_witness :
  exists t2 evs' q id ids,
    submitSigned ex_once (sec 700) (sec 700) (Some ex_msg1) MessageSourceRemote None
      = Some (t2, Some (ex_identified ex_msg1), None, evs') /\
    rt_queue t2 = q ++ [cloneMessage (ex_identified ex_msg1); cloneMessage (ex_identified ex_msg1)] /\
    (newIDs ex_flow t2 (sec 700) 64).2 = ids ++ [id; id] /\ id_key id = key_of (ex_identified ex_msg1).
Proof.
  apply (reply_may_repeat_an_ID (ex_topic 3 1) (sec 10) (sec 10) (sec 700) (sec 700) ex_msg1
    (ex_identified ex_msg1) MessageSourceRemote MessageSourceRemote None None ex_once
    [EvAccepted (make_envelope (ex_topic 3 1) (ex_identified ex_msg1) MessageSourceRemote None (sec 10))]
    ex_flow 64);
    [apply newTopicRuntime_inv, defaultTopicConfig_ok|..]; by vm_compute.
Defined.
