(* ===== verification/Exchange.v ===== *)
(** * Two nodes exchanging messages

    The callbacks of message submission composed into rounds between a node
    that announces (topic [A], its flow) and a node that pulls (topic [B], its
    flows): IDs are announced, the unseen ones requested, the messages served
    and submitted, and new IDs requested. The theorem is that pulling
    replicates: after enough rounds every live message of [A] has been seen by
    [B]. The clock stands still during the exchange. *)

From S2P Require Import Prelude Errors Types Clone Concrete Payload Peers Ledger Config Topic TopicFacts Examples Service Manager Flow.

Section exchange.
Context {X : Type} `{WireLaws X}.
Context (send : request -> option error) (conn : string) (now : Time).

Record nodes := mkNodes {
  nd_A : topicRuntime X;
  nd_flow : submissionFlow;
  nd_B : topicRuntime X;
  nd_flows : submissionFlows
}.

(** What follows an announcement: [B] requests what it has not seen, [A]
    serves it, and [B] submits it. *)
Definition answer (A B : topicRuntime X) (fs : submissionFlows) (ids : list MessageIDAndSize)
  : option (topicRuntime X * topicRuntime X * submissionFlows) :=
  let '(fs, req, _) := onReplyMessageIds (Some send) fs B conn ids in
  match req with
  | Some (RequestMessages wanted) =>
      let '(A, msgs) := messagesByIDs A now wanted in
      '(fs, B, _, _) ← onReplyMessages (Some send) fs B conn
                         (map (fun m => (m, (now, now))) msgs);
      Some (A, B, fs)
  | _ => Some (A, B, fs)
  end.

(** One round: [A] answers the pending request for [count] IDs if it has new
    ones (otherwise it holds the request), and [B] follows up. *)
Definition round (count : Z) (n : nodes) : option nodes :=
  let '(A, f, ids) := newIDs (nd_flow n) (nd_A n) now count in
  if bool_decide (ids = []) then Some (mkNodes A f (nd_B n) (nd_flows n))
  else
    '(A, B, fs) ← answer A (nd_B n) (nd_flows n) ids;
    Some (mkNodes A f B fs).

Fixpoint rounds (count : Z) (k : nat) (n : nodes) : option nodes :=
  match k with
  | O => Some n
  | S k' => n' ← round count n; rounds count k' n'
  end.

(* ------------------------------------------------------------------ *)
(** ** The puller *)

(** [B] would accept the message if it has room and has not seen it. *)
Definition acceptable (B : topicRuntime X) (m : DmqMessage X) : Prop :=
  exists m', normalizeAndValidateMessage m = Ok m' /\ key_of m' = key_of m /\
    unexpired (cf_TTL (rt_cfg B)) now m' /\
    (ac_Required (cf_Authentication (rt_cfg B)) = true ->
     VerifyMessage (ac_Authenticator (cf_Authentication (rt_cfg B))) m' = None).

(** The keys of [K] that [B] has not seen. *)
Definition unseen (B : topicRuntime X) (K : gset string) : gset string :=
  filter (fun k => rt_seen B !! k = None) K.

(** [B] is open, remembers only what is within the duplicate window, and has
    room for what it has not seen of [K]. *)
Record ready (K : gset string) (B : topicRuntime X) : Prop := {
  rd_inv : rt_inv B;
  rd_open : rt_closed B = false;
  rd_seen : forall k t, rt_seen B !! k = Some t ->
    Time_Sub now t <= qc_DuplicateTTL (cf_Queue (rt_cfg B));
  rd_room : Z.of_nat (length (filter (unexpired (cf_TTL (rt_cfg B)) now) (rt_queue B)))
            + Z.of_nat (size (unseen B K)) <= qc_MaxMessages (cf_Queue (rt_cfg B))
}.

(** [B] holds an unexpired message with key [k]. *)
Definition holds (B : topicRuntime X) (k : string) : Prop :=
  exists m, m ∈ rt_queue B /\ key_of m = k /\ unexpired (cf_TTL (rt_cfg B)) now m.

(** The key of the message in an envelope. *)
Definition env_key (v : Message X) : string := go_string (en_ID v).

(** What a channel of [B], as [c], was sent by the time it is [c'] in [B']: in
    order, at most once each, keys that became seen; all of them if the channel
    is not full. *)
Definition channel_fed (B B' : topicRuntime X) (c c' : chan X) : Prop :=
  ch_cap c' = ch_cap c /\
  exists new, ch_buf c' = ch_buf c ++ new /\ NoDup (map env_key new) /\
    (forall k, k ∈ map env_key new -> rt_seen B !! k = None /\ is_Some (rt_seen B' !! k)) /\
    (Z.of_nat (length (ch_buf c')) < ch_cap c ->
     forall k, rt_seen B !! k = None -> is_Some (rt_seen B' !! k) -> k ∈ map env_key new).

(** The subscribers stay, and each is fed. *)
Definition delivers (B B' : topicRuntime X) : Prop :=
  rt_subscribers B' = rt_subscribers B /\
  forall h s, h ∈ subscriber_handles B -> rt_subs B !! h = Some s ->
    exists s', rt_subs B' !! h = Some s' /\ channel_fed B B' (su_C s) (su_C s').

Lemma handles_eq (B B' : topicRuntime X) :
  rt_subscribers B' = rt_subscribers B -> subscriber_handles B' = subscriber_handles B.
Proof. unfold subscriber_handles. by intros ->. Qed.

Lemma delivers_same (B B' : topicRuntime X) :
  rt_subscribers B' = rt_subscribers B -> rt_subs B' = rt_subs B ->
  (forall k, rt_seen B' !! k = rt_seen B !! k) -> delivers B B'.
Proof.
  intros Hsb Hs Hseen. split; [done|]. intros h s _ Hh. exists s. rewrite Hs. split; [done|].
  split; [done|]. exists []. rewrite app_nil_r. split_and!; [done|by constructor|..].
  - intros k Hk. by apply not_elem_of_nil in Hk.
  - intros _ k Hn. rewrite Hseen, Hn. by intros [? ?].
Qed.

Lemma channel_fed_trans (B1 B2 B3 : topicRuntime X) c1 c2 c3 :
  (forall k, is_Some (rt_seen B1 !! k) -> is_Some (rt_seen B2 !! k)) ->
  (forall k, is_Some (rt_seen B2 !! k) -> is_Some (rt_seen B3 !! k)) ->
  channel_fed B1 B2 c1 c2 -> channel_fed B2 B3 c2 c3 -> channel_fed B1 B3 c1 c3.
Proof.
  intros H12 H23 (Hc1 & n1 & Hb1 & Hd1 & Hk1 & Ha1) (Hc2 & n2 & Hb2 & Hd2 & Hk2 & Ha2).
  split; [congruence|]. exists (n1 ++ n2). split; [by rewrite Hb2, Hb1, app_assoc|].
  rewrite map_app. split_and!.
  - apply NoDup_app. split_and!; try done. intros k Hin1 Hin2.
    destruct (Hk1 k Hin1) as [_ [? Hs]]. destruct (Hk2 k Hin2) as [Hn _]. congruence.
  - intros k [Hin|Hin]%elem_of_app.
    + destruct (Hk1 k Hin). auto.
    + destruct (Hk2 k Hin) as [Hn Hs]. split; [|done]. apply eq_None_not_Some. intros Hsome%H12.
      rewrite Hn in Hsome. by destruct Hsome.
  - intros Hlen k Hn Hs. apply elem_of_app.
    assert (length (ch_buf c2) <= length (ch_buf c3))%nat by (rewrite Hb2, length_app; lia).
    destruct (rt_seen B2 !! k) eqn:E; [left|right].
    + apply Ha1; [lia|done|by rewrite E].
    + apply Ha2; [congruence|done|done].
Qed.

(** Submissions lose nothing, what they make seen they make held, and the
    subscribers are fed. *)
Record grows (B B' : topicRuntime X) : Prop := {
  gr_delivers : delivers B B';
  gr_cfg : rt_cfg B' = rt_cfg B;
  gr_seen : forall k, is_Some (rt_seen B !! k) -> is_Some (rt_seen B' !! k);
  gr_holds : forall k, holds B k -> holds B' k;
  gr_new : forall k, rt_seen B !! k = None -> is_Some (rt_seen B' !! k) -> holds B' k
}.

#[export] Instance grows_preorder : PreOrder grows.
Proof.
  split.
  - intros B. split; auto; [by apply delivers_same|]. intros k Hn. rewrite Hn. by intros [? ?].
  - intros B1 B2 B3 [[Hb1 Hd1] ? Hs1] [[Hb2 Hd2] ? Hs2]. split; auto; [|congruence|].
    + split; [congruence|]. intros h s Hin Hh. destruct (Hd1 h s Hin Hh) as (s1 & Hh1 & Hf1).
      destruct (Hd2 h s1) as (s2 & Hh2 & Hf2); [by rewrite (handles_eq B1)|done|].
      exists s2. split; [done|]. by eapply channel_fed_trans.
    + intros k Hn Hs. destruct (rt_seen B2 !! k) eqn:E; [|by auto].
      assert (is_Some (rt_seen B2 !! k)) by (by eexists). auto.
Qed.

Lemma holds_filter B B' k :
  rt_cfg B' = rt_cfg B ->
  filter (unexpired (cf_TTL (rt_cfg B)) now) (rt_queue B) ⊆ rt_queue B' ->
  holds B k -> holds B' k.
Proof.
  intros Hcfg Hsub (m & Hm & Hk & Hu). exists m. rewrite Hcfg. split_and!; try done.
  apply Hsub, list_elem_of_filter. done.
Qed.

Lemma ready_seen_pruned K B : ready K B -> forall k,
  rt_seen (pruneSeenLocked B now) !! k = rt_seen B !! k.
Proof.
  intros [Ht _ Hs _] k. apply option_eq. intros t.
  rewrite pruneSeenLocked_lookup by apply (ok_duplicate _ (inv_cfg _ Ht)).
  split; [tauto|]. intros Hk. split; [done|]. by eapply Hs.
Qed.

(** A topic with the same live queue and the same memory. *)
Lemma ready_same K B B' :
  ready K B -> rt_inv B' -> rt_cfg B' = rt_cfg B -> rt_closed B' = false ->
  (forall k, rt_seen B' !! k = rt_seen B !! k) ->
  filter (unexpired (cf_TTL (rt_cfg B)) now) (rt_queue B')
    = filter (unexpired (cf_TTL (rt_cfg B)) now) (rt_queue B) -> ready K B'.
Proof.
  intros [_ _ Hs Hr] Ht' Hcfg Hcl Hseen Hq. split; try done; rewrite Hcfg.
  - intros k t. rewrite Hseen. apply Hs.
  - rewrite Hq. unfold unseen in *. 
    assert (filter (fun k => rt_seen B' !! k = None) K = filter (fun k => rt_seen B !! k = None) K)
      as ->; [|done].
    apply set_eq. intros k. by rewrite !elem_of_filter, Hseen.
Qed.

Lemma unseen_insert B B' K k t :
  k ∈ K -> rt_seen B !! k = None ->
  (forall k', rt_seen B' !! k' = <[k := t]> (rt_seen B) !! k') ->
  unseen B K = {[k]} ∪ unseen B' K /\ k ∉ unseen B' K.
Proof.
  intros Hk Hn Hs. unfold unseen. split.
  - apply set_eq. intros k'. rewrite elem_of_union, elem_of_singleton, !elem_of_filter, Hs.
    rewrite lookup_insert. case_decide; naive_solver.
  - rewrite elem_of_filter, Hs, lookup_insert_eq. naive_solver.
Qed.

(** An accepted envelope feeds every subscriber. *)
Lemma accept_delivers (B B' : topicRuntime X) env at' :
  mapped (sent env) (subscriber_handles B) (rt_subs B) (rt_subs B') ->
  rt_subscribers B' = rt_subscribers B -> rt_seen B !! env_key env = None ->
  (forall k, rt_seen B' !! k = <[env_key env := at']> (rt_seen B) !! k) ->
  delivers B B'.
Proof.
  intros Hm Hsb Hn Hseen. split; [done|]. intros h s Hin Hh. exists (set_C s (sent env (su_C s))).
  split; [rewrite (proj2 Hm _ _ Hh); by rewrite bool_decide_true|]. unfold sent, channel_fed. simpl.
  case_match eqn:Hlt; simpl; (split; [done|]).
  - exists [env]. split_and!; [done|by apply NoDup_singleton|..].
    + intros k ->%list_elem_of_singleton. rewrite Hseen, lookup_insert_eq. by split.
    + intros _ k Hk. rewrite Hseen, lookup_insert. case_decide as Hd; [|rewrite Hk; by intros [? ?]].
      subst k. intros _. by apply list_elem_of_singleton.
  - exists []. rewrite app_nil_r. split_and!; [done|by constructor|..].
    + intros k Hk. by apply not_elem_of_nil in Hk.
    + intros Hlen. lia.
Qed.

(** What a topic holds after accepting [m]: the memory and the live queue grow
    by it. *)
Lemma accept_ready K B B' m :
  ready K B -> rt_inv B' -> rt_cfg B' = rt_cfg B -> rt_closed B' = false ->
  (forall k, rt_seen B' !! k = <[key_of m := now]> (rt_seen B) !! k) ->
  rt_queue B' = filter (unexpired (cf_TTL (rt_cfg B)) now) (rt_queue B) ++ [cloneMessage m] ->
  key_of m ∈ K -> rt_seen B !! key_of m = None -> unexpired (cf_TTL (rt_cfg B)) now m ->
  delivers B B' ->
  ready K B' /\ grows B B'.
Proof.
  intros [Ht _ Hwin Hroom] Ht' Hcfg Hcl Hseen Hq HK Hs Hu Hdel.
  destruct (unseen_insert B B' K (key_of m) now) as [Hun Hni]; [done..|].
  split; [split|split]; rewrite ?Hcfg; try done.
  - intros k t. rewrite Hseen, lookup_insert. case_decide; [intros [= <-]|apply Hwin].
    pose proof (ok_duplicate _ (inv_cfg _ Ht)).
    rewrite Time_Sub_exact; unfold is_i64; lia.
  - rewrite Hun, size_union, size_singleton in Hroom by set_solver.
    rewrite Hq, filter_app, length_app, filter_idem.
    pose proof (filter_length_le (unexpired (cf_TTL (rt_cfg B)) now) [cloneMessage m]).
    simpl in *. lia.
  - intros k Hsome. rewrite Hseen, lookup_insert. case_decide; [by eexists|done].
  - intros k. apply holds_filter; [done|]. rewrite Hq. set_solver.
  - intros k Hnone. rewrite Hseen, lookup_insert. case_decide; [|rewrite Hnone; by intros [? ?]].
    intros _. exists (cloneMessage m). subst k. rewrite key_of_clone, Hcfg, unexpired_clone, Hq.
    split_and!; try done. apply elem_of_app. right. by apply list_elem_of_singleton.
Qed.

Lemma submit_ready K B m source peer :
  ready K B -> acceptable B m -> key_of m ∈ K ->
  exists B' m' err evs, submitSigned B now now (Some m) source peer = Some (B', m', err, evs) /\
    ready K B' /\ grows B B' /\ is_Some (rt_seen B' !! key_of m).
Proof.
  intros Hr (m1 & Hn & Hk & Hu & Ha) HK. unfold submitSigned.
  assert (submit_validate B now m = (m1, None)) as -> by (by apply submit_validate_None).
  destruct (submit_commit_spec B now m1 (make_envelope B m1 source peer now) (rd_inv _ _ Hr))
    as (B' & err & evs & -> & Hc).
  pose proof (committed_inv _ _ _ _ _ _ _ (rd_inv _ _ Hr) Hc) as Ht'.
  do 4 eexists. split; [done|]. pose proof (ready_seen_pruned K B Hr) as Hseen.
  pose proof (rd_open _ _ Hr) as Hopen. rewrite <-Hk in *.
  destruct Hc as [Hcl|at' Hcl Hs|Hcl Hs Hf|subs' Hcl Hs Hf Hm]; [congruence|..]; simpl in *.
  - rewrite Hseen in Hs. split_and!.
    + apply (ready_same K B); try done. simpl. by rewrite filter_idem.
    + split; simpl; try done; [by apply delivers_same|..]; intros k; rewrite ?Hseen; [done| |].
      * by apply holds_filter.
      * intros -> [? ?]. done.
    + simpl. rewrite Hseen, Hs. by eexists.
  - exfalso. destruct Hr as [_ _ _ Hroom].
    assert (key_of m1 ∈ unseen B K) as Hin by (apply elem_of_filter; by rewrite <-Hseen).
    assert (size (unseen B K) <> 0%nat) as Hsz.
    { intros Hz%size_empty_inv. set_solver. }
    simpl in *. lia.
  - rewrite Hseen in Hs. split; [|split]; [..|simpl; rewrite lookup_insert_eq; by eexists].
    all: assert (Hins : forall k', <[key_of m1 := now]> (rt_seen (pruneSeenLocked B now)) !! k'
      = <[key_of m1 := now]> (rt_seen B) !! k') by
      (intros k'; rewrite !lookup_insert; case_decide; [done|apply Hseen]).
    all: eapply (accept_ready K B _ m1); try done.
    all: apply (accept_delivers _ _ (make_envelope B m1 source peer now) now); try done.
    all: unfold env_key; simpl; by rewrite cloneBytes_id.
Qed.

Lemma acceptable_cfg B B' m : rt_cfg B' = rt_cfg B -> acceptable B m -> acceptable B' m.
Proof. unfold acceptable. by intros ->. Qed.

Lemma submit_all_ready K B msgs source peer :
  ready K B -> Forall (fun m => acceptable B m /\ key_of m ∈ K) msgs ->
  exists B' evs, submit_all B source peer (map (fun m => (m, (now, now))) msgs) = Some (B', evs) /\
    ready K B' /\ grows B B' /\ Forall (fun m => is_Some (rt_seen B' !! key_of m)) msgs.
Proof.
  revert B. induction msgs as [|m msgs IH]; intros B Hr Hall; cbn [map submit_all].
  { do 2 eexists. split; [done|]. by split_and!. }
  apply Forall_cons in Hall as [[Ha HK] Hall].
  destruct (submit_ready K B m source peer Hr Ha HK) as (B1 & m1 & err & evs & -> & Hr1 & Hg1 & Hs1).
  cbn. destruct (IH B1 Hr1) as (B2 & evs2 & -> & Hr2 & Hg2 & Hs2).
  { eapply Forall_impl; [exact Hall|]. intros m0 [? ?]. split; [|done].
    eapply acceptable_cfg; [apply Hg1|done]. }
  do 2 eexists. split; [done|]. split; [done|]. split; [by etrans|].
  constructor; [by apply Hg2|done].
Qed.

(* ------------------------------------------------------------------ *)
(** ** The round *)

(** The live messages of [A], as they are served. *)
Definition live_of (A : topicRuntime X) : list (DmqMessage X) :=
  filter (unexpired (cf_TTL (rt_cfg A)) now) (rt_queue A).

Definition live_keys (A : topicRuntime X) : gset string := list_to_set (map key_of (live_of A)).

(** What the theorem assumes of the announcer's messages: they encode, and the
    puller would accept them. *)
Definition exchangeable (A B : topicRuntime X) : Prop :=
  Forall (fun m => is_Some (summary m) /\ acceptable B (cloneMessage m)) (live_of A).

Lemma live_of_prune A : live_of (pruneQueueLocked A now) = live_of A.
Proof. rewrite pruneQueueLocked_spec. unfold live_of. simpl. apply filter_idem. Qed.

Lemma queued_ids_live A : queued_ids A now = omap summary (live_of A).
Proof. done. Qed.

Lemma summary_key (m : DmqMessage X) id : summary m = Some id -> id_key id = key_of m.
Proof. unfold summary. destruct (cbor_Encode_message m); [by intros [= <-]|done]. Qed.

(** Every announced ID names a live message. *)
Lemma announced_live A id : id ∈ queued_ids A now -> exists m, m ∈ live_of A /\ key_of m = id_key id.
Proof.
  rewrite queued_ids_live. intros (m & Hm & Hs)%list_elem_of_omap. exists m.
  split; [done|]. symmetry. by apply summary_key.
Qed.

(** Serving wanted IDs: messages the puller accepts, one at least for every
    wanted key of a live message. *)
Lemma served_messages A B wanted :
  exchangeable A B ->
  exists msgs, messagesByIDs (pruneQueueLocked A now) now wanted = (pruneQueueLocked A now, msgs) /\
    Forall (fun m => acceptable B m /\ key_of m ∈ live_keys A) msgs /\
    forall m, m ∈ live_of A -> key_of m ∈ map go_string wanted -> cloneMessage m ∈ msgs.
Proof.
  intros Hex. rewrite messagesByIDs_spec. eexists. split.
  { f_equal. rewrite !pruneQueueLocked_spec. unfold set_queue. simpl. by rewrite filter_idem. }
  rewrite pruneQueueLocked_spec. simpl. fold (live_of A). split.
  - apply Forall_forall. intros m' Hm'.
    apply list_elem_of_fmap in Hm' as (m & -> & [_ Hm]%list_elem_of_filter).
    rewrite key_of_clone. split.
    + by eapply Forall_forall in Hex as [_ ?].
    + apply elem_of_list_to_set, list_elem_of_fmap. by exists m.
  - intros m Hm Hw. apply list_elem_of_fmap_2, list_elem_of_filter.
    split; [|done]. split; [|done]. by apply list_elem_of_filter in Hm as [? _].
Qed.

(** The follow-up of [B] to announced IDs makes all of them seen. *)
Lemma follow_up A B fs ids :
  ready (live_keys A) B -> exchangeable A B -> ids <> [] ->
  Forall (fun id => id ∈ queued_ids A now) ids ->
  exists fs' B',
    answer (pruneQueueLocked A now) B fs ids = Some (pruneQueueLocked A now, B', fs') /\
    ready (live_keys A) B' /\ grows B B' /\
    Forall (fun id => is_Some (rt_seen B' !! id_key id)) ids.
Proof.
  intros Hr Hex Hne Hids. unfold answer, onReplyMessageIds.
  destruct (forConnection fs conn) as [fs1 flow]. cbv zeta.
  assert (Hunseen : forall id, hasSeen B (ms_MessageID id) = false \/ is_Some (rt_seen B !! id_key id)).
  { intros id. unfold hasSeen. case_bool_decide; auto. }
  set (new := filter (fun id => hasSeen B (ms_MessageID id) = false) ids).
  assert (Hnew : forall id, id ∈ ids -> id ∈ new \/ is_Some (rt_seen B !! id_key id)).
  { intros id Hid. destruct (Hunseen id); [left|by right]. by apply list_elem_of_filter. }
  case_bool_decide as Hw.
  - do 2 eexists. split; [done|]. split_and!; try done. apply Forall_forall. intros id Hid.
    destruct (Hnew id Hid) as [Hin|]; [|done].
    apply fmap_nil_inv in Hw. rewrite Hw in Hin. by apply not_elem_of_nil in Hin.
  - destruct (served_messages A B (map (fun id => cloneBytes (ms_MessageID id)) new) Hex)
      as (msgs & -> & Hmsgs & Hserved).
    unfold onReplyMessages.
    destruct (submit_all_ready (live_keys A) B msgs MessageSourceRemote
      (fs_peer (put_flow fs1 conn (set_outstanding flow (u16 (Z.of_nat (length ids))))))
      Hr Hmsgs) as (B' & evs & -> & Hr' & Hg & Hs).
    cbn [mbind option_bind]. destruct (forConnection _ conn) as [fs2 flow2].
    do 2 eexists. split; [done|]. split_and!; try done. apply Forall_forall. intros id Hid.
    destruct (Hnew id Hid) as [Hin|Hsome]; [|by apply Hg].
    rewrite Forall_forall in Hids. rewrite Forall_forall in Hs. destruct (announced_live A id (Hids id Hid)) as (m & Hm & Hk).
    rewrite <-Hk, <-key_of_clone. apply Hs, Hserved; [done|]. rewrite Hk.
    apply list_elem_of_fmap. exists (cloneBytes (ms_MessageID id)). rewrite cloneBytes_id.
    split; [done|]. apply list_elem_of_fmap. exists id. by rewrite cloneBytes_id.
Qed.

(** The nodes after some rounds: [A] keeps its live messages, [B] stays ready,
    and what was announced is seen. *)
Record progress (A0 B0 : topicRuntime X) (n : nodes) : Prop := {
  pg_live : live_of (nd_A n) = live_of A0;
  pg_cfg : rt_cfg (nd_A n) = rt_cfg A0;
  pg_ready : ready (live_keys A0) (nd_B n);
  pg_grows : grows B0 (nd_B n);
  pg_seen : forall k, k ∈ fl_announced (nd_flow n) -> is_Some (rt_seen (nd_B n) !! k)
}.

(** What is left to announce. *)
Definition remaining (n : nodes) : list MessageIDAndSize :=
  filter (fun id => id_key id ∉ fl_announced (nd_flow n)) (queued_ids (nd_A n) now).

Lemma filter_take_shrinks {A} (P : A -> Prop) `{!forall x, Decision (P x)} (x : A) l :
  ~ P x -> (length (filter P (x :: l)) < length (x :: l))%nat.
Proof.
  intros Hx. rewrite filter_cons_False by done. simpl.
  pose proof (filter_length_le P l). lia.
Qed.

Lemma exchangeable_step A0 B0 n :
  progress A0 B0 n -> exchangeable A0 B0 -> exchangeable (nd_A n) (nd_B n).
Proof.
  intros [Hlive _ _ Hg _] Hex. unfold exchangeable. rewrite Hlive.
  eapply Forall_impl; [exact Hex|]. intros m [? ?]. split; [done|].
  eapply acceptable_cfg; [apply Hg|done].
Qed.

(** Announcing up to [count] of the remaining IDs leaves fewer to announce. *)
Lemma remaining_shrinks n count B' fs' :
  0 < count ->
  (length (remaining (mkNodes (pruneQueueLocked (nd_A n) now)
     (set_announced (nd_flow n)
        (filter (fun k => k ∈ keys (queued_ids (nd_A n) now)) (fl_announced (nd_flow n))
           ∪ keys (take (Z.to_nat count) (remaining n)))) B' fs'))
   <= pred (length (remaining n)))%nat.
Proof.
  intros Hc. set (ids := take (Z.to_nat count) (remaining n)). set (n' := mkNodes _ _ _ _).
  assert (remaining n' = filter (fun id => id_key id ∉ keys ids) (remaining n)) as ->.
  - unfold remaining, n'. rewrite list_filter_filter. simpl.
    rewrite !queued_ids_live, live_of_prune, <-queued_ids_live. apply filter_ext_in.
    intros id Hid. assert (id_key id ∈ keys (queued_ids (nd_A n) now)) by (apply elem_of_keys; eauto).
    rewrite not_elem_of_union, elem_of_filter. tauto.
  - destruct (remaining n) as [|x l] eqn:Hx; [done|]. apply Nat.lt_le_pred, filter_take_shrinks.
    intros Hk. apply Hk, elem_of_keys. exists x. split; [|done].
    unfold ids. destruct (Z.to_nat count) eqn:E; [lia|]. by left.
Qed.

Lemma round_progress A0 B0 count n :
  0 < count -> exchangeable A0 B0 -> progress A0 B0 n ->
  exists n', round count n = Some n' /\ progress A0 B0 n' /\
    (length (remaining n') <= pred (length (remaining n)))%nat.
Proof.
  intros Hc Hex Hp. pose proof Hp as [Hlive Hcfg Hr Hg Hseen].
  unfold round. rewrite newIDs_spec. cbv zeta.
  fold (remaining n). set (ids := take (Z.to_nat count) (remaining n)).
  set (f' := set_announced _ _).
  assert (Hsub : forall id, id ∈ ids -> id ∈ queued_ids (nd_A n) now).
  { intros id Hid. eapply elem_of_sublist in Hid; [|apply sublist_take].
    by apply list_elem_of_filter in Hid as [_ ?]. }
  pose proof (fun B' fs' => remaining_shrinks n count B' fs' Hc) as Hrem.
  case_bool_decide as Hi.
  - eexists. split; [done|]. split; [|apply Hrem].
    + split; simpl; try done.
      * by rewrite live_of_prune.
      * by rewrite pruneQueueLocked_spec.
      * rewrite Hi. intros k [[_ Hk]%elem_of_filter|Hk]%elem_of_union; [by apply Hseen|].
        unfold keys in Hk. simpl in Hk. set_solver.
  - assert (live_keys (nd_A n) = live_keys A0) as Hkeys by (unfold live_keys; by rewrite Hlive).
    destruct (follow_up (nd_A n) (nd_B n) (nd_flows n) ids) as (fs' & B' & -> & Hr' & Hg' & Hs').
    { by rewrite Hkeys. }
    { by apply (exchangeable_step A0 B0 n). }
    { done. }
    { by apply Forall_forall. }
    cbn. eexists. split; [done|]. split; [|apply Hrem].
    + split; simpl; try done.
      * by rewrite live_of_prune.
      * by rewrite pruneQueueLocked_spec.
      * by rewrite <-Hkeys.
      * by etrans.
      * intros k [[_ Hk]%elem_of_filter|Hk]%elem_of_union; [by apply Hg', Hseen|].
        apply elem_of_keys in Hk as (id & Hid & <-). by eapply Forall_forall in Hs'.
Qed.

Lemma rounds_progress A0 B0 count k n :
  0 < count -> exchangeable A0 B0 -> progress A0 B0 n -> (length (remaining n) <= k)%nat ->
  exists n', rounds count k n = Some n' /\ progress A0 B0 n' /\ remaining n' = [].
Proof.
  intros Hc Hex. revert n. induction k as [|k IH]; intros n Hp Hk; simpl.
  { exists n. split_and!; try done. by apply nil_length_inv; lia. }
  destruct (round_progress A0 B0 count n Hc Hex Hp) as (n1 & -> & Hp1 & Hless). simpl.
  apply IH; [done|]. lia.
Qed.

Lemma remaining_nil_seen A0 B0 n m :
  exchangeable A0 B0 -> progress A0 B0 n -> remaining n = [] -> m ∈ live_of A0 ->
  is_Some (rt_seen (nd_B n) !! key_of m).
Proof.
  intros Hex Hp Hnil Hm. destruct (proj1 (Forall_forall _ _) Hex m Hm) as [[id Hs] _].
  rewrite <-(summary_key _ _ Hs). apply (pg_seen _ _ _ Hp).
  destruct (decide (id_key id ∈ fl_announced (nd_flow n))) as [|Hn]; [done|]. exfalso.
  apply (not_elem_of_nil id). rewrite <-Hnil. apply list_elem_of_filter. split; [done|].
  rewrite queued_ids_live, (pg_live _ _ _ Hp). apply list_elem_of_omap. by exists m.
Qed.

(** Pulling replicates. Let [A] be any topic and [B] an open topic that
    remembers only IDs within its duplicate window, would accept each live
    message of [A] and has room for the ones it has not seen. Then message
    submission over a fresh connection, with any positive request count, makes
    [B] see every live message of [A] within as many rounds as [A] has live
    messages, without a panic; each one that [B] had not seen is then held by
    [B], unexpired, under its ID, and [B] loses nothing. *)
Theorem pulling_replicates A B f fs count k :
  0 < count -> fl_announced f = ∅ -> exchangeable A B -> ready (live_keys A) B ->
  (length (live_of A) <= k)%nat ->
  exists n, rounds count k (mkNodes A f B fs) = Some n /\ grows B (nd_B n) /\
    forall m, m ∈ live_of A ->
      hasSeen (nd_B n) (msg_ID m) = true /\
      (rt_seen B !! key_of m = None -> holds (nd_B n) (key_of m)).
Proof.
  intros Hc Hf Hex Hr Hk.
  assert (progress A B (mkNodes A f B fs)) as Hp.
  { split; simpl; try done. rewrite Hf. set_solver. }
  assert (length (remaining (mkNodes A f B fs)) <= k)%nat as Hrem.
  { etrans; [apply filter_length_le|]. simpl. rewrite queued_ids_live.
    etrans; [apply length_omap_le|done]. }
  destruct (rounds_progress A B count k _ Hc Hex Hp Hrem) as (n & Heq & Hp' & Hnil).
  exists n. split; [done|]. split; [apply Hp'|]. intros m Hm.
  assert (is_Some (rt_seen (nd_B n) !! key_of m)) as Hseen.
  { by eapply remaining_nil_seen. }
  split; [by apply bool_decide_eq_true|]. intros Hnone. by apply (gr_new _ _ (pg_grows _ _ _ Hp')).
Qed.

End exchange.
