(* ===== verification/Gossip.v ===== *)
(** * A network of topics (protocol.go, run by startPull of network.go)

    Many nodes, each with its topic, joined by connections on which both ends
    run message submission. An end of a connection is a [side]: the flow state
    of the config it runs with, and what is in flight of the exchange in which
    it announces and the other side pulls. Submissions, the callbacks of every
    connection, connections that come and go, failing sends and closing topics
    interleave in any order, each callback at its own reading of the clock.
    A callback is one step, with all the submissions it makes; how the steps of
    one submission interleave with others is in TopicSteps.v.

    The protocol library is taken to deliver what it accepts; [ok] says
    whether it accepts the message a callback sends. A connection has one name
    here, where the program uses the pair of addresses as each end sees it. *)

From S2P Require Import Prelude Errors Types Clone Concrete Payload Peers Ledger Config Topic TopicFacts Examples Service Manager Flow.

(** A connection and one of its ends. *)
Abbreviation side := (string * bool)%type.

Definition other (s : side) : side := (s.1, negb s.2).

(** What is in flight of the exchange in which a side announces. A reply
    keeps the request it answers. *)
Inductive wire (X : Type) : Type :=
| NotStarted
| AskedIDs (ack count : Z)
| SentIDs (ids : list MessageIDAndSize)
| AskedMessages (ids : list slice)
| SentMessages (ids : list slice) (msgs : list (DmqMessage X))
| Broken.
Arguments NotStarted {X}.
Arguments AskedIDs {X} _ _.
Arguments SentIDs {X} _.
Arguments AskedMessages {X} _.
Arguments SentMessages {X} _ _.
Arguments Broken {X}.

(** A side: its node, the flows of its config, what is in flight, and the IDs
    it announced that the other side has not acknowledged. *)
Record endpoint (X : Type) := mkEnd {
  en_node : nat;
  en_flows : submissionFlows;
  en_wire : wire X;
  en_unacked : list MessageIDAndSize
}.
Arguments mkEnd {X} _ _ _ _.
Arguments en_node {X} _.
Arguments en_flows {X} _.
Arguments en_wire {X} _.
Arguments en_unacked {X} _.

Record gossip (X : Type) := mkGossip {
  gs_topics : gmap nat (topicRuntime X);
  gs_ends : gmap side (endpoint X)
}.
Arguments mkGossip {X} _ _.
Arguments gs_topics {X} _.
Arguments gs_ends {X} _.

Section gossip.
Context {X : Type} `{Wire X}.

(* ------------------------------------------------------------------ *)
(** ** The steps *)

Definition on_wire (ok : bool) (w : wire X) : wire X := if ok then w else Broken.

(** The library's answer to a request or a reply. *)
Definition sends {A} (ok : bool) (_ : A) : option error :=
  if ok then None else Some (ErrNew "protocol is shutting down").

Definition of_request (req : option request) : wire X :=
  match req with
  | Some (RequestMessageIdsBlocking ack count) => AskedIDs ack count
  | Some (RequestMessages ids) => AskedMessages ids
  | None => Broken
  end.

Definition acknowledge (req : option request) (unacked : list MessageIDAndSize)
  : list MessageIDAndSize :=
  drop (Z.to_nat (ack_of req)) unacked.

Definition put_topic (g : gossip X) (i : nat) (t : topicRuntime X) : gossip X :=
  mkGossip (<[i := t]> (gs_topics g)) (gs_ends g).
Definition put_end (g : gossip X) (s : side) (e : endpoint X) : gossip X :=
  mkGossip (gs_topics g) (<[s := e]> (gs_ends g)).
Definition with_flows (e : endpoint X) (fs : submissionFlows) : endpoint X :=
  mkEnd (en_node e) fs (en_wire e) (en_unacked e).
Definition with_wire (e : endpoint X) (w : wire X) (unacked : list MessageIDAndSize)
  : endpoint X :=
  mkEnd (en_node e) (en_flows e) w unacked.

(** startPull of the other side: its first request. *)
Definition start_pull (g : gossip X) (s : side) (ok : bool) : option (gossip X) :=
  e ← gs_ends g !! s;
  p ← gs_ends g !! other s;
  match en_wire e with
  | NotStarted =>
      let '(fs, flow) := forConnection (en_flows p) s.1 in
      let '(flow, req) := flow_start flow in
      let g := put_end g (other s) (with_flows p (put_flow fs s.1 flow)) in
      Some (put_end g s (with_wire e (on_wire ok (of_request (Some req)))
                           (acknowledge (Some req) (en_unacked e))))
  | _ => None
  end.

(** One check of the loop of replyIDs for the request a side holds. *)
Definition recheck (g : gossip X) (s : side) (e : endpoint X) (count : Z) (now : Time) (ok : bool)
  : option (gossip X) :=
  t ← gs_topics g !! en_node e;
  let '(fs, flow) := forConnection (en_flows e) s.1 in
  let '(t, flow, ids) := newIDs flow t now count in
  let g := put_topic g (en_node e) t in
  let e := with_flows e (put_flow fs s.1 flow) in
  if bool_decide (ids = []) then Some (put_end g s e)
  else Some (put_end g s (with_wire e (on_wire ok (SentIDs ids)) (en_unacked e ++ ids))).

(** The ReplyMessageIds callback of the other side. *)
Definition take_ids (g : gossip X) (s : side) (e : endpoint X) (ids : list MessageIDAndSize)
  (ok : bool) : option (gossip X) :=
  p ← gs_ends g !! other s;
  t ← gs_topics g !! en_node p;
  let '(fs, req, _) := onReplyMessageIds (Some (sends ok)) (en_flows p) t s.1 ids in
  let g := put_end g (other s) (with_flows p fs) in
  Some (put_end g s (with_wire e (on_wire ok (of_request req)) (acknowledge req (en_unacked e)))).

(** The RequestMessages callback of the announcing side. *)
Definition serve (g : gossip X) (s : side) (e : endpoint X) (ids : list slice) (now : Time)
  (ok : bool) : option (gossip X) :=
  t ← gs_topics g !! en_node e;
  let '(t, r, _) := onRequestMessages (Some (sends ok)) t now ids in
  msgs ← r;
  Some (put_end (put_topic g (en_node e) t) s
          (with_wire e (on_wire ok (SentMessages ids msgs)) (en_unacked e))).

(** The ReplyMessages callback of the other side; [clock] gives the two
    readings of the clock for the message at each index. *)
Definition take_messages (g : gossip X) (s : side) (e : endpoint X) (msgs : list (DmqMessage X))
  (clock : nat -> Time * Time) (ok : bool) : option (gossip X) :=
  p ← gs_ends g !! other s;
  t ← gs_topics g !! en_node p;
  '(fs, t, req, _) ← onReplyMessages (Some (sends ok)) (en_flows p) t s.1
                       (imap (fun i m => (m, clock i)) msgs);
  let g := put_end (put_topic g (en_node p) t) (other s) (with_flows p fs) in
  Some (put_end g s (with_wire e (on_wire ok (of_request req)) (acknowledge req (en_unacked e)))).

(** The next callback of the exchange in which [s] announces. *)
Definition pull (g : gossip X) (s : side) (now : Time) (clock : nat -> Time * Time) (ok : bool)
  : option (gossip X) :=
  e ← gs_ends g !! s;
  match en_wire e with
  | NotStarted | Broken => None
  | AskedIDs _ count => recheck g s e count now ok
  | SentIDs ids => take_ids g s e ids ok
  | AskedMessages ids => serve g s e ids now ok
  | SentMessages _ msgs => take_messages g s e msgs clock ok
  end.

(** A connection between two nodes, with a fresh config at each end. *)
Definition connect (g : gossip X) (c : string) (a b : nat) (pa pb : option Peer) (na nb : Z)
  : option (gossip X) :=
  _ ← gs_topics g !! a;
  _ ← gs_topics g !! b;
  match gs_ends g !! (c, true), gs_ends g !! (c, false) with
  | None, None =>
      let g := put_end g (c, true)
                 (mkEnd a (mkFlows pb (mkFlowOptions (u16 na) 0) ∅) NotStarted []) in
      Some (put_end g (c, false)
              (mkEnd b (mkFlows pa (mkFlowOptions (u16 nb) 0) ∅) NotStarted []))
  | _, _ => None
  end.

(** A connection that ends: its flows go with it. *)
Definition disconnect (g : gossip X) (c : string) : gossip X :=
  mkGossip (gs_topics g) (delete (c, true) (delete (c, false) (gs_ends g))).

Inductive action : Type :=
| Submit (i : nat) (now1 now2 : Time) (msg : option (DmqMessage X)) (source : MessageSource)
    (peer : option Peer)
| Connect (c : string) (a b : nat) (pa pb : option Peer) (na nb : Z)
| StartPull (s : side) (ok : bool)
| Pull (s : side) (now : Time) (clock : nat -> Time * Time) (ok : bool)
| Disconnect (c : string)
| CloseTopic (i : nat).

(** [None]: the action does not apply, or a callback panics. *)
Definition gossip_step (g : gossip X) (a : action) : option (gossip X) :=
  match a with
  | Submit i now1 now2 msg source peer =>
      t ← gs_topics g !! i;
      '(t, _, _, _) ← submitSigned t now1 now2 msg source peer;
      Some (put_topic g i t)
  | Connect c a b pa pb na nb => connect g c a b pa pb na nb
  | StartPull s ok => start_pull g s ok
  | Pull s now clock ok => pull g s now clock ok
  | Disconnect c => Some (disconnect g c)
  | CloseTopic i =>
      t ← gs_topics g !! i;
      t ← close t;
      Some (put_topic g i t)
  end.

Fixpoint gossip_run (g : gossip X) (acts : list action) : option (gossip X) :=
  match acts with
  | [] => Some g
  | a :: acts' => g' ← gossip_step g a; gossip_run g' acts'
  end.

(** The messages submitted from outside the connections. *)
Definition inputs (acts : list action) : list (DmqMessage X) :=
  omap (fun a => match a with Submit _ _ _ msg _ _ => msg | _ => None end) acts.

End gossip.
Arguments action : clear implicits.

(* ------------------------------------------------------------------ *)
(** ** The protocol

    The rules of message submission for one exchange: the state is what is in
    flight and the IDs announced but not acknowledged. *)

Section protocol.
Context {X : Type} `{Wire X}.

Inductive proto_step : wire X * list MessageIDAndSize -> wire X * list MessageIDAndSize -> Prop :=
| proto_start count :
    0 < count < 2 ^ 16 ->
    proto_step (NotStarted, []) (AskedIDs 0 count, [])
(* a blocking request is answered with at least one and at most count IDs *)
| proto_ids ack count ids unacked :
    ids <> [] -> Z.of_nat (length ids) <= count ->
    proto_step (AskedIDs ack count, unacked) (SentIDs ids, unacked ++ ids)
(* messages may be requested under unacknowledged IDs *)
| proto_request ids wanted unacked :
    wanted <> [] -> wanted ⊆ map ms_MessageID unacked ->
    proto_step (SentIDs ids, unacked) (AskedMessages wanted, unacked)
(* only requested messages are sent *)
| proto_messages wanted msgs unacked :
    Forall (fun m => key_of m ∈ map go_string wanted) msgs ->
    proto_step (AskedMessages wanted, unacked) (SentMessages wanted msgs, unacked)
(* a blocking request acknowledges exactly what is unacknowledged *)
| proto_next w count unacked :
    (match w with SentIDs _ | SentMessages _ _ => True | _ => False end) ->
    0 < count < 2 ^ 16 ->
    proto_step (w, unacked) (AskedIDs (Z.of_nat (length unacked)) count, [])
| proto_break w unacked unacked' : proto_step (w, unacked) (Broken, unacked').

Definition exchange_of (e : endpoint X) : wire X * list MessageIDAndSize :=
  (en_wire e, en_unacked e).

(** What the puller's flow knows of the exchange: [out] is its outstanding
    count. *)
Definition link_ok (w : wire X) (unacked : list MessageIDAndSize) (out : Z) : Prop :=
  match w with
  | NotStarted => unacked = [] /\ out = 0
  | AskedIDs _ count => unacked = [] /\ 0 < count < 2 ^ 16
  | SentIDs ids => ids <> [] /\ unacked = ids /\ Z.of_nat (length ids) < 2 ^ 16
  | AskedMessages ids | SentMessages ids _ => out = Z.of_nat (length unacked)
  | Broken => True
  end.

(** The request count of a config is a uint16, and its flows have its options. *)
Definition flows_ok (fs : submissionFlows) : Prop :=
  is_u16 (fo_requestCount (fs_opts fs)) /\
  forall c f, fs_flows fs !! c = Some f -> fl_opts f = fs_opts fs.

Record gossip_inv (g : gossip X) : Prop := {
  gi_topics : forall i t, gs_topics g !! i = Some t -> rt_inv t;
  gi_ends : forall s e, gs_ends g !! s = Some e ->
    flows_ok (en_flows e) /\ is_Some (gs_topics g !! en_node e) /\
    exists p, gs_ends g !! other s = Some p /\
      link_ok (en_wire e) (en_unacked e) (outstanding s.1 (en_flows p))
}.

(** A callback of the exchange in which [s] announces: the two sides after it. *)
Record advance (g : gossip X) (s : side) (e p e' p' : endpoint X) (g' : gossip X) : Prop := {
  ad_ends : gs_ends g' = <[s := e']> (<[other s := p']> (gs_ends g));
  ad_topics : forall i t, gs_topics g' !! i = Some t -> rt_inv t;
  ad_dom : forall i, is_Some (gs_topics g !! i) -> is_Some (gs_topics g' !! i);
  ad_nodes : en_node e' = en_node e /\ en_node p' = en_node p;
  ad_flows : flows_ok (en_flows e') /\ flows_ok (en_flows p');
  ad_link : link_ok (en_wire e') (en_unacked e') (outstanding s.1 (en_flows p'));
  ad_other : exchange_of p' = exchange_of p;
  ad_out : outstanding s.1 (en_flows e') = outstanding s.1 (en_flows e);
  ad_proto : exchange_of e' = exchange_of e \/ proto_step (exchange_of e) (exchange_of e')
}.

Lemma other_other s : other (other s) = s.
Proof. destruct s as [c b]. unfold other. simpl. by rewrite negb_involutive. Qed.

Lemma other_ne s : other s <> s.
Proof. destruct s as [c []]; by intros [=]. Qed.

Lemma other_fst s : (other s).1 = s.1.
Proof. done. Qed.

Lemma advance_inv g s e p e' p' g' :
  gossip_inv g -> gs_ends g !! s = Some e -> gs_ends g !! other s = Some p ->
  advance g s e p e' p' g' -> gossip_inv g'.
Proof.
  intros [_ Hends] He Hp [Hg Ht Hdom [Hne Hnp] [Hfe Hfp] Hl [= Hw Hu] Ho _].
  split; [done|]. intros s0 e0. rewrite Hg.
  pose proof (other_ne s) as Hne'.
  destruct (decide (s0 = s)) as [->|Hs].
  { rewrite lookup_insert_eq. intros [= <-]. rewrite Hne. split; [done|].
    split; [apply Hdom; by apply (Hends s e)|]. exists p'.
    by rewrite lookup_insert_ne, lookup_insert_eq. }
  rewrite lookup_insert_ne by done. destruct (decide (s0 = other s)) as [->|Ho'].
  { rewrite lookup_insert_eq. intros [= <-]. rewrite Hnp. split; [done|].
    split; [apply Hdom; by apply (Hends (other s) p)|]. exists e'.
    rewrite other_other, lookup_insert_eq, other_fst, Ho, Hw, Hu. split; [done|].
    destruct (Hends _ _ Hp) as (_ & _ & e1 & He1 & Hl1).
    rewrite other_other in He1. by simplify_eq. }
  rewrite lookup_insert_ne by done. intros He0.
  destruct (Hends _ _ He0) as (? & ? & p0 & Hp0 & ?). split_and!; [done|by apply Hdom|].
  exists p0. rewrite !lookup_insert_ne; [done|..].
  - intros Heq. apply Hs. by rewrite <-(other_other s0), <-Heq, other_other.
  - intros ->. by rewrite other_other in Ho'.
Qed.

End protocol.

(* ------------------------------------------------------------------ *)
(** ** Flows of one connection *)

Section flow_facts.

(** The flow of connection [c]. *)
Definition flow_at (fs : submissionFlows) (c : string) : submissionFlow := (forConnection fs c).2.

Lemma forConnection_eq fs c : forConnection fs c = (put_flow fs c (flow_at fs c), flow_at fs c).
Proof.
  unfold flow_at, forConnection. destruct (fs_flows fs !! c) as [f|] eqn:E; [|done].
  f_equal. destruct fs. unfold put_flow. simpl in *. by rewrite insert_id.
Qed.

Lemma flow_at_put fs c f : flow_at (put_flow fs c f) c = f.
Proof. unfold flow_at, forConnection. simpl. by rewrite lookup_insert_eq. Qed.

Lemma put_put_flow fs c f f' : put_flow (put_flow fs c f) c f' = put_flow fs c f'.
Proof. unfold put_flow. simpl. by rewrite insert_insert_eq. Qed.

Lemma outstanding_flow_at fs c : outstanding c fs = fl_outstanding (flow_at fs c).
Proof. unfold flow_at. by rewrite forConnection_outstanding. Qed.

Lemma flow_at_opts fs c : flows_ok fs -> fl_opts (flow_at fs c) = fs_opts fs.
Proof.
  intros [_ Hf]. unfold flow_at, forConnection. destruct (fs_flows fs !! c) eqn:E; [|done].
  by eapply Hf.
Qed.

Lemma flows_ok_put fs c f : flows_ok fs -> fl_opts f = fs_opts fs -> flows_ok (put_flow fs c f).
Proof.
  intros [Hu Hf] Ho. split; [done|]. intros c' f'. simpl.
  rewrite lookup_insert. case_decide; [by intros [= <-]|apply Hf].
Qed.

(** The count of the next request. *)
Definition request_count (fs : submissionFlows) : Z :=
  if fo_requestCount (fs_opts fs) =? 0 then defaultNodeToNodeRequestCount
  else fo_requestCount (fs_opts fs).

Lemma request_count_pos fs : flows_ok fs -> 0 < request_count fs < 2 ^ 16.
Proof.
  intros [[? ?] _]. unfold request_count. destruct (_ =? 0) eqn:E; zbool; [done|lia].
Qed.

Lemma requestIDs_eq fs f :
  flows_ok fs -> fl_opts f = fs_opts fs ->
  requestIDs f = (set_outstanding f 0,
                  RequestMessageIdsBlocking (fl_outstanding f) (request_count fs)).
Proof. intros _ Ho. unfold requestIDs, request_count. simpl. by rewrite Ho. Qed.

End flow_facts.

(* ------------------------------------------------------------------ *)
(** ** The callbacks keep to the protocol *)

Section conformance.
Context {X : Type} `{WireLaws X}.
#[local] Arguments requestIDs : simpl never.
#[local] Arguments onReplyMessageIds : simpl never.
#[local] Arguments onReplyMessages : simpl never.
#[local] Arguments onRequestMessages : simpl never.
#[local] Arguments messagesByIDs : simpl never.
Implicit Types (g : gossip X) (e p : endpoint X).

Lemma on_wire_link ok (w : wire X) un out : link_ok w un out -> link_ok (on_wire ok w) un out.
Proof. by destruct ok. Qed.

Lemma on_wire_proto ok x (w : wire X) un :
  proto_step x (w, un) -> proto_step x (on_wire ok w, un).
Proof. destruct ok; [done|]. destruct x. intros _. apply proto_break. Qed.

Lemma put_topic_inv g i t :
  gossip_inv g -> rt_inv t -> forall j u, <[i := t]> (gs_topics g) !! j = Some u -> rt_inv u.
Proof.
  intros Hg Ht j u. rewrite lookup_insert. case_decide; [by intros [= <-]|].
  apply (gi_topics _ Hg).
Qed.

Lemma put_topic_dom g i t j :
  is_Some (gs_topics g !! j) -> is_Some (<[i := t]> (gs_topics g) !! j).
Proof. rewrite lookup_insert. case_decide; [by eexists|done]. Qed.

Lemma start_pull_advance g s ok g' :
  gossip_inv g -> start_pull g s ok = Some g' ->
  exists e p e' p', gs_ends g !! s = Some e /\ gs_ends g !! other s = Some p /\
    advance g s e p e' p' g'.
Proof.
  intros Hg. unfold start_pull. destruct (gs_ends g !! s) as [e|] eqn:He; [|done].
  destruct (gs_ends g !! other s) as [p|] eqn:Hp; [|done]. cbn [mbind option_bind].
  destruct (en_wire e) eqn:Hw; try done. rewrite forConnection_eq.
  destruct (gi_ends _ Hg _ _ He) as (Hfe & _ & p1 & Hp1 & Hl).
  destruct (gi_ends _ Hg _ _ Hp) as (Hfp & _). simplify_eq. rewrite Hw in Hl.
  destruct Hl as [Hun Hout]. unfold flow_start.
  rewrite (requestIDs_eq (en_flows p)) by auto using flow_at_opts.
  rewrite put_put_flow. intros [= <-].
  do 4 eexists. split; [done|]. split; [done|].
  pose proof (request_count_pos _ Hfp) as Hc.
  rewrite outstanding_flow_at in Hout. rewrite Hout, Hun in *.
  split; simpl; try done.
  - apply (gi_topics _ Hg).
  - split; [done|]. apply flows_ok_put; [done|]. simpl. by apply flow_at_opts.
  - by apply on_wire_link.
  - right. unfold exchange_of. simpl. rewrite Hw, Hun. apply on_wire_proto. by constructor.
Qed.

Lemma recheck_advance g s e p ack count now ok g' :
  gossip_inv g -> gs_ends g !! s = Some e -> gs_ends g !! other s = Some p ->
  en_wire e = AskedIDs ack count -> recheck g s e count now ok = Some g' ->
  exists e', advance g s e p e' p g'.
Proof.
  intros Hg He Hp Hw. unfold recheck.
  destruct (gs_topics g !! en_node e) as [t|] eqn:Ht; [|done]. simpl.
  destruct (gi_ends _ Hg _ _ He) as (Hfe & _ & p1 & Hp1 & Hl).
  destruct (gi_ends _ Hg _ _ Hp) as (Hfp & _). simplify_eq. rewrite Hw in Hl.
  destruct Hl as [Hun Hc]. rewrite forConnection_eq, newIDs_spec, put_put_flow.
  set (f' := set_announced _ _). set (ids := take _ _).
  assert (rt_inv (pruneQueueLocked t now)) as Ht'.
  { apply pruneQueueLocked_inv. by eapply gi_topics. }
  assert (flows_ok (put_flow (en_flows e) s.1 f')) as Hf'.
  { apply flows_ok_put; [done|]. simpl. by apply flow_at_opts. }
  assert (outstanding s.1 (put_flow (en_flows e) s.1 f') = outstanding s.1 (en_flows e)) as Ho.
  { by rewrite outstanding_put, outstanding_flow_at. }
  assert (Z.of_nat (length ids) <= count) as Hlen by (unfold ids; rewrite length_take; lia).
  assert (<[other s := p]> (gs_ends g) = gs_ends g) as Hsame by (by apply insert_id).
  case_bool_decide as Hids; intros [= <-]; eexists; split; simpl; rewrite ?Hsame; try done.
  all: try (by apply put_topic_inv); try (by apply put_topic_dom).
  - simpl. by rewrite Hw.
  - by left.
  - simpl. apply on_wire_link. simpl. rewrite Hun. split_and!; [done|done|lia].
  - right. unfold exchange_of. simpl. rewrite Hw. by apply on_wire_proto, proto_ids.
Qed.

Lemma ack_all (ids : list MessageIDAndSize) count :
  acknowledge (Some (RequestMessageIdsBlocking (Z.of_nat (length ids)) count)) ids = [].
Proof. unfold acknowledge. simpl. rewrite Nat2Z.id. apply drop_all. Qed.

Lemma take_ids_advance g s e p ids ok g' :
  gossip_inv g -> gs_ends g !! s = Some e -> gs_ends g !! other s = Some p ->
  en_wire e = SentIDs ids -> take_ids g s e ids ok = Some g' ->
  exists e' p', advance g s e p e' p' g'.
Proof.
  intros Hg He Hp Hw. unfold take_ids. rewrite Hp. simpl.
  destruct (gs_topics g !! en_node p) as [t|] eqn:Ht; [|done]. simpl.
  destruct (gi_ends _ Hg _ _ He) as (Hfe & _ & p1 & Hp1 & Hl).
  destruct (gi_ends _ Hg _ _ Hp) as (Hfp & _). simplify_eq. rewrite Hw in Hl.
  destruct Hl as (Hne & Hun & Hlen). unfold onReplyMessageIds. rewrite forConnection_eq. cbv zeta.
  rewrite (u16_id (Z.of_nat (length ids))) by (unfold is_u16; lia).
  set (wanted := map _ _). pose proof (request_count_pos _ Hfp) as Hc.
  destruct (bool_decide (wanted = [])) eqn:Hwant; [|apply bool_decide_eq_false in Hwant].
  - rewrite (requestIDs_eq (en_flows p)), put_put_flow by (simpl; auto using flow_at_opts).
    intros [= <-]. do 2 eexists. rewrite Hun. simpl. rewrite ack_all.
    split; simpl; try done.
    + apply (gi_topics _ Hg).
    + split; [done|]. apply flows_ok_put; [done|]. simpl. by apply flow_at_opts.
    + by apply on_wire_link.
    + right. unfold exchange_of. simpl. rewrite Hw, Hun. by apply on_wire_proto, proto_next.
  - rewrite put_put_flow. intros [= <-]. do 2 eexists. rewrite Hun. simpl.
    unfold acknowledge. simpl. rewrite drop_0. split; simpl; try done.
    + apply (gi_topics _ Hg).
    + split; [done|]. apply flows_ok_put; [done|]. simpl. by apply flow_at_opts.
    + apply on_wire_link. simpl. by rewrite outstanding_put.
    + right. unfold exchange_of. simpl. rewrite Hw, Hun. apply on_wire_proto, proto_request; [done|].
      intros k. unfold wanted. intros (id & -> & [_ Hid]%list_elem_of_filter)%list_elem_of_fmap.
      rewrite cloneBytes_id. by apply list_elem_of_fmap_2.
Qed.

Lemma serve_advance g s e p ids now ok g' :
  gossip_inv g -> gs_ends g !! s = Some e -> gs_ends g !! other s = Some p ->
  en_wire e = AskedMessages ids -> serve g s e ids now ok = Some g' ->
  exists e', advance g s e p e' p g'.
Proof.
  intros Hg He Hp Hw. unfold serve.
  destruct (gs_topics g !! en_node e) as [t|] eqn:Ht; [|done]. cbn [mbind option_bind].
  destruct (gi_ends _ Hg _ _ He) as (Hfe & _ & p1 & Hp1 & Hl).
  destruct (gi_ends _ Hg _ _ Hp) as (Hfp & _). simplify_eq. rewrite Hw in Hl. simpl in Hl.
  unfold onRequestMessages.
  rewrite messagesByIDs_spec. simpl. intros [= <-]. eexists.
  assert (rt_inv (pruneQueueLocked t now)) as Ht'.
  { apply pruneQueueLocked_inv. by eapply gi_topics. }
  assert (<[other s := p]> (gs_ends g) = gs_ends g) as Hsame by (by apply insert_id).
  split; simpl; rewrite ?Hsame; try done.
  - by apply put_topic_inv.
  - by intros i; apply put_topic_dom.
  - by apply on_wire_link.
  - right. unfold exchange_of. simpl. rewrite Hw. apply on_wire_proto, proto_messages.
    apply Forall_forall. intros m (m0 & -> & [[_ Hk] _]%list_elem_of_filter)%list_elem_of_fmap.
    by rewrite key_of_clone.
Qed.

(** Submitting a batch: it does not panic, keeps the invariant and the
    configuration, and queues only messages of the batch. *)
Lemma submit_all_total t source peer msgs :
  rt_inv t ->
  exists t' evs, submit_all t source peer msgs = Some (t', evs) /\ rt_inv t' /\ same_topic t t'.
Proof.
  revert t. induction msgs as [|[m [now1 now2]] msgs IH]; intros t Ht; cbn [submit_all].
  { do 2 eexists. by split_and!. }
  destruct (submitSigned_total t now1 now2 (Some m) source peer Ht)
    as (t1 & m1 & err & evs & Hs & Ht1).
  pose proof (submitSigned_same _ _ _ _ _ _ _ _ _ _ Ht Hs) as [? ?].
  rewrite Hs. cbn [mbind option_bind].
  destruct (IH t1 Ht1) as (t2 & evs2 & -> & Ht2 & [? ?]).
  do 2 eexists. split_and!; [done|done|]. split; congruence.
Qed.

Lemma take_messages_advance g s e p ids msgs clock ok g' :
  gossip_inv g -> gs_ends g !! s = Some e -> gs_ends g !! other s = Some p ->
  en_wire e = SentMessages ids msgs -> take_messages g s e msgs clock ok = Some g' ->
  exists e' p', advance g s e p e' p' g'.
Proof.
  intros Hg He Hp Hw. unfold take_messages. rewrite Hp. simpl.
  destruct (gs_topics g !! en_node p) as [t|] eqn:Ht; [|done]. simpl.
  destruct (gi_ends _ Hg _ _ He) as (Hfe & _ & p1 & Hp1 & Hl).
  destruct (gi_ends _ Hg _ _ Hp) as (Hfp & _). simplify_eq. rewrite Hw in Hl. simpl in Hl.
  unfold onReplyMessages.
  destruct (submit_all_total t MessageSourceRemote (fs_peer (en_flows p))
    (imap (fun i m => (m, clock i)) msgs) (gi_topics _ Hg _ _ Ht)) as (t' & evs & -> & Ht' & _).
  cbn [mbind option_bind]. rewrite forConnection_eq.
  rewrite (requestIDs_eq (en_flows p)), put_put_flow by auto using flow_at_opts.
  cbn [mbind option_bind]. rewrite outstanding_flow_at in Hl. rewrite Hl, ack_all.
  intros [= <-]. do 2 eexists. pose proof (request_count_pos _ Hfp) as Hc.
  split; simpl; try done.
  - by apply put_topic_inv.
  - intros i. by apply put_topic_dom.
  - split; [done|]. apply flows_ok_put; [done|]. simpl. by apply flow_at_opts.
  - by apply on_wire_link.
  - right. unfold exchange_of. simpl. rewrite Hw. by apply on_wire_proto, proto_next.
Qed.

Lemma pull_advance g s now clock ok g' :
  gossip_inv g -> pull g s now clock ok = Some g' ->
  exists e p e' p', gs_ends g !! s = Some e /\ gs_ends g !! other s = Some p /\
    advance g s e p e' p' g'.
Proof.
  intros Hg. unfold pull. destruct (gs_ends g !! s) as [e|] eqn:He; [|done]. simpl.
  destruct (gi_ends _ Hg _ _ He) as (_ & _ & p & Hp & _).
  intros Hs. exists e, p. destruct (en_wire e) as [| | | | |] eqn:Hw; try done.
  - destruct (recheck_advance g s e p _ _ _ _ _ Hg He Hp Hw Hs) as [e' ?]. by eauto.
  - destruct (take_ids_advance g s e p _ _ _ Hg He Hp Hw Hs) as (e' & p' & ?). by eauto.
  - destruct (serve_advance g s e p _ _ _ _ Hg He Hp Hw Hs) as [e' ?]. by eauto.
  - destruct (take_messages_advance g s e p _ _ _ _ _ Hg He Hp Hw Hs) as (e' & p' & ?). by eauto.
Qed.

(** Changing a topic leaves the connections alone. *)
Lemma put_topic_gossip_inv g i t :
  gossip_inv g -> rt_inv t -> gossip_inv (put_topic g i t).
Proof.
  intros Hg Ht. split; [by apply put_topic_inv|]. simpl. intros s e He.
  destruct (gi_ends _ Hg _ _ He) as (? & ? & ?). split_and!; try done. by apply put_topic_dom.
Qed.

Lemma connect_inv g c a b pa pb na nb g' :
  gossip_inv g -> connect g c a b pa pb na nb = Some g' -> gossip_inv g'.
Proof.
  intros Hg. unfold connect. destruct (gs_topics g !! a) eqn:Ha; [|done].
  destruct (gs_topics g !! b) eqn:Hb; [|done]. simpl.
  destruct (gs_ends g !! (c, true)) eqn:H1; [done|].
  destruct (gs_ends g !! (c, false)) eqn:H2; [done|]. intros [= <-].
  assert (forall peer n, flows_ok (mkFlows peer (mkFlowOptions (u16 n) 0) ∅)) as Hf.
  { intros peer n. split; [by apply Z.mod_pos_bound|]. intros c' f. simpl. by rewrite lookup_empty. }
  split; simpl; [apply (gi_topics _ Hg)|]. intros s e.
  destruct (decide (s = (c, false))) as [->|Hs1];
    [|rewrite lookup_insert_ne by done; destruct (decide (s = (c, true))) as [->|Hs2];
      [|rewrite lookup_insert_ne by done]].
  - rewrite lookup_insert_eq. intros [= <-]. split_and!; [apply Hf|by eexists|].
    eexists. split; [by rewrite lookup_insert_ne, lookup_insert_eq by done|]. done.
  - rewrite lookup_insert_eq. intros [= <-]. split_and!; [apply Hf|by eexists|].
    eexists. split; [by rewrite lookup_insert_eq by done|]. done.
  - intros He. destruct (gi_ends _ Hg _ _ He) as (? & ? & p & Hp & ?). split_and!; try done.
    exists p. rewrite !lookup_insert_ne; [done|..]; intros [= Hc Hd]; destruct s as [c' []]; simplify_eq/=.
Qed.

Lemma disconnect_inv g c : gossip_inv g -> gossip_inv (disconnect g c).
Proof.
  intros Hg. split; simpl; [apply (gi_topics _ Hg)|]. intros s e.
  rewrite !lookup_delete_Some. intros (Hs1 & Hs2 & He).
  destruct (gi_ends _ Hg _ _ He) as (? & ? & p & Hp & ?). split_and!; try done.
  exists p. rewrite !lookup_delete_ne; [done|..]; intros [= Hc Hd]; destruct s as [c' []]; simplify_eq/=.
Qed.

Lemma gossip_step_inv g a g' : gossip_inv g -> gossip_step g a = Some g' -> gossip_inv g'.
Proof.
  intros Hg. destruct a as [i now1 now2 msg source peer| |s ok|s now clock ok|c|i]; simpl.
  - destruct (gs_topics g !! i) as [t|] eqn:Ht; [|done]. simpl.
    destruct (submitSigned_total t now1 now2 msg source peer (gi_topics _ Hg _ _ Ht))
      as (t' & m' & err & evs & -> & Ht'). simpl. intros [= <-]. by apply put_topic_gossip_inv.
  - by apply connect_inv.
  - intros Hs. destruct (start_pull_advance _ _ _ _ Hg Hs) as (e & p & e' & p' & He & Hp & Ha).
    exact (advance_inv _ _ _ _ _ _ _ Hg He Hp Ha).
  - intros Hs. destruct (pull_advance _ _ _ _ _ _ Hg Hs) as (e & p & e' & p' & He & Hp & Ha).
    exact (advance_inv _ _ _ _ _ _ _ Hg He Hp Ha).
  - intros [= <-]. by apply disconnect_inv.
  - destruct (gs_topics g !! i) as [t|] eqn:Ht; [|done]. simpl.
    destruct (close_closes t (gi_topics _ Hg _ _ Ht)) as (t' & -> & Ht' & _).
    simpl. intros [= <-]. by apply put_topic_gossip_inv.
Qed.

Lemma gossip_run_inv g acts g' : gossip_inv g -> gossip_run g acts = Some g' -> gossip_inv g'.
Proof.
  revert g. induction acts as [|a acts IH]; intros g Hg; simpl; [by intros [= <-]|].
  destruct (gossip_step g a) as [g1|] eqn:Hs; [|done]. simpl.
  apply IH. by eapply gossip_step_inv.
Qed.

End conformance.

(* ------------------------------------------------------------------ *)
(** ** Conformance *)

Section network_theorems.
Context {X : Type} `{WireLaws X}.
Implicit Types (g : gossip X) (e p : endpoint X).

(** Nodes with their topics and no connection. *)
Definition topics_ok (topics : gmap nat (topicRuntime X)) : Prop :=
  forall i t, topics !! i = Some t -> rt_inv t.

Lemma unconnected_inv topics : topics_ok topics -> gossip_inv (mkGossip topics ∅).
Proof. intros Ht. split; [done|]. simpl. intros s e. by rewrite lookup_empty. Qed.

(** What a callback does to every side. *)
Lemma advance_conforms g s e p e' p' g' s0 e0 :
  gs_ends g !! s = Some e -> gs_ends g !! other s = Some p -> advance g s e p e' p' g' ->
  gs_ends g !! s0 = Some e0 ->
  exists e1, gs_ends g' !! s0 = Some e1 /\ en_node e1 = en_node e0 /\
    (exchange_of e1 = exchange_of e0 \/ proto_step (exchange_of e0) (exchange_of e1)).
Proof.
  intros He Hp [Hg _ _ [Hne Hnp] _ _ Ho _ Hpr] He0. rewrite Hg.
  destruct (decide (s0 = s)) as [->|Hs].
  { rewrite lookup_insert_eq. exists e'. by simplify_eq. }
  rewrite lookup_insert_ne by done. destruct (decide (s0 = other s)) as [->|Hs'].
  { rewrite lookup_insert_eq. exists p'. rewrite Hp in He0. injection He0 as <-. by auto. }
  rewrite lookup_insert_ne by done. exists e0. by auto.
Qed.

Lemma connect_conforms g c a b pa pb na nb g' s0 e0 :
  connect g c a b pa pb na nb = Some g' -> gs_ends g !! s0 = Some e0 ->
  gs_ends g' !! s0 = Some e0.
Proof.
  unfold connect. destruct (gs_topics g !! a); [|done]. destruct (gs_topics g !! b); [|done].
  simpl. destruct (gs_ends g !! (c, true)) eqn:H1; [done|].
  destruct (gs_ends g !! (c, false)) eqn:H2; [done|]. intros [= <-] He0. simpl.
  rewrite !lookup_insert_ne; [done|..]; intros <-; congruence.
Qed.

(** C7: In a network of nodes running the package, whatever the order of
    submissions, callbacks, new and ended connections, failing sends and
    closing topics, each exchange keeps to the rules of message submission at
    every step: a blocking request for IDs is answered with at least one ID
    and at most the count asked for; messages are requested only under
    announced, unacknowledged IDs, and only requested messages are sent; the
    next request acknowledges exactly the IDs that are unacknowledged. An
    exchange ends only with its connection or when the library refuses a
    message. *)
Theorem gossip_conforms topics acts g a g' s e :
  topics_ok topics -> gossip_run (mkGossip topics ∅) acts = Some g ->
  gossip_step g a = Some g' -> gs_ends g !! s = Some e ->
  match gs_ends g' !! s with
  | None => a = Disconnect s.1
  | Some e' => en_node e' = en_node e /\
      (exchange_of e' = exchange_of e \/ proto_step (exchange_of e) (exchange_of e'))
  end.
Proof.
  intros Ht Hr Hs He. pose proof (gossip_run_inv _ _ _ (unconnected_inv _ Ht) Hr) as Hg.
  destruct a as [i now1 now2 msg source peer|c a b pa pb na nb|s0 ok|s0 now clock ok|c|i]; simpl in Hs.
  - destruct (gs_topics g !! i) as [t|]; [|done]. simpl in Hs.
    destruct (submitSigned t now1 now2 msg source peer) as [[[[t' ?] ?] ?]|]; [|done].
    simplify_eq/=. rewrite He. by auto.
  - rewrite (connect_conforms _ _ _ _ _ _ _ _ _ _ _ Hs He). by auto.
  - destruct (start_pull_advance _ _ _ _ Hg Hs) as (e0 & p & e' & p' & He0 & Hp & Ha).
    by destruct (advance_conforms _ _ _ _ _ _ _ _ _ He0 Hp Ha He) as (e1 & -> & ?).
  - destruct (pull_advance _ _ _ _ _ _ Hg Hs) as (e0 & p & e' & p' & He0 & Hp & Ha).
    by destruct (advance_conforms _ _ _ _ _ _ _ _ _ He0 Hp Ha He) as (e1 & -> & ?).
  - injection Hs as <-. simpl. destruct (decide (s.1 = c)) as [<-|Hc].
    + destruct s as [c []]; simpl; [by rewrite lookup_delete_eq|].
      by rewrite lookup_delete_ne, lookup_delete_eq.
    + rewrite !lookup_delete_ne, He by (intros <-; done). by auto.
  - destruct (gs_topics g !! i) as [t|]; [|done]. simpl in Hs. destruct (close t); [|done].
    simplify_eq/=. rewrite He. by auto.
Qed.

(* ------------------------------------------------------------------ *)
(** ** Provenance *)

(** [m] carries what one of [msgs] carried when it was normalised. *)
Definition derived (msgs : list (DmqMessage X)) (m : DmqMessage X) : Prop :=
  exists m0 m1, m0 ∈ msgs /\ normalizeAndValidateMessage m0 = Ok m1 /\ msg_equiv m m1.

#[local] Instance derived_proper msgs : Proper (msg_equiv ==> iff) (derived msgs).
Proof.
  intros m m' Hm. unfold derived.
  split; intros (m0 & m1 & ? & ? & ?); exists m0, m1; (split_and!; [done|done|]); by etrans; eauto.
Qed.

(** Relaying changes nothing: normalising a derived message keeps it. *)
Lemma derived_normalize msgs m m' :
  derived msgs m -> normalizeAndValidateMessage m = Ok m' -> derived msgs m'.
Proof.
  intros (m0 & m1 & Hin & Hn & Heq) Hn'. exists m0, m1. split_and!; [done|done|].
  destruct (normalize_Ok _ _ Hn) as (_ & c1 & Hc1 & Hid1 & _).
  destruct (normalize_Ok _ _ Hn') as (_ & c2 & Hc2 & Hid2 & Hor & id & ->).
  etrans; [|exact Heq]. destruct Hor as [Hlen|Hid].
  { exfalso. apply len_zero in Hlen. apply (Compute_nonempty _ _ Hc1).
    by rewrite <-Hid1, <-(me_id _ _ Heq). }
  split; autorewrite with dmq_wire in *; congruence.
Qed.

Lemma submitSigned_queue t now1 now2 msg source peer t' msg' err evs m :
  rt_inv t -> submitSigned t now1 now2 msg source peer = Some (t', msg', err, evs) ->
  m ∈ rt_queue t' ->
  m ∈ rt_queue t \/ exists m0 m1, msg = Some m0 /\ normalizeAndValidateMessage m0 = Ok m1 /\
                      m = cloneMessage m1.
Proof.
  intros Ht. unfold submitSigned. destruct msg as [m0|]; [|intros [= <- _ _ _]; by left].
  destruct (submit_validate t now1 m0) as [m1 [[e evs0]|]] eqn:Hv;
    [intros [= <- _ _ _]; by left|].
  apply submit_validate_None in Hv as (Hn & _ & _).
  destruct (submit_commit_spec t now2 m1 (make_envelope t m1 source peer now2) Ht)
    as (t1 & err1 & evs1 & -> & Hc). simpl. intros [= <- _ _ _].
  destruct Hc as [| | |subs' _ _ _ _]; simpl; [by left| | |].
  - intros [_ ?]%list_elem_of_filter. by left.
  - intros [_ ?]%list_elem_of_filter. by left.
  - intros [[_ ?]%list_elem_of_filter| ->%list_elem_of_singleton]%elem_of_app; [by left|].
    right. by eauto.
Qed.

Lemma submit_all_queue t source peer msgs t' evs m :
  rt_inv t -> submit_all t source peer msgs = Some (t', evs) -> m ∈ rt_queue t' ->
  m ∈ rt_queue t \/ exists m0 m1, m0 ∈ msgs.*1 /\ normalizeAndValidateMessage m0 = Ok m1 /\
                      m = cloneMessage m1.
Proof.
  revert t evs. induction msgs as [|[m0 [now1 now2]] msgs IH]; intros t evs Ht; cbn [submit_all].
  { intros [= <- _]. by left. }
  destruct (submitSigned_total t now1 now2 (Some m0) source peer Ht)
    as (t1 & m0' & err & evs1 & Hs & Ht1).
  rewrite Hs. cbn [mbind option_bind].
  destruct (submit_all t1 source peer msgs) as [[t2 evs2]|] eqn:Ha; [|done]. simpl.
  intros [= <- _] Hm. destruct (IH _ _ Ht1 Ha Hm) as [Hm1|(m2 & m3 & ? & ? & ?)].
  - destruct (submitSigned_queue _ _ _ _ _ _ _ _ _ _ _ Ht Hs Hm1) as [|(? & m1 & [= <-] & ? & ?)];
      [by left|]. right. exists m0, m1. split_and!; [by left|done|done].
  - right. exists m2, m3. split_and!; [by right|done|done].
Qed.

(** What is in flight names or carries derived messages. *)
Definition wire_derived (msgs : list (DmqMessage X)) (w : wire X) : Prop :=
  match w with
  | SentIDs ids => Forall (fun id => exists m, derived msgs m /\ key_of m = id_key id) ids
  | AskedMessages wanted =>
      Forall (fun id => exists m, derived msgs m /\ key_of m = go_string id) wanted
  | SentMessages _ sent => Forall (derived msgs) sent
  | _ => True
  end.

Record sound (msgs : list (DmqMessage X)) g : Prop := {
  so_queues : forall i t, gs_topics g !! i = Some t -> Forall (derived msgs) (rt_queue t);
  so_wires : forall s e, gs_ends g !! s = Some e -> wire_derived msgs (en_wire e)
}.

Lemma derived_mono msgs msgs' m : msgs ⊆ msgs' -> derived msgs m -> derived msgs' m.
Proof. intros Hs (m0 & m1 & ? & ? & ?). exists m0, m1. split_and!; auto. Qed.

Lemma wire_derived_mono msgs msgs' w : msgs ⊆ msgs' -> wire_derived msgs w -> wire_derived msgs' w.
Proof.
  intros Hs. destruct w; simpl; try done; intros Hf; (eapply Forall_impl; [exact Hf|]); intros x.
  - intros (m & ? & ?). exists m. eauto using derived_mono.
  - intros (m & ? & ?). exists m. eauto using derived_mono.
  - by apply derived_mono.
Qed.

Lemma sound_mono msgs msgs' g : msgs ⊆ msgs' -> sound msgs g -> sound msgs' g.
Proof.
  intros Hs [Hq Hw]. split; [|eauto using wire_derived_mono]. intros i t Hi.
  eapply Forall_impl; [by eapply Hq|]. intros m. by apply derived_mono.
Qed.

Lemma sound_put_topic msgs g i t :
  sound msgs g -> Forall (derived msgs) (rt_queue t) -> sound msgs (put_topic g i t).
Proof.
  intros [Hq Hw] Ht. split; [|done]. intros j u. simpl. rewrite lookup_insert.
  case_decide; [by intros [= <-]|apply Hq].
Qed.

Lemma sound_put_end msgs g s e :
  sound msgs g -> wire_derived msgs (en_wire e) -> sound msgs (put_end g s e).
Proof.
  intros [Hq Hw] He. split; [done|]. intros s' e'. simpl. rewrite lookup_insert.
  case_decide; [by intros [= <-]|apply Hw].
Qed.

Lemma wire_derived_on_wire msgs ok w : wire_derived msgs w -> wire_derived msgs (on_wire ok w).
Proof. by destruct ok. Qed.

Lemma derived_prune msgs t now :
  Forall (derived msgs) (rt_queue t) -> Forall (derived msgs) (rt_queue (pruneQueueLocked t now)).
Proof.
  intros Hq. rewrite pruneQueueLocked_spec. simpl.
  apply Forall_forall. intros m [_ Hm]%list_elem_of_filter. by eapply Forall_forall in Hq.
Qed.

(** Every queued ID names a derived message. *)
Lemma queued_ids_derived msgs t now id :
  Forall (derived msgs) (rt_queue t) -> id ∈ queued_ids t now ->
  exists m, derived msgs m /\ key_of m = id_key id.
Proof.
  intros Hq (m & [_ Hm]%list_elem_of_filter & Hs)%list_elem_of_omap. exists m. split.
  - by eapply Forall_forall in Hq.
  - unfold summary in Hs. destruct (cbor_Encode_message m); [by injection Hs as <-|done].
Qed.

Lemma start_pull_sound msgs g s ok g' :
  sound msgs g -> start_pull g s ok = Some g' -> sound msgs g'.
Proof.
  intros Hso. unfold start_pull. destruct (gs_ends g !! s) as [e|] eqn:He; [|done].
  destruct (gs_ends g !! other s) as [p|] eqn:Hp; [|done]. cbn [mbind option_bind].
  destruct (en_wire e) eqn:Hw; try done. rewrite forConnection_eq. unfold flow_start, requestIDs.
  cbv zeta. intros [= <-]. apply sound_put_end; [apply sound_put_end|]; simpl.
  - done.
  - by eapply so_wires.
  - by apply wire_derived_on_wire.
Qed.

Lemma recheck_sound msgs g s e count now ok g' :
  sound msgs g -> gs_ends g !! s = Some e -> recheck g s e count now ok = Some g' -> sound msgs g'.
Proof.
  intros Hso He. unfold recheck. destruct (gs_topics g !! en_node e) as [t|] eqn:Ht; [|done].
  cbn [mbind option_bind]. rewrite forConnection_eq, newIDs_spec. cbv zeta.
  pose proof (so_queues _ _ Hso _ _ Ht) as Hq. set (fresh := filter _ _).
  destruct (bool_decide _); intros [= <-]; (apply sound_put_end;
    [apply sound_put_topic; [done|by apply derived_prune]|]); simpl.
  - by eapply so_wires.
  - apply wire_derived_on_wire. simpl. apply Forall_forall. intros id Hid.
    eapply elem_of_sublist in Hid; [|apply sublist_take].
    apply list_elem_of_filter in Hid as [_ Hid]. by eapply queued_ids_derived.
Qed.

Lemma take_ids_sound msgs g s e ids ok g' :
  sound msgs g -> gs_ends g !! s = Some e -> en_wire e = SentIDs ids ->
  take_ids g s e ids ok = Some g' -> sound msgs g'.
Proof.
  intros Hso He Hw. unfold take_ids. destruct (gs_ends g !! other s) as [p|] eqn:Hp; [|done].
  cbn [mbind option_bind]. destruct (gs_topics g !! en_node p) as [t|] eqn:Ht; [|done].
  cbn [mbind option_bind]. unfold onReplyMessageIds, requestIDs. rewrite forConnection_eq. cbv zeta.
  pose proof (so_wires _ _ Hso _ _ He) as Hids. rewrite Hw in Hids. simpl in Hids.
  destruct (bool_decide _); intros [= <-]; (apply sound_put_end;
    [apply sound_put_end; [done|exact (so_wires _ _ Hso _ _ Hp)]|]); apply wire_derived_on_wire; simpl; [done|].
  apply Forall_forall. intros id (id0 & -> & [_ Hid]%list_elem_of_filter)%list_elem_of_fmap.
  rewrite cloneBytes_id. by eapply Forall_forall in Hids.
Qed.

Lemma serve_sound msgs g s e ids now ok g' :
  sound msgs g -> serve g s e ids now ok = Some g' -> sound msgs g'.
Proof.
  intros Hso. unfold serve. destruct (gs_topics g !! en_node e) as [t|] eqn:Ht; [|done].
  cbn [mbind option_bind]. unfold onRequestMessages. rewrite messagesByIDs_spec.
  cbn [mbind option_bind]. intros [= <-]. pose proof (so_queues _ _ Hso _ _ Ht) as Hq.
  apply sound_put_end; [apply sound_put_topic; [done|by apply derived_prune]|].
  apply wire_derived_on_wire. simpl. apply Forall_forall.
  intros m (m0 & -> & [_ Hm]%list_elem_of_filter)%list_elem_of_fmap.
  rewrite (cloneMessage_equiv m0). by eapply Forall_forall in Hq.
Qed.

Lemma imap_clock_fst (clock : nat -> Time * Time) (sent : list (DmqMessage X)) :
  (imap (fun i m => (m, clock i)) sent).*1 = sent.
Proof.
  revert clock. induction sent as [|m sent IH]; intros clock; simpl; [done|].
  f_equal. apply (IH (fun i => clock (S i))).
Qed.

Lemma take_messages_sound msgs g s e ids sent clock ok g' :
  gossip_inv g -> sound msgs g -> gs_ends g !! s = Some e -> en_wire e = SentMessages ids sent ->
  take_messages g s e sent clock ok = Some g' -> sound msgs g'.
Proof.
  intros Hg Hso He Hw. unfold take_messages. destruct (gs_ends g !! other s) as [p|] eqn:Hp; [|done].
  cbn [mbind option_bind]. destruct (gs_topics g !! en_node p) as [t|] eqn:Ht; [|done].
  cbn [mbind option_bind]. unfold onReplyMessages.
  pose proof (so_wires _ _ Hso _ _ He) as Hsent. rewrite Hw in Hsent. simpl in Hsent.
  pose proof (so_queues _ _ Hso _ _ Ht) as Hq. pose proof (gi_topics _ Hg _ _ Ht) as Hti.
  destruct (submit_all t _ _ _) as [[t' evs]|] eqn:Ha; [|done]. cbn [mbind option_bind].
  rewrite forConnection_eq. unfold requestIDs. cbv zeta. cbn [mbind option_bind]. intros [= <-].
  apply sound_put_end; [apply sound_put_end|by apply wire_derived_on_wire].
  - apply sound_put_topic; [done|]. apply Forall_forall. intros m Hm.
    destruct (submit_all_queue _ _ _ _ _ _ _ Hti Ha Hm) as [?|(m0 & m1 & Hm0 & Hn & ->)].
    { by eapply Forall_forall in Hq. }
    rewrite imap_clock_fst in Hm0. rewrite (cloneMessage_equiv m1).
    eapply derived_normalize; [|done]. by eapply Forall_forall in Hsent.
  - simpl. by eapply so_wires.
Qed.

Lemma pull_sound msgs g s now clock ok g' :
  gossip_inv g -> sound msgs g -> pull g s now clock ok = Some g' -> sound msgs g'.
Proof.
  intros Hg Hso. unfold pull. destruct (gs_ends g !! s) as [e|] eqn:He; [|done].
  cbn [mbind option_bind]. destruct (en_wire e) eqn:Hw; try done.
  - by apply recheck_sound.
  - by apply take_ids_sound.
  - by apply serve_sound.
  - by eapply take_messages_sound.
Qed.

Lemma gossip_step_sound msgs g a g' :
  gossip_inv g -> sound msgs g -> gossip_step g a = Some g' -> sound (msgs ++ inputs [a]) g'.
Proof.
  intros Hg Hso. assert (Hmono : sound (msgs ++ inputs [a]) g).
  { eapply sound_mono; [|exact Hso]. set_solver. }
  destruct a as [i now1 now2 msg source peer|c a b pa pb na nb|s ok|s now clock ok|c|i];
    cbn [gossip_step].
  - destruct (gs_topics g !! i) as [t|] eqn:Ht; [|done]. cbn [mbind option_bind].
    destruct (submitSigned t now1 now2 msg source peer) as [[[[t' m'] err] evs]|] eqn:Hs; [|done].
    intros [= <-]. apply sound_put_topic; [done|]. apply Forall_forall. intros m Hm.
    destruct (submitSigned_queue _ _ _ _ _ _ _ _ _ _ _ (gi_topics _ Hg _ _ Ht) Hs Hm)
      as [Hin|(m0 & m1 & -> & Hn & ->)].
    + pose proof (so_queues _ _ Hmono _ _ Ht) as Hq. by eapply Forall_forall in Hq.
    + rewrite (cloneMessage_equiv m1). exists m0, m1. split_and!; [|done|done]. simpl. set_solver.
  - unfold connect. destruct (gs_topics g !! a); [|done]. destruct (gs_topics g !! b); [|done].
    simpl. repeat case_match; try done. intros [= <-]. by repeat apply sound_put_end.
  - by apply start_pull_sound.
  - by apply pull_sound.
  - intros [= <-]. destruct Hmono as [Hq Hw]. split; [done|]. simpl. intros s e.
    rewrite !lookup_delete_Some. intros (_ & _ & He). by eapply Hw.
  - destruct (gs_topics g !! i) as [t|] eqn:Ht; [|done]. cbn [mbind option_bind].
    destruct (close t) as [t'|] eqn:Hc; [|done]. intros [= <-]. apply sound_put_topic; [done|].
    pose proof (so_queues _ _ Hmono _ _ Ht) as Hq.
    assert (rt_queue t' = rt_queue t) as ->; [|done]. unfold close in Hc.
    destruct (rt_closed t); [by injection Hc as <-|].
    destruct (each_chan _ _ _); [|done]. by injection Hc as <-.
Qed.

Lemma gossip_run_sound msgs g acts g' :
  gossip_inv g -> sound msgs g -> gossip_run g acts = Some g' -> sound (msgs ++ inputs acts) g'.
Proof.
  revert msgs g. induction acts as [|a acts IH]; intros msgs g Hg Hso; simpl.
  { intros [= <-]. by rewrite app_nil_r. }
  destruct (gossip_step g a) as [g1|] eqn:Hs; [|done]. cbn [mbind option_bind]. intros Hr.
  pose proof (IH (msgs ++ inputs [a]) g1 (gossip_step_inv _ _ _ Hg Hs)
    (gossip_step_sound _ _ _ _ Hg Hso Hs) Hr) as Hend.
  rewrite <-app_assoc in Hend. eapply sound_mono; [|exact Hend].
  unfold inputs. simpl. case_match; simpl; set_solver.
Qed.

(** C14: No node of the network makes up or alters a message. From empty
    topics, whatever is submitted where and however the callbacks interleave,
    each message queued at a node agrees, on its ID and on every signed field,
    with a message that was submitted at some node, as that message was
    normalised; so do the messages in flight, and the IDs announced and
    requested name such messages. *)
Theorem gossip_invents_nothing topics acts g :
  topics_ok topics -> (forall i t, topics !! i = Some t -> rt_queue t = []) ->
  gossip_run (mkGossip topics ∅) acts = Some g ->
  (forall i t m, gs_topics g !! i = Some t -> m ∈ rt_queue t -> derived (inputs acts) m) /\
  (forall s e, gs_ends g !! s = Some e -> wire_derived (inputs acts) (en_wire e)).
Proof.
  intros Ht Hq Hr. assert (sound [] (mkGossip topics ∅)) as Hso.
  { split; simpl; [|intros s e; by rewrite lookup_empty]. intros i t Hi.
    by rewrite (Hq i t Hi). }
  destruct (gossip_run_sound _ _ _ _ (unconnected_inv _ Ht) Hso Hr) as [Hqs Hws].
  split; [|exact Hws]. intros i t m Hi Hm. specialize (Hqs i t Hi).
  by eapply Forall_forall in Hqs.
Qed.

End network_theorems.

(* ------------------------------------------------------------------ *)
(** ** Witnesses *)

(** A topic with a subscriber. *)
Definition ex_listening : topicRuntime unit :=
  match subscribe (ex_topic 3 1) with Some (t, _) => t | None => ex_topic 3 1 end.

Lemma ex_listening_inv : rt_inv ex_listening.
Proof.
  destruct (subscribe_total (ex_topic 3 1) (ex_topic_inv 3 1)) as (t & Hs & Ht & _).
  unfold ex_listening. by rewrite Hs.
Qed.

(** Three nodes in a row: a message submitted at node 0 is pulled by node 1
    and from there by node 2, which has a subscriber. *)
Definition ex_nodes : gmap nat (topicRuntime unit) :=
  <[0%nat := ex_topic 3 1]> (<[1%nat := ex_topic 3 1]> (<[2%nat := ex_listening]> ∅)).

Definition ex_pull (c : string) : action unit :=
  Pull (c, true) (sec 20) (fun _ => (sec 20, sec 20)) true.

Definition ex_joined : list (action unit) :=
  [Submit 0 (sec 10) (sec 10) (Some ex_msg1) MessageSourceLocal None;
   Connect "c" 0 1 None None 1 1; Connect "d" 1 2 None None 1 1;
   StartPull ("c", true) true; StartPull ("d", true) true].

Definition ex_relay : list (action unit) :=
  ex_joined ++ replicate 4 (ex_pull "c") ++ replicate 4 (ex_pull "d").

Definition ex_run (acts : list (action unit)) : option (gossip unit) :=
  gossip_run (mkGossip ex_nodes ∅) acts.

Lemma ex_nodes_ok : topics_ok ex_nodes.
Proof.
  intros i t. unfold ex_nodes. rewrite !lookup_insert_Some, lookup_empty.
  intros [[_ <-]|[_ [[_ <-]|[_ [[_ <-]|[_ ?]]]]]];
    [apply ex_topic_inv..|apply ex_listening_inv|done].
Qed.

Lemma ex_nodes_empty : forall i t, ex_nodes !! i = Some t -> rt_queue t = [].
Proof.
  intros i t. unfold ex_nodes. rewrite !lookup_insert_Some, lookup_empty.
  by intros [[_ <-]|[_ [[_ <-]|[_ [[_ <-]|[_ ?]]]]]].
Qed.

(** The fourth callback on the first connection acknowledges the ID. *)
Lemma gossip_conforms_witness :
  exists g g' e e', ex_run (ex_joined ++ replicate 3 (ex_pull "c")) = Some g /\
    gossip_step g (ex_pull "c") = Some g' /\
    gs_ends g !! ("c", true) = Some e /\ gs_ends g' !! ("c", true) = Some e' /\
    (exchange_of e' = exchange_of e \/ proto_step (exchange_of e) (exchange_of e')) /\
    en_wire e' = AskedIDs 1 1.
Proof.
  destruct (ex_run (ex_joined ++ replicate 3 (ex_pull "c"))) as [g|] eqn:E;
    [|by vm_compute in E].
  destruct (gossip_step g (ex_pull "c")) as [g'|] eqn:E'.
  2: { assert (is_Some (ex_run (ex_joined ++ replicate 3 (ex_pull "c")) ≫= fun g =>
                          gossip_step g (ex_pull "c"))) as Hs by (vm_compute; by eexists).
       rewrite E in Hs. cbn [mbind option_bind] in Hs. rewrite E' in Hs. by destruct Hs. }
  assert (en_wire <$> (ex_run (ex_joined ++ replicate 3 (ex_pull "c")) ≫= fun g =>
            gossip_step g (ex_pull "c") ≫= fun g' => gs_ends g' !! ("c", true))
          = Some (AskedIDs 1 1)) as Hw by (by vm_compute).
  assert (is_Some (ex_run (ex_joined ++ replicate 3 (ex_pull "c")) ≫= fun g =>
            gs_ends g !! ("c", true))) as [e He] by (vm_compute; by eexists).
  rewrite E in Hw, He. cbn [mbind option_bind] in Hw, He.
  pose proof (gossip_conforms ex_nodes _ g (ex_pull "c") g' ("c", true) e
    ex_nodes_ok E E' He) as Hc.
  rewrite E' in Hw. cbn [mbind option_bind] in Hw.
  destruct (gs_ends g' !! ("c", true)) as [e'|] eqn:He'; [|done].
  exists g, g', e, e'. split; [reflexivity|]. split; [exact E'|]. split; [exact He|].
  split; [exact He'|]. split; [apply Hc|by injection Hw].
Defined.

Lemma gossip_invents_nothing_witness :
  exists g t, ex_run ex_relay = Some g /\ gs_topics g !! 2%nat = Some t /\
    rt_queue t = [ex_identified ex_msg1] /\ derived [ex_msg1] (ex_identified ex_msg1).
Proof.
  destruct (ex_run ex_relay) as [g|] eqn:E; [|by vm_compute in E].
  assert (rt_queue <$> (ex_run ex_relay ≫= fun g => gs_topics g !! 2%nat)
          = Some [ex_identified ex_msg1]) as Hq by (by vm_compute).
  rewrite E in Hq. cbn [mbind option_bind] in Hq.
  destruct (gs_topics g !! 2%nat) as [t|] eqn:Ht; [|done]. injection Hq as Hq.
  exists g, t. split; [reflexivity|]. split; [exact Ht|]. split; [exact Hq|].
  apply (proj1 (gossip_invents_nothing ex_nodes ex_relay g ex_nodes_ok ex_nodes_empty E) 2%nat t);
    [exact Ht|]. rewrite Hq. left.
Defined.
