(* ===== verification/Convergence.v ===== *)
(** * Messages reach every node

    The network of Gossip.v while its clock stands still and its sends
    succeed. The callbacks of the connections run in any order that keeps
    serving every connection; after a bounded number of rounds, every message
    some node holds is held by every node the connections lead to. A weight
    that every productive callback decreases bounds the rounds. *)

From stdpp Require Import relations.
From S2P Require Import Prelude Errors Types Clone Concrete Payload Peers Ledger Config Topic TopicFacts Examples Service Manager Flow Exchange Gossip.

Section convergence.
Context {X : Type} `{WireLaws X}.
Context (now : Time).
Implicit Types (g : gossip X) (e p : endpoint X).







(* ------------------------------------------------------------------ *)
(** ** The invariant *)










(* ------------------------------------------------------------------ *)
(** ** Topics *)











(* ------------------------------------------------------------------ *)
(** ** Weights *)










#[local] Arguments requestIDs : simpl never.
#[local] Arguments newIDs : simpl never.












(* ------------------------------------------------------------------ *)
(** ** Rounds *)

















End convergence.

(* ------------------------------------------------------------------ *)
(** ** Witness *)

Section acceptance.
Context {X : Type} `{WireLaws X}.


End acceptance.

















