(* ===== verification/Network.v ===== *)
(** * The goroutines of a node-to-node service (network.go)

    A service is a pool of goroutines over a shared state: the start, the
    accept loop, one reconnect loop per peer, the goroutines that serve a
    connection, the two helpers of each connection, the watcher of the context
    and the callers of Close. [run] is one step of one goroutine; what the
    operating system, the protocol library and the scheduler decide is its
    [answer]. A step is what the code does between two points where another
    goroutine can interfere; the error path of the accept loop is one step.

    [NPanic] is a Go panic (a WaitGroup that goes below zero); [NBlocked] is a
    goroutine that cannot take this step now. The log holds the calls of
    callPeerConnected, callPeerDisconnected and callError, in order. *)

From S2P Require Import Prelude Errors Types Clone Concrete Payload Peers Ledger Config Topic TopicFacts Examples Service Manager Flow.
From stdpp Require Import relations.
#[local] Open Scope Z_scope.

Definition defaultNodeToNodeHandshakeTimeout : Duration := 10 * Second.

(* ------------------------------------------------------------------ *)
(** ** One connection *)

(** nodeToNodePeerConnection, apart from the library's objects; the socket is
    open until Close. *)
Record nodeToNodePeerConnection := mkConn {
  cn_peer : Peer;
  cn_id : string;
  (** done is closed, and with it the muxer and the socket *)
  cn_closed : bool;
  (** a value is in errorCh, whose capacity is one *)
  cn_errorCh : bool;
  cn_lastErr : option error;
  cn_flows : option submissionFlows
}.

(** closeOnce.Do: the first call closes done, stops the protocols and the
    muxer, and closes the socket. *)
Definition conn_Close (p : nodeToNodePeerConnection) : nodeToNodePeerConnection :=
  mkConn (cn_peer p) (cn_id p) true (cn_errorCh p) (cn_lastErr p) (cn_flows p).

(** p.err() *)
Definition conn_err (p : nodeToNodePeerConnection) : option error := cn_lastErr p.

(** What sendError changes on the connection. *)
Definition conn_error (p : nodeToNodePeerConnection) (err : error) : nodeToNodePeerConnection :=
  mkConn (cn_peer p) (cn_id p) (cn_closed p) true (Some err) (cn_flows p).

(** <-p.errorCh *)
Definition take_error (p : nodeToNodePeerConnection) : nodeToNodePeerConnection :=
  mkConn (cn_peer p) (cn_id p) (cn_closed p) false (cn_lastErr p) (cn_flows p).

Definition set_flows (p : nodeToNodePeerConnection) (fs : option submissionFlows)
  : nodeToNodePeerConnection :=
  mkConn (cn_peer p) (cn_id p) (cn_closed p) (cn_errorCh p) (cn_lastErr p) fs.

(** What the select of the handshake receives; an error channel that is closed
    gives nil. *)
Inductive handshake_event : Type :=
| HsDone
| HsProto (err : option error)
| HsMuxer (err : option error)
| HsFinished (version : Z).

(** handshake: [deadline] and [reset] are the answers of the two SetDeadline
    calls, [ctxErr] is ctx.Err(). *)
Definition handshake (deadline : option error) (ev : handshake_event) (reset : option error)
  (ctxErr : error) : Z * option error :=
  match deadline with
  | Some e => (0, Some e)
  | None =>
      let '(version, err) :=
        match ev with
        | HsDone => (0, Some ctxErr)
        | HsProto err => (0, err)
        | HsMuxer err => (0, err)
        | HsFinished version => (version, None)
        end in
      (version, match reset, err with Some d, None => Some d | _, _ => err end)
  end.

(** startMessageSubmission: [cfg] is what Manager.messageSubmissionConfig
    answers, [init] the answer of Client.Init; [DMQNtN1] is the protocol
    library's version number. *)
Definition startMessageSubmission (DMQNtN1 : Z) (p : nodeToNodePeerConnection) (version : Z)
  (cfg : result submissionFlows) (init : option error)
  : nodeToNodePeerConnection * option error :=
  match cfg with
  | Err e => (p, Some e)
  | Ok flows =>
      let p := set_flows p (Some flows) in
      if version =? DMQNtN1
      then match init with Some e => (p, Some e) | None => (p, None) end
      else (p, None)
  end.

(** The configuration startMessageSubmission asks its manager for. *)
Definition submission_config {X} (m : Manager X) (s : NodeToNodeService)
  (p : nodeToNodePeerConnection) : result submissionFlows :=
  '(_, flows) ← messageSubmissionConfig m (sv_topic s) (Some (cn_peer p))
                  (mkFlowOptions (requestCount s) (requestInterval s));
  Ok flows.

(** startPull up to the answer of the request: the flow of the connection
    sends its first request. *)
Definition startPull (p : nodeToNodePeerConnection)
  : nodeToNodePeerConnection * option request :=
  match cn_flows p with
  | None => (p, None)
  | Some fs =>
      let '(fs, flow) := forConnection fs (cn_id p) in
      let '(flow, req) := flow_start flow in
      (set_flows p (Some (put_flow fs (cn_id p) flow)), Some req)
  end.

(* ------------------------------------------------------------------ *)
(** ** Goroutines *)

(** Where handleConnection stands. *)
Inductive phase : Type :=
| HHandshake
| HSubmission (version : Z)
| HAdd
| HConnected
| HWait
| HRemove
| HDisconnected.

(** Who called handleConnection: the goroutine of acceptLoop, or a reconnect
    loop with its backoff. *)
Inductive owner : Type :=
| Inbound
| Outbound (peer : Peer) (backoff : Duration).

(** Where a reconnect loop stands when it serves no connection. *)
Inductive loop_pc : Type :=
| OTop
| ODial
| OAfter (err : option error)
| OSleep.

(** Where Close stands: [listener] and [peers] are the copies it took. *)
Inductive close_pc : Type :=
| CLock
| CCancel (listener : option Listener) (peers : list nat)
| CUnregister (listener : option Listener) (peers : list nat)
| CListener (listener : option Listener) (peers : list nat)
| CPeers (peers : list nat) (errs : list (option error))
| CWait (errs : list (option error))
| CJoin (errs : list (option error)).

(** Where start stands. *)
Inductive start_pc : Type :=
| SCheck
| SListen
| SSet (listener : Listener)
| SAccept
| SWatch
| SPeers
| SAdd (peers : list Peer).

Inductive thread : Type :=
| TStart (pc : start_pc)
| TAccept
| TServe (o : owner) (c : nat) (ph : phase)
| TLoop (peer : Peer) (backoff : Duration) (pc : loop_pc)
| TForward (c : nat)
| TPull (c : nat)
| TWatch
| TClose (pc : close_pc)
| TDone.

(** The goroutines the WaitGroup counts. *)
Definition counted (t : thread) : bool :=
  match t with TAccept | TServe _ _ _ | TLoop _ _ _ => true | _ => false end.

Inductive net_event : Type :=
| NConnected (c : nat) (peer : Peer)
| NDisconnected (c : nat) (peer : Peer) (err : option error)
| NError (err : error).

Record nstate := mkNet {
  ns_svc : NodeToNodeService;
  ns_conns : list nodeToNodePeerConnection;
  ns_threads : list thread;
  ns_wg : Z;
  (** the listening socket is open *)
  ns_listening : bool;
  (** the context passed to StartNodeToNode has ended *)
  ns_parent : option error;
  (** the manager knows the service *)
  ns_registered : bool;
  ns_log : list net_event;
  (** what the call of Close in each goroutine returned, last first *)
  ns_returned : list (nat * option error);
  (** history: Close took its copies before start was past the listener *)
  ns_raced : bool;
  (** history: a call of Close is past wg.Wait *)
  ns_drained : bool
}.

Inductive net_outcome : Type :=
| NBlocked
| NPanic
| NNext (st : nstate).

Definition set_svc (st : nstate) (s : NodeToNodeService) : nstate :=
  mkNet s (ns_conns st) (ns_threads st) (ns_wg st) (ns_listening st) (ns_parent st)
    (ns_registered st) (ns_log st) (ns_returned st) (ns_raced st) (ns_drained st).
Definition set_conns (st : nstate) cs : nstate :=
  mkNet (ns_svc st) cs (ns_threads st) (ns_wg st) (ns_listening st) (ns_parent st)
    (ns_registered st) (ns_log st) (ns_returned st) (ns_raced st) (ns_drained st).
Definition set_threads (st : nstate) ts : nstate :=
  mkNet (ns_svc st) (ns_conns st) ts (ns_wg st) (ns_listening st) (ns_parent st)
    (ns_registered st) (ns_log st) (ns_returned st) (ns_raced st) (ns_drained st).
Definition set_wg (st : nstate) n : nstate :=
  mkNet (ns_svc st) (ns_conns st) (ns_threads st) n (ns_listening st) (ns_parent st)
    (ns_registered st) (ns_log st) (ns_returned st) (ns_raced st) (ns_drained st).
Definition set_listening (st : nstate) b : nstate :=
  mkNet (ns_svc st) (ns_conns st) (ns_threads st) (ns_wg st) b (ns_parent st)
    (ns_registered st) (ns_log st) (ns_returned st) (ns_raced st) (ns_drained st).
Definition set_parent (st : nstate) e : nstate :=
  mkNet (ns_svc st) (ns_conns st) (ns_threads st) (ns_wg st) (ns_listening st) e
    (ns_registered st) (ns_log st) (ns_returned st) (ns_raced st) (ns_drained st).
Definition set_registered (st : nstate) b : nstate :=
  mkNet (ns_svc st) (ns_conns st) (ns_threads st) (ns_wg st) (ns_listening st) (ns_parent st)
    b (ns_log st) (ns_returned st) (ns_raced st) (ns_drained st).
Definition add_log (st : nstate) es : nstate :=
  mkNet (ns_svc st) (ns_conns st) (ns_threads st) (ns_wg st) (ns_listening st) (ns_parent st)
    (ns_registered st) (ns_log st ++ es) (ns_returned st) (ns_raced st) (ns_drained st).
Definition add_returned (st : nstate) (i : nat) (e : option error) : nstate :=
  mkNet (ns_svc st) (ns_conns st) (ns_threads st) (ns_wg st) (ns_listening st) (ns_parent st)
    (ns_registered st) (ns_log st) ((i, e) :: ns_returned st) (ns_raced st) (ns_drained st).
Definition set_raced (st : nstate) b : nstate :=
  mkNet (ns_svc st) (ns_conns st) (ns_threads st) (ns_wg st) (ns_listening st) (ns_parent st)
    (ns_registered st) (ns_log st) (ns_returned st) b (ns_drained st).
Definition set_drained (st : nstate) b : nstate :=
  mkNet (ns_svc st) (ns_conns st) (ns_threads st) (ns_wg st) (ns_listening st) (ns_parent st)
    (ns_registered st) (ns_log st) (ns_returned st) (ns_raced st) b.

(** s.cancel() *)
Definition cancel (s : NodeToNodeService) : NodeToNodeService :=
  mkService (sv_topic s) (sv_cfg s) true (sv_closed s) (sv_listener s) (sv_peers s)
    (sv_conns_closed s) (sv_outbound s) (sv_listenErr s) (sv_loops s).

(** s.closed = true *)
Definition mark_closed (s : NodeToNodeService) : NodeToNodeService :=
  mkService (sv_topic s) (sv_cfg s) (sv_cancelled s) true (sv_listener s) (sv_peers s)
    (sv_conns_closed s) (sv_outbound s) (sv_listenErr s) (sv_loops s).

Definition cancelled (st : nstate) : bool := sv_cancelled (ns_svc st).

(** s.ctx.Err() once the context is done: the parent's when that ended first
    (or as well), otherwise the one of s.cancel. *)
Definition ctx_error (st : nstate) : error := default (ErrForeign context_Canceled) (ns_parent st).

Definition become (st : nstate) (i : nat) (t : thread) : nstate :=
  set_threads st (<[i := t]> (ns_threads st)).

(** go ... *)
Definition spawn (st : nstate) (ts : list thread) : nstate :=
  set_threads st (ns_threads st ++ ts).

(** s.wg.Add(1); go ... *)
Definition spawn_counted (st : nstate) (t : thread) : nstate :=
  spawn (set_wg st (ns_wg st + 1)) [t].

(** The end of a goroutine with defer s.wg.Done(). *)
Definition finish (st : nstate) (i : nat) : net_outcome :=
  if ns_wg st <=? 0 then NPanic else NNext (become (set_wg st (ns_wg st - 1)) i TDone).

Definition update_conn (st : nstate) (c : nat) (f : nodeToNodePeerConnection -> nodeToNodePeerConnection)
  : nstate :=
  set_conns st (alter f c (ns_conns st)).

Definition new_conn (st : nstate) (peer : Peer) (id : string) : nstate :=
  set_conns st (ns_conns st ++ [mkConn peer id false false None None]).

(** p.sendError(err) *)
Definition sendError (st : nstate) (c : nat) (err : error) : nstate :=
  update_conn (add_log st [NError err]) c (fun p => conn_error p err).

(** The error a serving goroutine reports: not a cancellation and not a closed
    connection. *)
Definition report (p : Peer) (err : option error) : list net_event :=
  match err with
  | None => []
  | Some e =>
      if negb (errors_Is_foreign e context_Canceled) && negb (errors_Is_foreign e net_ErrClosed)
      then [NError (Errorf "DMQ node-to-node peer %s: %w" [ArgStr (pr_Address p); ArgErr e])]
      else []
  end.

(** What decides a step besides the state: nothing, a case of a select, or the
    answer of a call. *)
Inductive answer : Type :=
| AnsGo
| AnsCtx
| AnsDone
| AnsErrorCh
| AnsTimer
| AnsPick (k : nat)
| AnsHandshake (deadline : option error) (ev : handshake_event) (reset : option error)
| AnsSubmission (cfg : result submissionFlows) (init : option error)
| AnsChan (err : option error)
| AnsSend (err : option error)
| AnsDial (r : result string)
| AnsAccept (r : result (option (option (string * string))))
| AnsListen (r : result Listener)
| AnsPeers (r : result (list Peer)).

(* ------------------------------------------------------------------ *)
(** ** handleConnection *)

(** What a step of handleConnection leads to: its next phase, or its return
    value. *)
Inductive handled : Type :=
| HNext (ph : phase)
| HReturn (err : option error).

(** newNodeToNodePeerConnection failed: it closed the connection, and
    handleConnection closes the socket again. *)
Definition refuse (st : nstate) (c : nat) (err : option error) : option (nstate * handled) :=
  Some (update_conn st c conn_Close, HReturn err).

(** newNodeToNodePeerConnection, on the connection [c] made for it: the
    handshake, the submission protocol, then the two helpers. *)
Definition newNodeToNodePeerConnection (DMQNtN1 : Z) (st : nstate) (c : nat)
  (p : nodeToNodePeerConnection) (ph : phase) (a : answer) : option (nstate * handled) :=
  match ph, a with
  | HHandshake, AnsHandshake deadline ev reset =>
      if match deadline, ev with None, HsDone => cancelled st | _, _ => true end then
        let '(version, err) := handshake deadline ev reset (ctx_error st) in
        match err with
        | Some e => refuse st c (Some e)
        | None => Some (st, HNext (HSubmission version))
        end
      else None
  | HSubmission version, AnsSubmission cfg init =>
      let '(p, err) := startMessageSubmission DMQNtN1 p version cfg init in
      let st := update_conn st c (fun _ => p) in
      match err with
      | Some e => refuse st c (Some e)
      | None => Some (spawn st [TForward c; TPull c], HNext HAdd)
      end
  | _, _ => None
  end.

(** Wait: one case of its select. *)
Definition conn_Wait (st : nstate) (c : nat) (p : nodeToNodePeerConnection) (a : answer)
  : option (nstate * handled) :=
  match a with
  | AnsCtx =>
      if cancelled st then Some (update_conn st c conn_Close, HNext HRemove) else None
  | AnsDone => if cn_closed p then Some (st, HNext HRemove) else None
  | AnsErrorCh =>
      if cn_errorCh p then Some (update_conn st c (fun p => conn_Close (take_error p)), HNext HRemove)
      else None
  | _ => None
  end.

Definition handleConnection (DMQNtN1 : Z) (st : nstate) (c : nat) (ph : phase) (a : answer)
  : option (nstate * handled) :=
  p ← ns_conns st !! c;
  match ph, a with
  | (HHandshake | HSubmission _), _ => newNodeToNodePeerConnection DMQNtN1 st c p ph a
  | HAdd, AnsGo =>
      let closed := sv_closed (ns_svc st) in
      let st := set_svc st (addConnection (ns_svc st) c) in
      Some (if closed then update_conn st c conn_Close else st, HNext HConnected)
  | HConnected, AnsGo => Some (add_log st [NConnected c (cn_peer p)], HNext HWait)
  | HWait, _ => conn_Wait st c p a
  | HRemove, AnsGo =>
      Some (set_svc st (removeConnection (ns_svc st) c), HNext HDisconnected)
  | HDisconnected, AnsGo =>
      Some (add_log st [NDisconnected c (cn_peer p) (conn_err p)], HReturn (conn_err p))
  | _, _ => None
  end.

(* ------------------------------------------------------------------ *)
(** ** The goroutines, one step each *)

(** AddPeer with its goroutine. *)
Definition call_AddPeer (st : nstate) (peer : Peer) : nstate :=
  let s := AddPeer (ns_svc st) peer in
  match drop (length (sv_loops (ns_svc st))) (sv_loops s) with
  | [] => set_svc st s
  | q :: _ =>
      spawn_counted (set_svc st s) (TLoop q (rc_InitialBackoff (nc_Reconnect (sv_cfg s))) OTop)
  end.

(** The accept loop gives up: the error is kept and reported, the listener
    closed and the service cancelled. *)
Definition accept_failed (st : nstate) (i : nat) (kept reported : error) : net_outcome :=
  let st := set_svc st (cancel (setListenError (ns_svc st) kept)) in
  finish (set_listening (add_log st [NError reported]) false) i.

(** One iteration of acceptLoop. *)
Definition acceptLoop (st : nstate) (i : nat) (r : result (option (option (string * string))))
  : net_outcome :=
  match r with
  | Err e =>
      if cancelled st then finish st i
      else accept_failed st i e (Errorf "accept DMQ node-to-node peer: %w" [ArgErr e])
  | Ok conn =>
      if ns_listening st then
        match conn with
        | None =>
            let e := ErrNew "accept DMQ node-to-node peer: accepted nil connection" in
            accept_failed st i e e
        | Some None =>
            NNext (add_log st [NError (ErrNew
              "accept DMQ node-to-node peer: accepted connection with nil remote address")])
        | Some (Some (addr, id)) =>
            let peer := mkPeer addr "" 0 PeerSourcePeerSharing "" 0 0 0 false false in
            NNext (spawn_counted (new_conn st peer id)
                     (TServe Inbound (length (ns_conns st)) HHandshake))
        end
      else NBlocked
  end.

Definition next_backoff (cfg : ReconnectConfig) (backoff : Duration) : Duration :=
  let next := i64 (backoff * 2) in
  if next >? rc_MaxBackoff cfg then rc_MaxBackoff cfg else next.

(** dialAndServe up to handleConnection; [r] is the answer of the dial. *)
Definition dialAndServe (st : nstate) (i : nat) (peer : Peer) (backoff : Duration)
  (r : result string) : net_outcome :=
  match r with
  | Err e => NNext (become st i (TLoop peer backoff (OAfter (Some e))))
  | Ok id =>
      NNext (become (new_conn st peer id) i
               (TServe (Outbound peer backoff) (length (ns_conns st)) HHandshake))
  end.

(** outboundLoop outside handleConnection. *)
Definition loop_step (st : nstate) (i : nat) (peer : Peer) (backoff : Duration) (pc : loop_pc)
  (a : answer) : net_outcome :=
  let cfg := nc_Reconnect (sv_cfg (ns_svc st)) in
  match pc, a with
  | OTop, AnsGo =>
      if cancelled st then finish st i else NNext (become st i (TLoop peer backoff ODial))
  | ODial, AnsDial r => dialAndServe st i peer backoff r
  | OAfter err, AnsGo =>
      let backoff := match err with None => rc_InitialBackoff cfg | Some _ => backoff end in
      NNext (become (add_log st (report peer err)) i (TLoop peer backoff OSleep))
  | OSleep, AnsCtx => if cancelled st then finish st i else NBlocked
  | OSleep, AnsTimer => NNext (become st i (TLoop peer (next_backoff cfg backoff) OTop))
  | _, _ => NBlocked
  end.

Definition forwardErrors (st : nstate) (i c : nat) (a : answer) : net_outcome :=
  match ns_conns st !! c with
  | None => NBlocked
  | Some p =>
      let close st := NNext (become (update_conn st c conn_Close) i TDone) in
      match a with
      | AnsCtx => if cancelled st then close st else NBlocked
      | AnsDone => if cn_closed p then close st else NBlocked
      | AnsChan (Some e) => close (sendError st c e)
      | AnsChan None => close st
      | _ => NBlocked
      end
  end.

Definition pull_step (st : nstate) (i c : nat) (a : answer) : net_outcome :=
  match ns_conns st !! c, a with
  | Some p, AnsSend err =>
      let '(p, req) := startPull p in
      let st := update_conn st c (fun _ => p) in
      let st := match req, err with
                | Some _, Some e =>
                    sendError st c (Errorf "request DMQ message IDs: %w" [ArgErr e])
                | _, _ => st
                end in
      NNext (become st i TDone)
  | _, _ => NBlocked
  end.

(** start has not yet got past its listener. *)
Definition early (t : thread) : bool :=
  match t with TStart (SCheck | SListen | SSet _ | SAccept) => true | _ => false end.

(** Close, for a caller that is goroutine [i]. *)
Definition close_step (st : nstate) (i : nat) (pc : close_pc) (a : answer) : net_outcome :=
  let goto st pc := NNext (become st i (TClose pc)) in
  match pc, a with
  | CLock, AnsGo =>
      let s := ns_svc st in
      if sv_closed s then NNext (become (add_returned st i (sv_listenErr s)) i TDone)
      else
        let st := set_raced st (ns_raced st || existsb early (ns_threads st)) in
        goto (set_svc st (mark_closed s)) (CCancel (sv_listener s) (elements (sv_peers s)))
  | CCancel l ps, AnsGo => goto (set_svc st (cancel (ns_svc st))) (CUnregister l ps)
  | CUnregister l ps, AnsGo => goto (set_registered st false) (CListener l ps)
  | CListener l ps, AnsGo =>
      match l with
      | None => goto st (CPeers ps [])
      | Some err =>
          let err := if ns_listening st then err else Some (ErrForeign net_ErrClosed) in
          goto (set_listening st false) (CPeers ps [err])
      end
  | CPeers [] errs, AnsGo => goto st (CWait errs)
  | CPeers ps errs, AnsPick k =>
      match ps !! k with
      | Some c => goto (update_conn st c conn_Close) (CPeers (delete k ps) errs)
      | None => NBlocked
      end
  | CWait errs, AnsGo =>
      if ns_wg st =? 0 then goto (set_drained st true) (CJoin errs) else NBlocked
  | CJoin errs, AnsGo =>
      let errs :=
        errs ++ match sv_listenErr (ns_svc st) with
                | Some e => if errors_Is_foreign e net_ErrClosed then [] else [Some e]
                | None => []
                end in
      NNext (become (add_returned st i (errors_Join errs)) i TDone)
  | _, _ => NBlocked
  end.

(** start, in goroutine [i]; a failure goes on to the Close of StartNodeToNode.
    When TopicPeers fails start calls Close as well: the second call finds the
    service closed and returns, and is left out. *)
Definition start_step (st : nstate) (i : nat) (pc : start_pc) (a : answer) : net_outcome :=
  let goto st pc := NNext (become st i (TStart pc)) in
  let fail st := NNext (become st i (TClose CLock)) in
  let cfg := sv_cfg (ns_svc st) in
  match pc, a with
  | SCheck, AnsGo =>
      match ns_parent st with
      | Some _ => fail st
      | None => goto st (if bool_decide (nc_ListenAddress cfg = "") then SWatch else SListen)
      end
  | SListen, AnsListen (Err _) => fail st
  | SListen, AnsListen (Ok l) => goto (set_listening st true) (SSet l)
  | SSet l, AnsGo => goto (set_svc st (set_listener (ns_svc st) l)) SAccept
  | SAccept, AnsGo => goto (spawn_counted st TAccept) SWatch
  | SWatch, AnsGo => goto (spawn st [TWatch]) SPeers
  | SPeers, AnsPeers (Err _) => fail st
  | SPeers, AnsPeers (Ok peers) => goto st (SAdd (peers ++ nc_Peers cfg))
  | SAdd [], AnsGo => NNext (become st i TDone)
  | SAdd (p :: ps), AnsGo => goto (call_AddPeer st p) (SAdd ps)
  | _, _ => NBlocked
  end.

(** closeOnDone: s.ctx ends with the context it was made from, so that one of
    the two channels is enough; then Close. *)
Definition closeOnDone (st : nstate) (i : nat) (a : answer) : net_outcome :=
  match a with
  | AnsGo => if cancelled st then NNext (become st i (TClose CLock)) else NBlocked
  | _ => NBlocked
  end.

(** One step of goroutine [i]. *)
Definition run (DMQNtN1 : Z) (st : nstate) (i : nat) (a : answer) : net_outcome :=
  match ns_threads st !! i with
  | None | Some TDone => NBlocked
  | Some (TStart pc) => start_step st i pc a
  | Some TAccept => match a with AnsAccept r => acceptLoop st i r | _ => NBlocked end
  | Some (TServe o c ph) =>
      match handleConnection DMQNtN1 st c ph a with
      | None => NBlocked
      | Some (st, HNext ph) => NNext (become st i (TServe o c ph))
      | Some (st, HReturn err) =>
          match o with
          | Inbound =>
              match ns_conns st !! c with
              | None => NBlocked
              | Some p => finish (add_log st (report (cn_peer p) err)) i
              end
          | Outbound peer backoff => NNext (become st i (TLoop peer backoff (OAfter err)))
          end
      end
  | Some (TLoop peer backoff pc) => loop_step st i peer backoff pc a
  | Some (TForward c) => forwardErrors st i c a
  | Some (TPull c) => pull_step st i c a
  | Some TWatch => closeOnDone st i a
  | Some (TClose pc) => close_step st i pc a
  end.

(** What can happen: a step of a goroutine, a call of Close or AddPeer, or the
    end of the context that StartNodeToNode was given. *)
Inductive net_action : Type :=
| NRun (i : nat) (a : answer)
| NCallClose
| NCallAddPeer (peer : Peer)
| NParentDone (err : error).

Definition net_step (DMQNtN1 : Z) (st : nstate) (act : net_action) : net_outcome :=
  match act with
  | NRun i a => run DMQNtN1 st i a
  | NCallClose => NNext (spawn st [TClose CLock])
  | NCallAddPeer peer => NNext (call_AddPeer st peer)
  | NParentDone err =>
      match ns_parent st with
      | Some _ => NBlocked
      | None =>
          let err := if cancelled st then ErrForeign context_Canceled else err in
          NNext (set_svc (set_parent st (Some err)) (cancel (ns_svc st)))
      end
  end.

(** A service that StartNodeToNode has registered and is about to start. *)
Definition net_init (topic : string) (cfg : NodeToNodeConfig) : nstate :=
  mkNet (newNodeToNodeService topic cfg) [] [TStart SCheck] 0 false None true [] [] false false.

Fixpoint net_run (DMQNtN1 : Z) (st : nstate) (acts : list net_action) : net_outcome :=
  match acts with
  | [] => NNext st
  | act :: acts =>
      match net_step DMQNtN1 st act with
      | NNext st => net_run DMQNtN1 st acts
      | r => r
      end
  end.

Inductive net_reachable (DMQNtN1 : Z) (topic : string) (cfg : NodeToNodeConfig) : nstate -> Prop :=
| nr_init : net_reachable DMQNtN1 topic cfg (net_init topic cfg)
| nr_step st act st' :
    net_reachable DMQNtN1 topic cfg st -> net_step DMQNtN1 st act = NNext st' ->
    net_reachable DMQNtN1 topic cfg st'.
