(* ===== verification/NetworkFacts.v ===== *)
(** * The invariant of a service's goroutines

    The order of the goroutine list does not matter to any property, so a
    step is seen as replacing one element of a multiset ([threads_at]). For
    each connection, [conn_ok] ties together the goroutine that serves it, its
    membership in the peer set, whether it is closed and the hooks called for
    it. [net_step_ok]: every step keeps [net_inv] and no step panics. *)

From S2P Require Import Prelude Errors Types Clone Concrete Payload Peers Ledger Config Topic TopicFacts Examples Service Manager Flow Network.
From stdpp Require Import relations.
#[local] Open Scope Z_scope.

Definition counted_in (ts : list thread) : nat :=
  sum_list_with (fun t => Nat.b2n (counted t)) ts.

(** The phases of the goroutines that serve connection [c]. *)
Definition serves (c : nat) (t : thread) : option phase :=
  match t with TServe _ c' ph => if decide (c' = c) then Some ph else None | _ => None end.

Definition serving (ts : list thread) (c : nat) : list phase := omap (serves c) ts.

(** The hooks called for connection [c]. *)
Definition of_conn (c : nat) (ev : net_event) : bool :=
  match ev with
  | NConnected c' _ | NDisconnected c' _ _ => bool_decide (c' = c)
  | NError _ => false
  end.

Definition events (c : nat) (log : list net_event) : list net_event :=
  List.filter (of_conn c) log.

Definition phase_ok (c : nat) (p : nodeToNodePeerConnection) (tracked : Prop)
  (evs : list net_event) (ph : phase) : Prop :=
  match ph with
  | HHandshake | HSubmission _ | HAdd => ~ tracked /\ evs = []
  | HConnected => evs = []
  | HWait => evs = [NConnected c (cn_peer p)]
  | HRemove => cn_closed p = true /\ evs = [NConnected c (cn_peer p)]
  | HDisconnected => ~ tracked /\ cn_closed p = true /\ evs = [NConnected c (cn_peer p)]
  end.

(** Nobody serves the connection any more. *)
Definition over (c : nat) (p : nodeToNodePeerConnection) (evs : list net_event) : Prop :=
  evs = [] \/ exists err, evs = [NConnected c (cn_peer p); NDisconnected c (cn_peer p) err].

Definition conn_ok (tracked : Prop) (phs : list phase) (pc : option nodeToNodePeerConnection)
  (evs : list net_event) (c : nat) : Prop :=
  match phs, pc with
  | [], None => ~ tracked /\ evs = []
  | [], Some p => ~ tracked /\ cn_closed p = true /\ over c p evs
  | [ph], Some p => phase_ok c p tracked evs ph
  | _, _ => False
  end.

Definition conns_ok (st : nstate) : Prop :=
  forall c, conn_ok (c ∈ sv_peers (ns_svc st)) (serving (ns_threads st) c) (ns_conns st !! c)
              (events c (ns_log st)) c.

Definition closed (st : nstate) : bool := sv_closed (ns_svc st).

(** Unless Close overtook start, the listener is closed. *)
Definition quiet (st : nstate) : Prop := ns_raced st = false -> ns_listening st = false.

(** Close has to close the listener it holds a copy of. *)
Definition holds (st : nstate) (l : option Listener) : Prop := l = None -> quiet st.

Definition thread_ok (st : nstate) (t : thread) : Prop :=
  match t with
  | TForward c | TPull c => (c < length (ns_conns st))%nat
  | TClose (CCancel l _) => closed st = true /\ holds st l
  | TClose (CUnregister l _) | TClose (CListener l _) =>
      closed st = true /\ cancelled st = true /\ holds st l
  | TClose (CPeers _ _) | TClose (CWait _) | TClose (CJoin _) =>
      closed st = true /\ cancelled st = true /\ quiet st
  | _ => True
  end.

(** start holds a listener it has not stored yet. *)
Definition holding (t : thread) : bool := match t with TStart (SSet _) => true | _ => false end.

(** A call of Close between its lock and the end of its wait. *)
Definition closing (t : thread) : bool :=
  match t with TClose (CLock | CJoin _) => false | TClose _ => true | _ => false end.

Record net_inv (st : nstate) : Prop := {
  ni_wg : ns_wg st = Z.of_nat (counted_in (ns_threads st));
  ni_conns : conns_ok st;
  ni_threads : Forall (thread_ok st) (ns_threads st);
  ni_listen : ns_listening st = true ->
    is_Some (sv_listener (ns_svc st)) \/ Exists (fun t => holding t = true) (ns_threads st);
  ni_early : closed st = true -> ns_raced st = false ->
    Forall (fun t => early t = false) (ns_threads st);
  ni_closing : closed st = true ->
    ns_drained st = true \/ Exists (fun t => closing t = true) (ns_threads st);
  ni_drained : ns_drained st = true ->
    closed st = true /\ cancelled st = true /\ quiet st /\ (ns_raced st = false -> ns_wg st = 0)
}.

(* ------------------------------------------------------------------ *)
(** ** Goroutines as a multiset *)

Lemma threads_at (ts : list thread) i t :
  ts !! i = Some t ->
  exists rest, ts ≡ₚ t :: rest /\ forall t', <[i:=t']> ts ≡ₚ t' :: rest.
Proof.
  intros Hi. exists (take i ts ++ drop (S i) ts). split.
  - rewrite <- (take_drop_middle ts i t Hi) at 1. by rewrite Permutation_middle.
  - intros t'. rewrite insert_take_drop by (by eapply lookup_lt_Some).
    by rewrite Permutation_middle.
Qed.

#[export] Instance counted_in_perm : Proper (Permutation ==> eq) counted_in.
Proof. intros ts ts' H. by apply sum_list_with_Permutation_proper. Qed.

#[export] Instance serving_perm : Proper (Permutation ==> eq ==> Permutation) serving.
Proof. intros ts ts' H c c' <-. unfold serving. by rewrite H. Qed.

Lemma conn_ok_perm tracked phs phs' pc evs c :
  phs ≡ₚ phs' -> conn_ok tracked phs pc evs c -> conn_ok tracked phs' pc evs c.
Proof.
  intros Hp. destruct phs as [|ph [|ph2 phs]].
  - by apply Permutation_nil_l in Hp as <-.
  - by apply Permutation_singleton_l in Hp as <-.
  - by destruct pc.
Qed.

(* ------------------------------------------------------------------ *)
(** ** Steps that leave the flags alone *)

(** What the other goroutines rely on. *)
Record net_le (st st' : nstate) : Prop := {
  nl_closed : closed st = true -> closed st' = true;
  nl_cancelled : cancelled st = true -> cancelled st' = true;
  nl_conns : (length (ns_conns st) <= length (ns_conns st'))%nat;
  nl_quiet : closed st = true -> quiet st -> quiet st'
}.

Lemma thread_ok_le st st' t : net_le st st' -> thread_ok st t -> thread_ok st' t.
Proof.
  intros [Hc Hx Hl Hq]. unfold thread_ok, holds.
  destruct t as [| | | |c|c| |[]|]; try done; naive_solver lia.
Qed.

Lemma threads_ok_le st st' ts :
  net_le st st' -> Forall (thread_ok st) ts -> Forall (thread_ok st') ts.
Proof.
  rewrite !Forall_forall. intros Hle H t Ht. eapply thread_ok_le; eauto.
Qed.

(** The flags stay, except that the context may end and the listener close. *)
Record same_flags (st st' : nstate) : Prop := {
  sf_closed : closed st' = closed st;
  sf_cancelled : cancelled st = true -> cancelled st' = true;
  sf_listener : sv_listener (ns_svc st') = sv_listener (ns_svc st);
  sf_listening : ns_listening st' = true -> ns_listening st = true;
  sf_raced : ns_raced st' = ns_raced st;
  sf_drained : ns_drained st' = ns_drained st;
  sf_conns : (length (ns_conns st) <= length (ns_conns st'))%nat
}.

Lemma same_flags_quiet st st' : same_flags st st' -> quiet st -> quiet st'.
Proof.
  intros Hs Hq. unfold quiet. rewrite (sf_raced _ _ Hs). intros Hr.
  destruct (ns_listening st') eqn:Hl; [|done]. apply (sf_listening _ _ Hs) in Hl.
  by rewrite Hq in Hl.
Qed.

Lemma same_flags_le st st' : same_flags st st' -> net_le st st'.
Proof.
  intros Hs. split.
  - by rewrite (sf_closed _ _ Hs).
  - apply Hs.
  - apply Hs.
  - intros _. by apply same_flags_quiet.
Qed.

(** A goroutine that is neither a start with an open listener nor a Close at
    work. *)
Definition plain (t : thread) : Prop := early t = false /\ closing t = false.

Lemma counted_in_app ts ts' : counted_in (ts ++ ts') = (counted_in ts + counted_in ts')%nat.
Proof. apply sum_list_with_app. Qed.

Lemma exists_without (f : thread -> bool) old rest :
  Forall (fun t => f t = false) old ->
  Exists (fun t => f t = true) (old ++ rest) -> Exists (fun t => f t = true) rest.
Proof.
  intros Hf [H|H]%Exists_app; [|done].
  apply Exists_exists in H as (t & Ht & H). rewrite Forall_forall in Hf. by rewrite Hf in H.
Qed.

Lemma early_holding ts :
  Forall (fun t => early t = false) ts -> Forall (fun t => holding t = false) ts.
Proof. intros H. eapply Forall_impl; [exact H|]. by intros [[] | | | | | | | |]. Qed.

(** Goroutines [old] are replaced by [new]. *)
Lemma net_inv_plain st st' old new rest :
  net_inv st -> same_flags st st' ->
  ns_threads st ≡ₚ old ++ rest -> ns_threads st' ≡ₚ new ++ rest ->
  Forall plain old -> Forall plain new -> Forall (thread_ok st') new ->
  ns_wg st' = ns_wg st + Z.of_nat (counted_in new) - Z.of_nat (counted_in old) ->
  (closed st = true -> counted_in old = 0%nat -> counted_in new = 0%nat) ->
  conns_ok st' -> net_inv st'.
Proof.
  intros Hi Hs Ho Hn [Po1 Po2]%Forall_and [Pn1 Pn2]%Forall_and Ht Hw Hk Hc.
  destruct Hi as [Iw _ It Il Ie Ig Id].
  assert (Forall (fun t => early t = false) (ns_threads st) ->
          Forall (fun t => early t = false) (ns_threads st')) as Hearly.
  { rewrite Ho, Hn, !Forall_app. naive_solver. }
  split.
  - rewrite Hw, Iw, Hn, Ho, !counted_in_app. lia.
  - done.
  - rewrite Ho in It. rewrite Hn. apply Forall_app in It as [_ It]. apply Forall_app. split; [done|].
    eapply threads_ok_le; [by apply same_flags_le|done].
  - rewrite (sf_listener _ _ Hs). intros [?|H]%(sf_listening _ _ Hs)%Il; [by left|]. right.
    rewrite Ho in H. rewrite Hn, Exists_app. right. apply (exists_without holding old); [by apply early_holding|done].
  - rewrite (sf_closed _ _ Hs), (sf_raced _ _ Hs). auto.
  - rewrite (sf_closed _ _ Hs), (sf_drained _ _ Hs). intros [?|H]%Ig; [by left|]. right.
    rewrite Ho in H. rewrite Hn, Exists_app. right. by apply (exists_without closing old).
  - rewrite (sf_closed _ _ Hs), (sf_drained _ _ Hs), (sf_raced _ _ Hs).
    intros (H1 & H2 & H3 & H4)%Id. split_and!; [done| |by eapply same_flags_quiet|].
    + by apply (sf_cancelled _ _ Hs).
    + intros H5%H4. rewrite Iw, Ho, counted_in_app in H5. rewrite Hw, Iw, Ho, counted_in_app.
      assert (counted_in new = 0%nat) as -> by (apply Hk; [done|lia]). lia.
Qed.

(* ------------------------------------------------------------------ *)
(** ** Steps on one connection *)

(** What only ever changes one way on a connection. *)
Definition keeps (p p' : nodeToNodePeerConnection) : Prop :=
  cn_peer p' = cn_peer p /\ (cn_closed p = true -> cn_closed p' = true).

Lemma conn_ok_keeps tracked phs p p' evs c :
  keeps p p' -> conn_ok tracked phs (Some p) evs c -> conn_ok tracked phs (Some p') evs c.
Proof.
  intros [Hp Hc]. destruct phs as [|ph [|]]; simpl; [| |done].
  - unfold over. rewrite Hp. naive_solver.
  - destruct ph; simpl; rewrite ?Hp; naive_solver.
Qed.

Lemma conn_ok_iff (T T' : Prop) phs pc evs c :
  (T <-> T') -> conn_ok T phs pc evs c -> conn_ok T' phs pc evs c.
Proof.
  intros HT. destruct phs as [|ph [|? ?]], pc as [q|]; simpl; try tauto.
  destruct ph; simpl; tauto.
Qed.

(** A step that concerns connection [c] only. *)
Record touches (c : nat) (st st' : nstate) : Prop := {
  tc_flags : same_flags st st';
  tc_peers c' : c' <> c -> c' ∈ sv_peers (ns_svc st') <-> c' ∈ sv_peers (ns_svc st);
  tc_conns c' : c' <> c -> ns_conns st' !! c' = ns_conns st !! c';
  tc_events c' : c' <> c -> events c' (ns_log st') = events c' (ns_log st)
}.

Lemma same_flags_refl st : same_flags st st.
Proof. split; auto. Qed.

Lemma same_flags_trans st1 st2 st3 :
  same_flags st1 st2 -> same_flags st2 st3 -> same_flags st1 st3.
Proof. intros [] []. split; auto; by etrans. Qed.

Lemma touches_refl c st : touches c st st.
Proof. split; auto using same_flags_refl. Qed.

Lemma touches_trans c st1 st2 st3 : touches c st1 st2 -> touches c st2 st3 -> touches c st1 st3.
Proof.
  intros [F P C L] [F' P' C' L']. split.
  - by eapply same_flags_trans.
  - intros c' Hc. by rewrite P', P.
  - intros c' Hc. by rewrite C', C.
  - intros c' Hc. by rewrite L', L.
Qed.

Lemma update_touches st c f : touches c st (update_conn st c f).
Proof.
  split; simpl; auto.
  - split; simpl; auto. by rewrite length_alter.
  - intros c' Hc. by rewrite list_lookup_alter_ne.
Qed.

Lemma events_app c log es : events c (log ++ es) = events c log ++ events c es.
Proof. apply List.filter_app. Qed.

Lemma events_none c es : Forall (fun ev => of_conn c ev = false) es -> events c es = [].
Proof. induction 1 as [|ev es Hev H IH]; simpl; [done|]. by rewrite Hev. Qed.

Lemma log_touches st c es :
  Forall (fun ev => forall c', c' <> c -> of_conn c' ev = false) es -> touches c st (add_log st es).
Proof.
  intros Hes. split; simpl; auto using same_flags_refl.
  - by split.
  - intros c' Hc. rewrite events_app, (events_none c' es), app_nil_r; [done|].
    eapply Forall_impl; [exact Hes|]. simpl. auto.
Qed.

(** Reports concern no connection. *)
Lemma report_events c p err : events c (report p err) = [].
Proof. unfold report. repeat (case_match; try done). Qed.

Lemma report_others c p err :
  Forall (fun ev => forall c', c' <> c -> of_conn c' ev = false) (report p err).
Proof. unfold report. repeat (case_match; try by repeat constructor). Qed.

Lemma svc_touches st c s :
  sv_closed s = sv_closed (ns_svc st) -> sv_cancelled s = sv_cancelled (ns_svc st) ->
  sv_listener s = sv_listener (ns_svc st) ->
  (forall c', c' <> c -> c' ∈ sv_peers s <-> c' ∈ sv_peers (ns_svc st)) ->
  touches c st (set_svc st s).
Proof.
  intros H1 H2 H3 H4. split; simpl; auto. split; unfold closed, cancelled; simpl; congruence || auto.
Qed.

Lemma serving_cons t ts c :
  serving (t :: ts) c = option_list (serves c t) ++ serving ts c.
Proof. unfold serving. simpl. by destruct (serves c t). Qed.

Lemma serving_app ts ts' c : serving (ts ++ ts') c = serving ts c ++ serving ts' c.
Proof. apply omap_app. Qed.

Lemma touches_conns_ok c st st' old new rest :
  conns_ok st -> touches c st st' ->
  ns_threads st ≡ₚ old ++ rest -> ns_threads st' ≡ₚ new ++ rest ->
  (forall c', c' <> c -> serving new c' = serving old c') ->
  conn_ok (c ∈ sv_peers (ns_svc st')) (serving (new ++ rest) c) (ns_conns st' !! c)
    (events c (ns_log st')) c ->
  conns_ok st'.
Proof.
  intros Hok [F P C L] Ho Hn Hs Hc c'. eapply conn_ok_perm; [symmetry; by rewrite Hn|].
  destruct (decide (c' = c)) as [->|Hne]; [done|]. specialize (Hok c').
  apply (conn_ok_perm _ _ (serving (new ++ rest) c')) in Hok.
  2:{ by rewrite Ho, !serving_app, Hs. }
  rewrite (C _ Hne), (L _ Hne). eapply conn_ok_iff; [|exact Hok]. symmetry. by apply P.
Qed.

(** The goroutine that serves a connection is the only one. *)
Lemma serve_alone st o c ph rest :
  conns_ok st -> ns_threads st ≡ₚ TServe o c ph :: rest ->
  serving rest c = [] /\
  exists p, ns_conns st !! c = Some p /\
    phase_ok c p (c ∈ sv_peers (ns_svc st)) (events c (ns_log st)) ph.
Proof.
  intros Hok Ho. specialize (Hok c).
  apply (conn_ok_perm _ _ (serving (TServe o c ph :: rest) c)) in Hok; [|by rewrite Ho].
  rewrite serving_cons in Hok. simpl in Hok. rewrite decide_True in Hok by done. simpl in Hok.
  destruct (serving rest c) as [|? ?]; [|by destruct (ns_conns st !! c)].
  destruct (ns_conns st !! c) as [p|]; [|done]. split; [done|]. by exists p.
Qed.

Lemma lookup_update st c f p :
  ns_conns st !! c = Some p -> ns_conns (update_conn st c f) !! c = Some (f p).
Proof. intros Hp. simpl. by rewrite list_lookup_alter_eq, Hp. Qed.

(** What a step of handleConnection on [c] leaves. *)
Definition handled_ok (st : nstate) (c : nat) (st' : nstate) (h : handled) : Prop :=
  touches c st st' /\ ns_wg st' = ns_wg st /\
  (exists extra, ns_threads st' = ns_threads st ++ extra /\
    (extra = [] \/ h = HNext HAdd /\ extra = [TForward c; TPull c])) /\
  exists p, ns_conns st' !! c = Some p /\
    match h with
    | HNext ph => phase_ok c p (c ∈ sv_peers (ns_svc st')) (events c (ns_log st')) ph
    | HReturn _ => (c ∉ sv_peers (ns_svc st')) /\ cn_closed p = true /\ over c p (events c (ns_log st'))
    end.

(** The steps that start no goroutine. *)
Lemma handled_intro p st c st' h :
  touches c st st' -> ns_wg st' = ns_wg st -> ns_threads st' = ns_threads st ->
  ns_conns st' !! c = Some p ->
  match h with
  | HNext ph => phase_ok c p (c ∈ sv_peers (ns_svc st')) (events c (ns_log st')) ph
  | HReturn _ => (c ∉ sv_peers (ns_svc st')) /\ cn_closed p = true /\ over c p (events c (ns_log st'))
  end ->
  handled_ok st c st' h.
Proof.
  intros Ht Hw Hts Hp H. split; [done|]. split; [done|]. split; [|by exists p].
  exists []. rewrite Hts, app_nil_r. auto.
Qed.

Lemma refuse_ok st c err p st' h :
  ns_conns st !! c = Some p -> c ∉ sv_peers (ns_svc st) -> events c (ns_log st) = [] ->
  refuse st c err = Some (st', h) -> handled_ok st c st' h.
Proof.
  intros Hp Ht He [= <- <-]. apply (handled_intro (conn_Close p)); try done.
  - apply update_touches.
  - by apply lookup_update.
  - split_and!; [done|done|by left].
Qed.

Lemma handled_trans st1 c st2 st3 h :
  touches c st1 st2 -> ns_wg st2 = ns_wg st1 -> ns_threads st2 = ns_threads st1 ->
  handled_ok st2 c st3 h -> handled_ok st1 c st3 h.
Proof.
  intros Ht Hw Hts (Ht' & Hw' & Hx & Hp). split; [by eapply touches_trans|].
  split; [congruence|]. rewrite <- Hts. done.
Qed.

Lemma addConnection_touches st c : touches c st (set_svc st (addConnection (ns_svc st) c)).
Proof.
  unfold addConnection. destruct (sv_closed (ns_svc st)) eqn:Hc; apply svc_touches; simpl; auto.
  set_solver.
Qed.

Lemma removeConnection_touches st c : touches c st (set_svc st (removeConnection (ns_svc st) c)).
Proof. apply svc_touches; simpl; auto. set_solver. Qed.

Lemma submission_ok V st c version cfg init p st' h :
  ns_conns st !! c = Some p -> c ∉ sv_peers (ns_svc st) -> events c (ns_log st) = [] ->
  handleConnection V st c (HSubmission version) (AnsSubmission cfg init) = Some (st', h) ->
  handled_ok st c st' h.
Proof.
  intros Hp Ht He. unfold handleConnection, newNodeToNodePeerConnection, conn_Wait. rewrite Hp. simpl.
  destruct (startMessageSubmission _ _ _ _ _) as [p' err] eqn:Hs.
  assert (ns_conns (update_conn st c (fun _ => p')) !! c = Some p') as Hp'
    by (by rewrite (lookup_update _ _ _ _ Hp)).
  destruct err as [e|].
  - intros Hr. eapply handled_trans; [apply (update_touches st c (fun _ => p'))|done|done|].
    eapply refuse_ok; eauto.
  - intros [= <- <-]. split; [|split; [done|split]].
    + eapply touches_trans; [apply (update_touches st c (fun _ => p'))|]. split; auto using same_flags_refl.
      by split.
    + exists [TForward c; TPull c]. auto.
    + exists p'. done.
Qed.

(** A hook call for [c] does not concern the others. *)
Lemma hook_touches st c ev :
  (forall c', of_conn c' ev = bool_decide (c = c')) -> touches c st (add_log st [ev]).
Proof.
  intros Hev. apply log_touches. repeat constructor. intros c' Hc. rewrite Hev.
  by apply bool_decide_eq_false.
Qed.

Lemma hook_events c log ev :
  (forall c', of_conn c' ev = bool_decide (c = c')) -> events c (log ++ [ev]) = events c log ++ [ev].
Proof. intros Hev. rewrite events_app. simpl. by rewrite Hev, bool_decide_true. Qed.

Lemma handshake_ok V st c d ev r p st' h :
  ns_conns st !! c = Some p -> c ∉ sv_peers (ns_svc st) -> events c (ns_log st) = [] ->
  handleConnection V st c HHandshake (AnsHandshake d ev r) = Some (st', h) -> handled_ok st c st' h.
Proof.
  intros Hp Ht He Hh. unfold handleConnection, newNodeToNodePeerConnection, conn_Wait in Hh. rewrite Hp in Hh. cbn [mbind option_bind] in Hh.
  destruct (match d with Some _ => true | None => _ end); [|done].
  destruct (handshake d ev r (ctx_error st)) as [version [e|]]; [by eapply refuse_ok|].
  simplify_eq. by apply (handled_intro p); try done; apply touches_refl.
Qed.

Lemma handleConnection_ok V st c ph a p st' h :
  ns_conns st !! c = Some p ->
  phase_ok c p (c ∈ sv_peers (ns_svc st)) (events c (ns_log st)) ph ->
  handleConnection V st c ph a = Some (st', h) -> handled_ok st c st' h.
Proof.
  intros Hp Hph Hh.
  destruct ph as [|version| | | | |], a as [| | | | | |d ev r|cfg init| | | | | |]; simpl in Hph;
    try (unfold handleConnection, newNodeToNodePeerConnection, conn_Wait in Hh; by rewrite Hp in Hh).
  { destruct Hph. by eapply handshake_ok. }
  { destruct Hph. by eapply submission_ok. }
  all: unfold handleConnection, newNodeToNodePeerConnection, conn_Wait in Hh; rewrite Hp in Hh; simpl in Hh;
    repeat split_match_in Hh; simplify_eq.
  - destruct Hph. apply (handled_intro (conn_Close p)); try done; [|by apply lookup_update].
    eapply touches_trans; [apply addConnection_touches|apply update_touches].
  - destruct Hph. by apply (handled_intro p); try done; apply addConnection_touches.
  - apply (handled_intro p); try done; [by apply hook_touches|]. simpl.
    by rewrite hook_events, Hph.
  - apply (handled_intro (conn_Close p)); try done; [apply update_touches|by apply lookup_update].
  - by apply (handled_intro p); try done; apply touches_refl.
  - apply (handled_intro (conn_Close (take_error p))); try done; [apply update_touches|].
    by apply (lookup_update st c (fun p => conn_Close (take_error p)) p).
  - apply (handled_intro p); try done; [apply removeConnection_touches|]. simpl.
    split; [set_solver|done].
  - destruct Hph as (Ht & Hcl & He). apply (handled_intro p); try done; [by apply hook_touches|].
    simpl. rewrite hook_events, He by done. split_and!; [done|done|]. right. by eexists.
Qed.

(* ------------------------------------------------------------------ *)
(** ** Replacing one goroutine *)

(** No panic, and the invariant afterwards. *)
Definition safe (r : net_outcome) : Prop :=
  match r with NBlocked => True | NPanic => False | NNext st => net_inv st end.

Lemma threads_become st st1 i t t' extra rest :
  ns_threads st !! i = Some t -> ns_threads st1 = ns_threads st ++ extra ->
  (forall t', <[i:=t']> (ns_threads st) ≡ₚ t' :: rest) ->
  ns_threads (become st1 i t') ≡ₚ (t' :: extra) ++ rest.
Proof.
  intros Hi Hx Hr. simpl. rewrite Hx, insert_app_l by (by eapply lookup_lt_Some).
  rewrite Hr. simpl. by rewrite (Permutation_app_comm rest).
Qed.

(** Goroutine [i], at [t], goes on as [t'] and starts [extra]. *)
Lemma replace_ok st st1 i t t' extra :
  net_inv st -> ns_threads st !! i = Some t -> same_flags st st1 ->
  ns_threads st1 = ns_threads st ++ extra ->
  ns_wg st1 = ns_wg st + Z.of_nat (counted_in (t' :: extra)) - Z.of_nat (counted_in [t]) ->
  plain t -> Forall plain (t' :: extra) -> Forall (thread_ok st1) (t' :: extra) ->
  (counted_in [t] = 0%nat -> counted_in (t' :: extra) = 0%nat) ->
  (forall rest, ns_threads st ≡ₚ [t] ++ rest ->
     ns_threads (become st1 i t') ≡ₚ (t' :: extra) ++ rest -> conns_ok (become st1 i t')) ->
  net_inv (become st1 i t').
Proof.
  intros Hi Ht Hf Hx Hw Hp Hp' Hok Hk Hc.
  destruct (threads_at _ _ _ Ht) as (rest & Ho & Hn).
  pose proof (threads_become st st1 i t t' extra rest Ht Hx Hn) as Hn'.
  apply (net_inv_plain st _ [t] (t' :: extra) rest); auto.
  - destruct Hf. by split.
  - exact (Hc rest Ho Hn').
Qed.

(** A step that leaves every connection as it is, but for closing it. *)
Record calm (st st' : nstate) : Prop := {
  ca_peers : sv_peers (ns_svc st') = sv_peers (ns_svc st);
  ca_conns c : option_Forall2 keeps (ns_conns st !! c) (ns_conns st' !! c);
  ca_events c : events c (ns_log st') = events c (ns_log st)
}.

Record gentle (st st' : nstate) : Prop := {
  ge_flags : same_flags st st';
  ge_calm : calm st st'
}.

Lemma keeps_refl p : keeps p p.
Proof. by split. Qed.

Lemma keeps_all (o : option nodeToNodePeerConnection) : option_Forall2 keeps o o.
Proof. destruct o; constructor. apply keeps_refl. Qed.

Lemma calm_refl st : calm st st.
Proof. split; auto using keeps_all. Qed.

(** [calm] is about the peer set, the connections and the log only. *)
Lemma calm_same st st' :
  sv_peers (ns_svc st') = sv_peers (ns_svc st) -> ns_conns st' = ns_conns st ->
  (forall c, events c (ns_log st') = events c (ns_log st)) -> calm st st'.
Proof. intros H1 H2 H3. split; auto. rewrite H2. auto using keeps_all. Qed.

Lemma gentle_refl st : gentle st st.
Proof. split; auto using same_flags_refl, calm_refl. Qed.

Lemma gentle_trans st1 st2 st3 : gentle st1 st2 -> gentle st2 st3 -> gentle st1 st3.
Proof.
  intros [F [P C L]] [F' [P' C' L']]. split; [by eapply same_flags_trans|].
  split; [congruence| |congruence].
  intros c. pose proof (C c) as H. pose proof (C' c) as H'.
  destruct (ns_conns st1 !! c), (ns_conns st2 !! c), (ns_conns st3 !! c);
    inversion H; inversion H'; subst; constructor.
  unfold keeps in *. naive_solver congruence.
Qed.

Lemma calm_conns_ok st st' :
  conns_ok st -> calm st st' ->
  (forall c, serving (ns_threads st') c ≡ₚ serving (ns_threads st) c) -> conns_ok st'.
Proof.
  intros Hok [P C L] Hs c. specialize (Hok c). rewrite P, L.
  eapply conn_ok_perm; [symmetry; apply Hs|]. pose proof (C c) as Hc.
  destruct (ns_conns st !! c), (ns_conns st' !! c); inversion Hc; subst; [|done].
  by eapply conn_ok_keeps.
Qed.

Lemma update_gentle st c f :
  (forall p, ns_conns st !! c = Some p -> keeps p (f p)) -> gentle st (update_conn st c f).
Proof.
  intros Hf. split; [apply update_touches|]. split; try done. intros c'. simpl.
  destruct (decide (c' = c)) as [->|Hne].
  - rewrite list_lookup_alter_eq. destruct (ns_conns st !! c) eqn:Hc; constructor. by apply Hf.
  - rewrite list_lookup_alter_ne by done. apply keeps_all.
Qed.

Lemma close_gentle st c : gentle st (update_conn st c conn_Close).
Proof. apply update_gentle. by split. Qed.

Lemma log_gentle st es : (forall c, events c es = []) -> gentle st (add_log st es).
Proof.
  intros He. split; [by split|]. apply calm_same; try done.
  intros c. simpl. by rewrite events_app, He, app_nil_r.
Qed.

Lemma sendError_gentle st c e : gentle st (sendError st c e).
Proof.
  eapply gentle_trans; [by apply (log_gentle st [NError e])|].
  apply update_gentle. by split.
Qed.

(** A goroutine that serves no connection goes on as [t']. *)
Lemma move_ok st st1 i t t' :
  net_inv st -> ns_threads st !! i = Some t -> gentle st st1 ->
  ns_threads st1 = ns_threads st -> ns_wg st1 = ns_wg st -> counted t' = counted t ->
  plain t -> plain t' -> thread_ok st1 t' -> (forall c, serves c t' = serves c t) ->
  net_inv (become st1 i t').
Proof.
  intros Hi Ht Hg Hts Hw Hcnt Hp Hp' Hok Hs.
  apply (replace_ok st _ i t t' []); auto; simpl.
  - apply Hg.
  - by rewrite app_nil_r.
  - rewrite Hcnt. lia.
  - by rewrite Hcnt.
  - intros rest Ho Hn. apply (calm_conns_ok st); [apply Hi| |].
    + destruct Hg as [_ []]. by split.
    + intros c. by rewrite Hn, Ho; cbn [app]; rewrite !serving_cons, Hs.
Qed.

Lemma counted_pos st i t :
  net_inv st -> ns_threads st !! i = Some t -> counted t = true -> 0 < ns_wg st.
Proof.
  intros Hi Ht Hc. destruct (threads_at _ _ _ Ht) as (rest & Ho & _).
  rewrite (ni_wg _ Hi), Ho. unfold counted_in. simpl. rewrite Hc. simpl. lia.
Qed.

(** A counted goroutine ends; [rest] are the others. *)
Lemma finish_ok st st1 i t :
  net_inv st -> ns_threads st !! i = Some t -> same_flags st st1 ->
  ns_threads st1 = ns_threads st -> ns_wg st1 = ns_wg st -> counted t = true -> plain t ->
  (forall rest, ns_threads st ≡ₚ [t] ++ rest ->
     ns_threads (become st1 i TDone) ≡ₚ [TDone] ++ rest -> conns_ok (become st1 i TDone)) ->
  safe (finish st1 i).
Proof.
  intros Hi Ht Hf Hts Hw Hcnt Hp Hc. unfold finish.
  pose proof (counted_pos st i t Hi Ht Hcnt) as Hpos. rewrite Hw.
  rewrite (proj2 (Z.leb_gt _ _)) by lia. simpl.
  apply (replace_ok st _ i t TDone []); simpl; auto.
  - destruct Hf. by split.
  - by rewrite app_nil_r.
  - rewrite Hcnt. simpl. lia.
  - by repeat constructor.
  - by repeat constructor.
Qed.

Lemma finish_gentle st st1 i t :
  net_inv st -> ns_threads st !! i = Some t -> gentle st st1 ->
  ns_threads st1 = ns_threads st -> ns_wg st1 = ns_wg st -> counted t = true -> plain t ->
  (forall c, serves c t = None) -> safe (finish st1 i).
Proof.
  intros Hi Ht Hg Hts Hw Hcnt Hp Hs. apply (finish_ok st _ i t); auto; [apply Hg|].
  intros rest Ho Hn. apply (calm_conns_ok st); [apply Hi| |].
  - destruct Hg as [_ []]. by split.
  - intros c. by rewrite Hn, Ho; cbn [app]; rewrite !serving_cons, Hs.
Qed.

(* ------------------------------------------------------------------ *)
(** ** Each kind of goroutine *)

Section goroutines.
Context (V : Z).

Lemma touches_become c st st1 i t : touches c st st1 -> touches c st (become st1 i t).
Proof. intros [[] ? ? ?]. split; [by split|done..]. Qed.

Lemma touches_threads c st st1 :
  ns_svc st1 = ns_svc st -> ns_conns st1 = ns_conns st -> ns_log st1 = ns_log st ->
  ns_listening st1 = ns_listening st -> ns_raced st1 = ns_raced st ->
  ns_drained st1 = ns_drained st -> touches c st st1.
Proof.
  intros H1 H2 H3 H4 H5 H6. split; rewrite ?H1, ?H2, ?H3; auto.
  split; unfold closed, cancelled; congruence || by rewrite ?H1, ?H2.
Qed.

Lemma serving_one c t : serving [t] c = option_list (serves c t).
Proof. rewrite serving_cons. apply app_nil_r. Qed.

(** A goroutine that served [c], and nothing of it is left to do. *)
Lemma served_ok st st1 i o c ph t' extra p rest :
  net_inv st -> touches c st st1 ->
  ns_threads st ≡ₚ [TServe o c ph] ++ rest ->
  ns_threads (become st1 i t') ≡ₚ (t' :: extra) ++ rest ->
  (forall c', serving extra c' = []) -> (forall c', c' <> c -> serves c' t' = None) ->
  ns_conns st1 !! c = Some p ->
  match serves c t' with
  | Some ph => phase_ok c p (c ∈ sv_peers (ns_svc st1)) (events c (ns_log st1)) ph
  | None => (c ∉ sv_peers (ns_svc st1)) /\ cn_closed p = true /\ over c p (events c (ns_log st1))
  end ->
  conns_ok (become st1 i t').
Proof.
  intros Hi Ht Ho Hn Hx Hs Hp Hok.
  apply (touches_conns_ok c st _ [TServe o c ph] (t' :: extra) rest); auto.
  - apply Hi.
  - by apply touches_become.
  - intros c' Hc. rewrite serving_cons, Hx, Hs, serving_one by done. simpl.
    by rewrite decide_False.
  - destruct (serve_alone st o c ph rest) as [Hr _]; [apply Hi|done|].
    cbn [app]. rewrite serving_cons, serving_app, Hx, Hr. simpl. rewrite Hp.
    by destruct (serves c t').
Qed.

Lemma serve_ok st i o c ph a :
  net_inv st -> ns_threads st !! i = Some (TServe o c ph) -> safe (run V st i a).
Proof.
  intros Hi Ht. unfold run. rewrite Ht.
  destruct (threads_at _ _ _ Ht) as (rest0 & Ho0 & _).
  destruct (serve_alone st o c ph rest0) as (_ & p & Hp & Hph); [apply Hi|done|].
  destruct (handleConnection V st c ph a) as [[st1 h]|] eqn:Hh; [|done].
  destruct (handleConnection_ok V st c ph a p st1 h Hp Hph Hh)
    as (Htc & Hw & (extra & Hts & Hx) & p' & Hp' & Hok).
  assert (Forall plain extra /\ counted_in extra = 0%nat /\ Forall (thread_ok st1) extra /\
          forall c', serving extra c' = []) as (Hx1 & Hx2 & Hx3 & Hx4).
  { apply lookup_lt_Some in Hp'. destruct Hx as [-> |[_ ->]]; by repeat constructor. }
  destruct h as [ph'|err]; [|destruct o as [|peer backoff]].
  - apply (replace_ok st _ i (TServe o c ph) _ extra); auto; try by constructor.
    + apply Htc.
    + unfold counted_in in *. simpl. lia.
    + unfold counted_in in *. simpl. lia.
    + intros rest Ho Hn. apply (served_ok st st1 i o c ph _ extra p' rest); auto; simpl.
      * intros c' Hc. by rewrite decide_False.
      * by rewrite decide_True.
  - rewrite Hp'. destruct Hx as [-> |[? _]]; [|done]. rewrite app_nil_r in Hts.
    apply (finish_ok st _ i (TServe Inbound c ph)); auto; [|done|].
    + destruct Htc as [[] ? ? ?]. by split.
    + intros rest Ho Hn.
      apply (served_ok st _ i Inbound c ph _ [] p' rest); auto; simpl.
      * eapply touches_trans; [exact Htc|]. apply log_touches, report_others.
      * by rewrite events_app, report_events, app_nil_r.
  - apply (replace_ok st _ i (TServe (Outbound peer backoff) c ph) _ extra); auto; try by constructor.
    + apply Htc.
    + unfold counted_in in *. simpl. lia.
    + unfold counted_in in *. simpl. lia.
    + intros rest Ho Hn. by apply (served_ok st st1 i (Outbound peer backoff) c ph _ extra p' rest).
Qed.
(** A connection that is just made. *)
Lemma fresh st (c := length (ns_conns st)) :
  conns_ok st ->
  serving (ns_threads st) c = [] /\ (c ∉ sv_peers (ns_svc st)) /\ events c (ns_log st) = [].
Proof.
  intros Hok. specialize (Hok c). unfold conn_ok in Hok.
  rewrite (lookup_ge_None_2 (ns_conns st) c) in Hok by (unfold c; lia).
  by destruct (serving (ns_threads st) c) as [|? [|]].
Qed.

Lemma new_conn_touches st peer id : touches (length (ns_conns st)) st (new_conn st peer id).
Proof.
  split; simpl; auto.
  - split; simpl; auto. rewrite length_app. lia.
  - intros c' Hc. destruct (decide (c' < length (ns_conns st))%nat) as [Hlt|Hge].
    + by rewrite lookup_app_l.
    + rewrite !lookup_ge_None_2; rewrite ?length_app; simpl; done || lia.
Qed.

Lemma new_conn_ok st st1 peer id o t new rest (c := length (ns_conns st)) :
  net_inv st -> touches c (new_conn st peer id) st1 ->
  ns_conns st1 = ns_conns (new_conn st peer id) ->
  ns_svc st1 = ns_svc st -> ns_log st1 = ns_log st ->
  ns_threads st ≡ₚ [t] ++ rest -> ns_threads st1 ≡ₚ new ++ rest ->
  (forall c, serves c t = None) -> new ≡ₚ t :: [TServe o c HHandshake] \/ new = [TServe o c HHandshake] ->
  conns_ok st1.
Proof.
  intros Hi Htc Hcs Hsv Hlog Ho Hn Hs Hnew.
  destruct (fresh st) as (H1 & H2 & H3); [apply Hi|]. fold c in H1, H2, H3.
  assert (serving rest c = []) as Hr.
  { apply Permutation_nil_r. rewrite <- H1, Ho. cbn [app]. by rewrite serving_cons, Hs. }
  assert (forall c', serving new c' ≡ₚ if decide (c = c') then [HHandshake] else []) as Hns.
  { intros c'. destruct Hnew as [-> | ->]; rewrite ?serving_cons, ?Hs; simpl;
      rewrite ?serving_one; simpl; by destruct (decide (c = c')). }
  apply (touches_conns_ok c st _ [t] new rest); auto.
  - apply Hi.
  - eapply touches_trans; [apply new_conn_touches|exact Htc].
  - intros c' Hc. rewrite serving_one, Hs. specialize (Hns c').
    rewrite decide_False in Hns by done. by apply Permutation_nil_r in Hns.
  - rewrite Hsv, Hlog, Hcs, serving_app, Hr, app_nil_r. specialize (Hns c).
    rewrite decide_True in Hns by done. apply Permutation_singleton_r in Hns as ->.
    simpl. unfold c at 2. rewrite lookup_app_r, Nat.sub_diag by lia. done.
Qed.

Lemma loop_ok st i peer backoff pc a :
  net_inv st -> ns_threads st !! i = Some (TLoop peer backoff pc) ->
  safe (loop_step st i peer backoff pc a).
Proof.
  intros Hi Ht. unfold loop_step, dialAndServe.
  destruct pc as [| |err|], a as [| | | | | | | | | |r| | |]; try done.
  - destruct (cancelled st); [eapply finish_gentle; eauto using gentle_refl; done|].
    eapply move_ok; eauto using gentle_refl; done.
  - destruct r as [id|e]; [|eapply move_ok; eauto using gentle_refl; done].
    apply (replace_ok st _ i (TLoop peer backoff ODial) _ []); auto; simpl; try by repeat constructor.
    + apply new_conn_touches.
    + by rewrite app_nil_r.
    + lia.
    + intros rest Ho Hn.
      eapply (new_conn_ok st _ peer id _ _ _ rest); eauto; done.
  - eapply move_ok; eauto; try done. apply log_gentle. intros c. apply report_events.
  - destruct (cancelled st); [|done]. eapply finish_gentle; eauto using gentle_refl; done.
  - eapply move_ok; eauto using gentle_refl; done.
Qed.
Lemma accept_failed_ok st i e1 e2 :
  net_inv st -> ns_threads st !! i = Some TAccept -> safe (accept_failed st i e1 e2).
Proof.
  intros Hi Ht. unfold accept_failed. eapply finish_gentle; eauto; try done.
  split; [by split|]. apply calm_same; try done. intros c. simpl.
  by rewrite events_app, app_nil_r.
Qed.

(** A step of no goroutine. *)
Lemma gentle_inv st st1 :
  net_inv st -> gentle st st1 -> ns_threads st1 = ns_threads st -> ns_wg st1 = ns_wg st ->
  net_inv st1.
Proof.
  intros Hi Hg Hts Hw.
  apply (net_inv_plain st st1 [] [] (ns_threads st)); auto; try by rewrite Hts.
  - apply Hg.
  - simpl. lia.
  - apply (calm_conns_ok st); [apply Hi|apply Hg|]. intros c. by rewrite Hts.
Qed.

Lemma accept_ok st i r :
  net_inv st -> ns_threads st !! i = Some TAccept -> safe (acceptLoop st i r).
Proof.
  intros Hi Ht. destruct (threads_at _ _ _ Ht) as (rest & Ho & Hn). unfold acceptLoop.
  destruct r as [conn|e].
  - destruct (ns_listening st); [|done]. destruct conn as [[[addr id]|]|];
      [| |by apply accept_failed_ok].
    + set (t := TServe Inbound (length (ns_conns st)) HHandshake).
      assert (ns_threads st ++ [t] ≡ₚ [TAccept; t] ++ rest) as Hs.
      { rewrite Ho. simpl. by rewrite <- Permutation_cons_append, Permutation_swap. }
      apply (net_inv_plain st _ [TAccept] [TAccept; t] rest); auto; try by repeat constructor.
      * split; simpl; auto. rewrite length_app. lia.
      * simpl. lia.
      * eapply (new_conn_ok st _ (mkPeer addr "" 0 PeerSourcePeerSharing "" 0 0 0 false false) id
                  Inbound TAccept [TAccept; t] rest); auto.
        by apply touches_threads.
    + eapply gentle_inv; eauto. by apply log_gentle.
  - destruct (cancelled st); [|by apply accept_failed_ok].
    eapply finish_gentle; eauto using gentle_refl; done.
Qed.

Lemma forward_ok st i c a :
  net_inv st -> ns_threads st !! i = Some (TForward c) -> safe (forwardErrors st i c a).
Proof.
  intros Hi Ht. unfold forwardErrors. destruct (ns_conns st !! c) as [p|] eqn:Hp; [|done].
  assert (forall st1, gentle st st1 -> ns_threads st1 = ns_threads st -> ns_wg st1 = ns_wg st ->
            net_inv (become (update_conn st1 c conn_Close) i TDone)) as Hclose.
  { intros st1 Hg Hts Hw. eapply move_ok; eauto; try done.
    eapply gentle_trans; [exact Hg|apply close_gentle]. }
  destruct a as [| | | | | | | |[e|]| | | | |]; try done.
  - destruct (cancelled st); [|done]. apply Hclose; auto using gentle_refl.
  - destruct (cn_closed p); [|done]. apply Hclose; auto using gentle_refl.
  - apply Hclose; auto. apply sendError_gentle.
  - apply Hclose; auto using gentle_refl.
Qed.

Lemma startPull_keeps p : keeps p (startPull p).1.
Proof.
  unfold startPull. destruct (cn_flows p) as [fs|]; [|apply keeps_refl].
  destruct (forConnection fs (cn_id p)) as [fs' flow], (flow_start flow) as [flow' req]. by split.
Qed.

Lemma pull_ok st i c a :
  net_inv st -> ns_threads st !! i = Some (TPull c) -> safe (pull_step st i c a).
Proof.
  intros Hi Ht. unfold pull_step. destruct (ns_conns st !! c) as [p|] eqn:Hp; [|done].
  destruct a as [| | | | | | | | |err| | | |]; try done.
  pose proof (startPull_keeps p) as Hk. destruct (startPull p) as [p' req].
  assert (gentle st (update_conn st c (fun _ => p'))) as Hg.
  { apply update_gentle. intros q Hq. rewrite Hp in Hq. by simplify_eq. }
  destruct req, err; eapply move_ok; eauto; try done.
  eapply gentle_trans; [exact Hg|apply sendError_gentle].
Qed.
(** A step of start or Close that changes the flags. *)
Record shift (st st1 : nstate) (t t' : thread) (extra : list thread) : Prop := {
  sh_le : net_le st st1;
  sh_calm : calm st st1;
  sh_threads : ns_threads st1 = ns_threads st ++ extra;
  sh_wg : ns_wg st1 = ns_wg st + Z.of_nat (counted_in extra);
  sh_uncounted : counted t = false /\ counted t' = false;
  sh_extra : Forall plain extra /\ Forall (thread_ok st1) (t' :: extra) /\
    forall c, serving extra c = [];
  sh_new : counted_in extra = 0%nat \/ early t = true;
  sh_listen : ns_listening st1 = true ->
    is_Some (sv_listener (ns_svc st1)) \/ holding t' = true \/
    ns_listening st = true /\ holding t = false /\
    sv_listener (ns_svc st1) = sv_listener (ns_svc st);
  sh_early : early t' = true -> early t = true;
  sh_raced : ns_raced st1 = false -> ns_raced st = false;
  sh_closed : closed st1 = true -> ns_raced st1 = false ->
    closed st = true \/ Forall (fun t => early t = false) (ns_threads st);
  sh_closing : closed st1 = true ->
    closing t' = true \/ ns_drained st1 = true \/ closed st = true /\ closing t = false;
  sh_drained : ns_drained st1 = true ->
    ns_drained st = true \/
    closed st1 = true /\ cancelled st1 = true /\ quiet st1 /\ ns_wg st1 = 0;
  sh_drained_le : ns_drained st = true -> ns_drained st1 = true
}.

Lemma serves_uncounted t : counted t = false -> forall c, serves c t = None.
Proof. by destruct t. Qed.

Lemma shift_early st st1 t t' extra rest :
  net_inv st -> shift st st1 t t' extra -> ns_threads st ≡ₚ t :: rest ->
  closed st1 = true -> ns_raced st1 = false ->
  early t = false /\ Forall (fun t => early t = false) ((t' :: extra) ++ rest).
Proof.
  intros Hi Hs Ho Hc Hr.
  assert (Forall (fun t => early t = false) (ns_threads st)) as H.
  { destruct (sh_closed _ _ _ _ _ Hs Hc Hr) as [H|H]; [|done].
    apply (ni_early _ Hi); [done|]. by apply (sh_raced _ _ _ _ _ Hs). }
  rewrite Ho in H. apply Forall_cons in H as [H1 H2]. split; [done|]. constructor.
  - pose proof (sh_early _ _ _ _ _ Hs). destruct (early t'); [|done]. naive_solver congruence.
  - apply Forall_app. split; [|done]. destruct (sh_extra _ _ _ _ _ Hs) as [Hp _].
    eapply Forall_impl; [exact Hp|]. by intros ? [? _].
Qed.

Lemma shift_ok st st1 i t t' extra :
  net_inv st -> ns_threads st !! i = Some t -> shift st st1 t t' extra ->
  net_inv (become st1 i t').
Proof.
  intros Hi Ht Hs. destruct (threads_at _ _ _ Ht) as (rest & Ho & Hn).
  pose proof (threads_become st st1 i t t' extra rest Ht (sh_threads _ _ _ _ _ Hs) Hn) as Hn'.
  pose proof (shift_early st st1 t t' extra rest Hi Hs Ho) as Hearly.
  destruct Hs as [Hle Hcalm Hts Hw [Hk Hk'] (Hpl & Hok & Hsv) Hnew Hl Hea Hra Hcl Hcg Hd Hd'].
  destruct Hi as [Iw Ic It Il Ie Ig Id].
  assert (counted_in [t] = 0%nat /\ counted_in [t'] = 0%nat) as [Hz Hz']
    by (unfold counted_in; simpl; by rewrite Hk, Hk').
  split.
  - rewrite Hn', counted_in_app. change (ns_wg (become st1 i t')) with (ns_wg st1).
    rewrite Hw, Iw, Ho. change (t :: rest) with ([t] ++ rest).
    change (t' :: extra) with ([t'] ++ extra). rewrite !counted_in_app. lia.
  - apply (calm_conns_ok st); [done|by destruct Hcalm|]. intros c.
    rewrite Hn', Ho. cbn [app].
    by rewrite !serving_cons, !serves_uncounted, serving_app, Hsv by done.
  - change (Forall (thread_ok st1) (ns_threads (become st1 i t'))). rewrite Hn'.
    apply Forall_app. split; [done|]. eapply threads_ok_le; [exact Hle|].
    rewrite Ho in It. by apply Forall_cons in It as [_ It].
  - intros [?|[?|(H1 & H2 & H3)]]%Hl; [by left|..].
    + right. rewrite Hn'. by left.
    + simpl. rewrite H3. destruct (Il H1) as [?|H]; [by left|]. right.
      rewrite Ho in H. rewrite Hn', Exists_app. right.
      apply (exists_without holding [t]); [by constructor|done].
  - intros Hc Hr. rewrite Hn'. by apply Hearly.
  - intros Hc. destruct (Hcg Hc) as [?|[?|[H1 H2]]]; [right|by left|].
    + rewrite Hn'. by left.
    + destruct (Ig H1) as [?|H]; [left; by apply Hd'|]. right.
      rewrite Ho in H. rewrite Hn', Exists_app. right.
      apply (exists_without closing [t]); [by constructor|done].
  - intros [H|(H1 & H2 & H3 & H4)]%Hd; [|split_and!; try done].
    destruct (Id H) as (H1 & H2 & H3 & H4). pose proof (nl_closed _ _ Hle H1) as Hc1.
    split_and!; [done|by apply (nl_cancelled _ _ Hle)|by apply (nl_quiet _ _ Hle)|].
    intros Hr. change (ns_wg st1 = 0). destruct (Hearly Hc1 Hr) as [He _].
    destruct Hnew as [Hx|?]; [|congruence]. specialize (H4 (Hra Hr)). lia.
Qed.
Lemma existsb_early ts :
  existsb early ts = false -> Forall (fun t => early t = false) ts.
Proof.
  induction ts as [|t ts IH]; simpl; [constructor|]. intros [H1 H2]%orb_false_iff.
  constructor; auto.
Qed.

(** No goroutine holds a listener, and none is stored: there is none. *)
Lemma no_listener st :
  net_inv st -> Forall (fun t => early t = false) (ns_threads st) ->
  sv_listener (ns_svc st) = None -> ns_listening st = false.
Proof.
  intros Hi He Hn. destruct (ns_listening st) eqn:Hl; [|done].
  destruct (ni_listen _ Hi Hl) as [[l Hs]|H]; [congruence|].
  apply Exists_exists in H as (t & Ht & H). apply early_holding in He.
  rewrite Forall_forall in He. by rewrite He in H.
Qed.

Lemma lock_ok st i (s := ns_svc st) :
  net_inv st -> ns_threads st !! i = Some (TClose CLock) -> sv_closed s = false ->
  net_inv (become (set_svc (set_raced st (ns_raced st || existsb early (ns_threads st)))
                     (mark_closed s))
             i (TClose (CCancel (sv_listener s) (elements (sv_peers s))))).
Proof.
  intros Hi Ht Hc. eapply (shift_ok st _ i _ _ []); [done|exact Ht|].
  assert (closed st = false) as Hc' by done.
  assert (ns_drained st = false) as Hd.
  { destruct (ns_drained st) eqn:Hd; [|done]. apply (ni_drained _ Hi) in Hd as [? _]. congruence. }
  split; simpl; try done.
  - split; simpl; try done. congruence.
  - by apply calm_same.
  - by rewrite app_nil_r.
  - lia.
  - split_and!; try done. repeat constructor. simpl.
    intros Hn [_ He]%orb_false_iff. apply (no_listener st); auto. by apply existsb_early.
  - by left.
  - auto.
  - by intros [? _]%orb_false_iff.
  - intros _ [_ He]%orb_false_iff. right. by apply existsb_early.
  - by left.
  - by rewrite Hd.
Qed.

(** The steps of Close after its lock and before the end of its wait. *)
Lemma closing_ok st st1 i t t' :
  net_inv st -> ns_threads st !! i = Some t -> closing t = true ->
  calm st st1 -> net_le st st1 -> sv_listener (ns_svc st1) = sv_listener (ns_svc st) ->
  (ns_listening st1 = true -> ns_listening st = true) ->
  ns_threads st1 = ns_threads st -> ns_wg st1 = ns_wg st -> ns_raced st1 = ns_raced st ->
  closed st1 = closed st ->
  thread_ok st1 t' -> early t' = false -> counted t' = false ->
  (ns_drained st = true -> ns_drained st1 = true) ->
  closing t' = true /\ ns_drained st1 = ns_drained st \/
  closed st1 = true /\ cancelled st1 = true /\ quiet st1 /\ ns_wg st1 = 0 /\ ns_drained st1 = true ->
  net_inv (become st1 i t').
Proof.
  intros Hi Ht Hcg Hcalm Hle Hsl Hl Hts Hw Hr Hc Hok He Hk Hdm Hd.
  assert (counted t = false /\ early t = false /\ holding t = false) as (Hk' & He' & Hh)
    by (by destruct t as [| | | | | | | |]).
  apply (shift_ok st _ i t t' []); auto. split; simpl; auto.
  - by rewrite Hts, app_nil_r.
  - lia.
  - by rewrite He.
  - by rewrite Hr.
  - rewrite Hc. auto.
  - intros _. destruct Hd as [[? _]|(_ & _ & _ & _ & ?)]; auto.
  - intros H. destruct Hd as [[_ <-]|(? & ? & ? & ? & _)]; auto.
Qed.

Ltac closer :=
  eapply closing_ok; eauto; try done; try (by apply calm_same); try (by split); try (by left).

Lemma close_ok st i pc a :
  net_inv st -> ns_threads st !! i = Some (TClose pc) -> safe (close_step st i pc a).
Proof.
  intros Hi Ht. unfold close_step.
  pose proof (Forall_lookup_1 _ _ _ _ (ni_threads _ Hi) Ht) as Hok.
  destruct pc as [|l ps|l ps|l ps|[|c ps] errs|errs|errs], a as [| | | | |k| | | | | | | |]; try done;
    simpl in Hok.
  - destruct (sv_closed (ns_svc st)) eqn:Hc; [|by apply lock_ok].
    eapply move_ok; eauto; try done. split; [by split|by apply calm_same].
  - destruct Hok as [Hc Hh]. closer.
  - closer.
  - destruct Hok as (Hc & Hx & Hh). destruct l as [err|]; closer. split_and!; try done. by apply Hh.
  - closer.
  - destruct ((c :: ps) !! k) as [c'|]; [|done]. pose proof (close_gentle st c') as Hg.
    closer; [apply Hg|by apply same_flags_le, Hg].
  - destruct (ns_wg st =? 0) eqn:Hz; [|done]. apply Z.eqb_eq in Hz. closer.
    right. naive_solver.
  - eapply move_ok; eauto; try done. split; [by split|by apply calm_same].
Qed.
(** AddPeer starts at most one loop, and none once the service is closed. *)
Lemma AddPeer_cases s p :
  AddPeer s p = s \/
  sv_closed s = false /\ exists q, sv_loops (AddPeer s p) = sv_loops s ++ [q] /\
    (sv_closed (AddPeer s p) = sv_closed s /\ sv_cancelled (AddPeer s p) = sv_cancelled s /\
     sv_listener (AddPeer s p) = sv_listener s /\ sv_peers (AddPeer s p) = sv_peers s).
Proof.
  unfold AddPeer. destruct (normalizeNodeToNodePeer p) as [q|]; [|by left].
  destruct (sv_closed s) eqn:Hc; [by left|]. case_bool_decide; [by left|]. right.
  split; [done|]. by exists q.
Qed.

Lemma call_AddPeer_cases st p :
  call_AddPeer st p = set_svc st (ns_svc st) \/
  closed st = false /\ exists q, let s := AddPeer (ns_svc st) p in
    call_AddPeer st p =
      spawn_counted (set_svc st s) (TLoop q (rc_InitialBackoff (nc_Reconnect (sv_cfg s))) OTop) /\
    (sv_closed s = sv_closed (ns_svc st) /\ sv_cancelled s = sv_cancelled (ns_svc st) /\
     sv_listener s = sv_listener (ns_svc st) /\ sv_peers s = sv_peers (ns_svc st)).
Proof.
  unfold call_AddPeer. destruct (AddPeer_cases (ns_svc st) p) as [->|(Hc & q & Hl & H)].
  - left. by rewrite drop_all.
  - right. split; [done|]. exists q. rewrite Hl, drop_app_length. by split.
Qed.

Lemma call_AddPeer_ok st p : net_inv st -> net_inv (call_AddPeer st p).
Proof.
  intros Hi. destruct (call_AddPeer_cases st p) as [->|(Hc & q & -> & H1 & H2 & H3 & H4)].
  - eapply gentle_inv; eauto. split; [by split|by apply calm_same].
  - set (t := TLoop q _ OTop).
    apply (net_inv_plain st _ [] [t] (ns_threads st)); auto; try by repeat constructor.
    + split; unfold closed, cancelled; simpl; (intros; congruence) || auto.
    + simpl. by rewrite <- Permutation_cons_append.
    + simpl. lia.
    + congruence.
    + apply (calm_conns_ok st); [apply Hi|by apply calm_same|].
      intros c. simpl. by rewrite serving_app, app_nil_r.
Qed.

Lemma call_AddPeer_threads st p : exists extra, ns_threads (call_AddPeer st p) = ns_threads st ++ extra.
Proof.
  destruct (call_AddPeer_cases st p) as [->|(_ & q & -> & _)]; simpl; [|by eexists].
  exists []. by rewrite app_nil_r.
Qed.

Lemma start_early_open st i pc :
  net_inv st -> ns_threads st !! i = Some (TStart pc) -> early (TStart pc) = true ->
  closed st = true -> ns_raced st = true.
Proof.
  intros Hi Ht He Hc. destruct (ns_raced st) eqn:Hr; [done|].
  pose proof (Forall_lookup_1 _ _ _ _ (ni_early _ Hi Hc Hr) Ht) as H. cbv beta in H. congruence.
Qed.
(** start gets its listener, stores it and starts the accept loop; [fail] leaves
    it to Close. *)
Lemma start_move_ok st st1 i pc t' extra :
  net_inv st -> ns_threads st !! i = Some (TStart pc) -> early (TStart pc) = true ->
  calm st st1 -> closed st1 = closed st -> cancelled st1 = cancelled st ->
  ns_conns st1 = ns_conns st -> ns_raced st1 = ns_raced st -> ns_drained st1 = ns_drained st ->
  ns_threads st1 = ns_threads st ++ extra ->
  ns_wg st1 = ns_wg st + Z.of_nat (counted_in extra) ->
  extra = [] \/ extra = [TAccept] -> counted t' = false -> thread_ok st1 t' ->
  (ns_listening st1 = true ->
    is_Some (sv_listener (ns_svc st1)) \/ holding t' = true \/
    ns_listening st = true /\ holding (TStart pc) = false /\
    sv_listener (ns_svc st1) = sv_listener (ns_svc st)) ->
  net_inv (become st1 i t').
Proof.
  intros Hi Ht He Hcalm Hc Hx Hcs Hr Hd Hts Hw Hex Hk Hok Hl.
  pose proof (start_early_open st i pc Hi Ht He) as Hopen.
  apply (shift_ok st st1 i (TStart pc) t' extra); auto. split; auto.
  - split; rewrite ?Hc, ?Hx, ?Hcs; auto. intros Hcl _ Hr'. rewrite Hr, Hopen in Hr' by done. done.
  - destruct Hex as [-> | ->]; split_and!; done || by repeat constructor.
  - by rewrite Hr.
  - rewrite Hc. auto.
  - rewrite Hc. auto.
  - rewrite Hd. auto.
  - by rewrite Hd.
Qed.

Lemma start_step_ok st i pc a :
  net_inv st -> ns_threads st !! i = Some (TStart pc) -> safe (start_step st i pc a).
Proof.
  intros Hi Ht. unfold start_step.
  assert (early (TStart pc) = true -> holding (TStart pc) = false ->
          forall t', counted t' = false -> thread_ok st t' -> net_inv (become st i t')) as Hmove.
  { intros He Hh t' Hk Hok. eapply (start_move_ok st st i pc t' []); eauto using calm_refl.
    - by rewrite app_nil_r.
    - simpl. lia. }
  destruct pc as [| |l| | | |[|p ps]], a as [| | | | | | | | | | | |r|r]; try done.
  - destruct (ns_parent st); [by apply Hmove|]. case_bool_decide; by apply Hmove.
  - destruct r as [l|e]; [|by apply Hmove].
    eapply (start_move_ok st _ i SListen _ []); eauto; simpl; auto.
    + by apply calm_same.
    + by rewrite app_nil_r.
    + lia.
  - eapply (start_move_ok st _ i (SSet l) _ []); eauto; simpl; auto.
    + by apply calm_same.
    + by rewrite app_nil_r.
    + lia.
  - eapply (start_move_ok st _ i SAccept _ [TAccept]); eauto; simpl; auto.
    by apply calm_same.
  - eapply (replace_ok st _ i (TStart SWatch) _ [TWatch]); eauto; simpl; try by repeat constructor.
    + lia.
    + intros rest Ho Hn. apply (calm_conns_ok st); [apply Hi|by apply calm_same|].
      intros c. by rewrite Hn, Ho.
  - destruct r as [peers|e]; eapply move_ok; eauto using gentle_refl; done.
  - eapply move_ok; eauto using gentle_refl; done.
  - destruct (call_AddPeer_threads st p) as [extra Hx].
    apply (move_ok (call_AddPeer st p) _ i (TStart (SAdd (p :: ps))));
      auto using gentle_refl, call_AddPeer_ok; try done.
    rewrite Hx. by apply lookup_app_l_Some.
Qed.

Lemma run_ok st i a : net_inv st -> safe (run V st i a).
Proof.
  intros Hi. destruct (ns_threads st !! i) as [[pc| |o c ph|peer backoff pc|c|c| |pc|]|] eqn:Ht;
    try by (unfold run; rewrite Ht).
  - unfold run. rewrite Ht. by apply start_step_ok.
  - unfold run. rewrite Ht. destruct a; try done. by apply accept_ok.
  - by eapply serve_ok.
  - unfold run. rewrite Ht. by apply loop_ok.
  - unfold run. rewrite Ht. by apply forward_ok.
  - unfold run. rewrite Ht. by apply pull_ok.
  - unfold run. rewrite Ht. unfold closeOnDone. destruct a; try done.
    destruct (cancelled st); [|done].
    eapply move_ok; eauto using gentle_refl; done.
  - unfold run. rewrite Ht. by apply close_ok.
Qed.

Lemma net_step_ok st act : net_inv st -> safe (net_step V st act).
Proof.
  intros Hi. destruct act as [i a| |peer|err]; simpl.
  - by apply run_ok.
  - apply (net_inv_plain st _ [] [TClose CLock] (ns_threads st)); auto; try by repeat constructor.
    + by rewrite Permutation_app_comm.
    + simpl. lia.
    + apply (calm_conns_ok st); [apply Hi|by apply calm_same|].
      intros c. simpl. by rewrite serving_app, app_nil_r.
  - by apply call_AddPeer_ok.
  - destruct (ns_parent st); [done|]. eapply gentle_inv; eauto. split; [by split|by apply calm_same].
Qed.
End goroutines.

Lemma net_init_inv topic cfg : net_inv (net_init topic cfg).
Proof.
  split; try done; by repeat constructor.
Qed.

Lemma net_reachable_inv V topic cfg st : net_reachable V topic cfg st -> net_inv st.
Proof.
  induction 1 as [|st act st' _ IH Hst]; [apply net_init_inv|].
  pose proof (net_step_ok V st act IH) as H. by rewrite Hst in H.
Qed.
