(* ===== verification/NetworkTheorems.v ===== *)
(** * What closing a service guarantees (network.go)

    Safety and hook order from the invariant of [NetworkFacts]; termination of
    a closing service by a lexicographic measure on its goroutines; and the
    schedules in which a caller of Close is told less than the comment on it
    says. *)

From S2P Require Import Prelude Errors Types Clone Concrete Payload Peers Ledger Config Topic TopicFacts Examples Service Manager Flow Network NetworkFacts.
From stdpp Require Import relations.
#[local] Open Scope Z_scope.

Section network.
Context (V : Z).

(* ------------------------------------------------------------------ *)
(** ** After Close *)

Lemma counted_none ts : counted_in ts = 0%nat -> Forall (fun t => counted t = false) ts.
Proof.
  induction ts as [|t ts IH]; [constructor|]. unfold counted_in. simpl. intros H.
  constructor; [by destruct (counted t)|]. apply IH. unfold counted_in. lia.
Qed.

Lemma serving_none ts c : Forall (fun t => counted t = false) ts -> serving ts c = [].
Proof.
  induction 1 as [|t ts Ht _ IH]; [done|]. by rewrite serving_cons, IH, serves_uncounted.
Qed.

(** Nothing of the service is left. *)
Record shut (st : nstate) : Prop := {
  su_none : Forall (fun t => counted t = false) (ns_threads st);
  su_peers : sv_peers (ns_svc st) = ∅;
  su_conns : Forall (fun p => cn_closed p = true) (ns_conns st);
  su_listener : ns_listening st = false;
  su_marked : closed st = true /\ cancelled st = true
}.

Lemma drained_shut st :
  net_inv st -> ns_drained st = true -> ns_raced st = false -> shut st.
Proof.
  intros Hi Hd Hr. destruct (ni_drained _ Hi Hd) as (Hc & Hx & Hq & Hw).
  specialize (Hw Hr). rewrite (ni_wg _ Hi) in Hw.
  assert (Forall (fun t => counted t = false) (ns_threads st)) as Hn by (apply counted_none; lia).
  assert (forall c, conn_ok (c ∈ sv_peers (ns_svc st)) [] (ns_conns st !! c) (events c (ns_log st)) c)
    as Hok.
  { intros c. rewrite <- (serving_none _ c Hn). apply Hi. }
  split; try done.
  - apply elem_of_equiv_empty_L. intros c Hin. specialize (Hok c). simpl in Hok.
    destruct (ns_conns st !! c); naive_solver.
  - apply Forall_lookup. intros c p Hp. specialize (Hok c). simpl in Hok. rewrite Hp in Hok. naive_solver.
  - by apply Hq.
Qed.

(** The hooks called for a connection: none, the one for the start, or both. *)
Definition hooks_ok (c : nat) (p : nodeToNodePeerConnection) (evs : list net_event) : Prop :=
  over c p evs \/ evs = [NConnected c (cn_peer p)].

Lemma hooks_in_order st c p :
  net_inv st -> ns_conns st !! c = Some p -> hooks_ok c p (events c (ns_log st)).
Proof.
  intros Hi Hp. pose proof (ni_conns _ Hi c) as Hok. rewrite Hp in Hok. unfold hooks_ok, over.
  destruct (serving (ns_threads st) c) as [|ph [|? ?]]; simpl in Hok; [naive_solver| |done].
  destruct ph; simpl in Hok; naive_solver.
Qed.

Lemma hooks_complete st c p :
  net_inv st -> ns_conns st !! c = Some p -> ns_drained st = true -> ns_raced st = false ->
  over c p (events c (ns_log st)).
Proof.
  intros Hi Hp Hd Hr. pose proof (ni_conns _ Hi c) as Hok. rewrite Hp in Hok.
  rewrite serving_none in Hok by (by apply drained_shut). by destruct Hok as (_ & _ & ?).
Qed.

(* ------------------------------------------------------------------ *)
(** ** A closing service comes to rest *)

Definition thread_step (st st' : nstate) : Prop := exists i a, run V st i a = NNext st'.

(** Closed, its context ended and its listener gone. *)
Record draining (st : nstate) : Prop := {
  dr_inv : net_inv st;
  dr_closed : closed st = true;
  dr_cancelled : cancelled st = true;
  dr_listening : ns_listening st = false;
  dr_raced : ns_raced st = false
}.

Definition phase_weight (ph : phase) : nat :=
  match ph with
  | HHandshake => 9 | HSubmission _ => 8 | HAdd => 5 | HConnected => 4 | HWait => 3
  | HRemove => 2 | HDisconnected => 1
  end.

Definition weight (t : thread) : nat :=
  match t with
  | TStart (SAdd ps) => 1 + length ps
  | TStart _ | TAccept | TForward _ | TPull _ => 1
  | TServe Inbound _ ph => phase_weight ph
  | TServe (Outbound _ _) _ ph => 3 + phase_weight ph
  | TLoop _ _ pc => match pc with OTop => 1 | OSleep => 2 | OAfter _ => 3 | ODial => 15 end
  | TWatch => 2
  | TClose pc =>
      match pc with
      | CLock | CJoin _ => 1
      | CCancel _ ps => 6 + length ps
      | CUnregister _ ps => 5 + length ps
      | CListener _ ps => 4 + length ps
      | CPeers ps _ => 3 + length ps
      | CWait _ => 2
      end
  | TDone => 0
  end.

(** What start has yet to do before it knows its peers: their number is not
    bounded by anything. *)
Definition rank (t : thread) : nat :=
  match t with TStart SWatch => 2 | TStart SPeers => 1 | _ => 0 end.

Definition lighter (new : list thread) (t : thread) : Prop :=
  (sum_list_with rank new < rank t)%nat \/
  (sum_list_with rank new = rank t)%nat /\ (sum_list_with weight new < weight t)%nat.

(** Goroutine [i] is replaced by lighter ones. *)
Definition lightens (st : nstate) (i : nat) (t : thread) (st' : nstate) : Prop :=
  exists t' extra, ns_threads st' = <[i := t']> (ns_threads st ++ extra) /\ lighter (t' :: extra) t.

Definition keeps_draining (st st' : nstate) : Prop :=
  closed st' = closed st /\ (cancelled st = true -> cancelled st' = true) /\
  (ns_listening st' = true -> ns_listening st = true) /\ ns_raced st' = ns_raced st.

Lemma same_flags_draining st st' : same_flags st st' -> keeps_draining st st'.
Proof. by intros []. Qed.

Definition drains (st : nstate) (i : nat) (t : thread) (r : net_outcome) : Prop :=
  forall st', r = NNext st' -> keeps_draining st st' /\ lightens st i t st'.

Lemma become_drains st st1 i t t' extra :
  keeps_draining st st1 -> ns_threads st1 = ns_threads st ++ extra -> lighter (t' :: extra) t ->
  drains st i t (NNext (become st1 i t')).
Proof.
  intros Hk Hts Hl st' [= <-]. split; [done|]. exists t', extra. simpl. by rewrite Hts.
Qed.

Lemma become_drains_nil st st1 i t t' :
  keeps_draining st st1 -> ns_threads st1 = ns_threads st -> lighter [t'] t ->
  drains st i t (NNext (become st1 i t')).
Proof. intros Hk Hts Hl. apply (become_drains st st1 i t t' []); auto. by rewrite Hts, app_nil_r. Qed.

Lemma finish_drains st st1 i t :
  keeps_draining st st1 -> ns_threads st1 = ns_threads st -> lighter [TDone] t ->
  drains st i t (finish st1 i).
Proof.
  intros Hk Hts Hl. unfold finish. destruct (_ <=? _); [by intros ? [=]|].
  apply become_drains_nil; auto.
Qed.
Lemma keeps_draining_refl st : keeps_draining st st.
Proof. by repeat split. Qed.

(** A step of handleConnection lightens the goroutine it is in. *)
Lemma handle_lighter st c ph a st1 h o :
  handleConnection V st c ph a = Some (st1, h) ->
  exists extra, ns_threads st1 = ns_threads st ++ extra /\
    match h with
    | HNext ph' => lighter (TServe o c ph' :: extra) (TServe o c ph)
    | HReturn _ => extra = []
    end.
Proof.
  unfold handleConnection, newNodeToNodePeerConnection, conn_Wait, refuse. destruct (ns_conns st !! c) as [p|]; [|done].
  cbn [mbind option_bind].
  assert (forall st1, ns_threads st1 = ns_threads st -> ns_threads st1 = ns_threads st ++ []) as Hnil
    by (intros ? ->; by rewrite app_nil_r).
  intros H. destruct ph as [|version| | | | |], a as [| | | | | |d ev r|cfg init| | | | | |]; try done.
  - destruct (match d with Some _ => true | None => _ end); [|done].
    destruct (handshake d ev r (ctx_error st)) as [version [e|]]; simplify_eq; exists [];
      (split; [by apply Hnil|]); [done|]. right. destruct o; simpl; lia.
  - destruct (startMessageSubmission _ _ _ _ _) as [p' [e|]]; simplify_eq.
    + exists []. split; [by apply Hnil|done].
    + exists [TForward c; TPull c]. split; [done|]. right. destruct o; simpl; lia.
  - simplify_eq. exists []. split; [apply Hnil; by destruct (sv_closed _)|].
    right. destruct o; simpl; lia.
  - simplify_eq. exists []. split; [by apply Hnil|]. right. destruct o; simpl; lia.
  - destruct (cancelled st); simplify_eq. exists []. split; [by apply Hnil|].
    right. destruct o; simpl; lia.
  - destruct (cn_closed p); simplify_eq. exists []. split; [by apply Hnil|].
    right. destruct o; simpl; lia.
  - destruct (cn_errorCh p); simplify_eq. exists []. split; [by apply Hnil|].
    right. destruct o; simpl; lia.
  - simplify_eq. exists []. split; [by apply Hnil|]. right. destruct o; simpl; lia.
  - simplify_eq. exists []. split; [by apply Hnil|done].
Qed.

Lemma serve_drains st i o c ph a :
  net_inv st -> ns_threads st !! i = Some (TServe o c ph) ->
  drains st i (TServe o c ph) (run V st i a).
Proof.
  intros Hi Ht. unfold run. rewrite Ht. destruct (threads_at _ _ _ Ht) as (rest & Ho & _).
  destruct (serve_alone st o c ph rest) as (_ & p & Hp & Hph); [apply Hi|done|].
  destruct (handleConnection V st c ph a) as [[st1 h]|] eqn:Hh; [|by intros ? [=]].
  destruct (handleConnection_ok V st c ph a p st1 h Hp Hph Hh) as ([Hf _ _ _] & _ & _ & p' & Hp' & _).
  apply same_flags_draining in Hf.
  destruct (handle_lighter st c ph a st1 h o Hh) as (extra & Hts & Hl).
  destruct h as [ph'|err]; [by apply (become_drains st st1 i _ _ extra)|].
  subst extra. rewrite app_nil_r in Hts. destruct o as [|peer backoff].
  - rewrite Hp'. apply finish_drains; [done|done|]. right. destruct ph; simpl; lia.
  - apply become_drains_nil; [done|done|]. right. destruct ph; simpl; lia.
Qed.

Lemma loop_drains st i peer backoff pc a :
  draining st -> ns_threads st !! i = Some (TLoop peer backoff pc) ->
  drains st i (TLoop peer backoff pc) (loop_step st i peer backoff pc a).
Proof.
  intros Hd Ht. unfold loop_step, dialAndServe. rewrite (dr_cancelled _ Hd).
  destruct pc as [| |err|], a as [| | | | | | | | | |[id|e]| | |]; try (by intros ? [=]).
  all: first [apply finish_drains|apply become_drains_nil]; try done; right; simpl; lia.
Qed.

Lemma forward_drains st i c a : drains st i (TForward c) (forwardErrors st i c a).
Proof.
  unfold forwardErrors. destruct (ns_conns st !! c) as [p|]; [|by intros ? [=]].
  assert (forall st1, keeps_draining st st1 -> ns_threads st1 = ns_threads st ->
    drains st i (TForward c) (NNext (become (update_conn st1 c conn_Close) i TDone))) as Hclose.
  { intros st1 Hk Hts. apply become_drains_nil; [done|done|]. right. simpl. lia. }
  destruct a as [| | | | | | | |[e|]| | | | |]; try (by intros ? [=]).
  - destruct (cancelled st); [by apply Hclose|by intros ? [=]].
  - destruct (cn_closed p); [by apply Hclose|by intros ? [=]].
  - by apply Hclose.
  - by apply Hclose.
Qed.

Lemma pull_drains st i c a : drains st i (TPull c) (pull_step st i c a).
Proof.
  unfold pull_step. destruct (ns_conns st !! c) as [p|]; [|by intros ? [=]].
  destruct a as [| | | | | | | | |err| | | |]; try (by intros ? [=]).
  destruct (startPull p) as [p' req].
  apply become_drains_nil; [by destruct req, err|by destruct req, err|]. right. simpl. lia.
Qed.

Lemma accept_drains st i r :
  draining st -> drains st i TAccept (acceptLoop st i r).
Proof.
  intros Hd. unfold acceptLoop. rewrite (dr_cancelled _ Hd), (dr_listening _ Hd).
  destruct r; [by intros ? [=]|]. apply finish_drains; [done|done|]. right. simpl. lia.
Qed.

Lemma close_drains st i pc a : draining st -> drains st i (TClose pc) (close_step st i pc a).
Proof.
  intros Hd. unfold close_step. pose proof (dr_closed _ Hd) as Hc. unfold closed in Hc. rewrite Hc.
  destruct pc as [|l ps|l ps|[l|] ps|[|c ps] errs|errs|errs], a as [| | | | |k| | | | | | | |];
    try (by intros ? [=]).
  7: { destruct ((c :: ps) !! k) as [c'|] eqn:Hk; [|by intros ? [=]].
       apply become_drains_nil; [done|done|]. right. split; [done|].
       assert (length (delete k (c :: ps)) = length ps) as Hlen by (by rewrite length_delete; [simpl; lia|]).
       cbn [sum_list_with weight length]. rewrite Hlen. lia. }
  7: destruct (_ =? _); [|by intros ? [=]].
  all: apply become_drains_nil; try done; right; simpl; lia.
Qed.

Lemma start_drains st i pc a :
  draining st -> ns_threads st !! i = Some (TStart pc) ->
  drains st i (TStart pc) (start_step st i pc a).
Proof.
  intros Hd Ht. unfold start_step.
  pose proof (Forall_lookup_1 _ _ _ _
    (ni_early _ (dr_inv _ Hd) (dr_closed _ Hd) (dr_raced _ Hd)) Ht) as He.
  destruct pc as [| |l| | | |[|p ps]], a as [| | | | | | | | | | | |r|[peers|e]];
    try (by intros ? [=]); try done.
  - apply (become_drains _ _ _ _ _ [TWatch]); try done. left. simpl. lia.
  - apply become_drains_nil; try done. left. simpl. lia.
  - apply become_drains_nil; try done. left. simpl. lia.
  - apply become_drains_nil; try done. right. simpl. lia.
  - destruct (call_AddPeer_cases st p) as [->|[Hc _]]; [|by rewrite (dr_closed _ Hd) in Hc].
    apply become_drains_nil; try done. right. simpl. lia.
Qed.

Lemma run_drains st i a t :
  draining st -> ns_threads st !! i = Some t -> drains st i t (run V st i a).
Proof.
  intros Hd Ht. destruct t as [pc| |o c ph|peer backoff pc|c|c| |pc|].
  3: { apply serve_drains; [apply Hd|done]. }
  all: unfold run; rewrite Ht.
  - by apply start_drains.
  - destruct a; try (by intros ? [=]). by apply accept_drains.
  - by apply loop_drains.
  - apply forward_drains.
  - apply pull_drains.
  - unfold closeOnDone. rewrite (dr_cancelled _ Hd). destruct a; try (by intros ? [=]).
    apply become_drains_nil; try done. right. simpl. lia.
  - by apply close_drains.
  - by intros ? [=].
Qed.

Definition rank_in (st : nstate) : nat := sum_list_with rank (ns_threads st).
Definition weight_in (st : nstate) : nat := sum_list_with weight (ns_threads st).

Lemma lightens_sum st i t st' (f : thread -> nat) :
  ns_threads st !! i = Some t -> forall t' extra,
  ns_threads st' = <[i := t']> (ns_threads st ++ extra) ->
  (sum_list_with f (ns_threads st') + f t =
   sum_list_with f (ns_threads st) + sum_list_with f (t' :: extra))%nat.
Proof.
  intros Ht t' extra ->. destruct (threads_at _ _ _ Ht) as (rest & Ho & Hn).
  rewrite insert_app_l by (by eapply lookup_lt_Some).
  rewrite sum_list_with_app, Hn, Ho. simpl. lia.
Qed.

Lemma step_draining st st' : draining st -> thread_step st st' ->
  draining st' /\
  ((rank_in st' < rank_in st)%nat \/ rank_in st' = rank_in st /\ (weight_in st' < weight_in st)%nat).
Proof.
  intros Hd (i & a & Hr).
  destruct (ns_threads st !! i) as [t|] eqn:Ht; [|unfold run in Hr; by rewrite Ht in Hr].
  destruct (run_drains st i a t Hd Ht st' Hr) as [(Hc & Hx & Hl & Hrc) (t' & extra & Hts & Hm)].
  pose proof (lightens_sum st i t st' rank Ht t' extra Hts) as H1.
  pose proof (lightens_sum st i t st' weight Ht t' extra Hts) as H2.
  split; [|unfold rank_in, weight_in, lighter in *; lia].
  pose proof (run_ok V st i a (dr_inv _ Hd)) as Hok. rewrite Hr in Hok. destruct Hd as [Hi Dc Dx Dl Dr].
  split; [done|congruence|auto| |congruence].
  destruct (ns_listening st'); [|done]. rewrite <- Dl. symmetry. auto.
Qed.

(** No infinite run. *)
Lemma draining_sn st : draining st -> sn thread_step st.
Proof.
  remember (rank_in st) as n eqn:Hn. remember (weight_in st) as m eqn:Hm. revert m st Hn Hm.
  induction n as [n IHn] using lt_wf_ind. induction m as [m IHm] using lt_wf_ind.
  intros st -> -> Hd. constructor. intros st' Hst.
  destruct (step_draining st st' Hd Hst) as [Hd' [Hlt|[Heq Hlt]]].
  - by eapply (IHn (rank_in st')).
  - by eapply (IHm (weight_in st')).
Qed.

Lemma rtc_draining st st' : draining st -> rtc thread_step st st' -> draining st'.
Proof.
  intros Hd Hr. induction Hr as [|st1 st2 st3 H1 _ IH]; [done|].
  apply IH. by eapply step_draining.
Qed.
(* ------------------------------------------------------------------ *)
(** ** A goroutine that is not done can go on *)

Lemma step_unblocked st i a :
  net_inv st -> run V st i a <> NBlocked -> exists st', thread_step st st'.
Proof.
  intros Hi Hb. pose proof (run_ok V st i a Hi) as Hok.
  destruct (run V st i a) as [| |st'] eqn:Hr; [done|done|]. exists st'. by exists i, a.
Qed.

Lemma finish_unblocked st i : finish st i <> NBlocked.
Proof. unfold finish. by destruct (_ <=? _). Qed.

(** The answer that lets handleConnection go on. *)
Definition phase_answer (ph : phase) : answer :=
  match ph with
  | HHandshake => AnsHandshake None HsDone None
  | HSubmission _ => AnsSubmission (Err (ErrForeign context_Canceled)) None
  | HWait => AnsCtx
  | _ => AnsGo
  end.

(** A serving goroutine goes on with any answer handleConnection takes. *)
Lemma serve_goes_on st i o c ph a x :
  net_inv st -> ns_threads st !! i = Some (TServe o c ph) ->
  handleConnection V st c ph a = Some x -> run V st i a <> NBlocked.
Proof.
  intros Hi Ht. destruct x as [st1 h]. intros Hh. destruct (threads_at _ _ _ Ht) as (rest & Ho & _).
  destruct (serve_alone st o c ph rest) as (_ & p & Hp & Hph); [apply Hi|done|].
  destruct (handleConnection_ok V st c ph a p st1 h) as (_ & _ & _ & p' & Hp' & _); auto.
  unfold run. rewrite Ht, Hh. destruct h as [|err]; [done|]. destruct o; [|done].
  rewrite Hp'. apply finish_unblocked.
Qed.

Lemma serve_unblocked st i o c ph :
  draining st -> ns_threads st !! i = Some (TServe o c ph) ->
  run V st i (phase_answer ph) <> NBlocked.
Proof.
  intros Hd Ht. destruct (threads_at _ _ _ Ht) as (rest & Ho & _).
  destruct (serve_alone st o c ph rest) as (_ & p & Hp & _); [apply Hd|done|].
  assert (exists x, handleConnection V st c ph (phase_answer ph) = Some x) as [x Hh].
  { unfold handleConnection, newNodeToNodePeerConnection, conn_Wait, refuse. rewrite Hp. destruct ph; simpl;
      rewrite ?(dr_cancelled _ Hd); by eexists. }
  by eapply serve_goes_on; [apply Hd|..].
Qed.

Lemma thread_unblocked st i t :
  draining st -> ns_threads st !! i = Some t -> t <> TDone ->
  counted t = true \/ ns_wg st = 0 -> exists st', thread_step st st'.
Proof.
  intros Hd Ht Hne Hw.
  pose proof (Forall_lookup_1 _ _ _ _
    (ni_early _ (dr_inv _ Hd) (dr_closed _ Hd) (dr_raced _ Hd)) Ht) as He.
  pose proof (Forall_lookup_1 _ _ _ _ (ni_threads _ (dr_inv _ Hd)) Ht) as Hok.
  assert (exists a, run V st i a <> NBlocked) as [a Ha];
    [|by apply (step_unblocked st i a); [apply Hd|]].
  destruct t as [pc| |o c ph|peer backoff pc|c|c| |pc|]; [..|done].
  - unfold run. rewrite Ht. destruct pc as [| |l| | | |[|p ps]]; try done;
      [by exists AnsGo|by exists (AnsPeers (Ok []))|by exists AnsGo|by exists AnsGo].
  - exists (AnsAccept (Err (ErrForeign net_ErrClosed))). unfold run. rewrite Ht. simpl.
    rewrite (dr_cancelled _ Hd). apply finish_unblocked.
  - exists (phase_answer ph). by apply (serve_unblocked st i o c).
  - unfold run. rewrite Ht. unfold loop_step, dialAndServe. rewrite (dr_cancelled _ Hd).
    destruct pc; [exists AnsGo|exists (AnsDial (Err (ErrForeign net_ErrClosed)))|exists AnsGo|exists AnsCtx];
      done || apply finish_unblocked.
  - exists AnsCtx. unfold run. rewrite Ht. unfold forwardErrors. simpl in Hok.
    apply lookup_lt_is_Some_2 in Hok as [p ->]. by rewrite (dr_cancelled _ Hd).
  - exists (AnsSend None). unfold run. rewrite Ht. unfold pull_step. simpl in Hok.
    apply lookup_lt_is_Some_2 in Hok as [p ->]. by destruct (startPull p).
  - exists AnsGo. unfold run. rewrite Ht. unfold closeOnDone. by rewrite (dr_cancelled _ Hd).
  - destruct Hw as [?|Hw]; [done|]. unfold run. rewrite Ht. unfold close_step.
    destruct pc as [|l ps|l ps|[l|] ps|[|c ps] errs|errs|errs];
      [exists AnsGo|exists AnsGo|exists AnsGo|exists AnsGo|exists AnsGo|exists AnsGo
      |exists (AnsPick 0)|exists AnsGo|exists AnsGo]; try done.
    + by destruct (sv_closed (ns_svc st)).
    + by rewrite Hw.
Qed.

Lemma counted_exists ts : counted_in ts <> 0%nat -> exists i t, ts !! i = Some t /\ counted t = true.
Proof.
  induction ts as [|t ts IH]; [done|]. destruct (counted t) eqn:Ht.
  - intros _. by exists 0%nat, t.
  - unfold counted_in. simpl. rewrite Ht. intros H. destruct (IH H) as (i & t' & Hi & Hc).
    by exists (S i), t'.
Qed.

(** Once nothing moves any more, every goroutine has ended. *)
Lemma nf_done st :
  draining st -> nf thread_step st ->
  Forall (fun t => t = TDone) (ns_threads st) /\ ns_drained st = true.
Proof.
  intros Hd Hnf. assert (ns_wg st = 0) as Hw.
  { destruct (decide (ns_wg st = 0)) as [?|Hne]; [done|]. exfalso. apply Hnf.
    destruct (counted_exists (ns_threads st)) as (i & t & Ht & Hc).
    - intros H. by rewrite (ni_wg _ (dr_inv _ Hd)), H in Hne.
    - apply (thread_unblocked st i t); auto. by intros ->. }
  assert (Forall (fun t => t = TDone) (ns_threads st)) as Hall.
  { apply Forall_lookup. intros i t Ht. destruct t; [..|done];
      exfalso; apply Hnf; eapply thread_unblocked; eauto; done. }
  split; [done|]. destruct (ni_closing _ (dr_inv _ Hd) (dr_closed _ Hd)) as [?|H]; [done|].
  apply Exists_exists in H as (t & Ht & H). rewrite Forall_forall in Hall.
  by rewrite (Hall t Ht) in H.
Qed.
End network.

(* ------------------------------------------------------------------ *)
(** ** Schedules *)

Lemma net_run_reachable V topic cfg st acts st' :
  net_reachable V topic cfg st -> net_run V st acts = NNext st' -> net_reachable V topic cfg st'.
Proof.
  revert st. induction acts as [|act acts IH]; intros st Hr; simpl; [by intros [= <-]|].
  destruct (net_step V st act) as [| |st1] eqn:Hs; [done|done|].
  apply IH. by eapply nr_step.
Qed.

(** Where a schedule leads; a schedule that cannot be followed leads nowhere. *)
Definition reached (V : Z) (topic : string) (cfg : NodeToNodeConfig) (acts : list net_action) : nstate :=
  match net_run V (net_init topic cfg) acts with
  | NNext st => st
  | _ => net_init topic cfg
  end.

Lemma reached_reachable V topic cfg acts : net_reachable V topic cfg (reached V topic cfg acts).
Proof.
  unfold reached. destruct (net_run _ _ acts) as [| |st] eqn:Hr; [constructor|constructor|].
  eapply net_run_reachable; [constructor|exact Hr].
Qed.

Definition listen_cfg : NodeToNodeConfig :=
  mkN2NConfig "127.0.0.1:3141" [] 0 0 0 (mkReconnect 0 0) (mkN2NHooks true true true).

Definition no_flows : submissionFlows := mkFlows None (mkFlowOptions 0 0) ∅.

Definition times (n : nat) (act : net_action) : list net_action := replicate n act.

(** start without errors, in goroutine 0: the accept loop is goroutine 1, the
    watcher goroutine 2. *)
Definition starts : list net_action :=
  [NRun 0 AnsGo; NRun 0 (AnsListen (Ok None))] ++ times 3 (NRun 0 AnsGo) ++
  [NRun 0 (AnsPeers (Ok [])); NRun 0 AnsGo].

(** A peer connects and is served by goroutine 3; its helpers are 4 and 5. *)
Definition serves_peer : list net_action :=
  [NRun 1 (AnsAccept (Ok (Some (Some ("10.0.0.1:4", "c0")))));
   NRun 3 (AnsHandshake None (HsFinished 1) None);
   NRun 3 (AnsSubmission (Ok no_flows) None); NRun 3 AnsGo; NRun 3 AnsGo].

(** Close, in goroutine 6, up to its wait. *)
Definition closes : list net_action :=
  NCallClose :: times 4 (NRun 6 AnsGo) ++ [NRun 6 (AnsPick 0); NRun 6 AnsGo].

(** The accept loop and the peer's goroutine end, and Close returns. *)
Definition ends : list net_action :=
  [NRun 1 (AnsAccept (Err (ErrForeign net_ErrClosed))); NRun 3 AnsDone; NRun 3 AnsGo; NRun 3 AnsGo;
   NRun 6 AnsGo; NRun 6 AnsGo].

Definition served : nstate := reached 1 "t" listen_cfg (starts ++ serves_peer).
Definition waiting : nstate := reached 1 "t" listen_cfg (starts ++ serves_peer ++ closes).
Definition ended : nstate := reached 1 "t" listen_cfg (starts ++ serves_peer ++ closes ++ ends).

Example served_peers : elements (sv_peers (ns_svc served)) = [0%nat].
Proof. vm_compute. reflexivity. Qed.

Example waiting_close : ns_threads waiting !! 6%nat = Some (TClose (CWait [None])).
Proof. vm_compute. reflexivity. Qed.

(* ------------------------------------------------------------------ *)
(** ** The theorems *)

(** C15: In every interleaving of a service's goroutines, calls of Close and
    AddPeer and the end of its context, no step panics (the WaitGroup never
    goes below zero), and once a call of Close is past its wait, unless it
    overtook start before the accept loop ran, nothing is left: no accept loop,
    no reconnect loop and no goroutine that serves a connection, no tracked
    peer, every connection closed, no open listener, and the service closed
    and cancelled; all of this stays so. *)
Theorem network_close_complete V topic cfg st :
  net_reachable V topic cfg st ->
  (forall act, net_step V st act <> NPanic) /\
  (ns_drained st = true -> ns_raced st = false -> shut st).
Proof.
  intros Hr%net_reachable_inv. split; [|by apply drained_shut].
  intros act Hp. pose proof (net_step_ok V st act Hr) as H. by rewrite Hp in H.
Qed.

Lemma network_close_complete_witness :
  ns_drained ended = true /\ (ns_returned ended).*2 = [None] /\ shut ended.
Proof.
  split; [vm_compute; reflexivity|]. split; [vm_compute; reflexivity|].
  apply (network_close_complete 1 "t" listen_cfg ended (reached_reachable _ _ _ _));
    vm_compute; reflexivity.
Defined.

(** The steps of the call of Close in goroutine [i]. *)
Definition own_step (V : Z) (i : nat) (st st' : nstate) : Prop := run V st i AnsGo = NNext st'.

(** The context is cancelled and the listener closed. *)
Definition signalled (st : nstate) : Prop := cancelled st = true /\ ns_listening st = false.

Lemma own_become V st i t st1 t' :
  ns_threads st !! i = Some t -> ns_threads st1 = ns_threads st ->
  run V st i AnsGo = NNext (become st1 i t') ->
  own_step V i st (become st1 i t') /\ ns_threads (become st1 i t') !! i = Some t'.
Proof.
  intros Ht Hts Hr. split; [done|]. simpl. rewrite Hts, list_lookup_insert_eq; [done|].
  by eapply lookup_lt_Some.
Qed.

Lemma own_listener V st i l ps :
  ns_threads st !! i = Some (TClose (CListener l ps)) -> cancelled st = true -> ns_raced st = false ->
  holds st l -> exists st1, nsteps (own_step V i) 1 st st1 /\ signalled st1.
Proof.
  intros Ht Hx Hr Hh. unfold own_step. destruct l as [err|].
  - eexists. split; [apply nsteps_once; unfold run; by rewrite Ht|done].
  - eexists. split; [apply nsteps_once; unfold run; by rewrite Ht|]. split; [done|]. by apply Hh.
Qed.

Lemma own_unregister V st i l ps :
  ns_threads st !! i = Some (TClose (CUnregister l ps)) -> cancelled st = true -> ns_raced st = false ->
  holds st l -> exists st1, nsteps (own_step V i) 2 st st1 /\ signalled st1.
Proof.
  intros Ht Hx Hr Hh.
  destruct (own_become V st i _ (set_registered st false) (TClose (CListener l ps)) Ht eq_refl) as [Hs Ht1].
  { unfold run. by rewrite Ht. }
  destruct (own_listener V _ i l ps Ht1) as (st2 & Hs2 & Hq); [done..|].
  exists st2. split; [|done]. by eapply nsteps_l.
Qed.

Lemma own_cancel V st i l ps :
  ns_threads st !! i = Some (TClose (CCancel l ps)) -> ns_raced st = false ->
  holds st l -> exists st1, nsteps (own_step V i) 3 st st1 /\ signalled st1.
Proof.
  intros Ht Hr Hh.
  destruct (own_become V st i _ (set_svc st (Network.cancel (ns_svc st))) (TClose (CUnregister l ps)) Ht eq_refl)
    as [Hs Ht1].
  { unfold run. by rewrite Ht. }
  destruct (own_unregister V _ i l ps Ht1) as (st2 & Hs2 & Hq); [done..|].
  exists st2. split; [|done]. by eapply nsteps_l.
Qed.

(** A Close that has the lock gets there by itself. *)
Lemma close_signals V st :
  net_inv st -> closed st = true -> ns_raced st = false ->
  exists i n st1, (n <= 3)%nat /\ nsteps (own_step V i) n st st1 /\ signalled st1.
Proof.
  intros Hi Hc Hr. assert (cancelled st = true -> quiet st ->
    exists i n st1, (n <= 3)%nat /\ nsteps (own_step V i) n st st1 /\ signalled st1) as Hnow.
  { intros Hx Hq. exists 0%nat, 0%nat, st. split; [lia|]. split; [constructor|]. split; [done|by apply Hq]. }
  destruct (ni_closing _ Hi Hc) as [Hd|Hex]; [by apply (ni_drained _ Hi) in Hd as (_ & ? & ? & _); auto|].
  apply Exists_exists in Hex as (t & [i Ht]%list_elem_of_lookup_1 & Hcl).
  pose proof (Forall_lookup_1 _ _ _ _ (ni_threads _ Hi) Ht) as Hok.
  destruct t as [| | | | | | |[|l ps|l ps|l ps|ps errs|errs|errs]|]; try done; simpl in Hok.
  - destruct (own_cancel V st i l ps Ht Hr) as (st1 & Hs & Hq); [apply Hok|]. by exists i, 3%nat, st1.
  - destruct (own_unregister V st i l ps Ht) as (st1 & Hs & Hq); try apply Hok; [done|].
    exists i, 2%nat, st1. by split; [lia|].
  - destruct (own_listener V st i l ps Ht) as (st1 & Hs & Hq); try apply Hok; [done|].
    exists i, 1%nat, st1. by split; [lia|].
  - apply Hnow; apply Hok.
  - apply Hnow; apply Hok.
Qed.

(** C16: Close returns, unless it overtook start. In a closed service the call
    of Close that closed it can, by at most three steps of its own, none of
    which can be blocked, see to it that the context has ended and the listener
    is closed. From then on the goroutines of the service can take only
    finitely many more steps, whatever the network and the scheduler answer,
    and when none can take a step every one has ended, every call of Close has
    returned, and nothing of the service is left. *)
Theorem network_close_returns V topic cfg st :
  net_reachable V topic cfg st -> closed st = true -> ns_raced st = false ->
  (exists i n st1, (n <= 3)%nat /\ nsteps (own_step V i) n st st1 /\ signalled st1) /\
  (signalled st ->
   sn (thread_step V) st /\
   forall st', rtc (thread_step V) st st' -> nf (thread_step V) st' ->
     Forall (fun t => t = TDone) (ns_threads st') /\ shut st').
Proof.
  intros Hr%net_reachable_inv Hc Hrc. split; [by apply close_signals|].
  intros [Hx Hl]. assert (draining st) as Hd by done.
  split; [by apply draining_sn|]. intros st' Hs Hnf.
  pose proof (rtc_draining V st st' Hd Hs) as Hd'. destruct (nf_done V st' Hd' Hnf) as [H1 H2].
  split; [done|]. apply drained_shut; [apply Hd'|done|apply Hd'].
Qed.

Lemma network_close_returns_witness : ns_wg waiting = 2 /\ sn (thread_step 1) waiting.
Proof.
  split; [vm_compute; reflexivity|].
  destruct (network_close_returns 1 "t" listen_cfg waiting (reached_reachable _ _ _ _)) as [_ H];
    [vm_compute; reflexivity..|].
  refine (proj1 (H (conj _ _))); vm_compute; reflexivity.
Defined.

(** C32: The hooks of a connection are called in order and at most once each:
    nothing, OnPeerConnected, or OnPeerConnected and then OnPeerDisconnected,
    with the connection's own peer; and once a call of Close is past its wait
    (and had not overtaken start) every connection that was announced as
    connected has been announced as disconnected. *)
Theorem network_hooks_paired V topic cfg st c p :
  net_reachable V topic cfg st -> ns_conns st !! c = Some p ->
  hooks_ok c p (events c (ns_log st)) /\
  (ns_drained st = true -> ns_raced st = false -> over c p (events c (ns_log st))).
Proof.
  intros Hr%net_reachable_inv Hp. split; [by apply hooks_in_order|].
  intros Hd Hrc. by apply hooks_complete.
Qed.

Lemma network_hooks_paired_witness :
  exists p, ns_conns ended !! 0%nat = Some p /\ over 0%nat p (events 0%nat (ns_log ended)) /\
    length (events 0%nat (ns_log ended)) = 2%nat.
Proof.
  destruct (ns_conns ended !! 0%nat) as [p|] eqn:Hp; [|by vm_compute in Hp].
  exists p. split; [done|]. split; [|vm_compute; reflexivity].
  apply (network_hooks_paired 1 "t" listen_cfg ended 0%nat p (reached_reachable _ _ _ _) Hp);
    vm_compute; reflexivity.
Defined.

(* ------------------------------------------------------------------ *)
(** ** What Close does not wait for *)

(** The context ends and the watcher starts to close the service; the caller's
    own Close then returns at once. *)
Definition second_close : list net_action :=
  starts ++ serves_peer ++
  [NParentDone (ErrForeign context_Canceled); NRun 2 AnsGo; NRun 2 AnsGo; NCallClose; NRun 6 AnsGo].

(** The comment on Close promises that it waits for the goroutines. A call that
    comes second returns while the first is still closing: here with the
    listener open, a peer connected and two goroutines running. *)
Theorem second_Close_does_not_wait :
  let st := reached 1 "t" listen_cfg second_close in
  net_run 1 (net_init "t" listen_cfg) second_close = NNext st /\
  ns_threads st !! 6%nat = Some TDone /\ (ns_returned st).*2 = [None] /\
  ns_listening st = true /\ elements (sv_peers (ns_svc st)) = [0%nat] /\ ns_wg st = 2 /\
  ns_raced st = false.
Proof. vm_compute. by repeat split. Qed.

(** The helpers of a connection are not in the WaitGroup: after Close returned
    they still run, and one of them still calls the error hook. *)
Theorem helpers_outlive_Close :
  (ns_returned ended).*2 = [None] /\
  ns_threads ended !! 4%nat = Some (TForward 0) /\ ns_threads ended !! 5%nat = Some (TPull 0) /\
  exists st err, net_run 1 ended [NRun 5 (AnsSend (Some (ErrForeign net_ErrClosed)))] = NNext st /\
    ns_log st = ns_log ended ++ [NError err].
Proof.
  split; [vm_compute; reflexivity|]. split; [vm_compute; reflexivity|].
  split; [vm_compute; reflexivity|]. vm_compute. by do 2 eexists.
Qed.
