(* ===== verification/NetworkLoops.v ===== *)
(** * The reconnect loops of a running service (network.go)

    In every interleaving there is at most one goroutine per outbound address,
    and its backoff stays between the configured bounds. *)

From S2P Require Import Prelude Errors Types Clone Concrete Payload Peers Ledger Config Topic TopicFacts Examples Service Manager Flow Network NetworkFacts NetworkTheorems.
From stdpp Require Import relations.
#[local] Open Scope Z_scope.

(** The peer a goroutine dials, with its backoff. *)
Definition loop_of (t : thread) : option (Peer * Duration) :=
  match t with
  | TLoop p b _ | TServe (Outbound p b) _ _ => Some (p, b)
  | _ => None
  end.

Definition loops (ts : list thread) : list (Peer * Duration) := omap loop_of ts.

Definition dialled (ts : list thread) : list string := map (fun pb => pr_Address pb.1) (loops ts).

Definition bounded (rc : ReconnectConfig) (b : Duration) : Prop :=
  rc_InitialBackoff rc <= b <= rc_MaxBackoff rc.

Record loops_ok (rc : ReconnectConfig) (st : nstate) : Prop := {
  lo_cfg : nc_Reconnect (sv_cfg (ns_svc st)) = rc;
  lo_nodup : NoDup (dialled (ns_threads st));
  lo_tracked : Forall (fun a => a ∈ sv_outbound (ns_svc st)) (dialled (ns_threads st));
  lo_backoff : Forall (fun pb => bounded rc pb.2) (loops (ns_threads st))
}.

#[export] Instance loops_perm : Proper (Permutation ==> Permutation) loops.
Proof. intros ts ts' H. unfold loops. by rewrite H. Qed.

#[export] Instance dialled_perm : Proper (Permutation ==> Permutation) dialled.
Proof. intros ts ts' H. unfold dialled. by rewrite H. Qed.

Lemma loops_cons t ts : loops (t :: ts) = option_list (loop_of t) ++ loops ts.
Proof. unfold loops. simpl. by destruct (loop_of t). Qed.

Lemma loops_app ts ts' : loops (ts ++ ts') = loops ts ++ loops ts'.
Proof. apply omap_app. Qed.

Lemma dialled_cons t ts :
  dialled (t :: ts) = map (fun pb => pr_Address pb.1) (option_list (loop_of t)) ++ dialled ts.
Proof. unfold dialled. by rewrite loops_cons, map_app. Qed.

Section loops.
Context (V : Z) (rc : ReconnectConfig).
Context (Hpos : 0 < rc_InitialBackoff rc) (Hle : rc_InitialBackoff rc <= rc_MaxBackoff rc).
Context (Hmax : rc_MaxBackoff rc < 2 ^ 62).

(** What a goroutine makes of the backoff it had. *)
Definition goes_on (t t' : thread) : Prop :=
  loop_of t' = None \/
  exists p b b', loop_of t = Some (p, b) /\ loop_of t' = Some (p, b') /\
    (b' = b \/ b' = rc_InitialBackoff rc \/ b' = next_backoff rc b).

Lemma next_backoff_bounded b : bounded rc b -> bounded rc (next_backoff rc b).
Proof.
  unfold bounded, next_backoff. intros Hb. rewrite i64_id by (unfold is_i64; lia).
  destruct (_ >? _) eqn:E; zbool; lia.
Qed.

(** Goroutine [i] goes on as [t'] and starts [extra], none of which dials. *)
Lemma loops_replace st st' i t t' extra :
  loops_ok rc st -> ns_threads st !! i = Some t ->
  sv_cfg (ns_svc st') = sv_cfg (ns_svc st) -> sv_outbound (ns_svc st') = sv_outbound (ns_svc st) ->
  ns_threads st' = <[i := t']> (ns_threads st ++ extra) -> loops extra = [] -> goes_on t t' ->
  loops_ok rc st'.
Proof.
  intros [Lc Ln Lt Lb] Ht Hcfg Hout Hts Hx Hg. destruct (threads_at _ _ _ Ht) as (rest & Ho & Hn).
  rewrite insert_app_l in Hts by (by eapply lookup_lt_Some).
  assert (loops (ns_threads st') ≡ₚ option_list (loop_of t') ++ loops rest) as Hl.
  { by rewrite Hts, loops_app, Hx, app_nil_r, Hn, loops_cons. }
  assert (dialled (ns_threads st') ≡ₚ
          map (fun pb => pr_Address pb.1) (option_list (loop_of t')) ++ dialled rest) as Hd.
  { unfold dialled. by rewrite Hl, map_app. }
  rewrite Ho, dialled_cons in Ln, Lt. rewrite Ho, loops_cons in Lb.
  split; [by rewrite Hcfg|..].
  - rewrite Hd. destruct Hg as [-> |(p & b & b' & E1 & -> & _)]; [by apply NoDup_app in Ln as (_ & _ & ?)|].
    by rewrite E1 in Ln.
  - rewrite Hd, Hout. apply Forall_app in Lt as [L1 L2]. apply Forall_app. split; [|done].
    destruct Hg as [-> |(p & b & b' & E1 & -> & _)]; [constructor|]. by rewrite E1 in L1.
  - rewrite Hl. apply Forall_app in Lb as [L1 L2]. apply Forall_app. split; [|done].
    destruct Hg as [-> |(p & b & b' & E1 & -> & Hb)]; [constructor|]. rewrite E1 in L1.
    apply Forall_cons_1 in L1 as [L1 _]. apply Forall_singleton. simpl in *.
    destruct Hb as [-> |[-> | ->]]; [done|unfold bounded; lia|by apply next_backoff_bounded].
Qed.

Lemma loops_become st st1 i t t' extra :
  loops_ok rc st -> ns_threads st !! i = Some t ->
  sv_cfg (ns_svc st1) = sv_cfg (ns_svc st) -> sv_outbound (ns_svc st1) = sv_outbound (ns_svc st) ->
  ns_threads st1 = ns_threads st ++ extra -> loops extra = [] -> goes_on t t' ->
  loops_ok rc (become st1 i t').
Proof.
  intros Hl Ht Hc Ho Hts Hx Hg. eapply (loops_replace st _ i t t' extra); eauto. simpl. by rewrite Hts.
Qed.

Lemma loops_become_nil st st1 i t t' :
  loops_ok rc st -> ns_threads st !! i = Some t ->
  sv_cfg (ns_svc st1) = sv_cfg (ns_svc st) -> sv_outbound (ns_svc st1) = sv_outbound (ns_svc st) ->
  ns_threads st1 = ns_threads st -> goes_on t t' -> loops_ok rc (become st1 i t').
Proof.
  intros Hl Ht Hc Ho Hts Hg. eapply (loops_become st st1 i t t' []); eauto.
  by rewrite Hts, app_nil_r.
Qed.

Definition loops_safe (r : net_outcome) : Prop := forall st', r = NNext st' -> loops_ok rc st'.

Lemma loops_finish st st1 i t :
  loops_ok rc st -> ns_threads st !! i = Some t ->
  sv_cfg (ns_svc st1) = sv_cfg (ns_svc st) -> sv_outbound (ns_svc st1) = sv_outbound (ns_svc st) ->
  ns_threads st1 = ns_threads st -> loops_safe (finish st1 i).
Proof.
  intros Hl Ht Hc Ho Hts st'. unfold finish. destruct (_ <=? _); [done|]. intros [= <-].
  eapply loops_become_nil; eauto. by left.
Qed.
(** handleConnection starts the two helpers at most, and leaves the
    configuration and the outbound set alone. *)
Lemma handle_shape st c ph a st1 h :
  handleConnection V st c ph a = Some (st1, h) ->
  sv_cfg (ns_svc st1) = sv_cfg (ns_svc st) /\ sv_outbound (ns_svc st1) = sv_outbound (ns_svc st) /\
  exists extra, ns_threads st1 = ns_threads st ++ extra /\ loops extra = [].
Proof.
  unfold handleConnection, newNodeToNodePeerConnection, conn_Wait, refuse. destruct (ns_conns st !! c) as [p|]; [|done].
  cbn [mbind option_bind].
  assert (forall st1, ns_threads st1 = ns_threads st ->
          exists extra, ns_threads st1 = ns_threads st ++ extra /\ loops extra = []) as Hnil
    by (intros ? ->; exists []; by rewrite app_nil_r).
  intros H. destruct ph as [|version| | | | |], a as [| | | | | |d ev r|cfg init| | | | | |]; try done.
  - destruct (match d with Some _ => true | None => _ end); [|done].
    destruct (handshake d ev r (ctx_error st)) as [version [e|]]; simplify_eq; auto.
  - destruct (startMessageSubmission _ _ _ _ _) as [p' [e|]]; simplify_eq; [auto|].
    split_and!; [done|done|]. by exists [TForward c; TPull c].
  - simplify_eq. unfold addConnection. destruct (sv_closed (ns_svc st)); auto.
  - simplify_eq. auto.
  - destruct (cancelled st); simplify_eq. auto.
  - destruct (cn_closed p); simplify_eq. auto.
  - destruct (cn_errorCh p); simplify_eq. auto.
  - simplify_eq. auto.
  - simplify_eq. auto.
Qed.

Lemma serve_loops st i o c ph a :
  loops_ok rc st -> ns_threads st !! i = Some (TServe o c ph) -> loops_safe (run V st i a).
Proof.
  intros Hl Ht st'. unfold run. rewrite Ht.
  destruct (handleConnection V st c ph a) as [[st1 h]|] eqn:Hh; [|done].
  destruct (handle_shape st c ph a st1 h Hh) as (Hc & Ho & extra & Hts & Hx).
  assert (forall t', goes_on (TServe o c ph) t' -> loops_ok rc (become st1 i t')) as Hgo.
  { intros t' Hg. by eapply loops_become. }
  destruct h as [ph'|err]; [|destruct o as [|peer backoff]].
  - intros [= <-]. apply Hgo. destruct o as [|p b]; [by left|]. right. exists p, b, b. auto.
  - destruct (ns_conns st1 !! c) as [p|]; [|done]. unfold finish. destruct (_ <=? _); [done|].
    intros [= <-]. eapply (loops_become st _ i); eauto. by left.
  - intros [= <-]. apply Hgo. right. exists peer, backoff, backoff. auto.
Qed.

Lemma loop_loops st i peer backoff pc a :
  loops_ok rc st -> ns_threads st !! i = Some (TLoop peer backoff pc) ->
  loops_safe (loop_step st i peer backoff pc a).
Proof.
  intros Hl Ht. unfold loop_step, dialAndServe. rewrite (lo_cfg _ _ Hl).
  assert (forall st1 t' b', ns_svc st1 = ns_svc st -> ns_threads st1 = ns_threads st ->
            loop_of t' = Some (peer, b') ->
            (b' = backoff \/ b' = rc_InitialBackoff rc \/ b' = next_backoff rc backoff) ->
            loops_safe (NNext (become st1 i t'))) as Hgo.
  { intros st1 t' b' Hs Hts Ht' Hb st' [= <-].
    eapply loops_become_nil; eauto; [by rewrite Hs|by rewrite Hs|]. right. by exists peer, backoff, b'. }
  destruct pc as [| |err|], a as [| | | | | | | | | |[id|e]| | |]; try (by intros ? [=]).
  - destruct (cancelled st); [by eapply loops_finish|by eapply Hgo; eauto].
  - by eapply Hgo; eauto.
  - by eapply Hgo; eauto.
  - eapply Hgo; eauto. destruct err; auto.
  - destruct (cancelled st); [by eapply loops_finish|by intros ? [=]].
  - eapply Hgo; eauto.
Qed.

Lemma AddPeer_fresh s p q :
  sv_loops (AddPeer s p) = sv_loops s ++ [q] ->
  sv_cfg (AddPeer s p) = sv_cfg s /\ (pr_Address q ∉ sv_outbound s) /\
  sv_outbound (AddPeer s p) = {[pr_Address q]} ∪ sv_outbound s.
Proof.
  assert (forall (l : list Peer) x, l = l ++ [x] -> False) as Hno.
  { intros l x H%(f_equal length). rewrite length_app in H. simpl in H. lia. }
  unfold AddPeer. destruct (normalizeNodeToNodePeer p) as [r|]; [|by intros ?%Hno].
  destruct (sv_closed s); [by intros ?%Hno|]. case_bool_decide; [by intros ?%Hno|]. simpl.
  intros Hq. by apply app_inj_2 in Hq as [_ [= ->]].
Qed.

Lemma call_AddPeer_loops st p : loops_ok rc st -> loops_ok rc (call_AddPeer st p).
Proof.
  intros [Lc Ln Lt Lb]. unfold call_AddPeer.
  destruct (AddPeer_cases (ns_svc st) p) as [->|(_ & q & Hq & _)]; [by rewrite drop_all|].
  destruct (AddPeer_fresh _ _ _ Hq) as (Hc & Hn & Ho). rewrite Hq, drop_app_length.
  assert (forall b, loops (ns_threads st ++ [TLoop q b OTop]) = loops (ns_threads st) ++ [(q, b)]) as Hl.
  { intros b. by rewrite loops_app. }
  split; simpl; [by rewrite Hc| | |].
  - unfold dialled. rewrite Hl, map_app. apply NoDup_app. split_and!; [done| |apply NoDup_singleton].
    intros x Hx ->%list_elem_of_singleton. rewrite Forall_forall in Lt. by apply Hn, Lt.
  - unfold dialled. rewrite Hl, map_app, Forall_app, Ho. split.
    + eapply Forall_impl; [exact Lt|]. set_solver.
    + apply Forall_singleton. set_solver.
  - rewrite Hl. apply Forall_app. split; [done|]. apply Forall_singleton. unfold bounded. simpl.
    rewrite Hc, Lc. lia.
Qed.
(** A goroutine that does not dial goes on as one that does not. *)
Lemma other_loops st st1 i t t' :
  loops_ok rc st -> ns_threads st !! i = Some t -> loop_of t' = None ->
  sv_cfg (ns_svc st1) = sv_cfg (ns_svc st) -> sv_outbound (ns_svc st1) = sv_outbound (ns_svc st) ->
  ns_threads st1 = ns_threads st -> loops_safe (NNext (become st1 i t')).
Proof. intros Hl Ht Hn Hc Ho Hts st' [= <-]. eapply loops_become_nil; eauto. by left. Qed.

Lemma spawn_loops st st1 extra :
  loops_ok rc st -> sv_cfg (ns_svc st1) = sv_cfg (ns_svc st) ->
  sv_outbound (ns_svc st1) = sv_outbound (ns_svc st) ->
  ns_threads st1 = ns_threads st ++ extra -> loops extra = [] -> loops_ok rc st1.
Proof.
  intros [Lc Ln Lt Lb] Hc Ho Hts Hx.
  assert (loops (ns_threads st1) = loops (ns_threads st)) as Hl
    by (by rewrite Hts, loops_app, Hx, app_nil_r).
  assert (dialled (ns_threads st1) = dialled (ns_threads st)) as Hd by (unfold dialled; by rewrite Hl).
  split; rewrite ?Hd, ?Hl, ?Hc, ?Ho; done.
Qed.

Lemma accept_loops st i r :
  loops_ok rc st -> ns_threads st !! i = Some TAccept -> loops_safe (acceptLoop st i r).
Proof.
  intros Hl Ht. unfold acceptLoop, accept_failed. destruct r as [conn|e].
  - destruct (ns_listening st); [|by intros ? [=]]. destruct conn as [[[addr id]|]|].
    + intros st' [= <-].
      by eapply (spawn_loops st _ [TServe Inbound (length (ns_conns st)) HHandshake]).
    + intros st' [= <-]. apply (spawn_loops st _ []); try done. by rewrite app_nil_r.
    + by eapply loops_finish.
  - destruct (cancelled st); by eapply loops_finish.
Qed.

Lemma start_loops st i pc a :
  loops_ok rc st -> ns_threads st !! i = Some (TStart pc) -> loops_safe (start_step st i pc a).
Proof.
  intros Hl Ht. unfold start_step.
  destruct pc as [| |l| | | |[|p ps]], a as [| | | | | | | | | | | |[l'|e]|[peers|e]];
    try (by intros ? [=]); try (by eapply other_loops).
  - destruct (ns_parent st); by eapply other_loops.
  - intros st' [= <-]. eapply (loops_become st _ i _ _ [TAccept]); eauto. by left.
  - intros st' [= <-]. eapply (loops_become st _ i _ _ [TWatch]); eauto. by left.
  - destruct (call_AddPeer_threads st p) as [extra Hx].
    apply (other_loops (call_AddPeer st p) _ i (TStart (SAdd (p :: ps)))); try done.
    + by apply call_AddPeer_loops.
    + rewrite Hx. by apply lookup_app_l_Some.
Qed.

Lemma close_loops st i pc a :
  loops_ok rc st -> ns_threads st !! i = Some (TClose pc) -> loops_safe (close_step st i pc a).
Proof.
  intros Hl Ht. unfold close_step.
  destruct pc as [|l ps|l ps|[l|] ps|[|c ps] errs|errs|errs], a as [| | | | |k| | | | | | | |];
    try (by intros ? [=]); try (by eapply other_loops).
  - destruct (sv_closed (ns_svc st)); by eapply other_loops.
  - destruct ((c :: ps) !! k); [by eapply other_loops|by intros ? [=]].
  - destruct (_ =? _); [by eapply other_loops|by intros ? [=]].
Qed.

Lemma run_loops st i a : loops_ok rc st -> loops_safe (run V st i a).
Proof.
  intros Hl. destruct (ns_threads st !! i) as [t|] eqn:Ht; [|unfold run; rewrite Ht; by intros ? [=]].
  destruct t as [pc| |o c ph|peer backoff pc|c|c| |pc|].
  3: by eapply serve_loops.
  all: unfold run; rewrite Ht.
  - by apply start_loops.
  - destruct a; try (by intros ? [=]). by apply accept_loops.
  - by apply loop_loops.
  - unfold forwardErrors. destruct (ns_conns st !! c) as [p|]; [|by intros ? [=]].
    destruct a as [| | | | | | | |[e|]| | | | |]; try (by intros ? [=]); try (by eapply other_loops).
    + destruct (cancelled st); [by eapply other_loops|by intros ? [=]].
    + destruct (cn_closed p); [by eapply other_loops|by intros ? [=]].
  - unfold pull_step. destruct (ns_conns st !! c) as [p|]; [|by intros ? [=]].
    destruct a as [| | | | | | | | |err| | | |]; try (by intros ? [=]).
    destruct (startPull p) as [p' req]. destruct req, err; by eapply other_loops.
  - unfold closeOnDone. destruct a; try (by intros ? [=]).
    destruct (cancelled st); [by eapply other_loops|by intros ? [=]].
  - by apply close_loops.
  - by intros ? [=].
Qed.

Lemma net_step_loops st act : loops_ok rc st -> loops_safe (net_step V st act).
Proof.
  intros Hl. destruct act as [i a| |peer|err]; simpl.
  - by apply run_loops.
  - intros st' [= <-]. by apply (spawn_loops st _ [TClose CLock]).
  - intros st' [= <-]. by apply call_AddPeer_loops.
  - destruct (ns_parent st); [by intros ? [=]|]. intros st' [= <-].
    apply (spawn_loops st _ []); try done. by rewrite app_nil_r.
Qed.
End loops.

(** C33: In every interleaving of a service, no two goroutines dial or serve the
    same outbound address, every address dialled is in the outbound set, and
    the backoff of every reconnect loop lies between InitialBackoff and
    MaxBackoff (the configured ones with the defaults applied, MaxBackoff below
    2^62 ns, 146 years, so that doubling stays in int64). *)
Theorem network_loops_unique V topic cfg st :
  let rc := defaultReconnectConfig (nc_Reconnect cfg) in
  rc_MaxBackoff rc < 2 ^ 62 -> net_reachable V topic cfg st ->
  NoDup (dialled (ns_threads st)) /\
  Forall (fun a => a ∈ sv_outbound (ns_svc st)) (dialled (ns_threads st)) /\
  Forall (fun pb => bounded rc pb.2) (loops (ns_threads st)).
Proof.
  intros rc Hmax Hr. destruct (defaultReconnectConfig_ok (nc_Reconnect cfg)) as [Hpos Hle].
  assert (loops_ok rc st) as [_ ? ? ?]; [|done].
  induction Hr as [|st act st' _ IH Hst].
  - split; try done; constructor.
  - by apply (net_step_loops V rc Hpos Hle Hmax st act IH).
Qed.

(** A peer is added twice, and its first dial fails. *)
Definition dials_twice : list net_action :=
  let p := mkPeer "10.0.0.2:5" "" 0 "" "" 0 0 0 false false in
  starts ++ [NCallAddPeer p; NCallAddPeer p; NRun 3 AnsGo; NRun 3 (AnsDial (Err (ErrForeign net_ErrClosed)));
             NRun 3 AnsGo; NRun 3 AnsTimer].

Lemma network_loops_unique_witness :
  let st := reached 1 "t" listen_cfg dials_twice in
  NoDup (dialled (ns_threads st)) /\ map snd (loops (ns_threads st)) = [2 * Second].
Proof.
  intros st. split; [|vm_compute; reflexivity].
  refine (proj1 (network_loops_unique 1 "t" listen_cfg st _ (reached_reachable _ _ _ _))).
  vm_compute. reflexivity.
Defined.
