(* ===== verification/NetworkPeers.v ===== *)
(** * Which connections a service tracks (network.go)

    PeerCount answers with the size of a map that the goroutines serving
    connections add to and remove from, and Close closes the connections it
    finds there. [network_tracks_connections]: the map holds the connections
    that are being served, no more and no fewer, and once Close has been
    through its copy of it every connection still served is closed, also one
    whose goroutine came too late to be tracked. *)

From S2P Require Import Prelude Errors Types Clone Concrete Payload Peers Ledger Config Topic TopicFacts Examples Service Manager Flow Network NetworkFacts NetworkTheorems.
From stdpp Require Import relations.
#[local] Open Scope Z_scope.

Lemma lookup_delete_elem {A} (l : list A) (i : nat) (x y : A) :
  l !! i = Some x -> y ∈ l -> y = x \/ y ∈ delete i l.
Proof.
  intros Hi Hy. rewrite (delete_Permutation l i x Hi) in Hy.
  by apply elem_of_cons in Hy.
Qed.

(** handleConnection between addConnection and removeConnection. *)
Definition tracked_phase (ph : phase) : bool :=
  match ph with HConnected | HWait | HRemove => true | _ => false end.

(** The connections whose goroutines are there. *)
Definition tracks (t : thread) : option nat :=
  match t with TServe _ c ph => if tracked_phase ph then Some c else None | _ => None end.

Definition tracked_by (ts : list thread) : list nat := omap tracks ts.

Definition peers (st : nstate) : gset nat := sv_peers (ns_svc st).

Definition conn_closed (st : nstate) (c : nat) : Prop :=
  exists p, ns_conns st !! c = Some p /\ cn_closed p = true.

(** What a goroutine knows: a tracked connection is in the map, or came too late
    and is closed; Close has in its copy, or has closed, all that the map holds. *)
Definition track_ok (st : nstate) (t : thread) : Prop :=
  match t with
  | TServe _ c ph =>
      tracked_phase ph = true -> c ∈ peers st \/ closed st = true /\ conn_closed st c
  | TClose (CCancel _ ps | CUnregister _ ps | CListener _ ps | CPeers ps _) =>
      forall c, c ∈ peers st -> c ∈ ps \/ conn_closed st c
  | TClose (CWait _ | CJoin _) => forall c, c ∈ peers st -> conn_closed st c
  | _ => True
  end.

Definition track_inv (st : nstate) : Prop := Forall (track_ok st) (ns_threads st).

(** How a step changes what the others know: only [P] leaves the map, nothing
    enters it once the service is closed. *)
Record frame (P : nat -> Prop) (st st' : nstate) : Prop := {
  fr_closed : closed st = true -> closed st' = true;
  fr_conns c : conn_closed st c -> conn_closed st' c;
  fr_kept c : c ∈ peers st -> P c \/ c ∈ peers st';
  fr_new c : closed st = true -> c ∈ peers st' -> c ∈ peers st
}.

Lemma track_frame_trans (P : nat -> Prop) st1 st2 st3 : frame P st1 st2 -> frame P st2 st3 -> frame P st1 st3.
Proof.
  intros [A B C D] [A' B' C' D']. split; auto.
  intros c [?|?%C']%C; auto.
Qed.

Lemma frame_weaken (P Q : nat -> Prop) st st' : (forall c, P c -> Q c) -> frame P st st' -> frame Q st st'.
Proof. intros HPQ [A B C D]. split; auto. intros c [?|?]%C; auto. Qed.

Lemma track_ok_frame P st st' t :
  frame P st st' -> thread_ok st t -> (forall c, serves c t <> None -> ~ P c) ->
  track_ok st t -> track_ok st' t.
Proof.
  intros [A B C D] Hok Hs. destruct t as [| |o c ph| | | | |[]|]; simpl in *; try done.
  1:{ intros H Hph. destruct (H Hph) as [Hin|[Hc Hcc]]; [|right; auto].
      destruct (C c Hin) as [HP|?]; [|by left]. exfalso. apply (Hs c); [|done].
      by rewrite decide_True. }
  all: intros H c' Hc'; destruct Hok as [Hcl _];
    first [by apply B, H, D|destruct (H c' (D c' Hcl Hc')); [by left|right; by apply B]].
Qed.

(** Steps that leave the map alone. *)
Definition still : nat -> Prop := fun _ => False.

Lemma still_ok st st' t :
  frame still st st' -> thread_ok st t -> track_ok st t -> track_ok st' t.
Proof. intros Hf Hok. apply (track_ok_frame still); [done|done|]. intros c _ []. Qed.

Lemma frame_same st st' :
  peers st' = peers st -> (closed st = true -> closed st' = true) -> ns_conns st' = ns_conns st ->
  frame still st st'.
Proof. intros Hp Hc Hn. split; unfold conn_closed; rewrite ?Hp, ?Hn; auto. Qed.

Lemma frame_refl st : frame still st st.
Proof. by apply frame_same. Qed.

Lemma frame_update st c f :
  (forall p, ns_conns st !! c = Some p -> cn_closed p = true -> cn_closed (f p) = true) ->
  frame still st (update_conn st c f).
Proof.
  intros Hf. split; auto. intros c' (p & Hp & Hcl). unfold conn_closed. simpl.
  destruct (decide (c' = c)) as [->|Hne].
  - rewrite list_lookup_alter_eq, Hp. exists (f p). auto.
  - rewrite list_lookup_alter_ne by done. by exists p.
Qed.

Lemma frame_close st c : frame still st (update_conn st c conn_Close).
Proof. by apply frame_update. Qed.

Lemma frame_new_conn st peer id : frame still st (new_conn st peer id).
Proof.
  split; auto. intros c (p & Hp & Hcl). exists p. split; [|done]. by apply lookup_app_l_Some.
Qed.

Lemma frame_sendError st c e : frame still st (sendError st c e).
Proof.
  eapply track_frame_trans; [apply (frame_same st (add_log st [NError e])); done|]. by apply frame_update.
Qed.

Lemma frame_become P st st1 i t : frame P st st1 -> frame P st (become st1 i t).
Proof. intros [A B C D]. by split. Qed.

(* ------------------------------------------------------------------ *)
(** ** What one step does *)

(** Goroutine [i], at [t], becomes another and starts some more. *)
Definition moved (st : nstate) (i : nat) (t : thread) (st' : nstate) : Prop :=
  exists t' extra, ns_threads st' = <[i := t']> (ns_threads st ++ extra) /\
    frame (fun c => serves c t <> None) st st' /\
    (track_ok st t -> Forall (track_ok st') (t' :: extra)).

Lemma moved_intro st st1 i t t' :
  ns_threads st1 = ns_threads st -> frame still st st1 ->
  (track_ok st t -> track_ok (become st1 i t') t') -> moved st i t (become st1 i t').
Proof.
  intros Hts Hf Hok. exists t', []. simpl. rewrite Hts, app_nil_r. split; [done|]. split.
  - apply frame_become. eapply frame_weaken; [|exact Hf]. done.
  - intros H. constructor; auto.
Qed.

Lemma finish_moved st st1 i t st' :
  ns_threads st1 = ns_threads st -> frame still st st1 -> finish st1 i = NNext st' -> moved st i t st'.
Proof.
  intros Hts Hf. unfold finish. destruct (_ <=? _); [done|]. intros [= <-].
  apply (moved_intro st (set_wg st1 (ns_wg st1 - 1)) i t TDone); [done| |done]. by destruct Hf.
Qed.

Section steps.
Context (V : Z).

Lemma handle_frame st c ph a st1 h :
  handleConnection V st c ph a = Some (st1, h) ->
  frame (eq c) st st1 /\
  (exists extra, ns_threads st1 = ns_threads st ++ extra /\ Forall (fun t => forall st, track_ok st t) extra) /\
  match h with
  | HNext ph' => forall o, track_ok st (TServe o c ph) -> track_ok st1 (TServe o c ph')
  | HReturn _ => True
  end.
Proof.
  assert (forall st, frame still st st1 -> frame (eq c) st st1) as Hw.
  { intros st0 Hf. eapply frame_weaken; [|exact Hf]. done. }
  assert (forall st, ns_threads st1 = ns_threads st -> exists extra, ns_threads st1 = ns_threads st ++ extra /\
    Forall (fun t => forall st, track_ok st t) extra) as Hnil.
  { intros st0 ->. exists []. by rewrite app_nil_r. }
  unfold handleConnection, newNodeToNodePeerConnection, conn_Wait, refuse.
  destruct (ns_conns st !! c) as [p|] eqn:Hp; [|done]. cbn [mbind option_bind].
  intros H. destruct ph as [|version| | | | |], a as [| | | | | |d ev r|cfg init| | | | | |]; try done.
  - destruct (match d with Some _ => true | None => _ end); [|done].
    destruct (handshake d ev r (ctx_error st)) as [version [e|]]; simplify_eq;
      (split; [apply Hw; by first [apply frame_close|apply frame_refl]|]); (split; [by apply Hnil|done]).
  - destruct (startMessageSubmission _ _ _ _ _) as [p' err] eqn:Hs.
    assert (frame still st (update_conn st c (fun _ => p'))) as Hu.
    { apply frame_update. intros q Hq. rewrite Hp in Hq. simplify_eq. intros Hc.
      unfold startMessageSubmission in Hs. repeat (case_match; simplify_eq/=); done. }
    destruct err as [e|]; simplify_eq.
    + split; [|split; [by apply Hnil|done]]. apply Hw. eapply track_frame_trans; [exact Hu|apply frame_close].
    + split; [apply Hw; by destruct Hu|]. split; [|done]. exists [TForward c; TPull c].
      split; [done|]. by repeat constructor.
  - simplify_eq. set (s1 := set_svc st (addConnection (ns_svc st) c)).
    assert (frame (eq c) st s1) as Hf.
    { unfold s1, addConnection. destruct (sv_closed (ns_svc st)) eqn:Hc; split; unfold closed, peers, conn_closed; simpl;
        try congruence; auto; set_solver. }
    destruct (sv_closed (ns_svc st)) eqn:Hc.
    + split; [eapply track_frame_trans; [exact Hf|apply Hw, frame_close]|]. split; [by apply Hnil|].
      intros o _ _. right. split; [unfold closed, s1; simpl; unfold addConnection; by rewrite Hc|].
      exists (conn_Close p). split; [by apply lookup_update|done].
    + split; [done|]. split; [by apply Hnil|]. intros o _ _. left. unfold peers, s1. simpl.
      unfold addConnection. rewrite Hc. simpl. set_solver.
  - simplify_eq. split; [by apply Hw, frame_same|]. split; [by apply Hnil|done].
  - destruct (cancelled st); simplify_eq. split; [apply Hw, frame_close|]. split; [by apply Hnil|].
    intros o. by apply (still_ok _ _ (TServe o c HWait)); [apply frame_close|..].
  - destruct (cn_closed p); simplify_eq. split; [apply Hw, frame_refl|]. split; [by apply Hnil|done].
  - destruct (cn_errorCh p); simplify_eq.
    assert (frame still st (update_conn st c (fun p => conn_Close (take_error p)))) as Hf by by apply frame_update.
    split; [by apply Hw|]. split; [by apply Hnil|].
    intros o. by apply (still_ok _ _ (TServe o c HWait)).
  - simplify_eq. split; [|split; [by apply Hnil|done]].
    split; unfold closed, peers, conn_closed; simpl; auto; [|set_solver].
    intros c' Hc'. destruct (decide (c = c')); [by left|right; set_solver].
  - simplify_eq. split; [by apply Hw, frame_same|]. split; [by apply Hnil|done].
Qed.

Lemma serve_moved st i o c ph a st' :
  ns_threads st !! i = Some (TServe o c ph) -> run V st i a = NNext st' ->
  moved st i (TServe o c ph) st'.
Proof.
  intros Ht. unfold run. rewrite Ht.
  destruct (handleConnection V st c ph a) as [[st1 h]|] eqn:Hh; [|done].
  destruct (handle_frame _ _ _ _ _ _ Hh) as (Hf & (extra & Hts & Hx) & Hok).
  assert (frame (fun c' => serves c' (TServe o c ph) <> None) st st1) as Hf'.
  { eapply frame_weaken; [|exact Hf]. intros c' <-. simpl. by rewrite decide_True. }
  assert (forall st0, Forall (track_ok st0) extra) as Hx'.
  { intros st0. eapply Forall_impl; [exact Hx|]. simpl. auto. }
  assert (forall st2 t', ns_threads st2 = ns_threads st ++ extra ->
    frame (fun c' => serves c' (TServe o c ph) <> None) st st2 ->
    (track_ok st (TServe o c ph) -> track_ok (become st2 i t') t') ->
    moved st i (TServe o c ph) (become st2 i t')) as Hgo.
  { intros st2 t' Hts2 Hf2 Ht'. exists t', extra. simpl. rewrite Hts2. split; [done|].
    split; [by apply frame_become|]. intros H. constructor; [auto|done]. }
  destruct h as [ph'|err].
  - intros [= <-]. apply Hgo; [done|done|]. exact (Hok o).
  - destruct o as [|peer backoff]; [|intros [= <-]; by apply Hgo].
    destruct (ns_conns st1 !! c) as [p|]; [|done]. unfold finish. destruct (_ <=? _); [done|].
    intros [= <-]. apply Hgo; [done| |done]. by destruct Hf'.
Qed.

Lemma accept_moved st i r st' :
  ns_threads st !! i = Some TAccept -> acceptLoop st i r = NNext st' -> moved st i TAccept st'.
Proof.
  intros Ht. unfold acceptLoop, accept_failed.
  assert (forall st1 extra, ns_threads st1 = ns_threads st ++ extra -> frame still st st1 ->
    Forall (track_ok st1) extra -> moved st i TAccept st1) as Hstay.
  { intros st1 extra Hts Hf Hx. exists TAccept, extra. rewrite Hts, insert_app_l, list_insert_id by
      (done || by eapply lookup_lt_Some). split; [done|]. split; [|by constructor].
    eapply frame_weaken; [|exact Hf]. done. }
  destruct r as [conn|e].
  - destruct (ns_listening st); [|done]. destruct conn as [[[addr id]|]|].
    + intros [= <-]. eapply Hstay; [done| |by repeat constructor].
      destruct (frame_new_conn st (mkPeer addr "" 0 PeerSourcePeerSharing "" 0 0 0 false false) id). by split.
    + intros [= <-]. apply (Hstay _ []); [by rewrite app_nil_r|by apply frame_same|done].
    + apply finish_moved; [done|]. by apply frame_same.
  - destruct (cancelled st); apply finish_moved; try done; [apply frame_refl|by apply frame_same].
Qed.

Lemma loop_moved st i peer backoff pc a st' :
  loop_step st i peer backoff pc a = NNext st' -> moved st i (TLoop peer backoff pc) st'.
Proof.
  unfold loop_step, dialAndServe.
  destruct pc as [| |err|], a as [| | | | | | | | | |[id|e]| | |]; try done.
  - destruct (cancelled st); [by apply finish_moved; [|apply frame_refl]|].
    intros [= <-]. by apply moved_intro; [|apply frame_refl|].
  - intros [= <-]. by apply moved_intro; [|apply frame_new_conn|].
  - intros [= <-]. by apply moved_intro; [|apply frame_refl|].
  - intros [= <-]. by apply moved_intro; [|apply frame_same|].
  - destruct (cancelled st); [|done]. by apply finish_moved; [|apply frame_refl].
  - intros [= <-]. by apply moved_intro; [|apply frame_refl|].
Qed.

Lemma helper_moved st i c a st' :
  (forwardErrors st i c a = NNext st' -> moved st i (TForward c) st') /\
  (pull_step st i c a = NNext st' -> moved st i (TPull c) st').
Proof.
  split.
  - unfold forwardErrors. destruct (ns_conns st !! c) as [p|]; [|done].
    assert (forall st1, ns_threads st1 = ns_threads st -> frame still st st1 ->
      NNext (become (update_conn st1 c conn_Close) i TDone) = NNext st' -> moved st i (TForward c) st') as Hgo.
    { intros st1 Hts Hf [= <-]. apply moved_intro; [done| |done].
      eapply track_frame_trans; [exact Hf|apply frame_close]. }
    destruct a as [| | | | | | | |[e|]| | | | |]; try done.
    + destruct (cancelled st); [|done]. by apply Hgo, frame_refl.
    + destruct (cn_closed p); [|done]. by apply Hgo, frame_refl.
    + by apply Hgo, frame_sendError.
    + by apply Hgo, frame_refl.
  - unfold pull_step. destruct (ns_conns st !! c) as [p|] eqn:Hp; [|done].
    destruct a as [| | | | | | | | |err| | | |]; try done.
    destruct (startPull_keeps p) as [_ Hk]. destruct (startPull p) as [p' req]. simpl in Hk.
    assert (frame still st (update_conn st c (fun _ => p'))) as Hf.
    { apply frame_update. intros q Hq. rewrite Hp in Hq. by simplify_eq. }
    intros [= <-]. apply moved_intro; [by destruct req, err| |done].
    destruct req, err; try done. eapply track_frame_trans; [exact Hf|apply frame_sendError].
Qed.

Lemma frame_AddPeer st p : frame still st (call_AddPeer st p).
Proof.
  destruct (call_AddPeer_cases st p) as [->|(_ & q & -> & Hc & _ & _ & Hp)]; [by apply frame_same|].
  apply frame_same; [exact Hp| |done]. unfold closed. simpl. by rewrite Hc.
Qed.

Lemma AddPeer_extra st p :
  exists extra, ns_threads (call_AddPeer st p) = ns_threads st ++ extra /\
    Forall (fun t => forall st, track_ok st t) extra.
Proof.
  destruct (call_AddPeer_cases st p) as [->|(_ & q & -> & _)]; simpl.
  - exists []. by rewrite app_nil_r.
  - eexists. split; [done|]. by repeat constructor.
Qed.

Lemma start_moved st i pc a st' :
  ns_threads st !! i = Some (TStart pc) -> start_step st i pc a = NNext st' -> moved st i (TStart pc) st'.
Proof.
  intros Ht. unfold start_step.
  destruct pc as [| |l| | | |[|p ps]], a as [| | | | | | | | | | | |[l'|e]|[ps'|e]]; try done;
    try (intros [= <-]; by apply moved_intro; [|apply frame_refl || by apply frame_same|]).
  - destruct (ns_parent st); intros [= <-]; by apply moved_intro; [|apply frame_refl|].
  - intros [= <-]. exists (TStart SWatch), [TAccept]. split; [done|].
    split; [by apply frame_become, frame_weaken with still; [|apply frame_same]|by repeat constructor].
  - intros [= <-]. exists (TStart SPeers), [TWatch]. split; [done|].
    split; [by apply frame_become, frame_weaken with still; [|apply frame_same]|by repeat constructor].
  - intros [= <-]. destruct (AddPeer_extra st p) as (extra & Hts & Hx).
    exists (TStart (SAdd ps)), extra. simpl. rewrite Hts. split; [done|].
    split; [by apply frame_become, frame_weaken with still; [|apply frame_AddPeer]|].
    intros _. constructor; [done|]. eapply Forall_impl; [exact Hx|]. simpl. auto.
Qed.

(** Every tracked connection is one. *)
Lemma peers_conns st c : net_inv st -> c ∈ peers st -> is_Some (ns_conns st !! c).
Proof.
  intros Hi Hin. pose proof (ni_conns _ Hi c) as Hok. unfold peers in Hin.
  destruct (serving _ c) as [|ph [|? ?]], (ns_conns st !! c); simpl in Hok; try done; naive_solver.
Qed.

Lemma close_moved st i pc a st' :
  net_inv st -> close_step st i pc a = NNext st' -> moved st i (TClose pc) st'.
Proof.
  intros Hi. unfold close_step.
  destruct pc as [|l ps|l ps|[l|] ps|[|c ps] errs|errs|errs], a as [| | | | |k| | | | | | | |]; try done;
    try (intros [= <-]; by apply moved_intro; [|by apply frame_same|]).
  - destruct (sv_closed (ns_svc st)) eqn:Hc; intros [= <-]; [by apply moved_intro; [|apply frame_same|]|].
    apply moved_intro; [done|by apply frame_same|]. intros _ c Hin. left. by apply elem_of_elements.
  - intros [= <-]. apply moved_intro; [done|by apply frame_same|]. intros Hok c Hin.
    by destruct (Hok c Hin) as [[]%not_elem_of_nil|?].
  - destruct ((c :: ps) !! k) as [c'|] eqn:Hk; [|done]. intros [= <-].
    apply moved_intro; [done|apply frame_close|]. intros Hok c0 Hin.
    destruct (Hok c0 Hin) as [Hps|Hcl]; [|right; by apply (fr_conns _ _ _ (frame_close st c'))].
    destruct (lookup_delete_elem _ _ _ _ Hk Hps) as [->|?]; [|by left].
    destruct (peers_conns st c' Hi Hin) as [p Hp].
    right. exists (conn_Close p). split; [by apply lookup_update|done].
  - destruct (_ =? _); [|done]. intros [= <-]. by apply moved_intro; [|apply frame_same|].
Qed.

Lemma run_moved st i a t st' :
  net_inv st -> ns_threads st !! i = Some t -> run V st i a = NNext st' -> moved st i t st'.
Proof.
  intros Hi Ht. destruct t as [pc| |o c ph|peer backoff pc|c|c| |pc|].
  3: by apply serve_moved.
  all: unfold run; rewrite Ht; try done.
  - by apply start_moved.
  - destruct a; try done. by apply accept_moved.
  - apply loop_moved.
  - apply helper_moved.
  - apply helper_moved.
  - unfold closeOnDone. destruct a; try done. destruct (cancelled st); [|done].
    intros [= <-]. by apply moved_intro; [|apply frame_refl|].
  - by apply close_moved.
Qed.

Lemma moved_inv st i t st' :
  net_inv st -> track_inv st -> ns_threads st !! i = Some t -> moved st i t st' -> track_inv st'.
Proof.
  intros Hi Htr Ht (t' & extra & Hts & Hf & Hok). unfold track_inv.
  destruct (threads_at _ _ _ Ht) as (rest & Ho & Hn).
  pose proof (ni_threads _ Hi) as Hth. unfold track_inv in Htr.
  assert (ns_threads st' ≡ₚ (t' :: extra) ++ rest) as ->.
  { rewrite Hts, insert_app_l by (by eapply lookup_lt_Some). rewrite Hn. simpl.
    by rewrite (Permutation_app_comm rest). }
  rewrite Ho in Htr, Hth. apply Forall_cons in Htr as [Htt Htr]. apply Forall_cons in Hth as [_ Hth].
  apply Forall_app. split; [by apply Hok|]. apply Forall_forall. intros t1 Hin.
  rewrite Forall_forall in Htr, Hth. eapply track_ok_frame; [exact Hf|by apply Hth| |by apply Htr].
  intros c Hs1 Hs2. destruct t as [| |o c' ph| | | | | |]; try done. simpl in Hs2.
  destruct (decide (c' = c)) as [->|]; [|done].
  destruct (serve_alone st o c ph rest) as [Hnone _]; [apply Hi|done|].
  destruct (serves c t1) as [ph1|] eqn:Hp1; [|done].
  assert (ph1 ∈ serving rest c) as Hin1 by (apply list_elem_of_omap; by exists t1).
  rewrite Hnone in Hin1. by apply not_elem_of_nil in Hin1.
Qed.

(** A step of no goroutine. *)
Lemma bystep_inv st st' extra :
  net_inv st -> track_inv st -> frame still st st' -> ns_threads st' = ns_threads st ++ extra ->
  Forall (track_ok st') extra -> track_inv st'.
Proof.
  intros Hi Htr Hf Hts Hx. unfold track_inv. rewrite Hts. apply Forall_app. split; [|done].
  apply Forall_forall. intros t Hin. pose proof (ni_threads _ Hi) as Hth. unfold track_inv in Htr.
  rewrite Forall_forall in Htr, Hth.
  eapply still_ok; [exact Hf|by apply Hth|by apply Htr].
Qed.

Lemma net_step_track st act st' :
  net_inv st -> track_inv st -> net_step V st act = NNext st' -> track_inv st'.
Proof.
  intros Hi Htr. destruct act as [i a| |peer|err]; simpl.
  - intros Hr. destruct (ns_threads st !! i) as [t|] eqn:Ht; [|unfold run in Hr; by rewrite Ht in Hr].
    eapply moved_inv; [done|done|exact Ht|]. by eapply run_moved.
  - intros [= <-]. apply (bystep_inv st _ [TClose CLock]); auto; [by apply frame_same|by repeat constructor].
  - intros [= <-]. destruct (AddPeer_extra st peer) as (extra & Hts & Hx).
    apply (bystep_inv st _ extra); auto; [apply frame_AddPeer|].
    eapply Forall_impl; [exact Hx|]. simpl. auto.
  - destruct (ns_parent st); [done|]. intros [= <-].
    apply (bystep_inv st _ []); auto; [by apply frame_same|by rewrite app_nil_r].
Qed.

(** A service stays closed, and nothing enters its map any more. *)
Lemma net_step_frame st act st' :
  net_inv st -> net_step V st act = NNext st' -> exists P, frame P st st'.
Proof.
  intros Hi. destruct act as [i a| |peer|err]; simpl.
  - intros Hr. destruct (ns_threads st !! i) as [t|] eqn:Ht; [|unfold run in Hr; by rewrite Ht in Hr].
    destruct (run_moved st i a t st' Hi Ht Hr) as (_ & _ & _ & Hf & _). by eexists.
  - intros [= <-]. exists still. by apply frame_same.
  - intros [= <-]. exists still. apply frame_AddPeer.
  - destruct (ns_parent st); [done|]. intros [= <-]. exists still. by apply frame_same.
Qed.

Lemma net_step_closed st act st' :
  net_inv st -> net_step V st act = NNext st' -> closed st = true -> closed st' = true.
Proof. intros Hi Hst. destruct (net_step_frame st act st' Hi Hst) as [P Hf]. apply Hf. Qed.
End steps.

Lemma net_reachable_track V topic cfg st : net_reachable V topic cfg st -> track_inv st.
Proof.
  induction 1 as [|st act st' Hr IH Hst]; [by repeat constructor|].
  apply net_reachable_inv in Hr. by eapply net_step_track.
Qed.

(* ------------------------------------------------------------------ *)
(** ** The map and the goroutines *)

Lemma elem_of_tracked ts c :
  c ∈ tracked_by ts <-> exists o ph, TServe o c ph ∈ ts /\ tracked_phase ph = true.
Proof.
  unfold tracked_by. rewrite list_elem_of_omap. split.
  - intros ([| |o c' ph| | | | | |] & Hin & Ht); simpl in Ht; try done.
    destruct (tracked_phase ph) eqn:Hph; [|done]. simplify_eq. by exists o, ph.
  - intros (o & ph & Hin & Hph). exists (TServe o c ph). simpl. by rewrite Hph.
Qed.

Lemma tracked_NoDup ts :
  (forall c, (length (serving ts c) <= 1)%nat) -> NoDup (tracked_by ts).
Proof.
  unfold tracked_by. induction ts as [|t ts IH]; intros Hs; [constructor|]. simpl.
  assert (NoDup (omap tracks ts)) as Hnd.
  { apply IH. intros c. specialize (Hs c). rewrite serving_cons, length_app in Hs. lia. }
  destruct (tracks t) as [c|] eqn:Ht; [|done]. constructor; [|done].
  intros (o & ph & Hin & _)%elem_of_tracked.
  destruct t as [| |o' c' ph'| | | | | |]; simpl in Ht; try done.
  destruct (tracked_phase ph'); [|done]. simplify_eq. specialize (Hs c).
  rewrite serving_cons in Hs. simpl in Hs. rewrite decide_True in Hs by done. simpl in Hs.
  assert (ph ∈ serving ts c) as Hph.
  { apply list_elem_of_omap. exists (TServe o c ph). simpl. by rewrite decide_True. }
  destruct (serving ts c); [by apply not_elem_of_nil in Hph|simpl in Hs; lia].
Qed.

Lemma serving_one_at_most st c : net_inv st -> (length (serving (ns_threads st) c) <= 1)%nat.
Proof.
  intros Hi. pose proof (ni_conns _ Hi c) as Hok.
  destruct (serving _ c) as [|? [|? ?]]; simpl in *; lia || by destruct (ns_conns st !! c).
Qed.

(** What is in the map is being served. *)
Lemma peers_tracked st c : net_inv st -> c ∈ peers st -> c ∈ tracked_by (ns_threads st).
Proof.
  intros Hi Hin. pose proof (ni_conns _ Hi c) as Hok. unfold peers in Hin.
  destruct (serving (ns_threads st) c) as [|ph [|? ?]] eqn:Hs; simpl in Hok;
    [destruct (ns_conns st !! c); naive_solver| |by destruct (ns_conns st !! c)].
  destruct (ns_conns st !! c) as [p|]; [|done].
  assert (ph ∈ serving (ns_threads st) c) as Hph by (rewrite Hs; left).
  apply list_elem_of_omap in Hph as (t & Ht & Hsv).
  destruct t as [| |o c' ph'| | | | | |]; simpl in Hsv; try done.
  destruct (decide (c' = c)) as [->|]; [|done]. simplify_eq.
  apply elem_of_tracked. exists o, ph. split; [done|]. destruct ph; simpl in Hok; naive_solver.
Qed.

(** A Close that has been through its copy of the map. *)
Definition visited (pc : close_pc) : bool :=
  match pc with CPeers [] _ | CWait _ | CJoin _ => true | _ => false end.

(** C18: The map of a service's connections is right. While the service is open
    it holds exactly the connections whose goroutines are between addConnection
    and removeConnection, each once, and PeerCount is their number. Once it is
    closed nothing enters the map: it still holds only connections that are
    being served, and a connection that is served and not in it (its goroutine
    came too late) is closed; and when a Close has been through the copy it
    took, every connection in service is closed, so that what Close then waits
    for are connections that have ended. *)
Theorem network_tracks_connections V topic cfg st :
  net_reachable V topic cfg st ->
  (closed st = false ->
   elements (peers st) ≡ₚ tracked_by (ns_threads st) /\
   PeerCount (ns_svc st) = Z.of_nat (length (tracked_by (ns_threads st)))) /\
  (closed st = true ->
   (forall c, c ∈ peers st -> c ∈ tracked_by (ns_threads st)) /\
   (forall c, c ∈ tracked_by (ns_threads st) -> c ∈ peers st \/ conn_closed st c) /\
   (forall act st', net_step V st act = NNext st' -> peers st' ⊆ peers st)) /\
  (forall i pc c, ns_threads st !! i = Some (TClose pc) -> visited pc = true ->
   c ∈ tracked_by (ns_threads st) -> conn_closed st c).
Proof.
  intros Hr. pose proof (net_reachable_track _ _ _ _ Hr) as Htr.
  pose proof (net_reachable_inv _ _ _ _ Hr) as Hi.
  assert (forall c, c ∈ tracked_by (ns_threads st) -> c ∈ peers st \/ closed st = true /\ conn_closed st c)
    as Hin.
  { intros c (o & ph & Hin & Hph)%elem_of_tracked. unfold track_inv in Htr. rewrite Forall_forall in Htr.
    by apply (Htr _ Hin). }
  split_and!.
  - intros Hc. assert (elements (peers st) ≡ₚ tracked_by (ns_threads st)) as Hp.
    { apply NoDup_Permutation; [apply NoDup_elements| |].
      - apply tracked_NoDup. intros c. by apply serving_one_at_most.
      - intros c. rewrite elem_of_elements. split; [by apply peers_tracked|].
        intros [?|[? _]]%Hin; congruence. }
    split; [done|]. unfold PeerCount, size, set_size. by rewrite <- Hp.
  - intros Hc. split_and!; [by intros c; apply peers_tracked|naive_solver|].
    intros act st' Hst c. destruct (net_step_frame V st act st' Hi Hst) as [P Hf]. by apply (fr_new _ _ _ Hf).
  - intros i pc c Ht Hv Hc. pose proof (Forall_lookup_1 _ _ _ _ Htr Ht) as Hok.
    pose proof (Forall_lookup_1 _ _ _ _ (ni_threads _ Hi) Ht) as Hth.
    destruct (Hin c Hc) as [Hpe|[_ ?]]; [|done].
    destruct pc as [| | | |[|]| |]; simpl in *; try done; [|by apply Hok..].
    by destruct (Hok c Hpe) as [[]%not_elem_of_nil|?].
Qed.

Lemma network_tracks_connections_witness :
  PeerCount (ns_svc served) = 1 /\ tracked_by (ns_threads served) = [0%nat] /\
  conn_closed waiting 0.
Proof.
  destruct (network_tracks_connections 1 "t" listen_cfg served (reached_reachable _ _ _ _)) as (Ho & _).
  destruct (network_tracks_connections 1 "t" listen_cfg waiting (reached_reachable _ _ _ _)) as (_ & _ & Hv).
  destruct Ho as [_ Ho]; [vm_compute; reflexivity|]. split_and!.
  - rewrite Ho. vm_compute. reflexivity.
  - vm_compute. reflexivity.
  - apply (Hv 6%nat (CWait [None]) 0%nat); [vm_compute; reflexivity|reflexivity|].
    vm_compute. left.
Defined.
