(* ===== verification/ManagerSteps.v ===== *)
(** * The manager and its services at work (manager.go, network.go)

    The calls of a manager interleaved with the goroutines of its services.
    StartNodeToNode looks up its topic, registers a service and starts it;
    Shutdown marks the manager, takes copies of the registered services and
    topics, and leaves the closing to a goroutine of its own, for which it
    waits unless its context ends; submissions and subscriptions look up a
    topic and use it later. A service is the goroutines of Network.v, whose
    questions to the manager (TopicPeers, messageSubmissionConfig) the manager
    answers here, and which unregister it when it closes. *)

From stdpp Require Import relations.
From S2P Require Import Prelude Errors Types Clone Concrete Payload Peers Ledger Config Topic TopicFacts Examples Service Manager Flow Network NetworkFacts NetworkTheorems NetworkPeers.
#[local] Open Scope Z_scope.

(* ------------------------------------------------------------------ *)
(** ** The manager's calls *)

Section system.
Context {X : Type} `{Wire X}.
Context (V : Z).

(** Where a call stands. *)
Inductive call : Type :=
(* RegisterTopic *)
| KRegister (name : string) (cfg : TopicConfig X)
(* StartNodeToNode: before m.topic, before registerService, and its start,
   which is goroutine 0 of the service *)
| KStart (name : string) (cfg : NodeToNodeConfig)
| KRegisterService (name : string) (cfg : NodeToNodeConfig)
| KStarting (id : nat)
(* SubmitSigned and SubmitRemote: before m.topic, and with the topic *)
| KSubmit (name : string) (msg : option (DmqMessage X)) (source : MessageSource)
    (peer : option Peer)
| KSubmitTo (name : string) (msg : option (DmqMessage X)) (source : MessageSource)
    (peer : option Peer)
(* Subscribe *)
| KSubscribe (name : string)
| KSubscribeTo (name : string)
(* Shutdown: before the lock, and waiting for its goroutine *)
| KShutdown
| KWaiting (worker : nat)
(* the goroutine of Shutdown: the service being closed, by which of its
   goroutines, the services and topics left, and the errors so far *)
| KClosing (current : option (nat * nat)) (services : list nat) (topics : list string)
    (errs : list error)
| KClosed (err : option error)
| KReturned (err : option error).

Record system := mkSystem {
  sm_manager : Manager X;
  sm_services : list nstate;
  sm_calls : list call
}.

Inductive sys_outcome : Type :=
| SBlocked
| SPanic
| SNext (s : system).

Definition set_call (s : system) (k : nat) (c : call) : system :=
  mkSystem (sm_manager s) (sm_services s) (<[k := c]> (sm_calls s)).
Definition set_manager (s : system) (m : Manager X) : system :=
  mkSystem m (sm_services s) (sm_calls s).
Definition set_service (s : system) (id : nat) (st : nstate) : system :=
  mkSystem (sm_manager s) (<[id := st]> (sm_services s)) (sm_calls s).

(** StartNodeToNode up to the service: the guards on the topic. *)
Definition start_guards (rt : topicRuntime X) : option error :=
  let a := cf_Authentication (rt_cfg rt) in
  if cf_NetworkMagic (rt_cfg rt) =? 0 then Some (ErrVar ErrNetworkMagicRequired)
  else if negb (ac_Required a) && negb (ac_AllowUnauthenticated a)
  then Some (ErrVar ErrAuthenticationRequired)
  else None.

(** The critical section of Shutdown: the caller becomes [k], its goroutine
    the last call. *)
Definition shutdown_lock (s : system) (k : nat) : system :=
  let m := sm_manager s in
  if mg_closed m then set_call s k (KReturned None)
  else
    let worker := KClosing None (elements (mg_services m)) (map fst (map_to_list (mg_topics m))) [] in
    mkSystem (mkManager (mg_signer m) (mg_auth m) true (mg_topics m) (mg_services m) true)
      (sm_services s)
      (<[k := KWaiting (length (sm_calls s))]> (sm_calls s) ++ [worker]).

(** What the Close of goroutine [j] of a service returned. *)
Definition close_result (st : nstate) (j : nat) : option error :=
  r ← list_find (fun r => r.1 = j) (ns_returned st);
  r.2.2.

(** One step of the goroutine of Shutdown; a map is ranged over in any order,
    [pick] is the next. *)
Definition closing_step (s : system) (k : nat) (current : option (nat * nat))
  (services : list nat) (topics : list string) (errs : list error) (pick : nat) : sys_outcome :=
  match current with
  | Some (id, j) =>
      match sm_services s !! id with
      | Some st =>
          match ns_threads st !! j with
          | Some TDone =>
              SNext (set_call s k
                (KClosing None services topics (errs ++ option_list (close_result st j))))
          | _ => SBlocked
          end
      | None => SBlocked
      end
  | None =>
      match services !! pick with
      | Some id =>
          match sm_services s !! id with
          | Some st =>
              SNext (set_call (set_service s id (spawn st [TClose CLock])) k
                       (KClosing (Some (id, length (ns_threads st))) (delete pick services) topics errs))
          | None => SBlocked
          end
      | None =>
          match services, topics !! pick with
          | [], Some name =>
              match mg_topics (sm_manager s) !! name with
              | Some rt =>
                  match close rt with
                  | Some rt =>
                      SNext (set_call (set_manager s (put (sm_manager s) name rt)) k
                               (KClosing None [] (delete pick topics) errs))
                  | None => SPanic
                  end
              | None => SBlocked
              end
          | [], None =>
              if bool_decide (topics = [])
              then SNext (set_call s k (KClosed (errors_Join (map Some errs)))) else SBlocked
          | _, _ => SBlocked
          end
      end
  end.

(** One step of call [k]. *)
Definition call_step (s : system) (k : nat) (pick : nat) (now1 now2 : Time) : sys_outcome :=
  let m := sm_manager s in
  let return_ s err := SNext (set_call s k (KReturned err)) in
  match sm_calls s !! k with
  | Some (KRegister name cfg) =>
      let '(m, err) := RegisterTopic m name cfg in return_ (set_manager s m) err
  | Some (KStart name cfg) =>
      match topic m name with
      | Err e => return_ s (Some e)
      | Ok rt =>
          match start_guards rt with
          | Some e => return_ s (Some e)
          | None => SNext (set_call s k (KRegisterService name cfg))
          end
      end
  | Some (KRegisterService name cfg) =>
      let id := length (sm_services s) in
      match registerService m id with
      | (m, Some e) => return_ (set_manager s m) (Some e)
      | (m, None) =>
          SNext (set_call (mkSystem m (sm_services s ++ [net_init name cfg]) (sm_calls s)) k
                   (KStarting id))
      end
  | Some (KSubmit name msg source peer) =>
      match topic m name with
      | Err e => return_ s (Some e)
      | Ok _ => SNext (set_call s k (KSubmitTo name msg source peer))
      end
  | Some (KSubmitTo name msg source peer) =>
      match mg_topics m !! name with
      | None => SBlocked
      | Some rt =>
          match submitSigned rt now1 now2 msg source peer with
          | None => SPanic
          | Some (rt, _, err, _) => return_ (set_manager s (put m name rt)) err
          end
      end
  | Some (KSubscribe name) =>
      match topic m name with
      | Err e => return_ s (Some e)
      | Ok _ => SNext (set_call s k (KSubscribeTo name))
      end
  | Some (KSubscribeTo name) =>
      match mg_topics m !! name with
      | None => SBlocked
      | Some rt =>
          match subscribe rt with
          | None => SPanic
          | Some (rt, _) => return_ (set_manager s (put m name rt)) None
          end
      end
  | Some KShutdown => SNext (shutdown_lock s k)
  | Some (KWaiting w) =>
      match sm_calls s !! w with
      | Some (KClosed err) => return_ s err
      | _ => SBlocked
      end
  | Some (KClosing current services topics errs) =>
      closing_step s k current services topics errs pick
  | Some (KStarting _) | Some (KClosed _) | Some (KReturned _) | None => SBlocked
  end.

(** What the manager answers a goroutine of a service. *)
Definition manager_answer (m : Manager X) (st : nstate) (i : nat) (a : answer)
  : Manager X * answer :=
  match ns_threads st !! i, a with
  | Some (TStart SPeers), AnsPeers _ =>
      let '(m, r, _) := TopicPeers m (sv_topic (ns_svc st)) in (m, AnsPeers r)
  | Some (TServe _ c (HSubmission _)), AnsSubmission _ init =>
      match ns_conns st !! c with
      | Some p => (m, AnsSubmission (submission_config m (ns_svc st) p) init)
      | None => (m, a)
      end
  | _, _ => (m, a)
  end.

(** StartNodeToNode has returned; only then can its caller use the service. *)
Definition usable (st : nstate) (act : net_action) : bool :=
  match act with
  | NCallClose | NCallAddPeer _ =>
      match ns_threads st !! 0%nat with Some TDone => true | _ => false end
  | _ => true
  end.

(** A step of service [id]. *)
Definition service_act (s : system) (id : nat) (act : net_action) : sys_outcome :=
  match sm_services s !! id with
  | None => SBlocked
  | Some st =>
      let '(m, act) :=
        match act with
        | NRun i a => let '(m, a) := manager_answer (sm_manager s) st i a in (m, NRun i a)
        | _ => (sm_manager s, act)
        end in
      if usable st act then
        match net_step V st act with
        | NBlocked => SBlocked
        | NPanic => SPanic
        | NNext st' =>
            SNext (set_service (set_manager s (if ns_registered st' then m else unregisterService m id))
                     id st')
        end
      else SBlocked
  end.

(** The calls a client can make. *)
Definition callable (c : call) : bool :=
  match c with
  | KRegister _ _ | KStart _ _ | KSubmit _ _ _ _ | KSubscribe _ | KShutdown => true
  | _ => false
  end.

Inductive sys_action : Type :=
| ACall (c : call)
| ARun (k : nat) (pick : nat) (now1 now2 : Time)
(* the context of a Shutdown ends *)
| ACtx (k : nat) (err : error)
| AService (id : nat) (act : net_action).

Definition sys_step (s : system) (act : sys_action) : sys_outcome :=
  match act with
  | ACall c =>
      if callable c then SNext (mkSystem (sm_manager s) (sm_services s) (sm_calls s ++ [c]))
      else SBlocked
  | ARun k pick now1 now2 => call_step s k pick now1 now2
  | ACtx k err =>
      match sm_calls s !! k with
      | Some (KWaiting _) => SNext (set_call s k (KReturned (Some err)))
      | _ => SBlocked
      end
  | AService id act => service_act s id act
  end.

Inductive sys_reachable (cfg : ManagerConfig X) : system -> Prop :=
| sr_init : sys_reachable cfg (mkSystem (NewManager cfg) [] [])
| sr_step s act s' :
    sys_reachable cfg s -> sys_step s act = SNext s' -> sys_reachable cfg s'.

Fixpoint sys_run (s : system) (acts : list sys_action) : sys_outcome :=
  match acts with
  | [] => SNext s
  | act :: acts' =>
      match sys_step s act with SNext s' => sys_run s' acts' | r => r end
  end.

End system.
Arguments call : clear implicits.
Arguments system : clear implicits.
Arguments sys_outcome : clear implicits.
Arguments sys_action : clear implicits.

(* ------------------------------------------------------------------ *)
(** ** What a step of a service does to its registration *)

(** A Close that has unregistered the service. *)
Definition past (t : thread) : bool :=
  match t with TClose (CListener _ _ | CPeers _ _ | CWait _ | CJoin _) => true | _ => false end.

(** An unregistered service is closed, a Close that is past unregistering has
    done it, and so has one that is past its wait. *)
Record reg_inv (st : nstate) : Prop := {
  ri_closed : ns_registered st = false -> closed st = true;
  ri_past : forall j t, ns_threads st !! j = Some t -> past t = true -> ns_registered st = false;
  ri_drained : ns_drained st = true -> ns_registered st = false
}.

(** A Close, before or after its return. *)
Definition closer (t : thread) : bool := match t with TClose _ | TDone => true | _ => false end.

(** A Close that has had the lock. *)
Definition at_work (t : thread) : bool :=
  match t with TClose CLock => false | TClose _ => true | _ => false end.

Lemma past_at_work t : past t = true -> at_work t = true.
Proof. by destruct t as [| | | | | | |[]|]. Qed.

(** What a step other than one of a Close leaves alone. *)
Record bystander (st st' : nstate) : Prop := {
  by_registered : ns_registered st' = ns_registered st;
  by_drained : ns_drained st' = ns_drained st;
  by_old : forall j t, closer t = true -> ns_threads st !! j = Some t -> ns_threads st' !! j = Some t;
  by_new : forall j t, ns_threads st' !! j = Some t -> at_work t = true -> ns_threads st !! j = Some t
}.

Lemma bystander_refl st : bystander st st.
Proof. by split. Qed.

(** Threads added at the end. *)
Lemma spawn_bystander st st' extra :
  ns_registered st' = ns_registered st -> ns_drained st' = ns_drained st ->
  ns_threads st' = ns_threads st ++ extra -> Forall (fun t => at_work t = false) extra ->
  bystander st st'.
Proof.
  intros Hr Hd Ht He. split; [done|done|..]; rewrite Ht.
  - intros j t _ Hj. by apply lookup_app_l_Some.
  - intros j t Hj Hp. apply lookup_app_Some in Hj as [Hj|[_ Hj]]; [done|].
    apply (list_elem_of_lookup_2 extra) in Hj. rewrite Forall_forall in He. by rewrite He in Hp.
Qed.

(** One goroutine goes on, others are added. *)
Lemma become_bystander st st1 i t t' extra :
  ns_registered st1 = ns_registered st -> ns_drained st1 = ns_drained st ->
  ns_threads st1 = ns_threads st ++ extra -> Forall (fun t => at_work t = false) extra ->
  ns_threads st !! i = Some t -> closer t = false -> at_work t' = false ->
  bystander st (become st1 i t').
Proof.
  intros Hr Hd Ht He Hi Hn Hp. pose proof (spawn_bystander st st1 extra Hr Hd Ht He) as [_ _ Ho Hw].
  split; [done|done|..]; simpl.
  - intros j u Hu Hj. destruct (decide (i = j)) as [->|Hij]; [congruence|].
    rewrite list_lookup_insert_ne by done. by apply Ho.
  - intros j u Hj Hu. destruct (decide (i = j)) as [->|Hij].
    + rewrite list_lookup_insert_eq in Hj; [injection Hj as <-; congruence|].
      rewrite Ht, length_app. apply lookup_lt_Some in Hi. lia.
    + rewrite list_lookup_insert_ne in Hj by done. by apply Hw.
Qed.

Lemma become_bystander_nil st st1 i t t' :
  ns_registered st1 = ns_registered st -> ns_drained st1 = ns_drained st ->
  ns_threads st1 = ns_threads st -> ns_threads st !! i = Some t -> closer t = false ->
  at_work t' = false -> bystander st (become st1 i t').
Proof.
  intros Hr Hd Ht. apply (become_bystander st st1 i t t' []); try done. by rewrite app_nil_r.
Qed.

Lemma finish_bystander st st1 i t st' :
  ns_registered st1 = ns_registered st -> ns_drained st1 = ns_drained st ->
  ns_threads st1 = ns_threads st -> ns_threads st !! i = Some t -> closer t = false ->
  finish st1 i = NNext st' -> bystander st st'.
Proof.
  intros Hr Hd Ht Hi Hn. unfold finish. destruct (_ <=? _); [done|]. intros [= <-].
  by apply (become_bystander_nil st _ i t).
Qed.

Section steps.
Context (V : Z).

Lemma handle_fields st c ph a st1 h :
  handleConnection V st c ph a = Some (st1, h) ->
  ns_registered st1 = ns_registered st /\ ns_drained st1 = ns_drained st /\
  exists extra, ns_threads st1 = ns_threads st ++ extra /\ Forall (fun t => at_work t = false) extra.
Proof.
  assert (Hnil : forall l : list thread, exists extra, l = l ++ extra /\
    Forall (fun t => at_work t = false) extra).
  { intros l. exists []. by rewrite app_nil_r. }
  unfold handleConnection, newNodeToNodePeerConnection, conn_Wait, refuse.
  destruct (ns_conns st !! c) as [p|]; [|done]. cbn [mbind option_bind].
  intros H. destruct ph as [|version| | | | |], a as [| | | | | |d ev r|cfg init| | | | | |]; try done.
  - destruct (match d with Some _ => true | None => _ end); [|done].
    destruct (handshake d ev r (ctx_error st)) as [version [e|]]; simplify_eq; by auto.
  - destruct (startMessageSubmission _ _ _ _ _) as [p' [e|]]; simplify_eq; simpl; [by auto|].
    split_and!; try done. exists [TForward c; TPull c]. by repeat constructor.
  - simplify_eq. destruct (sv_closed (ns_svc st)); simpl; by auto.
  - simplify_eq. simpl. by auto.
  - destruct (cancelled st); simplify_eq. simpl. by auto.
  - destruct (cn_closed p); simplify_eq. by auto.
  - destruct (cn_errorCh p); simplify_eq. simpl. by auto.
  - simplify_eq. simpl. by auto.
  - simplify_eq. simpl. by auto.
Qed.

Lemma serve_bystander st i o c ph a st' :
  ns_threads st !! i = Some (TServe o c ph) -> run V st i a = NNext st' -> bystander st st'.
Proof.
  intros Ht. unfold run. rewrite Ht.
  destruct (handleConnection V st c ph a) as [[st1 h]|] eqn:Hh; [|done].
  apply handle_fields in Hh as (Hr & Hd & extra & He & Hp).
  destruct h as [ph'|err].
  { intros [= <-]. by eapply (become_bystander st st1). }
  destruct o; [|intros [= <-]; by eapply (become_bystander st st1)].
  destruct (ns_conns st1 !! c); [|done]. unfold finish. destruct (_ <=? _); [done|].
  intros [= <-]. by eapply (become_bystander st).
Qed.

Lemma accept_bystander st i r st' :
  ns_threads st !! i = Some TAccept -> acceptLoop st i r = NNext st' -> bystander st st'.
Proof.
  intros Ht. unfold acceptLoop, accept_failed. destruct r as [conn|e].
  - destruct (ns_listening st); [|done]. destruct conn as [[[addr id]|]|].
    + intros [= <-]. by eapply spawn_bystander; [..|repeat constructor].
    + intros [= <-]. eapply (spawn_bystander _ _ []); try done. simpl. by rewrite app_nil_r.
    + intros Hf. by eapply (finish_bystander st _ i TAccept); [..|exact Hf].
  - destruct (cancelled st); intros Hf; by eapply (finish_bystander st _ i TAccept); [..|exact Hf].
Qed.

Lemma loop_bystander st i peer backoff pc a st' :
  ns_threads st !! i = Some (TLoop peer backoff pc) -> loop_step st i peer backoff pc a = NNext st' ->
  bystander st st'.
Proof.
  intros Ht. unfold loop_step, dialAndServe.
  destruct pc as [| |err|], a as [| | | | | | | | | |[id|e]| | |]; try done.
  all: try (intros [= <-]; by eapply (become_bystander_nil st)).
  - destruct (cancelled st); [|intros [= <-]; by eapply (become_bystander_nil st)].
    intros Hf. by eapply (finish_bystander st st).
  - destruct (cancelled st); [|done]. intros Hf. by eapply (finish_bystander st st).
Qed.

Lemma helper_bystander st i c a st' :
  (ns_threads st !! i = Some (TForward c) -> forwardErrors st i c a = NNext st' -> bystander st st') /\
  (ns_threads st !! i = Some (TPull c) -> pull_step st i c a = NNext st' -> bystander st st').
Proof.
  split; intros Ht.
  - unfold forwardErrors. destruct (ns_conns st !! c) as [p|]; [|done].
    destruct a as [| | | | | | | |[e|]| | | | |]; try done;
      try (intros [= <-]; by eapply (become_bystander_nil st)).
    + destruct (cancelled st); [|done]. intros [= <-]. by eapply (become_bystander_nil st).
    + destruct (cn_closed p); [|done]. intros [= <-]. by eapply (become_bystander_nil st).
  - unfold pull_step. destruct (ns_conns st !! c) as [p|]; [|done].
    destruct a as [| | | | | | | | |err| | | |]; try done. destruct (startPull p) as [p' req].
    destruct req, err; intros [= <-]; by eapply (become_bystander_nil st).
Qed.

Lemma call_AddPeer_fields st p :
  ns_registered (call_AddPeer st p) = ns_registered st /\
  ns_drained (call_AddPeer st p) = ns_drained st /\
  exists extra, ns_threads (call_AddPeer st p) = ns_threads st ++ extra /\
    Forall (fun t => at_work t = false) extra.
Proof.
  unfold call_AddPeer. destruct (drop _ _) as [|q l]; simpl.
  - split_and!; try done. exists []. by rewrite app_nil_r.
  - split_and!; try done. eexists. by split; [|repeat constructor].
Qed.

Lemma start_bystander st i pc a st' :
  ns_threads st !! i = Some (TStart pc) -> start_step st i pc a = NNext st' -> bystander st st'.
Proof.
  intros Ht. unfold start_step.
  destruct pc as [| |l| | | |[|p ps]], a as [| | | | | | | | | | | |[l'|e]|[peers|e]]; try done;
    try (intros [= <-]; by eapply (become_bystander_nil st)).
  - destruct (ns_parent st); intros [= <-]; by eapply (become_bystander_nil st).
  - intros [= <-]. by eapply (become_bystander st _ i _ _ [TAccept]); [..|repeat constructor| | |].
  - intros [= <-]. by eapply (become_bystander st _ i _ _ [TWatch]); [..|repeat constructor| | |].
  - destruct (call_AddPeer_fields st p) as (Hr & Hd & extra & He & Hp). intros [= <-].
    by eapply (become_bystander st (call_AddPeer st p)).
Qed.

Lemma bystander_reg st st' :
  bystander st st' -> (closed st = true -> closed st' = true) -> reg_inv st -> reg_inv st'.
Proof.
  intros [Hr Hd _ Hn] Hc [H1 H2 H3]. split; rewrite ?Hr, ?Hd; auto.
  intros j t Hj Hp. eapply H2; [|exact Hp]. apply Hn; [done|by apply past_at_work].
Qed.

Lemma close_move st st1 i pc t' :
  reg_inv st -> ns_threads st !! i = Some (TClose pc) -> ns_threads st1 = ns_threads st ->
  (ns_registered st1 = true -> ns_registered st = true) ->
  (ns_registered st1 = false -> closed st1 = true) ->
  (past t' = true -> ns_registered st1 = false) ->
  (ns_drained st1 = true -> ns_registered st1 = false) ->
  reg_inv (become st1 i t').
Proof.
  intros [_ H2 _] Hi Ht Hr Hc Hp Hd. split; [done| |done]. simpl. rewrite Ht.
  intros j t Hj Hpt. destruct (decide (i = j)) as [->|Hij].
  - rewrite list_lookup_insert_eq in Hj by (by eapply lookup_lt_Some).
    injection Hj as <-. by apply Hp.
  - rewrite list_lookup_insert_ne in Hj by done. destruct (ns_registered st1) eqn:E; [|done].
    rewrite <-(H2 j t Hj Hpt). symmetry. by apply Hr.
Qed.

Lemma close_reg st i pc a st' :
  net_inv st -> reg_inv st -> ns_threads st !! i = Some (TClose pc) ->
  close_step st i pc a = NNext st' -> reg_inv st'.
Proof.
  intros Hi Hr Ht. pose proof Hr as [H1 H2 H3].
  pose proof (proj1 (Forall_lookup _ _) (ni_threads _ Hi) _ _ Ht) as Hok.
  specialize (H2 i _ Ht). unfold close_step.
  destruct pc as [|l ps|l ps|l ps|ps errs|errs|errs]; simpl in Hok, H2.
  - destruct a; try done. destruct (sv_closed (ns_svc st)) eqn:Hc; intros [= <-].
    + by apply (close_move st _ i CLock).
    + by apply (close_move st _ i CLock).
  - destruct a; try done. intros [= <-]. by apply (close_move st _ i (CCancel l ps)).
  - destruct a; try done. intros [= <-]. apply (close_move st _ i (CUnregister l ps)); try done.
    intros _. apply Hok.
  - destruct a; try done. destruct l as [l|]; intros [= <-].
    + by apply (close_move st _ i (CListener (Some l) ps)); auto.
    + by apply (close_move st _ i (CListener None ps)); auto.
  - destruct ps as [|c ps], a; try done.
    + intros [= <-]. by apply (close_move st _ i (CPeers [] errs)); auto.
    + destruct ((c :: ps) !! k); [|done]. intros [= <-].
      by apply (close_move st _ i (CPeers (c :: ps) errs)); auto.
  - destruct a; try done. destruct (_ =? _); [|done]. intros [= <-].
    by apply (close_move st _ i (CWait errs)); auto.
  - destruct a; try done. intros [= <-]. by apply (close_move st _ i (CJoin errs)); auto.
Qed.

(** A Close goes on as one. *)
Lemma close_stays st i pc a st' :
  ns_threads st !! i = Some (TClose pc) -> close_step st i pc a = NNext st' ->
  exists st1 t', st' = become st1 i t' /\ ns_threads st1 = ns_threads st /\ closer t' = true.
Proof.
  intros _. unfold close_step.
  destruct pc as [|l ps|l ps|[l|] ps|[|c ps] errs|errs|errs], a as [| | | | |k| | | | | | | |];
    try done; try (intros [= <-]; by do 2 eexists).
  - destruct (sv_closed _); intros [= <-]; by do 2 eexists.
  - destruct ((c :: ps) !! k); [|done]. intros [= <-]. by do 2 eexists.
  - destruct (_ =? _); [|done]. intros [= <-]. by do 2 eexists.
Qed.

(** A Close that waits for the lock still does, or the service is closed. *)
Lemma close_lock st i pc a st' j :
  ns_threads st !! i = Some (TClose pc) -> close_step st i pc a = NNext st' ->
  ns_threads st !! j = Some (TClose CLock) ->
  ns_threads st' !! j = Some (TClose CLock) \/ closed st' = true.
Proof.
  intros Ht Hs Hj. destruct (decide (i = j)) as [<-|Hij].
  - rewrite Ht in Hj. injection Hj as ->. right. unfold close_step in Hs. destruct a; try done.
    destruct (sv_closed (ns_svc st)) eqn:Hc; by injection Hs as <-.
  - left. destruct (close_stays _ _ _ _ _ Ht Hs) as (st1 & t' & -> & Heq & _).
    simpl. by rewrite list_lookup_insert_ne, Heq.
Qed.

(** A step is one of a Close, or of a bystander. *)
Lemma net_step_cases st act st' :
  net_step V st act = NNext st' ->
  bystander st st' \/
  exists i pc a, ns_threads st !! i = Some (TClose pc) /\ close_step st i pc a = NNext st'.
Proof.
  destruct act as [i a| |peer|err]; simpl.
  - destruct (ns_threads st !! i) as [[pc| |o c ph|peer backoff pc|c|c| |pc|]|] eqn:Ht.
    3: { intros Hr. left. by eapply serve_bystander. }
    all: unfold run; rewrite Ht; try done.
    + left. by eapply start_bystander.
    + destruct a; try done. left. by eapply accept_bystander.
    + left. by eapply loop_bystander.
    + left. by apply (proj1 (helper_bystander st i c a st')).
    + left. by apply (proj2 (helper_bystander st i c a st')).
    + unfold closeOnDone. destruct a; try done. destruct (cancelled st); [|done].
      intros [= <-]. left. by eapply (become_bystander_nil st).
    + right. by eauto.
  - intros [= <-]. left. by eapply spawn_bystander; [..|repeat constructor].
  - intros [= <-]. left. destruct (call_AddPeer_fields st peer) as (? & ? & extra & ? & ?).
    by eapply spawn_bystander.
  - destruct (ns_parent st); [done|]. intros [= <-]. left.
    eapply (spawn_bystander _ _ []); try done. simpl. by rewrite app_nil_r.
Qed.

Lemma net_step_reg st act st' :
  net_inv st -> reg_inv st -> net_step V st act = NNext st' -> reg_inv st'.
Proof.
  intros Hi Hr Hs. destruct (net_step_cases _ _ _ Hs) as [Hb|(i & pc & a & Ht & Hc)].
  - eapply bystander_reg; [done| |done]. by eapply net_step_closed.
  - by eapply close_reg.
Qed.

Lemma net_step_registered st act st' :
  net_step V st act = NNext st' -> ns_registered st' = true -> ns_registered st = true.
Proof.
  intros Hs. destruct (net_step_cases _ _ _ Hs) as [Hb|(i & pc & a & Ht & Hc)].
  - by rewrite (by_registered _ _ Hb).
  - revert Hc. unfold close_step.
    destruct pc as [|l ps|l ps|[l|] ps|[|c ps] errs|errs|errs], a as [| | | | |k| | | | | | | |];
      try done; try (by intros [= <-]).
    + destruct (sv_closed _); by intros [= <-].
    + destruct ((c :: ps) !! k); [|done]. by intros [= <-].
    + destruct (_ =? _); [|done]. by intros [= <-].
Qed.

Lemma net_step_lock st act st' j :
  net_step V st act = NNext st' -> ns_threads st !! j = Some (TClose CLock) ->
  ns_threads st' !! j = Some (TClose CLock) \/ closed st' = true.
Proof.
  intros Hs Hj. destruct (net_step_cases _ _ _ Hs) as [Hb|(i & pc & a & Ht & Hc)].
  - left. by apply (by_old _ _ Hb).
  - by eapply close_lock.
Qed.

Lemma net_step_closer st act st' j t :
  net_step V st act = NNext st' -> ns_threads st !! j = Some t -> closer t = true ->
  exists t', ns_threads st' !! j = Some t' /\ closer t' = true.
Proof.
  intros Hs Hj Hc. destruct (net_step_cases _ _ _ Hs) as [Hb|(i & pc & a & Ht & Hcl)].
  - exists t. split; [|done]. by apply (by_old _ _ Hb).
  - destruct (close_stays _ _ _ _ _ Ht Hcl) as (st1 & t' & -> & Heq & Hc'). simpl.
    destruct (decide (i = j)) as [->|Hij].
    + exists t'. split; [|done]. rewrite list_lookup_insert_eq; [done|]. rewrite Heq.
      by eapply lookup_lt_Some.
    + exists t. by rewrite list_lookup_insert_ne, Heq.
Qed.

(** A service some StartNodeToNode made. *)
Definition alive_ok (st : nstate) : Prop := net_inv st /\ reg_inv st.

Lemma net_init_ok name cfg : alive_ok (net_init name cfg).
Proof.
  split; [apply net_init_inv|]. split; try done. simpl. intros [|j] t; simpl; [by intros [= <-]|done].
Qed.

Lemma net_step_alive st act st' : alive_ok st -> net_step V st act = NNext st' -> alive_ok st'.
Proof.
  intros [Hi Hr] Hs. split; [|by eapply net_step_reg].
  pose proof (net_step_ok V st act Hi) as Hok. by rewrite Hs in Hok.
Qed.

End steps.

(* ------------------------------------------------------------------ *)
(** ** The invariant of the system *)

Section invariant.
Context {X : Type} `{WireLaws X}.
Context (V : Z).
Implicit Types s : system X.

Record base_inv s : Prop := {
  bi_topics : Manager.topics_ok (sm_manager s);
  bi_cancel : mg_closed (sm_manager s) = mg_cancelled (sm_manager s);
  bi_alive : forall id st, sm_services s !! id = Some st -> alive_ok st;
  bi_registered : forall id, id ∈ mg_services (sm_manager s) <->
    exists st, sm_services s !! id = Some st /\ ns_registered st = true
}.

(** What the goroutine of Shutdown has left to do: the manager is closed, and
    what is not closed is in its lists, or is being closed. *)
Record closing_ok s (current : option (nat * nat)) (services : list nat) (topics : list string)
  : Prop := {
  co_manager : mg_closed (sm_manager s) = true;
  co_services : forall id st, sm_services s !! id = Some st ->
    closed st = true \/ id ∈ services \/
    exists j, current = Some (id, j) /\ ns_threads st !! j = Some (TClose CLock);
  co_topics : forall name rt, mg_topics (sm_manager s) !! name = Some rt ->
    rt_closed rt = true \/ name ∈ topics;
  co_known : (forall id, id ∈ services -> is_Some (sm_services s !! id)) /\
    forall name, name ∈ topics -> is_Some (mg_topics (sm_manager s) !! name);
  co_current : forall id j, current = Some (id, j) ->
    exists st t, sm_services s !! id = Some st /\ ns_threads st !! j = Some t /\ closer t = true
}.

Definition call_ok s (c : call X) : Prop :=
  match c with
  | KClosing current services topics _ => closing_ok s current services topics
  | KClosed _ => closing_ok s None [] []
  | _ => True
  end.

Record sys_inv s : Prop := {
  si_base : base_inv s;
  si_calls : forall k c, sm_calls s !! k = Some c -> call_ok s c
}.

(** How a step may change what a goroutine of Shutdown relies on. *)
Record sys_le s s' : Prop := {
  le_manager : mg_closed (sm_manager s) = true -> mg_closed (sm_manager s') = true;
  le_services : mg_closed (sm_manager s) = true -> forall id st', sm_services s' !! id = Some st' ->
    exists st, sm_services s !! id = Some st /\ (closed st = true -> closed st' = true) /\
      forall j, ns_threads st !! j = Some (TClose CLock) ->
        ns_threads st' !! j = Some (TClose CLock) \/ closed st' = true;
  le_topics : mg_closed (sm_manager s) = true ->
    forall name rt', mg_topics (sm_manager s') !! name = Some rt' ->
    exists rt, mg_topics (sm_manager s) !! name = Some rt /\ (rt_closed rt = true -> rt_closed rt' = true);
  le_known : (forall id, is_Some (sm_services s !! id) -> is_Some (sm_services s' !! id)) /\
    forall name, is_Some (mg_topics (sm_manager s) !! name) ->
      is_Some (mg_topics (sm_manager s') !! name);
  le_closers : forall id st j t, sm_services s !! id = Some st -> ns_threads st !! j = Some t ->
    closer t = true ->
    exists st' t', sm_services s' !! id = Some st' /\ ns_threads st' !! j = Some t' /\ closer t' = true
}.

Lemma closing_ok_le s s' current services topics :
  sys_le s s' -> closing_ok s current services topics -> closing_ok s' current services topics.
Proof.
  intros [Hm Hs Ht [Hk1 Hk2] Hcl'] [Hc Hsv Htp [Hn1 Hn2] Hcur]. split; [by apply Hm|..|by auto|].
  - intros id st' Hid. destruct (Hs Hc id st' Hid) as (st & Hst & Hcl & Hlock).
    destruct (Hsv id st Hst) as [|[|(j & -> & Hj)]]; [left; auto|auto|].
    destruct (Hlock j Hj); [right; right; by eauto|by left].
  - intros name rt' Hn. destruct (Ht Hc name rt' Hn) as (rt & Hrt & Hcl).
    destruct (Htp name rt Hrt); auto.
  - intros id j Hj. destruct (Hcur id j Hj) as (st & t & ? & ? & ?). by eapply Hcl'.
Qed.

Lemma call_ok_le s s' c : sys_le s s' -> call_ok s c -> call_ok s' c.
Proof. intros Hle. destruct c; simpl; try done; by apply closing_ok_le. Qed.

(** The calls after a step: as before, or what they became. *)
Lemma sys_inv_step s s' :
  sys_inv s -> base_inv s' -> sys_le s s' ->
  (forall k c, sm_calls s' !! k = Some c -> sm_calls s !! k = Some c \/ call_ok s' c) ->
  sys_inv s'.
Proof.
  intros [_ Hc] Hb Hle Hcalls. split; [done|]. intros k c Hk.
  destruct (Hcalls k c Hk) as [Hold|]; [|done]. eapply call_ok_le; [done|]. by eapply Hc.
Qed.

Lemma sys_le_same s s' :
  sm_manager s' = sm_manager s -> sm_services s' = sm_services s -> sys_le s s'.
Proof.
  intros Hm Hs. split; rewrite ?Hm, ?Hs; try done.
  - intros _ id st Hid. exists st. by auto.
  - intros _ name rt Hn. exists rt. by auto.
  - by eauto.
Qed.

(** Only the manager's topics change, and closed ones stay closed. *)
Lemma sys_le_topics s s' :
  sm_services s' = sm_services s -> mg_closed (sm_manager s') = mg_closed (sm_manager s) ->
  (mg_closed (sm_manager s) = true ->
    forall name rt', mg_topics (sm_manager s') !! name = Some rt' ->
    exists rt, mg_topics (sm_manager s) !! name = Some rt /\ (rt_closed rt = true -> rt_closed rt' = true)) ->
  (forall name, is_Some (mg_topics (sm_manager s) !! name) ->
    is_Some (mg_topics (sm_manager s') !! name)) ->
  sys_le s s'.
Proof.
  intros Hs Hm Ht Hd. split; rewrite ?Hm, ?Hs; try done; [|by eauto].
  intros _ id st Hid. exists st. by auto.
Qed.

Lemma put_dom (m : Manager X) name rt n :
  is_Some (mg_topics m !! n) -> is_Some (mg_topics (put m name rt) !! n).
Proof. simpl. rewrite lookup_insert. case_decide; [by eexists|done]. Qed.

Lemma put_topics (m : Manager X) name rt rt' :
  mg_topics m !! name = Some rt -> (rt_closed rt = true -> rt_closed rt' = true) ->
  forall n u', mg_topics (put m name rt') !! n = Some u' ->
  exists u, mg_topics m !! n = Some u /\ (rt_closed u = true -> rt_closed u' = true).
Proof.
  intros Hn Hc n u'. simpl. rewrite lookup_insert. case_decide as Hd.
  - subst n. intros [= <-]. by eauto.
  - intros Hu. by eauto.
Qed.

Lemma set_call_old s k c k' c' :
  sm_calls (set_call s k c) !! k' = Some c' -> sm_calls s !! k' = Some c' \/ c' = c.
Proof.
  simpl. destruct (decide (k = k')) as [->|Hk].
  - destruct (decide (k' < length (sm_calls s))%nat) as [Hl|Hl].
    + rewrite list_lookup_insert_eq by done. intros [= <-]. by right.
    + rewrite list_insert_ge by lia. by left.
  - rewrite list_lookup_insert_ne by done. by left.
Qed.

(** The state changes to that of [s1], and call [k] becomes [c]. *)
Lemma set_call_inv s s1 k c :
  sys_inv s -> base_inv s1 -> sys_le s s1 -> sm_calls s1 = sm_calls s -> call_ok (set_call s1 k c) c ->
  sys_inv (set_call s1 k c).
Proof.
  intros Hi Hb [H1 H2 H3 H4 H5] Hc Hok. apply (sys_inv_step s); [done|..].
  - destruct Hb. by split.
  - by split.
  - intros k' c' Hk'. destruct (set_call_old _ _ _ _ _ Hk') as [Hold| ->]; [|by right].
    left. by rewrite <-Hc.
Qed.

(** Nothing but the call changes. *)
Lemma set_call_inv_same s k c :
  sys_inv s -> call_ok (set_call s k c) c -> sys_inv (set_call s k c).
Proof. intros Hi. apply (set_call_inv s s); [done|apply Hi|by apply sys_le_same|done]. Qed.

(** Changing a registered topic. *)
Lemma put_base s name rt rt' :
  base_inv s -> mg_topics (sm_manager s) !! name = Some rt -> rt_inv rt' -> same_topic rt rt' ->
  base_inv (set_manager s (put (sm_manager s) name rt')).
Proof.
  intros [Ht Hc Ha Hr] Hn Hi Hs. split; simpl; try done.
  apply put_ok; [done|]. apply (topic_ok_same _ rt); [by apply Ht|done|done].
Qed.

Lemma put_inv s name rt rt' k err :
  sys_inv s -> mg_topics (sm_manager s) !! name = Some rt -> rt_inv rt' -> same_topic rt rt' ->
  (rt_closed rt = true -> rt_closed rt' = true) ->
  sys_inv (set_call (set_manager s (put (sm_manager s) name rt')) k (KReturned err)).
Proof.
  intros Hi Hn Hrt Hs Hc. apply (set_call_inv s); try done.
  - by apply (put_base s name rt), Hs; [apply Hi|..].
  - apply sys_le_topics; try done; [intros _; by apply (put_topics _ _ rt)|by apply put_dom].
Qed.

(* ------------------------------------------------------------------ *)
(** ** The steps *)

(** No panic, and the invariant afterwards. *)
Definition sys_safe (r : sys_outcome X) : Prop :=
  match r with SBlocked => True | SPanic => False | SNext s => sys_inv s end.

Lemma submitSigned_closed t now1 now2 msg source peer t' msg' err evs :
  rt_inv t -> submitSigned t now1 now2 msg source peer = Some (t', msg', err, evs) ->
  rt_closed t' = rt_closed t.
Proof.
  intros Ht. unfold submitSigned. destruct msg as [m|]; [|by intros [= <- _ _ _]].
  destruct (submit_validate t now1 m) as [m1 [[e evs0]|]]; [by intros [= <- _ _ _]|].
  destruct (submit_commit_spec t now2 m1 (make_envelope t m1 source peer now2) Ht)
    as (t1 & err1 & evs1 & -> & Hc). simpl. intros [= <- _ _ _]. by destruct Hc.
Qed.

Lemma register_safe s k name cfg :
  sys_inv s -> 
  sys_safe (let '(m, err) := RegisterTopic (sm_manager s) name cfg in
            SNext (set_call (set_manager s m) k (KReturned err))).
Proof.
  intros Hi. pose proof (RegisterTopic_spec (sm_manager s) name cfg) as Hs.
  destruct (RegisterTopic (sm_manager s) name cfg) as [m' [e|]]; simpl.
  - destruct Hs as [-> _]. apply (set_call_inv s); try done; [|by apply sys_le_same].
    pose proof (si_base _ Hi) as []. by split.
  - destruct Hs as (_ & Hopen & Hnew & rt & -> & Hok & _). apply (set_call_inv s); try done.
    + pose proof (si_base _ Hi) as [Ht ? ? ?]. split; try done. by apply (put_ok _ name rt).
    + apply sys_le_topics; try done; [by rewrite Hopen|]. intros n. by apply (put_dom _ name rt).
Qed.

Lemma registerService_safe s k name cfg :
  sys_inv s ->
  sys_safe (match registerService (sm_manager s) (length (sm_services s)) with
            | (m, Some e) => SNext (set_call (set_manager s m) k (KReturned (Some e)))
            | (m, None) =>
                SNext (set_call (mkSystem m (sm_services s ++ [net_init name cfg]) (sm_calls s)) k
                         (KStarting (length (sm_services s))))
            end).
Proof.
  intros Hi. unfold registerService. pose proof (si_base _ Hi) as [Ht Hc Ha Hr].
  destruct (mg_closed (sm_manager s)) eqn:Hm; simpl.
  { apply (set_call_inv s); try done; [|by apply sys_le_same]. split; simpl; done || congruence. }
  apply (set_call_inv s); try done.
  - split; simpl; try done; [congruence|..].
    + intros id st Hid. apply lookup_app_Some in Hid as [Hid|[_ Hid]]; [by eapply Ha|].
      apply list_lookup_singleton_Some in Hid as [_ <-]. apply net_init_ok.
    + intros id. rewrite elem_of_union, elem_of_singleton, Hr. setoid_rewrite lookup_app_Some.
      setoid_rewrite list_lookup_singleton_Some. split.
      * intros [->|(st & Hst & Hg)]; [|by eauto]. exists (net_init name cfg).
        split; [|done]. right. split; [lia|]. split; [lia|done].
      * intros (st & [Hst|(Hge & Hz & <-)] & Hg); [right; by eauto|]. left. lia.
  - assert (forall id st, sm_services s !! id = Some st ->
      (sm_services s ++ [net_init name cfg]) !! id = Some st) as Happ.
    { intros id st Hid. by apply lookup_app_l_Some. }
    split; simpl; try by rewrite Hm.
    + split; [|done]. intros id [st Hid]. exists st. by apply Happ.
    + intros id st j t Hid Hj Hcl. exists st, t. by auto.
Qed.

Lemma submit_safe s k name msg source peer now1 now2 :
  sys_inv s ->
  sys_safe (match mg_topics (sm_manager s) !! name with
            | None => SBlocked
            | Some rt =>
                match submitSigned rt now1 now2 msg source peer with
                | None => SPanic
                | Some (rt, _, err, _) =>
                    SNext (set_call (set_manager s (put (sm_manager s) name rt)) k (KReturned err))
                end
            end).
Proof.
  intros Hi. destruct (mg_topics (sm_manager s) !! name) as [rt|] eqn:Hn; [|done].
  pose proof (to_inv _ _ (bi_topics _ (si_base _ Hi) _ _ Hn)) as Hrt.
  destruct (submitSigned_total rt now1 now2 msg source peer Hrt) as (rt' & m' & err & evs & Hs & Hrt').
  rewrite Hs. apply (put_inv s name rt); try done.
  - by eapply submitSigned_same.
  - by rewrite (submitSigned_closed _ _ _ _ _ _ _ _ _ _ Hrt Hs).
Qed.

Lemma subscribe_safe s k name :
  sys_inv s ->
  sys_safe (match mg_topics (sm_manager s) !! name with
            | None => SBlocked
            | Some rt =>
                match subscribe rt with
                | None => SPanic
                | Some (rt, _) =>
                    SNext (set_call (set_manager s (put (sm_manager s) name rt)) k (KReturned None))
                end
            end).
Proof.
  intros Hi. destruct (mg_topics (sm_manager s) !! name) as [rt|] eqn:Hn; [|done].
  pose proof (to_inv _ _ (bi_topics _ (si_base _ Hi) _ _ Hn)) as Hrt.
  destruct (subscribe_total rt Hrt) as (rt' & Hs & Hrt' & _ & Hc & _).
  rewrite Hs. apply (put_inv s name rt); try done.
  - by eapply subscribe_same.
  - by rewrite Hc.
Qed.

Lemma shutdown_lock_inv s k : sys_inv s -> sys_inv (shutdown_lock s k).
Proof.
  intros Hi. unfold shutdown_lock. destruct (mg_closed (sm_manager s)) eqn:Hm.
  { by apply set_call_inv_same. }
  pose proof (si_base _ Hi) as [Ht Hc Ha Hr]. apply (sys_inv_step s); [done|..].
  - by split.
  - split; simpl; try (by rewrite Hm); by eauto.
  - simpl. intros k' c. rewrite lookup_app_Some. intros [Hk'|[_ Hk']].
    + destruct (set_call_old s k (KWaiting (length (sm_calls s))) k' c Hk') as [| ->]; [by left|by right].
    + apply list_lookup_singleton_Some in Hk' as [_ <-]. right. split; simpl; [done|..].
      * intros id st Hid. rewrite elem_of_elements, Hr.
        destruct (ns_registered st) eqn:Hg; [right; left; by eauto|]. left.
        apply (ri_closed st); [|done]. by eapply Ha.
      * intros name rt Hn. right. apply list_elem_of_fmap. exists (name, rt).
        split; [done|]. by apply elem_of_map_to_list.
      * split.
        -- intros id (st & Hst & _)%elem_of_elements%Hr. by eexists.
        -- intros name ([n rt] & -> & Hn%elem_of_map_to_list)%list_elem_of_fmap. by eexists.
      * done.
Qed.

(** Starting to close a service. *)
Lemma close_service_inv s k services topics errs pick id st :
  sys_inv s -> sm_calls s !! k = Some (KClosing None services topics errs) ->
  services !! pick = Some id -> sm_services s !! id = Some st ->
  sys_inv (set_call (set_service s id (spawn st [TClose CLock])) k
             (KClosing (Some (id, length (ns_threads st))) (delete pick services) topics errs)).
Proof.
  intros Hi Hk Hp Hid. pose proof (si_calls _ Hi _ _ Hk) as [Hm Hsv Htp [Hn1 Hn2] _].
  pose proof (si_base _ Hi) as [Ht Hc Ha Hr].
  assert (Hstep : net_step V st NCallClose = NNext (spawn st [TClose CLock])) by done.
  assert (Hlook : forall id' st', <[id := spawn st [TClose CLock]]> (sm_services s) !! id' = Some st' ->
    id' = id /\ st' = spawn st [TClose CLock] \/ id' <> id /\ sm_services s !! id' = Some st').
  { intros id' st'. destruct (decide (id = id')) as [<-|Hne].
    - rewrite list_lookup_insert_eq by (by eapply lookup_lt_Some). intros [= <-]. by left.
    - rewrite list_lookup_insert_ne by done. auto. }
  assert (Hdom : forall id', is_Some (sm_services s !! id') ->
    is_Some (<[id := spawn st [TClose CLock]]> (sm_services s) !! id')).
  { intros id' Hs'. apply lookup_lt_is_Some. rewrite length_insert. by apply lookup_lt_is_Some. }
  apply (set_call_inv s); try done.
  - split; simpl; try done.
    + intros id' st' [[-> ->]|[_ ?]]%Hlook; [|by eapply Ha].
      eapply (net_step_alive V); [by eapply Ha|exact Hstep].
    + intros id'. rewrite Hr. split.
      * intros (st0 & Hst0 & Hg). destruct (decide (id' = id)) as [->|Hne].
        -- exists (spawn st [TClose CLock]).
           rewrite list_lookup_insert_eq by (by eapply lookup_lt_Some). split; [done|]. simpl. congruence.
        -- exists st0. by rewrite list_lookup_insert_ne.
      * intros (st0 & [[-> ->]|[_ ?]]%Hlook & Hg); [by eauto|by eauto].
  - split; simpl; [done| |by eauto|split; [|done]|].
    + intros _ id' st' [[-> ->]|[_ ?]]%Hlook; [|exists st'; by auto].
      exists st. split; [done|]. split; [done|]. intros j Hj. left. simpl. by apply lookup_app_l_Some.
    + apply Hdom.
    + intros id' st0 j t Hst0 Hj Hcl. destruct (decide (id' = id)) as [->|Hne].
      * exists (spawn st [TClose CLock]), t.
        rewrite list_lookup_insert_eq by (by eapply lookup_lt_Some). split; [done|]. split; [|done].
        simplify_eq. simpl. by apply lookup_app_l_Some.
      * exists st0, t. by rewrite list_lookup_insert_ne.
  - split; simpl; [done| |done|split; [|done]|]; cycle 1.
    { intros id' Hin. apply Hdom, Hn1. eapply elem_of_sublist; [exact Hin|apply sublist_delete]. }
    { intros id' j [= <- <-]. exists (spawn st [TClose CLock]), (TClose CLock).
      rewrite list_lookup_insert_eq by (by eapply lookup_lt_Some).
      split; [done|]. split; [|done]. simpl. by rewrite lookup_app_r, Nat.sub_diag by lia. }
    intros id' st' [[-> ->]|[Hne Hold]]%Hlook.
    + right. right. eexists. split; [done|]. simpl. by rewrite lookup_app_r, Nat.sub_diag by lia.
    + destruct (Hsv id' st' Hold) as [|[Hin|(j & Hj & _)]]; [by left| |done].
      destruct (lookup_delete_elem _ _ _ _ Hp Hin); [done|by auto].
Qed.

Lemma closing_safe s k current services topics errs pick :
  sys_inv s -> sm_calls s !! k = Some (KClosing current services topics errs) ->
  sys_safe (closing_step s k current services topics errs pick).
Proof.
  intros Hi Hk. pose proof (si_calls _ Hi _ _ Hk) as [Hm Hsv Htp [Hn1 Hn2] _]. unfold closing_step.
  destruct current as [[id j]|].
  - destruct (sm_services s !! id) as [st|] eqn:Hid; [|done].
    destruct (ns_threads st !! j) as [[]|] eqn:Hj; try done. apply set_call_inv_same; [done|].
    split; [done| |done|done|done]. intros id' st' Hid'.
    destruct (Hsv id' st' Hid') as [|[|(j' & [= <- <-] & Hj')]]; [by auto..|].
    simpl in Hid'. congruence.
  - destruct (services !! pick) as [id|] eqn:Hp.
    { destruct (sm_services s !! id) as [st|] eqn:Hid; [|done]. by eapply close_service_inv. }
    destruct services as [|? ?]; [|done].
    destruct (topics !! pick) as [name|] eqn:Hn.
    + destruct (mg_topics (sm_manager s) !! name) as [rt|] eqn:Hrt; [|done].
      pose proof (to_inv _ _ (bi_topics _ (si_base _ Hi) _ _ Hrt)) as Hinv.
      destruct (close_closes rt Hinv) as (rt' & -> & Hrt' & Hs & Hc).
      apply (set_call_inv s); try done.
      * by apply (put_base s name rt); [apply Hi|..].
      * apply sys_le_topics; try done; [intros _; by apply (put_topics _ _ rt)|by apply put_dom].
      * split; [done|done| |split; [done|]|done].
        -- simpl. intros n u. rewrite lookup_insert. case_decide as Hd; [intros [= <-]; by left|].
           intros Hu. destruct (Htp n u Hu) as [|Hin]; [by left|]. right.
           by destruct (lookup_delete_elem _ _ _ _ Hn Hin).
        -- intros n Hin. apply put_dom, Hn2. eapply elem_of_sublist; [exact Hin|apply sublist_delete].
    + case_bool_decide as Hnil; [|done]. subst topics. by apply set_call_inv_same.
Qed.

Lemma call_step_safe s k pick now1 now2 : sys_inv s -> sys_safe (call_step s k pick now1 now2).
Proof.
  intros Hi. unfold call_step.
  destruct (sm_calls s !! k) as [[]|] eqn:Hk; try done.
  - by apply register_safe.
  - destruct (topic _ _) as [rt|]; [|by apply set_call_inv_same].
    destruct (start_guards rt); by apply set_call_inv_same.
  - by apply registerService_safe.
  - destruct (topic _ _); by apply set_call_inv_same.
  - by apply submit_safe.
  - destruct (topic _ _); by apply set_call_inv_same.
  - by apply subscribe_safe.
  - by apply shutdown_lock_inv.
  - destruct (sm_calls s !! worker) as [[]|]; try done. by apply set_call_inv_same.
  - by apply closing_safe.
Qed.

(** What asking the manager changes. *)
Record asked (m m' : Manager X) : Prop := {
  as_topics : Manager.topics_ok m';
  as_services : mg_services m' = mg_services m;
  as_closed : mg_closed m' = mg_closed m;
  as_cancelled : mg_cancelled m' = mg_cancelled m;
  as_dom : forall n, is_Some (mg_topics m !! n) -> is_Some (mg_topics m' !! n);
  as_same : mg_closed m = true -> m' = m
}.

Lemma TopicPeers_dom (m : Manager X) name n :
  is_Some (mg_topics m !! n) -> is_Some (mg_topics (TopicPeers m name).1.1 !! n).
Proof.
  unfold TopicPeers. destruct (topic m name) as [rt|]; [|done].
  destruct (discoverPeers rt) as [[rt' r'] evs]. apply put_dom.
Qed.

Lemma manager_answer_asked (m : Manager X) st i a :
  Manager.topics_ok m -> asked m (manager_answer m st i a).1.
Proof.
  intros Hm. unfold manager_answer.
  destruct (ns_threads st !! i) as [[[]| |o c []| | | | | |]|]; try done; destruct a; try done.
  - destruct (TopicPeers_ok m (sv_topic (ns_svc st)) Hm) as (Ht & (_ & Hs & Hc) & Hx).
    assert (mg_closed m = true -> (TopicPeers m (sv_topic (ns_svc st))).1.1 = m) as Hsame.
    { intros Hcl. unfold TopicPeers, topic. by rewrite Hcl. }
    pose proof (TopicPeers_dom m (sv_topic (ns_svc st))) as Hd.
    destruct (TopicPeers m (sv_topic (ns_svc st))) as [[m' r'] evs]. by split.
  - by destruct (ns_conns st !! c).
Qed.

(** The state after a step of service [id]. *)
Lemma service_inv s id st act st' m :
  sys_inv s -> sm_services s !! id = Some st -> net_step V st act = NNext st' ->
  asked (sm_manager s) m ->
  sys_inv (set_service (set_manager s (if ns_registered st' then m else unregisterService m id)) id st').
Proof.
  intros Hi Hid Hs [Hmt Hms Hmc Hmx Hdom Hsame]. pose proof (si_base _ Hi) as [Ht Hc Ha Hr].
  set (m' := if ns_registered st' then m else unregisterService m id).
  assert (Hm' : mg_topics m' = mg_topics m /\ mg_closed m' = mg_closed m /\
    mg_cancelled m' = mg_cancelled m /\
    forall k, k ∈ mg_services m' <-> k ∈ mg_services m /\ (k = id -> ns_registered st' = true)).
  { unfold m'. destruct (ns_registered st'); (split_and!; try done); intros k; [tauto|].
    simpl. rewrite elem_of_difference, elem_of_singleton. naive_solver. }
  destruct Hm' as (Hm1 & Hm2 & Hm3 & Hm4).
  assert (Hlook : forall id' u, <[id := st']> (sm_services s) !! id' = Some u <->
    id' = id /\ u = st' \/ id' <> id /\ sm_services s !! id' = Some u).
  { intros id' u. rewrite (lookup_insert_present _ _ _ _ _ Hid). case_decide; naive_solver. }
  apply (sys_inv_step s); [done|..].
  - split; simpl.
    + intros n rt Hn. rewrite Hm1 in Hn. by apply Hmt.
    + congruence.
    + intros id' u [[-> ->]|[_ ?]]%Hlook; [|by eapply Ha]. by eapply net_step_alive; [eapply Ha|].
    + intros id'. rewrite Hm4, Hms, Hr. setoid_rewrite Hlook. split.
      * intros [(u & Hu & Hg) Hreg]. destruct (decide (id' = id)) as [->|].
        -- exists st'. split; [by left|by apply Hreg].
        -- exists u. split; [by right|done].
      * intros (u & [[-> ->]|[Hne Hu]] & Hg); [|by naive_solver]. split; [|done].
        exists st. split; [done|]. by eapply net_step_registered.
  - split; simpl.
    + rewrite Hm2, Hmc. done.
    + intros _ id' u [[-> ->]|[_ Hu]]%Hlook; [|exists u; by auto].
      exists st. split; [done|]. split; [eapply (net_step_closed V); [|done]; by eapply Ha|].
      intros j. by eapply net_step_lock.
    + intros Hcl n rt Hn. rewrite Hm1, (Hsame Hcl) in Hn. by eauto.
    + split.
      * intros id' Hs'. apply lookup_lt_is_Some. rewrite length_insert. by apply lookup_lt_is_Some.
      * intros n. rewrite Hm1. apply Hdom.
    + intros id' u j t Hu Hj Hcl. setoid_rewrite Hlook. destruct (decide (id' = id)) as [->|Hne].
      * simplify_eq. destruct (net_step_closer V _ _ _ _ _ Hs Hj Hcl) as (t' & ? & ?). by eauto 10.
      * by eauto 10.
  - intros k c Hk. by left.
Qed.

Lemma service_act_safe s id act : sys_inv s -> sys_safe (service_act V s id act).
Proof.
  intros Hi. unfold service_act. destruct (sm_services s !! id) as [st|] eqn:Hid; [|done].
  pose proof (bi_topics _ (si_base _ Hi)) as Ht.
  assert (Hrefl : asked (sm_manager s) (sm_manager s)) by done.
  destruct (match act with NRun _ _ => _ | _ => _ end) as [m act'] eqn:Heq.
  assert (asked (sm_manager s) m) as Hm.
  { destruct act as [i a| | |]; simplify_eq; try done.
    pose proof (manager_answer_asked (sm_manager s) st i a Ht) as Ha.
    destruct (manager_answer _ st i a) as [m0 a0]. by simplify_eq. }
  destruct (usable st act'); [|done].
  destruct (bi_alive _ (si_base _ Hi) _ _ Hid) as [Hinv _].
  pose proof (net_step_ok V st act' Hinv) as Hok.
  destruct (net_step V st act') as [| |st'] eqn:Hs; [done|done|]. by eapply service_inv.
Qed.

Lemma sys_step_safe s act : sys_inv s -> sys_safe (sys_step V s act).
Proof.
  intros Hi. destruct act as [c|k pick now1 now2|k err|id act]; simpl.
  - destruct (callable c) eqn:Hc; [|done]. apply (sys_inv_step s); [done|..].
    + pose proof (si_base _ Hi) as []. by split.
    + by apply sys_le_same.
    + intros k c' [Hk|[_ Hk]]%lookup_app_Some; [by left|right].
      apply list_lookup_singleton_Some in Hk as [_ <-]. by destruct c.
  - by apply call_step_safe.
  - destruct (sm_calls s !! k) as [[]|]; try done. by apply set_call_inv_same.
  - by apply service_act_safe.
Qed.

Lemma sys_reachable_inv cfg s : sys_reachable V cfg s -> sys_inv s.
Proof.
  induction 1 as [|s act s' _ IH Hs].
  - split; [|done]. split; simpl; try done. intros id. split; [set_solver|]. by intros (st & ? & _).
  - pose proof (sys_step_safe s act IH) as Hok. by rewrite Hs in Hok.
Qed.

(* ------------------------------------------------------------------ *)
(** ** Shutdown is not stuck *)

(** A goroutine of a service that can go on with the manager's answer. *)
Lemma service_goes_on s id st i a m a' :
  sys_inv s -> sm_services s !! id = Some st -> manager_answer (sm_manager s) st i a = (m, a') ->
  run V st i a' <> NBlocked -> exists s', sys_step V s (AService id (NRun i a)) = SNext s'.
Proof.
  intros Hi Hid Hm Hrun. pose proof (service_act_safe s id (NRun i a) Hi) as Hok. simpl.
  unfold service_act in *. rewrite Hid, Hm in *. simpl in *.
  destruct (run V st i a'); [done|done|]. by eexists.
Qed.

Lemma manager_answer_other (m : Manager X) st i a :
  match a with AnsPeers _ | AnsSubmission _ _ => False | _ => True end ->
  manager_answer m st i a = (m, a).
Proof.
  intros Ha. unfold manager_answer.
  destruct (ns_threads st !! i) as [[[]| |o c []| | | | | |]|]; try done; by destruct a.
Qed.

Lemma counted_goes_on s id st i t :
  sys_inv s -> sm_services s !! id = Some st -> draining st ->
  ns_threads st !! i = Some t -> counted t = true ->
  exists a s', sys_step V s (AService id (NRun i a)) = SNext s'.
Proof.
  intros Hi Hid Hd Ht Hc.
  assert (Hother : forall a, match a with AnsPeers _ | AnsSubmission _ _ => False | _ => True end ->
    run V st i a <> NBlocked -> exists a s', sys_step V s (AService id (NRun i a)) = SNext s').
  { intros a Ha Hr. exists a. eapply service_goes_on; [done..| |done]. by apply manager_answer_other. }
  destruct t as [pc| |o c ph|peer backoff pc|c|c| |pc|]; try done.
  - apply (Hother (AnsAccept (Err (ErrForeign net_ErrClosed)))); [done|]. unfold run. rewrite Ht. simpl.
    rewrite (dr_cancelled _ Hd). apply finish_unblocked.
  - destruct (match ph with HSubmission _ => true | _ => false end) eqn:Hph.
    + destruct ph as [|v| | | | |]; try done. destruct (threads_at _ _ _ Ht) as (rest & Ho & _).
      destruct (serve_alone st o c (HSubmission v) rest) as (_ & p & Hp & _); [apply Hd|done|].
      exists (AnsSubmission (Err (ErrForeign context_Canceled)) None).
      eapply service_goes_on; [done..|unfold manager_answer; by rewrite Ht, Hp|].
      set (a' := AnsSubmission _ _). assert (exists x, handleConnection V st c (HSubmission v) a' = Some x)
        as [x Hx].
      { unfold handleConnection, newNodeToNodePeerConnection. rewrite Hp. cbn [mbind option_bind a'].
        destruct (startMessageSubmission _ _ _ _ _) as [p' [e|]]; by eexists. }
      by eapply serve_goes_on; [apply Hd|..].
    + apply (Hother (phase_answer ph)); [|by apply (serve_unblocked V st i o c)].
      by destruct ph.
  - assert (exists a, match a with AnsPeers _ | AnsSubmission _ _ => False | _ => True end /\
      run V st i a <> NBlocked) as (a & Ha & Hr); [|by apply (Hother a)].
    unfold run. rewrite Ht. unfold loop_step, dialAndServe. rewrite (dr_cancelled _ Hd).
    destruct pc; [exists AnsGo|exists (AnsDial (Err (ErrForeign net_ErrClosed)))|exists AnsGo|exists AnsCtx];
      (split; [done|]); done || apply finish_unblocked.
Qed.

(** A Close that has not returned can go on, or a goroutine it waits for can. *)
Lemma close_goes_on s id st j pc :
  sys_inv s -> sm_services s !! id = Some st -> ns_threads st !! j = Some (TClose pc) ->
  ns_raced st = false ->
  exists i a s', sys_step V s (AService id (NRun i a)) = SNext s'.
Proof.
  intros Hi Hid Hj Hrc. destruct (bi_alive _ (si_base _ Hi) _ _ Hid) as [Hinv _].
  pose proof (Forall_lookup_1 _ _ _ _ (ni_threads _ Hinv) Hj) as Hok.
  assert (Hown : forall a, match a with AnsPeers _ | AnsSubmission _ _ => False | _ => True end ->
    close_step st j pc a <> NBlocked -> exists i a s', sys_step V s (AService id (NRun i a)) = SNext s').
  { intros a Ha Hr. exists j, a. eapply service_goes_on; [done..|by apply manager_answer_other|].
    unfold run. by rewrite Hj. }
  destruct pc as [|l ps|l ps|[l|] ps|[|c ps] errs|errs|errs].
  1: by apply (Hown AnsGo); [|simpl; destruct (sv_closed (ns_svc st))].
  5: by apply (Hown AnsGo).
  5: by apply (Hown (AnsPick 0)).
  5: { simpl in Hok. destruct Hok as (Hc & Hx & Hq). destruct (decide (ns_wg st = 0)) as [Hw|Hw].
       - apply (Hown AnsGo); [done|]. simpl. by rewrite Hw.
       - destruct (counted_exists (ns_threads st)) as (i & t & Ht & Hct).
         { intros H1. by rewrite (ni_wg _ Hinv), H1 in Hw. }
         assert (draining st) as Hd by (split; auto).
         destruct (counted_goes_on s id st i t Hi Hid Hd Ht Hct) as (a & s' & ?). by eauto. }
  all: by apply (Hown AnsGo).
Qed.

End invariant.

(* ------------------------------------------------------------------ *)
(** ** The theorems *)

Section theorems.
Context {X : Type} `{WireLaws X}.
Context (V : Z).
Implicit Types s : system X.

Lemma put_same_dom (m : Manager X) name rt rt' :
  mg_topics m !! name = Some rt -> dom (mg_topics (put m name rt')) = dom (mg_topics m).
Proof. intros Hn. apply dom_insert_lookup_L. by eexists. Qed.

(** What the goroutine of Shutdown has taken a copy of is all there is. *)
Definition nothing_added s s' : Prop :=
  mg_closed (sm_manager s') = true /\ length (sm_services s') = length (sm_services s) /\
  dom (mg_topics (sm_manager s')) = dom (mg_topics (sm_manager s)).

Lemma call_adds_nothing s k pick now1 now2 s' :
  mg_closed (sm_manager s) = true -> call_step s k pick now1 now2 = SNext s' -> nothing_added s s'.
Proof.
  intros Hc. unfold call_step, shutdown_lock, closing_step, RegisterTopic, registerService, topic.
  rewrite Hc. destruct (sm_calls s !! k) as [[]|]; try done; intros Hs.
  all: simplify_eq/=; repeat (case_match; simplify_eq/=; try done).
  all: split_and!; simpl; rewrite ?length_insert; try done; by eapply put_same_dom.
Qed.

Lemma closed_adds_nothing s act s' :
  mg_closed (sm_manager s) = true -> sys_step V s act = SNext s' -> nothing_added s s'.
Proof.
  intros Hc. destruct act as [c|k pick now1 now2|k err|id act]; simpl.
  - destruct (callable c); [|done]. by intros [= <-].
  - by apply call_adds_nothing.
  - destruct (sm_calls s !! k) as [[]|]; try done. by intros [= <-].
  - unfold service_act. destruct (sm_services s !! id) as [st|] eqn:Hid; [|done].
    destruct (match act with NRun _ _ => _ | _ => _ end) as [m act'] eqn:Heq.
    assert (m = sm_manager s) as ->.
    { destruct act as [i a| | |]; simplify_eq; try done. unfold manager_answer, TopicPeers, topic in Heq.
      rewrite Hc in Heq. repeat (case_match; simplify_eq/=; try done). }
    destruct (usable st act'); [|done]. destruct (net_step V st act'); try done. intros [= <-].
    split_and!; simpl; [by destruct (ns_registered _)|apply length_insert|by destruct (ns_registered _)].
Qed.

(** C6: Shutdown against everything at once. In every interleaving of
    RegisterTopic, StartNodeToNode, SubmitSigned, SubmitRemote, Subscribe and
    Shutdown calls with all goroutines of all services, nothing panics; from
    the moment Shutdown holds the lock no topic and no service is added; and
    when its goroutine is done the manager is closed and cancelled, every topic
    is closed, every service ever registered is closed, and each one is past
    its wait or has a call of Close that is still at work (one that began
    before Shutdown's, which then does not wait). A service that is past its
    wait is unregistered and, unless Shutdown overtook its start, nothing of it
    is left. *)
Theorem shutdown_completes cfg s :
  sys_reachable V cfg s ->
  (forall act, sys_step V s act <> SPanic) /\
  (mg_closed (sm_manager s) = true -> forall act s', sys_step V s act = SNext s' -> nothing_added s s') /\
  (forall err, KClosed err ∈ sm_calls s ->
   mg_closed (sm_manager s) = true /\ mg_cancelled (sm_manager s) = true /\
   (forall name rt, mg_topics (sm_manager s) !! name = Some rt -> rt_closed rt = true) /\
   forall id st, sm_services s !! id = Some st ->
     closed st = true /\
     (ns_drained st = true \/ Exists (fun t => closing t = true) (ns_threads st)) /\
     (ns_drained st = true ->
      (id ∉ mg_services (sm_manager s)) /\ (ns_raced st = false -> shut st))).
Proof.
  intros Hr. pose proof (sys_reachable_inv V cfg s Hr) as Hi. split; [|split].
  - intros act Hp. pose proof (sys_step_safe V s act Hi) as Hok. by rewrite Hp in Hok.
  - intros Hc act s'. by apply closed_adds_nothing.
  - intros err [k Hk]%list_elem_of_lookup_1. pose proof (si_calls _ Hi _ _ Hk) as [Hm Hsv Htp _ _].
    pose proof (si_base _ Hi) as [_ Hc Ha Hrg]. split_and!; [done|congruence|..].
    + intros name rt Hn. destruct (Htp name rt Hn) as [|Hin]; [done|]. by apply not_elem_of_nil in Hin.
    + intros id st Hid. destruct (Ha id st Hid) as [Hinv Hreg].
      assert (closed st = true) as Hcl.
      { destruct (Hsv id st Hid) as [|[Hin|(j & ? & _)]]; [done| |done].
        by apply not_elem_of_nil in Hin. }
      split; [done|]. split; [by apply (ni_closing _ Hinv)|]. intros Hd. split.
      * intros (st' & Hst' & Hg)%Hrg. simplify_eq. rewrite (ri_drained _ Hreg Hd) in Hg. done.
      * by apply drained_shut.
Qed.

(** C17: Shutdown does not get stuck. While its goroutine has not finished, and
    unless it overtook the start of a service, it can take a step itself, or
    the service it is closing can, whatever the other calls and services do;
    and when it has finished, the call of Shutdown can return with the errors
    of the services. *)
Theorem shutdown_never_stuck cfg s k :
  sys_reachable V cfg s ->
  (forall id st, sm_services s !! id = Some st -> ns_raced st = false) ->
  match sm_calls s !! k with
  | Some (KClosing current services topics _) =>
      (exists pick s', sys_step V s (ARun k pick 0 0) = SNext s') \/
      (exists id j i a s', current = Some (id, j) /\ sys_step V s (AService id (NRun i a)) = SNext s')
  | Some (KWaiting w) =>
      forall err, sm_calls s !! w = Some (KClosed err) ->
        exists s', sys_step V s (ARun k 0 0 0) = SNext s' /\ sm_calls s' !! k = Some (KReturned err)
  | _ => True
  end.
Proof.
  intros Hr Hrc. pose proof (sys_reachable_inv V cfg s Hr) as Hi.
  destruct (sm_calls s !! k) as [[]|] eqn:Hk; try done.
  { intros err Hw. simpl. unfold call_step. rewrite Hk, Hw. eexists. split; [done|]. simpl.
    by rewrite list_lookup_insert_eq by (by eapply lookup_lt_Some). }
  pose proof (si_calls _ Hi _ _ Hk) as [_ _ _ [Hn1 Hn2] Hcur].
  pose proof (sys_step_safe V s (ARun k 0 0 0) Hi) as Hok.
  assert (Hself : sys_step V s (ARun k 0 0 0) <> SBlocked ->
    exists pick s', sys_step V s (ARun k pick 0 0) = SNext s').
  { intros Hb. exists 0%nat. destruct (sys_step V s (ARun k 0 0 0)); [done|done|]. by eexists. }
  assert (sys_step V s (ARun k 0 0 0) = closing_step s k current services topics errs 0) as Heq.
  { simpl. unfold call_step. by rewrite Hk. }
  rewrite Heq in Hself, Hok. destruct current as [[id j]|].
  - destruct (Hcur id j eq_refl) as (st & t & Hid & Hj & Ht).
    destruct t; try done.
    + right. destruct (close_goes_on V s id st j pc Hi Hid Hj (Hrc id st Hid)) as (i & a & s' & ?).
      exists id, j, i, a, s'. by split.
    + left. apply Hself. unfold closing_step. by rewrite Hid, Hj.
  - left. apply Hself. unfold closing_step. destruct services as [|id services]; simpl.
    + destruct topics as [|name topics]; simpl; [done|].
      destruct (Hn2 name) as [rt Hrt]; [left|]. rewrite Hrt.
      pose proof (to_inv _ _ (bi_topics _ (si_base _ Hi) _ _ Hrt)) as Hinv.
      by destruct (close_closes rt Hinv) as (rt' & -> & _).
    + destruct (Hn1 id) as [st ->]; [left|done].
Qed.

End theorems.

Lemma sys_run_reachable {X} `{WireLaws X} V cfg (s : system X) acts s' :
  sys_reachable V cfg s -> sys_run V s acts = SNext s' -> sys_reachable V cfg s'.
Proof.
  revert s. induction acts as [|act acts IH]; intros s Hr; simpl; [by intros [= <-]|].
  destruct (sys_step V s act) as [| |s1] eqn:Hs; [done|done|]. apply IH. by eapply sr_step.
Qed.

(* ------------------------------------------------------------------ *)
(** ** Schedules *)

Definition ex_open_config : TopicConfig unit :=
  mkTopicConfig 1 ex_discovery (mkQueueConfig 2 1 0) (mkTTLPolicy 0 0 false) (mkReconnect 0 0)
    (mkAuthConfig false None true) (mkHooks true true true true) None.

Definition sys_start : system unit := mkSystem (NewManager (mkManagerConfig None None)) [] [].

Definition sys_reached (acts : list (sys_action unit)) : system unit :=
  match sys_run 1 sys_start acts with SNext s => s | _ => sys_start end.

Lemma sys_reached_reachable acts : sys_reachable 1 (mkManagerConfig None None) (sys_reached acts).
Proof.
  unfold sys_reached. destruct (sys_run 1 sys_start acts) eqn:Hr; [constructor..|].
  eapply sys_run_reachable; [constructor|done].
Qed.

Definition steps_of (k n : nat) : list (sys_action unit) := replicate n (ARun k 0 0 0).
Definition goes (i n : nat) : list (sys_action unit) := replicate n (AService 0 (NRun i AnsGo)).

(** A topic, and a service of it up to the check of its context. *)
Definition registers : list (sys_action unit) :=
  [ACall (KRegister "t" ex_open_config)] ++ steps_of 0 1 ++
  [ACall (KStart "t" listen_cfg)] ++ steps_of 1 2 ++ goes 0 1.

(** The rest of start, once it listens. *)
Definition listens : list (sys_action unit) :=
  [AService 0 (NRun 0 (AnsListen (Ok None)))] ++ goes 0 3 ++ [AService 0 (NRun 0 (AnsPeers (Ok [])))] ++
  goes 0 1.

(** Shutdown up to the Close of the service. *)
Definition shuts : list (sys_action unit) := [ACall KShutdown] ++ steps_of 2 1 ++ steps_of 3 1.

(** Shutdown of a running service. *)
Definition orderly : list (sys_action unit) :=
  registers ++ listens ++ shuts ++ goes 3 5 ++
  [AService 0 (NRun 1 (AnsAccept (Err (ErrForeign net_ErrClosed))))] ++ goes 3 2 ++
  steps_of 3 3 ++ steps_of 2 1.

Lemma shutdown_completes_witness :
  exists st, sm_services (sys_reached orderly) = [st] /\ ns_drained st = true /\ shut st /\
    sm_calls (sys_reached orderly) = [KReturned None; KStarting 0; KReturned None; KClosed None].
Proof.
  pose proof (shutdown_completes 1 (mkManagerConfig None None) (sys_reached orderly) (sys_reached_reachable _)) as Hall.
  assert (Hcalls : sm_calls (sys_reached orderly)
    = [KReturned None; KStarting 0; KReturned None; KClosed None]) by (by vm_compute).
  assert (Hdr : ns_drained <$> sm_services (sys_reached orderly) = [true]) by (by vm_compute).
  assert (Hrc : ns_raced <$> sm_services (sys_reached orderly) = [false]) by (by vm_compute).
  revert Hall Hcalls Hdr Hrc. generalize (sys_reached orderly). intros s (_ & _ & Hd) Hcalls Hdr Hrc.
  destruct (Hd None) as (_ & _ & _ & Hall).
  { rewrite Hcalls. apply list_elem_of_lookup_2 with 3%nat. done. }
  destruct (sm_services s) as [|st [|? ?]] eqn:E; try done.
  injection Hdr as Hdr. injection Hrc as Hrc. exists st. split_and!; try done.
  by apply (Hall 0%nat st eq_refl).
Defined.

Definition closing_acts : list (sys_action unit) := registers ++ listens ++ shuts ++ goes 3 5.

Lemma shutdown_never_stuck_witness :
  exists id j i a s', sm_calls (sys_reached closing_acts) !! 3%nat
      = Some (KClosing (Some (id, j)) [] ["t"] []) /\
    sys_step 1 (sys_reached closing_acts) (AService id (NRun i a)) = SNext s'.
Proof.
  pose proof (shutdown_never_stuck 1 (mkManagerConfig None None) (sys_reached closing_acts) 3 (sys_reached_reachable _)) as Hs.
  assert (Hk : sm_calls (sys_reached closing_acts) !! 3%nat
    = Some (KClosing (Some (0%nat, 3%nat)) [] ["t"] [])) by (by vm_compute).
  assert (Hrc : ns_raced <$> sm_services (sys_reached closing_acts) = [false]) by (by vm_compute).
  assert (Hb : forall pick, sys_step 1 (sys_reached closing_acts) (ARun 3 pick 0 0) = SBlocked)
    by (by vm_compute).
  revert Hs Hk Hrc Hb. generalize (sys_reached closing_acts). intros s Hs Hk Hrc Hb.
  rewrite Hk in Hs. destruct Hs as [(pick & s' & Hp)|(id & j & i & a & s' & [= <- <-] & Hp)].
  - intros id st Hid. destruct (sm_services s) as [|st0 [|? ?]]; try done. injection Hrc as Hrc.
    destruct id; by simplify_eq/=.
  - by rewrite Hb in Hp.
  - by eauto 10.
Defined.
