(* ===== verification/Overtaken.v ===== *)
(** * A Shutdown that overtakes a start (manager.go, network.go)

    StartNodeToNode registers its service before it starts it, and start does
    not look at the closed flag, so that the Close of a Shutdown can run before
    there is a listener to close. Here: what happens to the listener, its
    accept loop and that Close then, in every continuation in which the
    listening socket reports no error; and that such states are reached. *)

From stdpp Require Import relations.
From S2P Require Import Prelude Errors Types Clone Concrete Payload Peers Ledger Config Topic TopicFacts Examples Service Manager Flow Network NetworkFacts NetworkTheorems NetworkPeers ManagerSteps.
#[local] Open Scope Z_scope.

(** A Close that has a listener to close. *)
Definition has_listener (t : thread) : bool :=
  match t with
  | TClose (CCancel (Some _) _ | CUnregister (Some _) _ | CListener (Some _) _) => true
  | _ => false
  end.

(** The service is closed, its listener is open and goroutine [i] accepts from
    it, and no Close has the listener in hand. *)
Record stranded (i : nat) (st : nstate) : Prop := {
  sr_closed : closed st = true;
  sr_listening : ns_listening st = true;
  sr_accept : ns_threads st !! i = Some TAccept;
  sr_nobody : Forall (fun t => has_listener t = false) (ns_threads st)
}.

(** Accept fails. *)
Definition accept_fails (act : net_action) : bool :=
  match act with
  | NRun _ (AnsAccept (Err _)) | NRun _ (AnsAccept (Ok None)) => true
  | _ => false
  end.

Section service.
Context (V : Z).

Lemma handle_listening st c ph a st1 h :
  handleConnection V st c ph a = Some (st1, h) -> ns_listening st1 = ns_listening st.
Proof.
  unfold handleConnection, newNodeToNodePeerConnection, conn_Wait, refuse.
  destruct (ns_conns st !! c) as [p|]; [|done]. cbn [mbind option_bind].
  intros H. destruct ph as [|version| | | | |], a as [| | | | | |d ev r|cfg init| | | | | |]; try done;
    simplify_eq/=; repeat (case_match; simplify_eq/=); done.
Qed.

Lemma finish_listening st i st' : finish st i = NNext st' -> ns_listening st' = ns_listening st.
Proof. unfold finish. destruct (_ <=? _); [done|]. by intros [= <-]. Qed.

Lemma AddPeer_listening st p : ns_listening (call_AddPeer st p) = ns_listening st.
Proof. destruct (call_AddPeer_cases st p) as [->|(_ & q & -> & _)]; done. Qed.

(** Only a failing Accept and a Close with the listener in hand close it. *)
Lemma run_listening st i a t st' :
  ns_threads st !! i = Some t -> has_listener t = false -> accept_fails (NRun i a) = false ->
  ns_listening st = true -> run V st i a = NNext st' -> ns_listening st' = true.
Proof.
  intros Ht Hh Ha Hl. unfold run. rewrite Ht.
  destruct t as [pc| |o c ph|peer backoff pc|c|c| |pc|]; try done.
  - unfold start_step. intros Hs. repeat (case_match; simplify_eq/=; try done).
    by rewrite AddPeer_listening.
  - destruct a as [| | | | | | | | | | |r| |]; try done. unfold acceptLoop. rewrite Hl.
    destruct r as [[[[addr id]|]|]|e]; try done; by intros [= <-].
  - destruct (handleConnection V st c ph a) as [[st1 h]|] eqn:He; [|done].
    apply handle_listening in He. rewrite Hl in He. destruct h; [by intros [= <-]|].
    destruct o; [|by intros [= <-]]. destruct (ns_conns st1 !! c); [|done].
    by intros ->%finish_listening.
  - unfold loop_step, dialAndServe. intros Hs.
    repeat (case_match; simplify_eq/=; try done); apply finish_listening in Hs; by rewrite Hs.
  - unfold forwardErrors. intros Hs. repeat (case_match; simplify_eq/=; try done).
  - unfold pull_step. intros Hs. repeat (case_match; simplify_eq/=; try done).
  - unfold closeOnDone. intros Hs. repeat (case_match; simplify_eq/=; try done).
  - unfold close_step. intros Hs. repeat (case_match; simplify_eq/=; try done).
Qed.

Lemma step_listening st act st' :
  Forall (fun t => has_listener t = false) (ns_threads st) -> accept_fails act = false ->
  ns_listening st = true -> net_step V st act = NNext st' -> ns_listening st' = true.
Proof.
  intros Hn Ha Hl. destruct act as [i a| |peer|err]; simpl.
  - intros Hr. destruct (ns_threads st !! i) as [t|] eqn:Ht; [|unfold run in Hr; by rewrite Ht in Hr].
    eapply (run_listening st i a t); eauto. exact (Forall_lookup_1 _ _ _ _ Hn Ht).
  - by intros [= <-].
  - intros [= <-]. by rewrite AddPeer_listening.
  - destruct (ns_parent st); [done|]. by intros [= <-].
Qed.

(** The accept loop goes on. *)
Lemma step_accept st act st' i :
  net_inv st -> accept_fails act = false -> ns_threads st !! i = Some TAccept ->
  net_step V st act = NNext st' -> ns_threads st' !! i = Some TAccept.
Proof.
  intros Hi Ha Ht. destruct act as [j a| |peer|err]; simpl.
  - intros Hr. destruct (ns_threads st !! j) as [t|] eqn:Hj; [|unfold run in Hr; by rewrite Hj in Hr].
    destruct (decide (j = i)) as [->|Hne].
    + simplify_eq. unfold run in Hr. rewrite Ht in Hr. destruct a as [| | | | | | | | | | |r| |]; try done.
      unfold acceptLoop in Hr. destruct r as [[[[addr id]|]|]|e]; try done;
        (destruct (ns_listening st); [|done]); simplify_eq/=; [by apply lookup_app_l_Some|done].
    + destruct (run_moved V st j a t st' Hi Hj Hr) as (t' & extra & -> & _).
      rewrite list_lookup_insert_ne by done. by apply lookup_app_l_Some.
  - intros [= <-]. simpl. by apply lookup_app_l_Some.
  - intros [= <-]. destruct (call_AddPeer_threads st peer) as [extra ->]. by apply lookup_app_l_Some.
  - destruct (ns_parent st); [done|]. by intros [= <-].
Qed.

Lemma listener_at_work t : at_work t = false -> has_listener t = false.
Proof. by destruct t as [| | | | | | |[]|]. Qed.

(** Once the service is closed no Close takes the listener in hand. *)
Lemma step_nobody st act st' :
  closed st = true -> Forall (fun t => has_listener t = false) (ns_threads st) ->
  net_step V st act = NNext st' -> Forall (fun t => has_listener t = false) (ns_threads st').
Proof.
  intros Hc Hn Hs. destruct (net_step_cases V st act st' Hs) as [Hb|(i & pc & a & Ht & Hcl)].
  - apply Forall_lookup. intros j t Hj. destruct (at_work t) eqn:Hw; [|by apply listener_at_work].
    apply (by_new _ _ Hb) in Hj; [|done]. exact (Forall_lookup_1 _ _ _ _ Hn Hj).
  - pose proof (Forall_lookup_1 _ _ _ _ Hn Ht) as Hh. unfold closed in Hc.
    assert (forall st1 t', ns_threads st1 = ns_threads st -> has_listener t' = false ->
      Forall (fun t => has_listener t = false) (ns_threads (become st1 i t'))) as Hgo.
    { intros st1 t' Hts Ht'. simpl. rewrite Hts. by apply Forall_insert. }
    revert Hcl. unfold close_step. rewrite Hc.
    destruct pc as [|[l|] ps|[l|] ps|[l|] ps|[|c ps] errs|errs|errs], a as [| | | | |k| | | | | | | |];
      try done; try (intros [= <-]; by apply Hgo).
    + destruct ((c :: ps) !! k); [|done]. intros [= <-]. by apply Hgo.
    + destruct (_ =? _); [|done]. intros [= <-]. by apply Hgo.
Qed.

(** A Close that waits, waits on. *)
Lemma step_waits st act st' i j errs :
  net_inv st -> stranded i st -> ns_threads st !! j = Some (TClose (CWait errs)) ->
  net_step V st act = NNext st' -> ns_threads st' !! j = Some (TClose (CWait errs)).
Proof.
  intros Hi Hs Hj Hst. destruct (net_step_cases V st act st' Hst) as [Hb|(k & pc & a & Ht & Hcl)].
  - by apply (by_old _ _ Hb).
  - destruct (close_stays _ _ _ _ _ Ht Hcl) as (st1 & t' & Heq & Hts & _).
    destruct (decide (k = j)) as [->|Hne].
    + exfalso. simplify_eq.
      pose proof (counted_pos st i TAccept Hi (sr_accept _ _ Hs) eq_refl) as Hpos.
      unfold close_step in Hcl. destruct a; try done.
      destruct (ns_wg st =? 0) eqn:Hz; [|done]. zbool. lia.
    + rewrite Heq. simpl. by rewrite list_lookup_insert_ne, Hts.
Qed.

(** The listener stays open and its accept loop stays. *)
Lemma stranded_step st act st' i :
  net_inv st -> stranded i st -> accept_fails act = false -> net_step V st act = NNext st' ->
  stranded i st'.
Proof.
  intros Hi [Hc Hl Ht Hn] Ha Hst. split.
  - by eapply net_step_closed.
  - by eapply step_listening.
  - by eapply step_accept.
  - by eapply step_nobody.
Qed.
End service.

(* ------------------------------------------------------------------ *)
(** ** The service in the system *)

Section system.
Context {X : Type} `{WireLaws X}.
Context (V : Z).
Implicit Types s : system X.

Definition sys_accept_fails (act : sys_action X) : bool :=
  match act with AService _ act => accept_fails act | _ => false end.

(** Steps in which no Accept fails. *)
Definition quietly s s' : Prop :=
  exists act, sys_accept_fails act = false /\ sys_step V s act = SNext s'.

(** What a step does to one service: nothing, or one of the service's steps. *)
Definition service_moves (id : nat) (st : nstate) s' : Prop :=
  exists st', sm_services s' !! id = Some st' /\
    (st' = st \/ exists act, accept_fails act = false /\ net_step V st act = NNext st').

Lemma service_same s s' id st :
  sm_services s !! id = Some st -> sm_services s' = sm_services s -> service_moves id st s'.
Proof. intros Hid Hs. exists st. rewrite Hs. by auto. Qed.

Lemma closing_moves s k current services topics errs pick s' id st :
  sm_services s !! id = Some st -> closing_step s k current services topics errs pick = SNext s' ->
  service_moves id st s'.
Proof.
  intros Hid. unfold closing_step. destruct current as [[id' j]|].
  { intros Hs. repeat (case_match; simplify_eq/=; try done); by eapply service_same. }
  destruct (services !! pick) as [id'|] eqn:Hp.
  2:{ intros Hs. repeat (case_match; simplify_eq/=; try done); by eapply service_same. }
  destruct (sm_services s !! id') as [st1|] eqn:Hid1; [|done]. intros [= <-]. unfold service_moves. simpl.
  rewrite (lookup_insert_present _ _ _ _ _ Hid1). case_decide as Hd.
  - subst id'. simplify_eq. eexists. split; [done|]. right. by exists NCallClose.
  - exists st. by auto.
Qed.

Lemma call_moves s k pick now1 now2 s' id st :
  sm_services s !! id = Some st -> call_step s k pick now1 now2 = SNext s' -> service_moves id st s'.
Proof.
  intros Hid. unfold call_step. destruct (sm_calls s !! k) as [[]|]; try done; intros Hs.
  3:{ destruct (registerService _ _) as [m [e|]]; simplify_eq/=; [by eapply service_same|].
      exists st. split; [|by left]. simpl. by apply lookup_app_l_Some. }
  9: by eapply closing_moves.
  all: unfold shutdown_lock in Hs; repeat (case_match; simplify_eq/=; try done); by eapply service_same.
Qed.

Lemma sys_moves s act s' id st :
  sm_services s !! id = Some st -> sys_accept_fails act = false -> sys_step V s act = SNext s' ->
  service_moves id st s'.
Proof.
  intros Hid Ha. destruct act as [c|k pick now1 now2|k err|id' act]; simpl.
  - destruct (callable c); [|done]. intros [= <-]. by eapply service_same.
  - by apply call_moves.
  - destruct (sm_calls s !! k) as [[]|]; try done. intros [= <-]. by eapply service_same.
  - unfold service_act. destruct (sm_services s !! id') as [st1|] eqn:Hid1; [|done].
    destruct (match act with NRun _ _ => _ | _ => _ end) as [m act'] eqn:Heq.
    assert (accept_fails act' = false) as Ha'.
    { simpl in Ha. destruct act as [i a| | |]; simplify_eq; try done. unfold manager_answer in Heq.
      repeat (case_match; simplify_eq/=; try done). }
    destruct (usable st1 act'); [|done]. destruct (net_step V st1 act') as [| |st'] eqn:Hst; try done.
    intros [= <-]. unfold service_moves. simpl. rewrite (lookup_insert_present _ _ _ _ _ Hid1). case_decide as Hd.
    + subst id'. simplify_eq. exists st'. split; [done|]. right. by exists act'.
    + exists st. by auto.
Qed.

(** A call stays as it is until it takes a step itself. *)
Lemma call_kept s k pick now1 now2 s' k' c :
  sm_calls s !! k' = Some c -> k' <> k -> call_step s k pick now1 now2 = SNext s' ->
  sm_calls s' !! k' = Some c.
Proof.
  intros Hk' Hne. assert (forall s1 c1, sm_calls s1 = sm_calls s ->
    sm_calls (set_call s1 k c1) !! k' = Some c) as Hset.
  { intros s1 c1 Hc. simpl. by rewrite list_lookup_insert_ne, Hc. }
  unfold call_step, closing_step, shutdown_lock.
  destruct (sm_calls s !! k) as [[]|]; try done; intros Hs;
    repeat (case_match; simplify_eq/=; try done); try by apply Hset.
  apply lookup_app_l_Some. by rewrite list_lookup_insert_ne.
Qed.

Lemma step_kept s act s' k c :
  sm_calls s !! k = Some c -> (forall pick now1 now2, call_step s k pick now1 now2 = SBlocked) ->
  sys_step V s act = SNext s' ->
  sm_calls s' !! k = Some c \/ exists w err, c = KWaiting w /\ sm_calls s' !! k = Some (KReturned (Some err)).
Proof.
  intros Hk Hb. destruct act as [c'|k' pick now1 now2|k' err|id act]; simpl.
  - destruct (callable c'); [|done]. intros [= <-]. left. simpl. by apply lookup_app_l_Some.
  - intros Hs. left. destruct (decide (k = k')) as [->|Hne]; [by rewrite Hb in Hs|].
    by eapply call_kept.
  - destruct (sm_calls s !! k') as [c0|] eqn:Hk'; [|done]. destruct c0; try done. intros [= <-]. simpl.
    destruct (decide (k = k')) as [->|Hne]; [|left; by rewrite list_lookup_insert_ne].
    simplify_eq. right. exists worker, err. split; [done|].
    by rewrite list_lookup_insert_eq by (by eapply lookup_lt_Some).
  - unfold service_act. destruct (sm_services s !! id); [|done].
    destruct (match act with NRun _ _ => _ | _ => _ end) as [m act'].
    destruct (usable _ _); [|done]. destruct (net_step _ _ _); try done. intros [= <-]. by left.
Qed.

(** Call [c] of Shutdown waits for its goroutine [w], or was told that its
    context has ended. *)
Definition waits s (w c : nat) : Prop :=
  sm_calls s !! c = Some (KWaiting w) \/ exists err, sm_calls s !! c = Some (KReturned (Some err)).

(** The goroutine [k] of a Shutdown waits for the Close [j] of service [id],
    which itself waits for goroutines. *)
Definition hangs s (id j k : nat) (c : call X) : Prop :=
  sm_calls s !! k = Some c /\ (exists sv tp errs, c = KClosing (Some (id, j)) sv tp errs) /\
  exists st errs, sm_services s !! id = Some st /\ ns_threads st !! j = Some (TClose (CWait errs)).

Lemma hangs_blocked s id j k c pick now1 now2 :
  hangs s id j k c -> call_step s k pick now1 now2 = SBlocked.
Proof.
  intros (Hk & (sv & tp & errs & ->) & st & errs' & Hid & Hj). unfold call_step, closing_step.
  by rewrite Hk, Hid, Hj.
Qed.

Lemma waits_step s act s' id j k c w :
  hangs s id j k w -> waits s k c -> sys_step V s act = SNext s' -> waits s' k c.
Proof.
  intros Hh Hw Hst. destruct Hw as [Hw|[err Hw]].
  - destruct (step_kept s act s' c _ Hw) as [?|(w' & err & _ & ?)]; [|done|by left|right; by eexists].
    intros. destruct Hh as (Hk & (sv & tp & errs & ->) & _). unfold call_step. by rewrite Hw, Hk.
  - right. destruct (step_kept s act s' c _ Hw) as [?|(w' & err' & ? & _)]; [|done|by eexists|done].
    intros. unfold call_step. by rewrite Hw.
Qed.

(** What lasts: the open listener with its accept loop, and whoever waits. *)
Definition lasting (id i : nat) s s' : Prop :=
  (exists st, sm_services s' !! id = Some st /\ stranded i st) /\
  (forall j k w, hangs s id j k w -> hangs s' id j k w /\ forall c, waits s k c -> waits s' k c).

Lemma lasting_step id i s s' :
  sys_inv s -> (exists st, sm_services s !! id = Some st /\ stranded i st) -> quietly s s' -> lasting id i s s'.
Proof.
  intros Hi (st & Hid & Hs) (act & Ha & Hst). pose proof (proj1 (bi_alive _ (si_base _ Hi) _ _ Hid)) as Hinv.
  destruct (sys_moves s act s' id st Hid Ha Hst) as (st' & Hid' & Hmv).
  assert (stranded i st' /\ forall j errs, ns_threads st !! j = Some (TClose (CWait errs)) ->
    ns_threads st' !! j = Some (TClose (CWait errs))) as [Hs' Hw].
  { destruct Hmv as [->|(act' & Ha' & Hst')]; [done|].
    split; [by eapply stranded_step|]. intros j errs Hj. by eapply step_waits. }
  split; [by exists st'|]. intros j k w Hh. split; [|intros c Hc; by eapply waits_step].
  assert (forall pick now1 now2, call_step s k pick now1 now2 = SBlocked) as Hb.
  { intros. by eapply hangs_blocked. }
  destruct Hh as (Hk & (sv & tp & errs & ->) & st0 & errs' & Hid0 & Hj). simplify_eq. split_and!.
  - destruct (step_kept s act s' k _ Hk Hb Hst) as [?|(w' & err & ? & _)]; done.
  - by eauto.
  - exists st', errs'. by auto.
Qed.

(** In every continuation in which no Accept fails. *)
Lemma lasting_rtc id i s s' :
  sys_inv s -> (exists st, sm_services s !! id = Some st /\ stranded i st) -> rtc quietly s s' ->
  lasting id i s s'.
Proof.
  intros Hi Hs Hr. induction Hr as [s|s1 s2 s3 H1 _ IH]; [by split|].
  destruct (lasting_step id i s1 s2 Hi Hs H1) as [Hs2 Hw].
  assert (sys_inv s2) as Hi2.
  { destruct H1 as (act & _ & Hst). pose proof (sys_step_safe V s1 act Hi) as Hok. by rewrite Hst in Hok. }
  destruct (IH Hi2 Hs2) as [Hs3 Hw']. split; [done|]. intros j k w Hh.
  destruct (Hw j k w Hh) as [Hh2 Hc2]. destruct (Hw' j k w Hh2) as [Hh3 Hc3]. by auto.
Qed.
End system.

(* ------------------------------------------------------------------ *)
(** ** Such states are reached *)

(** Shutdown's Close runs before start has a listener; start then goes on. *)
Definition overtaken_start : list (sys_action unit) :=
  registers ++ shuts ++ goes 1 7 ++ steps_of 3 3 ++ steps_of 2 1 ++ listens ++ goes 3 2.

(** As before, but start goes on before that Close reaches its wait. *)
Definition overtaken_wait : list (sys_action unit) :=
  registers ++ shuts ++ goes 1 5 ++ listens ++ goes 3 2.

(** A stranded service, as a test. *)
Definition stranded_test (i : nat) (st : nstate) : bool :=
  closed st && ns_listening st && (match ns_threads st !! i with Some TAccept => true | _ => false end)
  && forallb (fun t => negb (has_listener t)) (ns_threads st).

Lemma stranded_tested i st : stranded_test i st = true -> stranded i st.
Proof.
  unfold stranded_test. intros [[[H1 H2]%andb_true_iff H3]%andb_true_iff H4]%andb_true_iff.
  split; [done|done| |].
  - by destruct (ns_threads st !! i) as [[]|].
  - apply Forall_forall. intros t Ht. rewrite forallb_forall in H4.
    specialize (H4 t (proj1 (list_elem_of_In _ _) Ht)). by destruct (has_listener t).
Qed.

Definition ex_sys_config : ManagerConfig unit := mkManagerConfig None None.

Lemma reached_lasting (s s' : system unit) :
  sys_reachable 1 ex_sys_config s ->
  (exists st, sm_services s !! 0%nat = Some st /\ stranded_test 2 st = true) ->
  rtc (quietly 1) s s' -> lasting 0 2 s s'.
Proof.
  intros Hr (st & Hid & Ht). apply lasting_rtc; [by eapply sys_reachable_inv|].
  exists st. split; [done|]. by apply stranded_tested.
Qed.

(** C39: A service is registered before it is started, so that Shutdown can
    overtake its start, with these two results. A state is reachable in which
    StartNodeToNode and Shutdown have returned, Shutdown without an error, the
    service is closed and unregistered, and yet, in every continuation in which
    no Accept fails, its listening socket stays open with its accept loop
    running: start does not look at the closed flag before it listens. And a
    state is reachable in which Shutdown has not returned, and in no
    continuation in which no Accept fails will its goroutine go on or Shutdown
    return but for the end of its context: the Close it waits for waits for
    that accept loop, whose listener it has no copy of. *)
Theorem start_overtaken_by_Shutdown :
  (exists s st, sys_reachable 1 ex_sys_config s /\
     sm_calls s = [KReturned None; KStarting 0; KReturned None; KClosed None] /\
     sm_services s = [st] /\ ns_threads st = [TDone; TDone; TAccept; TDone] /\
     closed st = true /\ ns_registered st = false /\
     forall s', rtc (quietly 1) s s' -> exists st', sm_services s' !! 0%nat = Some st' /\
       ns_listening st' = true /\ ns_threads st' !! 2%nat = Some TAccept) /\
  (exists s worker, sys_reachable 1 ex_sys_config s /\
     sm_calls s = [KReturned None; KStarting 0; KWaiting 3; worker] /\
     forall s', rtc (quietly 1) s s' ->
       sm_calls s' !! 3%nat = Some worker /\
       (forall pick now1 now2, sys_step 1 s' (ARun 3 pick now1 now2) = SBlocked) /\
       (sm_calls s' !! 2%nat = Some (KWaiting 3) \/
        exists err, sm_calls s' !! 2%nat = Some (KReturned (Some err)))).
Proof.
  split.
  - pose proof (sys_reached_reachable overtaken_start) as Hre.
    assert (sm_calls (sys_reached overtaken_start)
      = [KReturned None; KStarting 0; KReturned None; KClosed None]) as Hcalls by (by vm_compute).
    assert (ns_threads <$> sm_services (sys_reached overtaken_start) = [[TDone; TDone; TAccept; TDone]])
      as Ht by (by vm_compute).
    assert (ns_registered <$> sm_services (sys_reached overtaken_start) = [false]) as Hr by (by vm_compute).
    assert (stranded_test 2 <$> sm_services (sys_reached overtaken_start) = [true]) as Hst by (by vm_compute).
    revert Hre Hcalls Ht Hr Hst. generalize (sys_reached overtaken_start). intros s Hre Hcalls Ht Hr Hst.
    destruct (sm_services s) as [|st [|? ?]] eqn:Hsv; try done.
    injection Ht as Ht. injection Hr as Hr. injection Hst as Hst.
    pose proof (sr_closed _ _ (stranded_tested _ _ Hst)) as Hc.
    exists s, st. split_and!; try done.
    intros s' Hq. destruct (reached_lasting s s') as [(st' & Hid & [_ Hl Ha _]) _]; [done| |done|].
    + exists st. by rewrite Hsv.
    + by exists st'.
  - set (worker := KClosing (X := unit) (Some (0%nat, 1%nat)) [] ["t"] []).
    pose proof (sys_reached_reachable overtaken_wait) as Hre.
    assert (ns_threads <$> sm_services (sys_reached overtaken_wait)
      = [[TDone; TClose (CWait []); TAccept; TDone]]) as Ht by (by vm_compute).
    assert (stranded_test 2 <$> sm_services (sys_reached overtaken_wait) = [true]) as Hst by (by vm_compute).
    assert (sm_calls (sys_reached overtaken_wait) = [KReturned None; KStarting 0; KWaiting 3; worker])
      as Hcalls by (by vm_compute).
    revert Hre Hcalls Ht Hst. generalize (sys_reached overtaken_wait). intros s Hre Hcalls Ht Hst.
    destruct (sm_services s) as [|st [|? ?]] eqn:Hsv; try done.
    injection Ht as Ht. injection Hst as Hst.
    assert (hangs s 0 1 3 worker) as Hh.
    { split_and!; [by rewrite Hcalls|by do 3 eexists|]. exists st, []. by rewrite Hsv, Ht. }
    exists s, worker. split_and!; [done|done|].
    intros s' Hq. destruct (reached_lasting s s') as [_ Hl]; [done|exists st; by rewrite Hsv|done|].
    destruct (Hl 1%nat 3%nat worker Hh) as [Hh' Hw]. split_and!.
    + apply Hh'.
    + intros. by eapply hangs_blocked.
    + apply (Hw 2%nat). left. by rewrite Hcalls.
Qed.
