(* ===== verification/Cardano.v ===== *)
(** * Cardano timing (cardano.go)

    Slots, epochs and KES periods from wall-clock time and back. Slot numbers
    are uint64; the additions and multiplications that could leave the range
    are checked as the code checks them. The genesis reader is in [Genesis]. *)

From S2P Require Import Prelude Errors.

(** The days from 1970-01-01 to a date of the proleptic Gregorian calendar:
    years start in March so that the leap day comes last. *)
Definition days_of_date (y m d : Z) : Z :=
  let y := if m <=? 2 then y - 1 else y in
  let m := if m <=? 2 then m + 9 else m - 3 in
  365 * y + y / 4 - y / 100 + y / 400 + (153 * m + 2) / 5 + d - 1 - 719468.

(** time.Date(y, m, d, hh, mm, ss, 0, time.UTC) *)
Definition Date (y m d hh mm ss : Z) : Time :=
  Time_of_Unix (days_of_date y m d * 86400 + hh * 3600 + mm * 60 + ss) 0.

Definition CardanoSlotsPerKESPeriod : Z := 129600.
Definition CardanoMainnetShelleyStartSlot : Z := 4492800.
Definition CardanoPreprodShelleyStartSlot : Z := 86400.

Definition cardanoMainnetShelleyStart : Time := Date 2020 7 29 21 44 51.
Definition cardanoPreprodShelleyStart : Time := Date 2022 6 21 0 0 0.

Record NetworkParams := mkParams {
  np_Start : Time;
  np_AbsoluteStartSlot : Z;
  np_SlotLength : Duration;
  np_EpochLength : Z;
  np_SlotsPerKESPeriod : Z;
  np_MaxKESEvolutions : Z
}.

Definition NetworkParamsForMagic (magic : Z) : result NetworkParams :=
  if magic =? 764824073 then
    Ok (mkParams cardanoMainnetShelleyStart CardanoMainnetShelleyStartSlot Second 432000
          CardanoSlotsPerKESPeriod 62)
  else if magic =? 1 then
    Ok (mkParams cardanoPreprodShelleyStart CardanoPreprodShelleyStartSlot Second 432000
          CardanoSlotsPerKESPeriod 62)
  else if magic =? 2 then
    Ok (mkParams (Date 2022 10 25 0 0 0) 0 Second 86400 CardanoSlotsPerKESPeriod 62)
  else
    Err (Errorf "unknown network magic %d (mainnet=764824073, preprod=1, preview=2)"
           [ArgInt magic]).

(** A slot length that is not positive means one second. *)
Definition slot_length (p : NetworkParams) : Duration :=
  if np_SlotLength p <=? 0 then Second else np_SlotLength p.

Definition CurrentSlotFor (p : NetworkParams) (now : Time) : result Z :=
  let slotLength := slot_length p in
  let before :=
    Errorf "clock %s is before network start %s" [ArgTime now; ArgTime (np_Start p)] in
  if Time_Before now (np_Start p) then Err before
  else
    let slotDuration := Z.quot (Time_Sub now (np_Start p)) slotLength in
    if slotDuration <? 0 then Err before
    else Ok (u64 slotDuration).

Definition currentAbsoluteSlotFor (p : NetworkParams) (now : Time) : result Z :=
  slot ← CurrentSlotFor p now;
  if slot >? u64 (max_u64 - np_AbsoluteStartSlot p) then
    Err (Errorf "slot overflow: absolute start slot %d plus relative slot %d"
           [ArgInt (np_AbsoluteStartSlot p); ArgInt slot])
  else Ok (u64 (np_AbsoluteStartSlot p + slot)).

Definition CurrentKESPeriodFor (p : NetworkParams) (now : Time) : result Z :=
  if np_SlotsPerKESPeriod p =? 0 then Err (ErrNew "slotsPerKESPeriod must be > 0")
  else
    slot ← currentAbsoluteSlotFor p now;
    Ok (slot / np_SlotsPerKESPeriod p).

Definition CurrentEpochFor (p : NetworkParams) (now : Time) : result Z :=
  if np_EpochLength p =? 0 then Err (ErrNew "epochLength must be > 0")
  else
    slot ← CurrentSlotFor p now;
    Ok (slot / np_EpochLength p).

Definition CurrentKESPeriod (magic : Z) (now : Time) : result Z :=
  p ← NetworkParamsForMagic magic;
  CurrentKESPeriodFor p now.

(** bits.Mul64: the high and the low word of the product. *)
Definition Mul64 (a b : Z) : Z * Z := (a * b / 2 ^ 64, u64 (a * b)).

Definition KESPeriodStart (p : NetworkParams) (period : Z) : Time :=
  let slotLength := slot_length p in
  let '(slotsHi, slots) := Mul64 period (np_SlotsPerKESPeriod p) in
  if negb (slotsHi =? 0) then zero_time
  else if slots <? np_AbsoluteStartSlot p then zero_time
  else
    let slots := u64 (slots - np_AbsoluteStartSlot p) in
    let '(nanosHi, nanos) := Mul64 slots (u64 slotLength) in
    if negb (nanosHi =? 0) || (nanos >? max_i64) then zero_time
    else Time_Add (np_Start p) nanos.

(* ------------------------------------------------------------------ *)
(** ** Facts *)

(** Field values that fit their Go types. *)
Record params_typed (p : NetworkParams) : Prop := {
  pt_start_slot : is_u64 (np_AbsoluteStartSlot p);
  pt_length : is_i64 (np_SlotLength p);
  pt_epoch : is_u64 (np_EpochLength p);
  pt_period : is_u64 (np_SlotsPerKESPeriod p)
}.

Lemma slot_length_pos p : params_typed p -> 0 < slot_length p < 2 ^ 63.
Proof.
  intros [_ Hl _ _]. unfold slot_length, is_i64, Second in *.
  destruct (_ <=? _) eqn:E; zbool; lia.
Qed.

Lemma Mul64_hi a b : 0 <= a -> 0 <= b -> (Mul64 a b).1 = 0 <-> a * b < 2 ^ 64.
Proof.
  intros Ha Hb. simpl. split; intros Hm.
  - apply Z.nle_gt. intros Hge. pose proof (Z.div_le_mono (2 ^ 64) (a * b) (2 ^ 64)).
    rewrite Z_div_same in *; lia.
  - apply Z.div_small. nia.
Qed.

(** What has elapsed since the start, as time.Time.Sub reports it. *)
Definition elapsed (p : NetworkParams) (now : Time) : Duration := Z.min max_i64 (now - np_Start p).

Lemma CurrentSlotFor_spec p now :
  params_typed p ->
  if now <? np_Start p then is_Ok (CurrentSlotFor p now) = false
  else CurrentSlotFor p now = Ok (elapsed p now / slot_length p) /\
       0 <= elapsed p now / slot_length p < 2 ^ 63.
Proof.
  intros Hp. pose proof (slot_length_pos p Hp) as Hl. unfold CurrentSlotFor, Time_Before. cbv zeta.
  destruct (now <? np_Start p) eqn:E; zbool; [done|].
  assert (Time_Sub now (np_Start p) = elapsed p now) as ->.
  { unfold Time_Sub, elapsed, min_i64, max_i64. lia. }
  assert (0 <= elapsed p now < 2 ^ 63) as He by (unfold elapsed, max_i64; lia).
  rewrite Z.quot_div_nonneg by lia.
  assert (0 <= elapsed p now / slot_length p < 2 ^ 63) as Hs.
  { split; [apply Z.div_pos; lia|]. apply Z.div_lt_upper_bound; nia. }
  destruct (_ <? 0) eqn:E'; zbool; [lia|]. rewrite u64_id by (unfold is_u64; lia). done.
Qed.

(** CurrentSlotFor fails exactly when the clock is before the network start;
    otherwise the slot it returns is the one whose interval contains the clock
    (as far as a time.Duration reaches, 292 years after the start), and
    currentAbsoluteSlotFor adds the start slot without ever wrapping around: it
    fails when the sum does not fit a uint64. *)
Theorem slot_contains_clock p now :
  params_typed p ->
  if now <? np_Start p then
    is_Ok (CurrentSlotFor p now) = false /\ is_Ok (currentAbsoluteSlotFor p now) = false
  else exists slot, CurrentSlotFor p now = Ok slot /\
    (now - np_Start p <= max_i64 ->
     np_Start p + slot * slot_length p <= now < np_Start p + (slot + 1) * slot_length p) /\
    (if np_AbsoluteStartSlot p + slot <=? max_u64
     then currentAbsoluteSlotFor p now = Ok (np_AbsoluteStartSlot p + slot)
     else is_Ok (currentAbsoluteSlotFor p now) = false).
Proof.
  intros Hp. pose proof (CurrentSlotFor_spec p now Hp) as Hs.
  pose proof (slot_length_pos p Hp) as Hl.
  unfold currentAbsoluteSlotFor. destruct (now <? np_Start p) eqn:E.
  { split; [done|]. by destruct (CurrentSlotFor p now). }
  destruct Hs as [-> Hs]. eexists. split; [done|]. simpl. split.
  - unfold elapsed. intros He. rewrite Z.min_r by lia.
    pose proof (Z.mul_div_le (now - np_Start p) (slot_length p) ltac:(lia)).
    pose proof (Z.mul_succ_div_gt (now - np_Start p) (slot_length p) ltac:(lia)). lia.
  - destruct Hp as [Ha _ _ _]. unfold is_u64, max_u64 in *. rewrite (u64_id (_ - _)) by (unfold is_u64; lia).
    destruct (_ <=? _) eqn:E1, (_ >? _) eqn:E2; zbool; try lia; [|done].
    by rewrite u64_id by (unfold is_u64; lia).
Qed.

Lemma currentAbsoluteSlotFor_Ok p now slot :
  params_typed p -> currentAbsoluteSlotFor p now = Ok slot ->
  np_Start p <= now /\ slot = np_AbsoluteStartSlot p + elapsed p now / slot_length p.
Proof.
  intros Hp. unfold currentAbsoluteSlotFor. pose proof (CurrentSlotFor_spec p now Hp) as Hs.
  destruct (now <? np_Start p) eqn:E; zbool; [by destruct (CurrentSlotFor p now)|].
  destruct Hs as [-> Hr]. simpl. destruct Hp as [Ha _ _ _]. unfold is_u64, max_u64 in *.
  rewrite (u64_id (_ - _)) by (unfold is_u64; lia).
  destruct (_ >? _) eqn:E2; zbool; [done|]. intros [= <-].
  rewrite u64_id by (unfold is_u64; lia). done.
Qed.

(** The start of a period can be computed: no overflow, and not before the
    start of the network. *)
Definition period_start_ok (p : NetworkParams) (period : Z) : Prop :=
  np_AbsoluteStartSlot p <= period * np_SlotsPerKESPeriod p < 2 ^ 64 /\
  (period * np_SlotsPerKESPeriod p - np_AbsoluteStartSlot p) * slot_length p <= max_i64.

#[export] Instance period_start_ok_dec p period : Decision (period_start_ok p period).
Proof. unfold period_start_ok. apply _. Defined.

Lemma KESPeriodStart_spec p period :
  params_typed p -> is_u64 period ->
  KESPeriodStart p period =
    if bool_decide (period_start_ok p period)
    then np_Start p + (period * np_SlotsPerKESPeriod p - np_AbsoluteStartSlot p) * slot_length p
    else zero_time.
Proof.
  intros Hp Hk. pose proof (slot_length_pos p Hp) as Hl. destruct Hp as [Ha _ _ Hs].
  unfold KESPeriodStart. pose proof (Mul64_hi period (np_SlotsPerKESPeriod p)) as Hm.
  unfold Mul64 in *. cbv zeta. simpl in Hm. unfold is_u64 in *. specialize (Hm ltac:(lia) ltac:(lia)).
  destruct (period * np_SlotsPerKESPeriod p / 2 ^ 64 =? 0) eqn:E1; zbool; simpl.
  2:{ rewrite bool_decide_false; [done|]. unfold period_start_ok. tauto. }
  apply Hm in E1. assert (0 <= period * np_SlotsPerKESPeriod p) by nia.
  rewrite (u64_id (period * _)) by (unfold is_u64; lia).
  destruct (_ <? _) eqn:E2; zbool.
  { rewrite bool_decide_false; [done|]. unfold period_start_ok. lia. }
  set (slots := period * np_SlotsPerKESPeriod p - np_AbsoluteStartSlot p).
  rewrite (u64_id slots), (u64_id (slot_length p)) by (unfold slots, is_u64; lia).
  pose proof (Mul64_hi slots (slot_length p) ltac:(lia) ltac:(lia)) as Hm2. simpl in Hm2.
  destruct (slots * slot_length p / 2 ^ 64 =? 0) eqn:E3; zbool; simpl.
  2:{ rewrite bool_decide_false; [done|]. unfold period_start_ok, max_i64 in *. fold slots. lia. }
  apply Hm2 in E3. rewrite u64_id by (unfold is_u64; nia).
  destruct (_ >? max_i64) eqn:E4; zbool.
  - rewrite bool_decide_false; [done|]. unfold period_start_ok. fold slots. lia.
  - rewrite bool_decide_true; [done|]. unfold period_start_ok. fold slots. lia.
Qed.

(** A clock reaches a period when it reaches the start of the period. *)
Lemma period_reached p period now k :
  params_typed p -> 0 < np_SlotsPerKESPeriod p -> is_u64 period ->
  np_Start p <= now -> now - np_Start p <= max_i64 -> CurrentKESPeriodFor p now = Ok k ->
  if bool_decide (period_start_ok p period) then (period <= k <-> KESPeriodStart p period <= now)
  else KESPeriodStart p period = zero_time.
Proof.
  intros Hp Hpos Hk Hge Hle Hcur. rewrite KESPeriodStart_spec by done.
  case_bool_decide as Hok; [|done]. destruct Hok as [[Hlo Hhi] Hn].
  pose proof (slot_length_pos p Hp) as Hl.
  unfold CurrentKESPeriodFor in Hcur. destruct (_ =? 0) eqn:E0; zbool; [lia|].
  apply result_bind_Ok in Hcur as (slot & Hslot & [= <-]).
  apply currentAbsoluteSlotFor_Ok in Hslot as [_ ->]; [|done].
  unfold elapsed in *. rewrite Z.min_r in * by lia.
  set (q := (now - np_Start p) / slot_length p) in *.
  rewrite le_div_iff by lia.
  transitivity (period * np_SlotsPerKESPeriod p - np_AbsoluteStartSlot p <= q); [lia|].
  unfold q. rewrite le_div_iff; lia.
Qed.

(** C35: KESPeriodStart and CurrentKESPeriodFor agree: for a period whose start
    can be computed (no overflow, not before the network start), a clock within
    292 years of the network start has reached the period exactly when it has
    reached the period's start time; a start that cannot be computed is
    reported as the zero time. *)
Theorem KESPeriodStart_is_threshold p period now k :
  params_typed p -> 0 < np_SlotsPerKESPeriod p -> is_u64 period ->
  np_Start p <= now -> now - np_Start p <= max_i64 -> CurrentKESPeriodFor p now = Ok k ->
  if bool_decide (period_start_ok p period) then (period <= k <-> KESPeriodStart p period <= now)
  else KESPeriodStart p period = zero_time.
Proof. apply period_reached. Qed.

Lemma CurrentKESPeriodFor_started p now k :
  params_typed p -> CurrentKESPeriodFor p now = Ok k -> np_Start p <= now.
Proof.
  intros Hp. unfold CurrentKESPeriodFor. destruct (_ =? 0); [done|].
  intros (slot & Hslot & _)%result_bind_Ok. by apply currentAbsoluteSlotFor_Ok in Hslot as [? _].
Qed.

(** The KES period never goes back: a later clock gives a period at least
    as high, on any network. *)
Lemma period_monotone p now now' k k' :
  params_typed p -> now <= now' ->
  CurrentKESPeriodFor p now = Ok k -> CurrentKESPeriodFor p now' = Ok k' -> k <= k'.
Proof.
  intros Hp Hle. unfold CurrentKESPeriodFor. destruct (_ =? 0) eqn:E0; zbool; [done|].
  intros (slot & Hslot & [= <-])%result_bind_Ok (slot' & Hslot' & [= <-])%result_bind_Ok.
  pose proof (slot_length_pos p Hp). destruct (Hp) as [_ _ _ Hsp]. unfold is_u64 in Hsp.
  apply Z.div_le_mono; [lia|].
  apply currentAbsoluteSlotFor_Ok in Hslot as [_ ->]; [|done].
  apply currentAbsoluteSlotFor_Ok in Hslot' as [_ ->]; [|done].
  apply Z.add_le_mono_l, Z.div_le_mono; [lia|]. unfold elapsed. lia.
Qed.

(** For mainnet, preprod and preview the parameters are usable (positive
    slot length, epoch length and KES period length, 62 evolutions) and the
    Shelley start slots and times are the published ones (Unix seconds); any
    other magic is refused. *)
Theorem known_networks magic :
  match NetworkParamsForMagic magic with
  | Ok p =>
      params_typed p /\ np_SlotLength p = Second /\ 0 < np_EpochLength p /\
      np_SlotsPerKESPeriod p = 129600 /\ np_MaxKESEvolutions p = 62 /\
      (magic, np_AbsoluteStartSlot p, Time_Unix (np_Start p))
        ∈ [(764824073, 4492800, 1596059091); (1, 86400, 1655769600); (2, 0, 1666656000)]
  | Err _ => magic ∉ [764824073; 1; 2]
  end.
Proof.
  unfold NetworkParamsForMagic.
  destruct (magic =? 764824073) eqn:E1; zbool; [|destruct (magic =? 1) eqn:E2; zbool;
    [|destruct (magic =? 2) eqn:E3; zbool]].
  4:{ set_solver. }
  - subst. split; [split; by vm_compute|]. split_and!; try done. by left.
  - subst. split; [split; by vm_compute|]. split_and!; try done.
    right. by left.
  - subst. split; [split; by vm_compute|]. split_and!; try done.
    do 2 right. by left.
Qed.

(* ------------------------------------------------------------------ *)
(** ** Witnesses *)

Definition mainnet : NetworkParams :=
  mkParams cardanoMainnetShelleyStart CardanoMainnetShelleyStartSlot Second 432000
    CardanoSlotsPerKESPeriod 62.

Lemma mainnet_typed : params_typed mainnet.
Proof. split; by vm_compute. Qed.

Lemma KESPeriodStart_is_threshold_witness :
  CurrentKESPeriodFor mainnet (Time_of_Unix 1700000000 0) = Ok 836 /\
  KESPeriodStart mainnet 836 <= Time_of_Unix 1700000000 0.
Proof.
  assert (CurrentKESPeriodFor mainnet (Time_of_Unix 1700000000 0) = Ok 836) as Hc by (by vm_compute).
  split; [done|].
  pose proof (KESPeriodStart_is_threshold mainnet 836 (Time_of_Unix 1700000000 0) 836
    mainnet_typed ltac:(by vm_compute) ltac:(by vm_compute) ltac:(by vm_compute)
    ltac:(by vm_compute) Hc) as Ht.
  rewrite bool_decide_true in Ht by (by vm_compute). apply Ht. lia.
Defined.

