(* ===== verification/Genesis.v ===== *)
(** * Timing parameters from a Shelley genesis file (cardano.go)

    NetworkParamsFromShelleyGenesis after its file is read and decoded, with
    what it uses of the Go library: time.Parse for the layout RFC3339, and the
    float64 slot length, multiplied and truncated to a time.Duration. Floats
    are those of the standard library's [SpecFloat], binary64 as 53 and 1024.
    The Go language leaves the conversion of a float outside the range of
    int64 to the implementation: it is the argument [oob]. *)

From S2P Require Import Prelude Errors Cardano.
From Stdlib Require Import SpecFloat.

(* ------------------------------------------------------------------ *)
(** ** time.Parse(time.RFC3339, value) *)

(** isDigit, with the value of the digit. *)
Definition digit (c : Ascii.ascii) : option Z :=
  let n := Z.of_N (Ascii.N_of_ascii c) in
  if (48 <=? n) && (n <=? 57) then Some (n - 48) else None.

(** getnum: one or two digits, exactly two when [fixed]. *)
Definition getnum (fixed : bool) (s : string) : option (Z * string) :=
  match s with
  | EmptyString => None
  | String c s1 =>
      d ← digit c;
      let one := if fixed then None else Some (d, s1) in
      match s1 with
      | EmptyString => one
      | String c2 s2 =>
          match digit c2 with
          | None => one
          | Some d2 => Some (d * 10 + d2, s2)
          end
      end
  end.

(** The four digits of the year. *)
Definition getyear (s : string) : option (Z * string) :=
  '(hi, s) ← getnum true s;
  '(lo, s) ← getnum true s;
  Some (hi * 100 + lo, s).

(** skip: one character of the layout. *)
Definition skip (c : Ascii.ascii) (s : string) : option string :=
  match s with
  | String c' s => if Ascii.eqb c c' then Some s else None
  | EmptyString => None
  end.

Fixpoint take_digits (s : string) : list Z * string :=
  match s with
  | String c s' =>
      match digit c with
      | Some d => let '(ds, rest) := take_digits s' in (d :: ds, rest)
      | None => ([], s)
      end
  | EmptyString => ([], s)
  end.

Definition of_digits (ds : list Z) : Z := fold_left (fun n d => n * 10 + d) ds 0.

(** parseNanoseconds: digits after the ninth are dropped. *)
Definition nanoseconds (ds : list Z) : Z :=
  let ds := take 9 ds in of_digits ds * 10 ^ (9 - Z.of_nat (length ds)).

(** A fraction after the seconds, which the layout does not ask for. *)
Definition fraction (s : string) : Z * string :=
  match s with
  | String c s' =>
      if Ascii.eqb c "."%char || Ascii.eqb c ","%char then
        let '(ds, rest) := take_digits s' in
        match ds with [] => (0, s) | _ => (nanoseconds ds, rest) end
      else (0, s)
  | EmptyString => (0, s)
  end.

(** The offset in seconds: Z, or a sign with hours and minutes. *)
Definition zone (s : string) : option (Z * string) :=
  match s with
  | EmptyString => None
  | String c s =>
      if Ascii.eqb c "Z"%char then Some (0, s)
      else
        '(hr, s) ← getnum true s;
        s ← skip ":"%char s;
        '(mm, s) ← getnum true s;
        if (hr >? 24) || (mm >? 60) then None
        else
          let off := (hr * 60 + mm) * 60 in
          if Ascii.eqb c "+"%char then Some (off, s)
          else if Ascii.eqb c "-"%char then Some (- off, s)
          else None
  end.

Definition isLeap (y : Z) : bool :=
  (y mod 4 =? 0) && (negb (y mod 100 =? 0) || (y mod 400 =? 0)).

Definition daysIn (m y : Z) : Z :=
  if m =? 2 then if isLeap y then 29 else 28
  else 30 + Z.land (m + Z.shiftr m 3) 1.

Definition parse_RFC3339 (s : string) : option Time :=
  '(year, s) ← getyear s;
  s ← skip "-"%char s;
  '(month, s) ← getnum true s;
  s ← skip "-"%char s;
  '(day, s) ← getnum true s;
  s ← skip "T"%char s;
  '(hour, s) ← getnum false s;
  s ← skip ":"%char s;
  '(min, s) ← getnum true s;
  s ← skip ":"%char s;
  '(sec, s) ← getnum true s;
  let '(nsec, s) := fraction s in
  '(off, s) ← zone s;
  if (1 <=? month) && (month <=? 12) && (hour <? 24) && (min <? 60) && (sec <? 60)
     && (1 <=? day) && (day <=? daysIn month year) && bool_decide (s = "")
  then Some (Date year month day hour min sec + nsec - off * Second)
  else None.

(* ------------------------------------------------------------------ *)
(** ** Floats *)

(** float64(time.Second) *)
Definition float_Second : spec_float := binary_normalize 53 1024 1000000000 0 false.

(** time.Duration(f): truncation towards zero. *)
Definition Duration_of_float (oob : spec_float -> Z) (f : spec_float) : Duration :=
  match f with
  | S754_zero _ => 0
  | S754_finite s m e =>
      let a := if 0 <=? e then Z.pos m * 2 ^ e else Z.pos m / 2 ^ (- e) in
      let z := if s then - a else a in
      if (- 2 ^ 63 <=? z) && (z <? 2 ^ 63) then z else oob f
  | _ => oob f
  end.

(* ------------------------------------------------------------------ *)
(** ** NetworkParamsFromShelleyGenesis *)

(** The fields decoded from the file; an absent number is zero, an absent
    pointer nil. *)
Record ShelleyGenesis := mkGenesis {
  gn_SystemStart : string;
  gn_SlotLength : option spec_float;
  gn_EpochLength : Z;
  gn_SlotsPerKESPeriod : Z;
  gn_MaxKESEvolutions : Z;
  gn_NetworkMagic : Z;
  gn_AbsoluteStartSlot : option Z
}.

Section genesis.
Context (oob : spec_float -> Z).
(** os.ReadFile and json.Unmarshal into the struct *)
Context (ReadFile : string -> result (list byte)).
Context (Unmarshal : list byte -> result ShelleyGenesis).

Definition genesis_slotLength (path : string) (g : ShelleyGenesis) : result Duration :=
  match gn_SlotLength g with
  | None => Ok Second
  | Some f =>
      let invalid :=
        Errorf "shelley genesis %q has invalid slotLength %v" [ArgStr path; ArgFloat f] in
      if SFleb f (S754_zero false) then Err invalid
      else
        let d := Duration_of_float oob (SFmul 53 1024 f float_Second) in
        if d <=? 0 then Err invalid else Ok d
  end.

Definition NetworkParamsFromShelleyGenesis (path : string) : result NetworkParams :=
  match ReadFile path with
  | Err e => Err (Errorf "read Shelley genesis %q: %w" [ArgStr path; ArgErr e])
  | Ok raw =>
  match Unmarshal raw with
  | Err e => Err (Errorf "parse Shelley genesis %q: %w" [ArgStr path; ArgErr e])
  | Ok g =>
  if bool_decide (gn_SystemStart g = "") then
    Err (Errorf "shelley genesis %q missing systemStart" [ArgStr path])
  else
  match parse_RFC3339 (gn_SystemStart g) with
  | None =>
      Err (Errorf "parse Shelley genesis systemStart %q: %w"
             [ArgStr (gn_SystemStart g); ArgErr (ErrNew "parsing time")])
  | Some start =>
  if gn_SlotsPerKESPeriod g =? 0 then
    Err (Errorf "shelley genesis %q missing slotsPerKESPeriod" [ArgStr path])
  else
  slotLength ← genesis_slotLength path g;
  if gn_EpochLength g =? 0 then
    Err (Errorf "shelley genesis %q missing epochLength" [ArgStr path])
  else
  let '(start, absoluteStartSlot) :=
    match gn_AbsoluteStartSlot g with
    | Some slot => (start, slot)
    | None =>
        if gn_NetworkMagic g =? 764824073
        then (cardanoMainnetShelleyStart, CardanoMainnetShelleyStartSlot)
        else (start, 0)
    end in
  Ok (mkParams start absoluteStartSlot slotLength (gn_EpochLength g)
        (gn_SlotsPerKESPeriod g) (gn_MaxKESEvolutions g))
  end
  end
  end.
End genesis.

(* ------------------------------------------------------------------ *)
(** ** Printing a time, for reading it back *)

Definition digit_char (d : Z) : Ascii.ascii := Ascii.ascii_of_N (Z.to_N (48 + d)).

Definition pad2 (z : Z) (s : string) : string :=
  String (digit_char (z / 10)) (String (digit_char (z mod 10)) s).

(** 2006-01-02T15:04:05 and an offset *)
Definition print_RFC3339 (y m d hh mm ss : Z) (off : string) : string :=
  pad2 (y / 100) (pad2 (y mod 100) (String "-" (pad2 m (String "-" (pad2 d (String "T"
    (pad2 hh (String ":" (pad2 mm (String ":" (pad2 ss off))))))))))).

(** +07:00 *)
Definition print_offset (sign : Ascii.ascii) (hr mn : Z) : string :=
  String sign (pad2 hr (String ":" (pad2 mn ""))).

Record valid_date (y m d hh mm ss : Z) : Prop := {
  vd_year : 0 <= y <= 9999;
  vd_month : 1 <= m <= 12;
  vd_day : 1 <= d <= daysIn m y;
  vd_hour : 0 <= hh < 24;
  vd_min : 0 <= mm < 60;
  vd_sec : 0 <= ss < 60
}.

Lemma digit_of_char d : 0 <= d < 10 -> digit (digit_char d) = Some d.
Proof.
  intros Hd. assert (d = 0 \/ d = 1 \/ d = 2 \/ d = 3 \/ d = 4 \/ d = 5 \/ d = 6 \/ d = 7 \/
    d = 8 \/ d = 9) as H by lia.
  repeat (destruct H as [-> |H]; [reflexivity|]). by subst.
Qed.

Lemma getnum_pad2 fixed z s : 0 <= z < 100 -> getnum fixed (pad2 z s) = Some (z, s).
Proof.
  intros Hz. unfold getnum, pad2.
  pose proof (Z.mod_pos_bound z 10 ltac:(lia)). pose proof (Z.div_mod z 10 ltac:(lia)).
  rewrite !digit_of_char by lia. simpl.
  do 2 f_equal. lia.
Qed.

Lemma skip_char c s : skip c (String c s) = Some s.
Proof. simpl. by rewrite Ascii.eqb_refl. Qed.

(** The next number, and the character after it. *)
Ltac read_number := rewrite getnum_pad2 by lia; cbn [mbind option_bind].
Ltac read_char := rewrite skip_char; cbn [mbind option_bind].

Lemma getyear_print y s :
  0 <= y <= 9999 -> getyear (pad2 (y / 100) (pad2 (y mod 100) s)) = Some (y, s).
Proof.
  intros Hy. unfold getyear. pose proof (Z.mod_pos_bound y 100 ltac:(lia)).
  pose proof (Z.div_mod y 100 ltac:(lia)).
  do 2 read_number. do 2 f_equal. lia.
Qed.

Lemma daysIn_le m y : daysIn m y <= 31.
Proof.
  unfold daysIn. destruct (m =? 2); [by destruct (isLeap y)|].
  pose proof (Z.land_ones (m + Z.shiftr m 3) 1 ltac:(lia)) as H. change (Z.ones 1) with 1 in H.
  rewrite H. pose proof (Z.mod_pos_bound (m + Z.shiftr m 3) (2 ^ 1) ltac:(lia)). lia.
Qed.

Lemma zone_offset sign hr mn :
  sign = "+"%char \/ sign = "-"%char -> 0 <= hr <= 24 -> 0 <= mn <= 60 ->
  zone (print_offset sign hr mn) =
    Some ((if Ascii.eqb sign "+" then 1 else -1) * ((hr * 60 + mn) * 60), "").
Proof.
  intros Hs Hh Hm. unfold zone, print_offset.
  assert (Ascii.eqb sign "Z" = false) as -> by (by destruct Hs as [-> | ->]).
  read_number. read_char. read_number.
  assert ((hr >? 24) || (mn >? 60) = false) as -> by (apply orb_false_iff; split; lia).
  destruct Hs as [-> | ->]; cbn -[Z.mul]; do 2 f_equal; lia.
Qed.

(** Reading a printed time, whatever offset follows it. *)
Lemma parse_print y m d hh mm ss off secs :
  valid_date y m d hh mm ss -> fraction off = (0, off) -> zone off = Some (secs, "") ->
  parse_RFC3339 (print_RFC3339 y m d hh mm ss off) =
    Some (Date y m d hh mm ss - secs * Second).
Proof.
  intros [Hy Hm Hd Hh Hn Hs] Hf Hz. pose proof (daysIn_le m y).
  unfold parse_RFC3339, print_RFC3339.
  rewrite getyear_print by lia. cbn [mbind option_bind]. read_char.
  do 4 (read_number; read_char). read_number. rewrite Hf, Hz. cbn [mbind option_bind].
  rewrite bool_decide_true by done. rewrite andb_true_r.
  repeat match goal with |- context [?a <=? ?b] => rewrite (proj2 (Z.leb_le a b)) by lia end.
  repeat match goal with |- context [?a <? ?b] => rewrite (proj2 (Z.ltb_lt a b)) by lia end.
  simpl. f_equal. lia.
Qed.

(** The offsets a printed time may carry. *)
Lemma parse_print_Z y m d hh mm ss :
  valid_date y m d hh mm ss ->
  parse_RFC3339 (print_RFC3339 y m d hh mm ss "Z") = Some (Date y m d hh mm ss).
Proof.
  intros Hv. rewrite (parse_print _ _ _ _ _ _ "Z" 0) by done. f_equal. lia.
Qed.

Lemma fraction_offset sign hr mn :
  sign = "+"%char \/ sign = "-"%char ->
  fraction (print_offset sign hr mn) = (0, print_offset sign hr mn).
Proof. unfold fraction, print_offset. by intros [-> | ->]. Qed.

(* ------------------------------------------------------------------ *)
(** ** The parameters a genesis file gives *)

(** Decoded fields fit their Go types. *)
Record genesis_typed (g : ShelleyGenesis) : Prop := {
  gt_epoch : is_u64 (gn_EpochLength g);
  gt_period : is_u64 (gn_SlotsPerKESPeriod g);
  gt_start : forall slot, gn_AbsoluteStartSlot g = Some slot -> is_u64 slot
}.

(** Where the code takes the start from. *)
Definition genesis_start (g : ShelleyGenesis) (start : Time) : Time * Z :=
  match gn_AbsoluteStartSlot g with
  | Some slot => (start, slot)
  | None =>
      if gn_NetworkMagic g =? 764824073
      then (cardanoMainnetShelleyStart, CardanoMainnetShelleyStartSlot)
      else (start, 0)
  end.

Section genesis_facts.
Context (oob : spec_float -> Z) (Hoob : forall f, is_i64 (oob f)).
Context (ReadFile : string -> result (list byte)) (Unmarshal : list byte -> result ShelleyGenesis).
Context (path : string) (g : ShelleyGenesis).

Lemma Duration_of_float_i64 f : is_i64 (Duration_of_float oob f).
Proof.
  unfold Duration_of_float. destruct f as [| | |s m e]; auto; [by vm_compute|].
  cbv zeta. destruct (_ && _) eqn:E; [|done]. apply andb_true_iff in E as [? ?].
  unfold is_i64. zbool. lia.
Qed.

Lemma genesis_slotLength_Ok d : genesis_slotLength oob path g = Ok d -> 0 < d < 2 ^ 63.
Proof.
  unfold genesis_slotLength. destruct (gn_SlotLength g) as [f|].
  - destruct (SFleb f _); [done|]. cbv zeta.
    pose proof (Duration_of_float_i64 (SFmul 53 1024 f float_Second)) as Hd.
    destruct (_ <=? _) eqn:E; [done|]. intros [= <-]. unfold is_i64 in Hd. zbool. lia.
  - intros [= <-]. by vm_compute.
Qed.

(** A valid file: what each check asks for. *)
Definition genesis_accepts (start : Time) (d : Duration) : Prop :=
  parse_RFC3339 (gn_SystemStart g) = Some start /\ gn_SlotsPerKESPeriod g <> 0 /\
  genesis_slotLength oob path g = Ok d /\ gn_EpochLength g <> 0.

Context (raw : list byte) (Hread : ReadFile path = Ok raw) (Hdec : Unmarshal raw = Ok g).

Lemma genesis_accepted start d :
  genesis_accepts start d ->
  NetworkParamsFromShelleyGenesis oob ReadFile Unmarshal path =
    Ok (mkParams (genesis_start g start).1 (genesis_start g start).2 d (gn_EpochLength g)
          (gn_SlotsPerKESPeriod g) (gn_MaxKESEvolutions g)).
Proof.
  intros (Hp & Hk & Hd & He). unfold NetworkParamsFromShelleyGenesis. rewrite Hread, Hdec.
  rewrite bool_decide_false by (intros Hs; by rewrite Hs in Hp).
  rewrite Hp, (proj2 (Z.eqb_neq _ _) Hk), Hd. cbn [mbind result_bind].
  rewrite (proj2 (Z.eqb_neq _ _) He). unfold genesis_start.
  by destruct (gn_AbsoluteStartSlot g), (gn_NetworkMagic g =? 764824073).
Qed.

Lemma genesis_accepted_inv p :
  NetworkParamsFromShelleyGenesis oob ReadFile Unmarshal path = Ok p ->
  exists start d, genesis_accepts start d.
Proof.
  unfold NetworkParamsFromShelleyGenesis. rewrite Hread, Hdec. case_bool_decide; [done|].
  destruct (parse_RFC3339 _) as [start|] eqn:Hp; [|done].
  destruct (_ =? 0) eqn:Hk; [done|]. destruct (genesis_slotLength _ _ _) as [d|e] eqn:Hd; [|done].
  cbn [mbind result_bind]. destruct (gn_EpochLength g =? 0) eqn:He; [done|]. intros _.
  exists start, d. unfold genesis_accepts. zbool. by split_and!.
Qed.

Lemma genesis_start_typed start : genesis_typed g -> is_u64 (genesis_start g start).2.
Proof.
  intros [_ _ H]. unfold genesis_start. destruct (gn_AbsoluteStartSlot g); [by apply H|].
  by destruct (_ =? _).
Qed.
End genesis_facts.

(** From the start on, slots, epochs and KES periods can be computed. *)
Definition usable (p : NetworkParams) : Prop :=
  forall now, np_Start p <= now -> exists slot, CurrentSlotFor p now = Ok slot /\
    CurrentEpochFor p now = Ok (slot / np_EpochLength p) /\
    (np_AbsoluteStartSlot p + slot <= max_u64 ->
     CurrentKESPeriodFor p now = Ok ((np_AbsoluteStartSlot p + slot) / np_SlotsPerKESPeriod p)).

Lemma params_usable p :
  params_typed p -> np_EpochLength p <> 0 -> np_SlotsPerKESPeriod p <> 0 -> usable p.
Proof.
  intros Hp He Hk now Hn. pose proof (CurrentSlotFor_spec p now Hp) as Hs.
  rewrite (proj2 (Z.ltb_ge _ _) Hn) in Hs. destruct Hs as [Hs Hb]. eexists. split; [done|].
  unfold CurrentEpochFor, CurrentKESPeriodFor, currentAbsoluteSlotFor.
  rewrite (proj2 (Z.eqb_neq _ _) He), (proj2 (Z.eqb_neq _ _) Hk), Hs. cbn [mbind result_bind].
  split; [done|]. intros Hm. destruct Hp as [Ha _ _ _]. unfold is_u64, max_u64 in *.
  rewrite (u64_id (_ - _)) by (unfold is_u64; lia).
  destruct (_ >? _) eqn:E; zbool; [lia|]. rewrite u64_id by (unfold is_u64; lia). done.
Qed.

Lemma genesis_usable oob ReadFile Unmarshal path raw g p :
  (forall f, is_i64 (oob f)) -> ReadFile path = Ok raw -> Unmarshal raw = Ok g -> genesis_typed g ->
  NetworkParamsFromShelleyGenesis oob ReadFile Unmarshal path = Ok p ->
  params_typed p /\ 0 < np_SlotLength p /\ usable p.
Proof.
  intros Hoob Hr Hd Hg Hp.
  destruct (genesis_accepted_inv oob ReadFile Unmarshal path g raw Hr Hd p Hp) as (start & d & Ha).
  rewrite (genesis_accepted oob ReadFile Unmarshal path g raw Hr Hd start d Ha) in Hp.
  injection Hp as <-. destruct Ha as (_ & Hk & Hl & He).
  pose proof (genesis_slotLength_Ok oob Hoob path g d Hl).
  assert (params_typed (mkParams (genesis_start g start).1 (genesis_start g start).2 d
            (gn_EpochLength g) (gn_SlotsPerKESPeriod g) (gn_MaxKESEvolutions g))) as Ht.
  { split; simpl; [by apply genesis_start_typed|unfold is_i64; lia|apply Hg|apply Hg]. }
  split; [done|]. split; [simpl; lia|]. by apply params_usable.
Qed.

(* ------------------------------------------------------------------ *)
(** ** Theorems *)

(** 1.0 and 0.1 as float64 *)
Definition float_one : spec_float := binary_normalize 53 1024 1 0 false.
Definition float_tenth : spec_float := S754_finite false 7205759403792794 (-56).

Example slotLength_tenth oob :
  genesis_slotLength oob "g" (mkGenesis "" (Some float_tenth) 0 0 0 0 None) = Ok (100000000).
Proof. vm_compute. reflexivity. Qed.

(** A date and time printed as RFC 3339 asks, with Z or an offset of up to
    24 hours and 60 minutes, is read back by time.Parse as that time. *)
Theorem RFC3339_roundtrip y m d hh mm ss sign hr mn :
  valid_date y m d hh mm ss -> sign = "+"%char \/ sign = "-"%char ->
  0 <= hr <= 24 -> 0 <= mn <= 60 ->
  parse_RFC3339 (print_RFC3339 y m d hh mm ss "Z") = Some (Date y m d hh mm ss) /\
  parse_RFC3339 (print_RFC3339 y m d hh mm ss (print_offset sign hr mn)) =
    Some (Date y m d hh mm ss -
          (if Ascii.eqb sign "+" then 1 else -1) * ((hr * 60 + mn) * 60) * Second).
Proof.
  intros Hv Hs Hh Hm. split; [by apply parse_print_Z|].
  apply parse_print; [done|by apply fraction_offset|by apply zone_offset].
Qed.

(** C34: NetworkParamsFromShelleyGenesis, on a file that can be read and decoded,
    succeeds exactly when systemStart is an RFC 3339 time, slotsPerKESPeriod
    and epochLength are there and slotLength is absent or gives at least one
    nanosecond; the parameters it then returns fit their types (whatever the
    implementation makes of a float outside int64) and from their start on
    slots, epochs and KES periods can be computed from them. *)
Theorem genesis_params_typed oob ReadFile Unmarshal path raw g :
  (forall f, is_i64 (oob f)) -> ReadFile path = Ok raw -> Unmarshal raw = Ok g -> genesis_typed g ->
  (is_Ok (NetworkParamsFromShelleyGenesis oob ReadFile Unmarshal path) = true <->
   exists start d, genesis_accepts oob path g start d) /\
  forall p, NetworkParamsFromShelleyGenesis oob ReadFile Unmarshal path = Ok p ->
    params_typed p /\ 0 < np_SlotLength p /\ usable p.
Proof.
  intros Hoob Hr Hd Hg. split; [|intros p; by apply (genesis_usable oob ReadFile Unmarshal path raw g)].
  split.
  - destruct (NetworkParamsFromShelleyGenesis _ _ _ _) as [p|] eqn:Hp; [|done]. intros _.
    by eapply genesis_accepted_inv.
  - intros (start & d & Ha). by rewrite (genesis_accepted oob ReadFile Unmarshal path g raw Hr Hd start d Ha).
Qed.

Definition test_genesis : ShelleyGenesis :=
  mkGenesis "2026-01-01T00:00:00Z" (Some float_tenth) 5 10 60 0 None.

Lemma genesis_params_typed_witness :
  exists p, NetworkParamsFromShelleyGenesis (fun _ => 0) (fun _ => Ok []) (fun _ => Ok test_genesis) "g" = Ok p /\
    np_SlotLength p = 100000000 /\ usable p.
Proof.
  eexists. split; [vm_compute; reflexivity|]. split; [reflexivity|].
  refine (proj2 (proj2 (proj2 (genesis_params_typed (fun _ => 0) (fun _ => Ok [])
    (fun _ => Ok test_genesis) "g" [] test_genesis _ eq_refl eq_refl _) _ _))).
  - intros f. by vm_compute.
  - by split.
  - vm_compute. reflexivity.
Defined.

(** The parameters the known networks share. *)
Record cardano_genesis (g : ShelleyGenesis) : Prop := {
  cg_period : gn_SlotsPerKESPeriod g = CardanoSlotsPerKESPeriod;
  cg_evolutions : gn_MaxKESEvolutions g = 62;
  cg_length : gn_SlotLength g = None \/ gn_SlotLength g = Some float_one
}.

Lemma cardano_slotLength oob path g : cardano_genesis g -> genesis_slotLength oob path g = Ok Second.
Proof. intros [_ _ H]. unfold genesis_slotLength. by destruct H as [-> | ->]. Qed.

(** The genesis reader agrees with NetworkParamsForMagic: for a mainnet
    file without absoluteStartSlot, whatever its systemStart, and for a preview
    file; for a preprod file it does so exactly when the file says where the
    Shelley era starts, and never when absoluteStartSlot is absent, as it is
    the mainnet start only that the code knows by itself. *)
Theorem genesis_known_networks oob ReadFile Unmarshal path raw g start :
  ReadFile path = Ok raw -> Unmarshal raw = Ok g -> cardano_genesis g ->
  parse_RFC3339 (gn_SystemStart g) = Some start ->
  let r := NetworkParamsFromShelleyGenesis oob ReadFile Unmarshal path in
  (gn_NetworkMagic g = 764824073 -> gn_AbsoluteStartSlot g = None -> gn_EpochLength g = 432000 ->
   r = NetworkParamsForMagic 764824073) /\
  (gn_NetworkMagic g = 2 -> gn_AbsoluteStartSlot g = None -> gn_EpochLength g = 86400 ->
   start = Date 2022 10 25 0 0 0 -> r = NetworkParamsForMagic 2) /\
  (gn_NetworkMagic g = 1 -> gn_EpochLength g = 432000 ->
   r = NetworkParamsForMagic 1 <->
   start = cardanoPreprodShelleyStart /\ gn_AbsoluteStartSlot g = Some CardanoPreprodShelleyStartSlot).
Proof.
  intros Hr Hd Hc Hp r.
  assert (gn_EpochLength g <> 0 -> r = Ok (mkParams (genesis_start g start).1 (genesis_start g start).2
    Second (gn_EpochLength g) CardanoSlotsPerKESPeriod 62)) as Heq.
  { intros He. unfold r. rewrite <- (cg_period _ Hc), <- (cg_evolutions _ Hc).
    apply (genesis_accepted oob ReadFile Unmarshal path g raw Hr Hd). split_and!; try done.
    - by rewrite (cg_period _ Hc).
    - by apply cardano_slotLength. }
  unfold genesis_start in Heq. split_and!.
  - intros Hm Ha He. rewrite Heq by lia. by rewrite Ha, Hm, He.
  - intros Hm Ha He Hs. rewrite Heq by lia. by rewrite Ha, Hm, He, Hs.
  - intros Hm He. rewrite Heq by lia. rewrite Hm, He. cbn [Z.eqb].
    destruct (gn_AbsoluteStartSlot g) as [slot|]; simpl; [|split; [intros [=]|naive_solver]].
    split; [by intros [= -> ->]|by intros [-> [= ->]]].
Qed.

(** The file of the repository's mainnet test. *)
Definition mainnet_genesis : ShelleyGenesis :=
  mkGenesis "2017-09-23T21:44:51Z" (Some float_one) 432000 129600 62 764824073 None.

