(* ===== verification/KesLib.v ===== *)
(** * Key material and signatures (the libraries kes, crypto/ed25519, bursa)

    Key-evolving signatures, the cold-key signature and the key files are the
    business of other packages: the class [Kes] names the functions this
    package calls and [KesLaws] the documented behaviour it relies on. A
    concrete instance, on which witnesses evaluate, shows that the laws can be
    met together. *)

From S2P Require Import Prelude Errors Types Clone Concrete.

(** kes.SecretKey *)
Record SecretKey := mkSecretKey {
  sk_Depth : Z;
  sk_Period : Z;
  sk_Data : slice
}.

(** What bursa.LoadKeyFromFile returns: the fields read here. *)
Record LoadedKey := mkLoadedKey {
  lk_SKey : slice;
  lk_VKey : slice;
  lk_OpCertIssueNumber : Z;
  lk_OpCertKesPeriod : Z;
  lk_OpCertSignature : slice;
  lk_OpCertColdVKey : slice
}.

(** The key files at the time of a call, as bursa.LoadKeyFromFile reads them. *)
Definition KeyFiles := string -> result LoadedKey.

(** ed25519.PublicKeySize and ed25519.SignatureSize *)
Definition PublicKeySize : Z := 32.
Definition SignatureSize : Z := 64.

Class Kes := {
  CardanoKesDepth : Z;
  CardanoKesSecretKeySize : Z;
  kes_Update : SecretKey -> result SecretKey;
  kes_Sign : SecretKey -> Z -> slice -> result slice;
  kes_VerifySignedKES : slice -> Z -> slice -> slice -> bool;
  ed25519_Verify : slice -> list byte -> slice -> bool;
  (** blake2b.New(size, nil): the hash of the bytes written to it *)
  blake2b_New : Z -> result (list byte -> list byte);
  (** kes.PublicKey, and the keys that come out of kes.KeyGen and kes.Update:
      not called by the package, named in the laws *)
  kes_PublicKey : SecretKey -> slice;
  kes_key : SecretKey -> Prop
}.

(** A key of depth d lives through the periods 0 to 2^d - 1; evolving it moves
    to the next period under the same verification key, and fails after the
    last; a key signs at its own period, and what it signs verifies under its
    verification key. *)
Class KesLaws `{Kes} : Prop := {
  depth_range : 0 <= CardanoKesDepth < 63;
  key_period : forall k, kes_key k -> 0 <= sk_Period k < 2 ^ sk_Depth k;
  Update_Ok : forall k k', kes_key k -> kes_Update k = Ok k' ->
    kes_key k' /\ sk_Depth k' = sk_Depth k /\ sk_Period k' = sk_Period k + 1 /\
    kes_PublicKey k' = kes_PublicKey k;
  Update_live : forall k, kes_key k -> sk_Period k + 1 < 2 ^ sk_Depth k ->
    is_Ok (kes_Update k) = true;
  Sign_live : forall k m, kes_key k -> is_Ok (kes_Sign k (sk_Period k) m) = true;
  Sign_verifies : forall k p m sig, kes_key k -> kes_Sign k p m = Ok sig ->
    kes_VerifySignedKES (kes_PublicKey k) p m sig = true;
  Verify_content : forall vk vk' p m sig, content vk = content vk' ->
    kes_VerifySignedKES vk p m sig = kes_VerifySignedKES vk' p m sig;
  ed25519_content : forall vk vk' m sig sig', content vk = content vk' ->
    content sig = content sig' -> ed25519_Verify vk m sig = ed25519_Verify vk' m sig'
}.

(** A signing key file of the right size holds a fresh key (period 0) and its
    verification key; certificate numbers are uint64. *)
Definition key_files_ok `{Kes} (fs : KeyFiles) : Prop :=
  forall path k, fs path = Ok k ->
    is_u64 (lk_OpCertIssueNumber k) /\ is_u64 (lk_OpCertKesPeriod k) /\
    (len (lk_SKey k) = CardanoKesSecretKeySize ->
     let sk := mkSecretKey CardanoKesDepth 0 (lk_SKey k) in
     kes_key sk /\ content (kes_PublicKey sk) = content (lk_VKey k)).

(* ------------------------------------------------------------------ *)
(** ** A concrete instance

    The verification key is the start of the secret data; a signature is the
    period, the verification key and the payload. *)

Definition toy_sig (vk : list byte) (p : Z) (m : slice) : slice :=
  Some (byte_of_Z p :: take 32 vk ++ content m).

Definition toy_verify (vk : slice) (p : Z) (m sig : slice) : bool :=
  bytes_Equal sig (toy_sig (content vk) p m).

#[export] Instance toy_kes : Kes := {
  CardanoKesDepth := 6;
  CardanoKesSecretKeySize := 608;
  kes_Update k :=
    if sk_Period k + 1 <? 2 ^ sk_Depth k
    then Ok (mkSecretKey (sk_Depth k) (sk_Period k + 1) (sk_Data k))
    else Err (ErrNew "key cannot be evolved any more");
  kes_Sign k p m :=
    if sk_Period k =? p then Ok (toy_sig (content (sk_Data k)) p m)
    else Err (ErrNew "period mismatch");
  kes_VerifySignedKES := toy_verify;
  ed25519_Verify vk m sig := bytes_Equal sig (Some (take 64 (content vk ++ m)));
  blake2b_New size := Ok (fun b => take (Z.to_nat size) (b ++ b));
  kes_PublicKey k := Some (take 32 (content (sk_Data k)));
  kes_key k := 0 <= sk_Period k < 2 ^ sk_Depth k
}.

#[export] Instance toy_kes_laws : KesLaws.
Proof.
  split; simpl; try done.
  - intros k k' Hk. case_match eqn:E; zbool; [|done]. intros [= <-]. simpl. split_and!; (done || lia).
  - intros k Hk Hlt. destruct (_ <? _) eqn:E; zbool; (done || lia).
  - intros k m _. by rewrite Z.eqb_refl.
  - intros k p m sig _. destruct (_ =? _) eqn:E; [|done]. intros [= <-].
    unfold toy_verify, toy_sig, bytes_Equal. simpl. rewrite take_take. by apply bool_decide_eq_true.
  - intros vk vk' p m sig Hvk. unfold toy_verify. by rewrite Hvk.
  - intros vk vk' m sig sig' Hvk Hs. unfold bytes_Equal. by rewrite Hvk, Hs.
Qed.

(** Key files: a signing key and the certificate of it that starts at period
    800, made by the cold key [toy_cold]. *)
Definition toy_secret : list byte := replicate 608 x4b.
Definition toy_cold : list byte := replicate 32 x43.

Definition toy_cert_body : list byte :=
  replicate 32 x4b ++ replicate 7 x00 ++ [x03] ++ replicate 6 x00 ++ [x03; x20].

Definition toy_files : KeyFiles := fun path =>
  if bool_decide (path = "kes.skey") then
    Ok (mkLoadedKey (Some toy_secret) (Some (take 32 toy_secret)) 0 0 None None)
  else if bool_decide (path = "node.cert") then
    Ok (mkLoadedKey None (Some (take 32 toy_secret)) 3 800
          (Some (take 64 (toy_cold ++ toy_cert_body))) (Some toy_cold))
  else Err (ErrNew "no such file").

Lemma toy_files_ok : key_files_ok toy_files.
Proof.
  intros path k. unfold toy_files. repeat case_bool_decide; [..|done]; intros [= <-]; cbn.
  all: split_and!; done.
Qed.
