(* ===== verification/Kes.v ===== *)
(** * Operational certificates and KES signing keys (kes_payload.go)

    Loading, parsing and validating certificates and keys, the validity
    window of a certificate, and KESSigner, the in-process provider of KES
    signatures. The key files are an argument (what bursa reads at the time of
    the call), and so is every reading of a clock. The loops that evolve a key
    take as fuel the number of periods a key of the Cardano depth has;
    running out of it would be a loop that does not end, [None]. *)

From S2P Require Import Prelude Errors Types Clone Concrete Encoding Cardano KesLib.

Record TextEnvelope := mkTextEnvelope {
  te_Type : string;
  te_Description : string;
  te_CborHex : string
}.

Record KESSigningKey := mkKESSigningKey {
  ks_SecretKeyBytes : slice;
  ks_VerificationKey : slice
}.

Record KESSigningCertificate := mkKESCert {
  kc_KESVKey : slice;
  kc_IssueNumber : Z;
  kc_KESPeriod : Z;
  kc_Signature : slice;
  kc_ColdVKey : slice
}.

Definition zero_cert : KESSigningCertificate := mkKESCert None 0 0 None None.

Record SignedKESPayload := mkSignedKES {
  sp_VKey : slice;
  sp_Period : Z;
  sp_Signature : slice
}.

Record OperationalCredentialStatus := mkStatus {
  os_KESVKey : slice;
  os_OpCertKESPeriod : Z;
  os_CurrentKESPeriod : Z;
  os_RelativeKESPeriod : Z;
  os_MaxKESEvolutions : Z;
  os_RemainingKESEvolutions : Z;
  os_ExpiresAt : Time
}.

(** ReadTextEnvelope; [read] is os.ReadFile and [unmarshal] is json.Unmarshal
    into a TextEnvelope. *)
Definition ReadTextEnvelope (read : string -> result (list byte))
  (unmarshal : list byte -> result TextEnvelope) (path : string) : result (list byte * string) :=
  match read path with
  | Err e => Err (Errorf "read %q: %w" [ArgStr path; ArgErr e])
  | Ok raw =>
      match unmarshal raw with
      | Err e => Err (Errorf "parse text-envelope %q: %w" [ArgStr path; ArgErr e])
      | Ok env =>
          match hex_DecodeString (te_CborHex env) with
          | None => Err (Errorf "decode cborHex of %q: %w" [ArgStr path; ArgErr (ErrNew "encoding/hex")])
          | Some cborData => Ok (cborData, te_Type env)
          end
      end
  end.

(** The dynamic types cbor.Decode puts into an any, as far as they are told
    apart here. *)
Inductive any : Type :=
| AnyArray (l : list any)
| AnyBytes (b : slice)
| AnyUint64 (z : Z)
| AnyInt64 (z : Z)
| AnyOther (type : string).

Definition any_type (v : any) : string :=
  match v with
  | AnyArray _ => "[]interface {}"
  | AnyBytes _ => "[]uint8"
  | AnyUint64 _ => "uint64"
  | AnyInt64 _ => "int64"
  | AnyOther t => t
  end.

Definition readCBORUint (v : any) (name : string) : result Z :=
  match v with
  | AnyUint64 x => Ok x
  | AnyInt64 x =>
      if x <? 0 then Err (Errorf "op cert: %s negative" [ArgStr name]) else Ok (u64 x)
  | _ => Err (Errorf "op cert: %s has unexpected type %T" [ArgStr name; ArgStr (any_type v)])
  end.

(** v.([]byte) with its length checked *)
Definition any_bytes (v : any) (size : Z) : option slice :=
  match v with
  | AnyBytes b => if len b =? size then Some b else None
  | _ => None
  end.

(** ParseOperationalCertificateCBOR; [decode] is cbor.Decode into a []any. *)
Definition ParseOperationalCertificateCBOR (decode : slice -> result (list any)) (certBytes : slice)
  : result KESSigningCertificate :=
  match decode certBytes with
  | Err e => Err (Errorf "decode op cert cbor: %w" [ArgErr e])
  | Ok outer =>
      match outer with
      | [o0; o1] =>
          match o0 with
          | AnyArray inner =>
              match inner with
              | [i0; i1; i2; i3] =>
                  match any_bytes o1 PublicKeySize with
                  | None => Err (ErrNew "op cert: cold_vkey not 32 bytes")
                  | Some coldVKey =>
                      match any_bytes i0 PublicKeySize with
                      | None => Err (ErrNew "op cert: kes_vkey not 32 bytes")
                      | Some kesVKey =>
                          issueNumber ← readCBORUint i1 "issue_number";
                          kesPeriod ← readCBORUint i2 "kes_period";
                          match any_bytes i3 SignatureSize with
                          | None => Err (ErrNew "op cert: cold-key signature not 64 bytes")
                          | Some sig =>
                              Ok (mkKESCert (cloneBytes kesVKey) issueNumber kesPeriod
                                    (cloneBytes sig) (cloneBytes coldVKey))
                          end
                      end
                  end
              | _ => Err (Errorf "op cert inner: want 4 elements, got %d"
                            [ArgInt (Z.of_nat (length inner))])
              end
          | _ => Err (ErrNew "op cert: first element not an array")
          end
      | _ => Err (Errorf "op cert outer: want 2 elements, got %d"
                    [ArgInt (Z.of_nat (length outer))])
      end
  end.

Section kes.
Context `{Kes}.

(** var body [48]byte and the three writes into it *)
Definition opcert_body (kesVKey : slice) (issueNumber kesPeriod : Z) : list byte :=
  go_copy (make_bytes 32) (content kesVKey) ++ PutUint64 issueNumber ++ PutUint64 kesPeriod.

Definition ValidateOperationalCertificate (cert : KESSigningCertificate) : option error :=
  if negb (len (kc_KESVKey cert) =? PublicKeySize) then
    Some (Errorf "opcert KES verification key size: got %d, want %d"
            [ArgInt (len (kc_KESVKey cert)); ArgInt PublicKeySize])
  else if negb (len (kc_ColdVKey cert) =? PublicKeySize) then
    Some (Errorf "opcert cold verification key size: got %d, want %d"
            [ArgInt (len (kc_ColdVKey cert)); ArgInt PublicKeySize])
  else if negb (len (kc_Signature cert) =? SignatureSize) then
    Some (Errorf "opcert cold signature size: got %d, want %d"
            [ArgInt (len (kc_Signature cert)); ArgInt SignatureSize])
  else
    let body := opcert_body (kc_KESVKey cert) (kc_IssueNumber cert) (kc_KESPeriod cert) in
    if negb (ed25519_Verify (kc_ColdVKey cert) body (kc_Signature cert))
    then Some (ErrNew "opcert cold signature verification failed")
    else None.

Definition LoadKESSigningKey (fs : KeyFiles) (path : string) : result KESSigningKey :=
  match fs path with
  | Err e => Err (Errorf "load KES signing key: %w" [ArgErr e])
  | Ok loaded =>
      if negb (len (lk_SKey loaded) =? CardanoKesSecretKeySize) then
        Err (Errorf "invalid KES signing key size: expected %d got %d"
               [ArgInt CardanoKesSecretKeySize; ArgInt (len (lk_SKey loaded))])
      else if negb (len (lk_VKey loaded) =? PublicKeySize) then
        Err (Errorf "invalid KES verification key size: expected %d got %d"
               [ArgInt PublicKeySize; ArgInt (len (lk_VKey loaded))])
      else Ok (mkKESSigningKey (cloneBytes (lk_SKey loaded)) (cloneBytes (lk_VKey loaded)))
  end.

Definition LoadOperationalCertificate (fs : KeyFiles) (path : string)
  : result KESSigningCertificate :=
  match fs path with
  | Err e => Err (Errorf "load operational certificate: %w" [ArgErr e])
  | Ok loaded =>
      let cert := mkKESCert (cloneBytes (lk_VKey loaded)) (lk_OpCertIssueNumber loaded)
                    (lk_OpCertKesPeriod loaded) (cloneBytes (lk_OpCertSignature loaded))
                    (cloneBytes (lk_OpCertColdVKey loaded)) in
      check (ValidateOperationalCertificate cert) (Ok cert)
  end.

Definition ValidateOperationalCredentials (fs : KeyFiles) (kesKeyPath opCertPath : string)
  : option error :=
  match LoadKESSigningKey fs kesKeyPath with
  | Err e => Some e
  | Ok kesKey =>
      match LoadOperationalCertificate fs opCertPath with
      | Err e => Some e
      | Ok cert =>
          if negb (bytes_Equal (ks_VerificationKey kesKey) (kc_KESVKey cert))
          then Some (ErrVar ErrKESKeyMismatch) else None
      end
  end.

Definition KESVerificationKeyFromOpCert (fs : KeyFiles) (path : string) : result slice :=
  cert ← LoadOperationalCertificate fs path; Ok (cloneBytes (kc_KESVKey cert)).

Definition ColdVerificationKeyFromOpCert (fs : KeyFiles) (path : string) : result slice :=
  cert ← LoadOperationalCertificate fs path; Ok (cloneBytes (kc_ColdVKey cert)).

(** Writing to a hash never fails. *)
Definition PoolIDFromColdKey (coldVKey : slice) : result string :=
  if negb (len coldVKey =? PublicKeySize) then
    Err (Errorf "cold_vkey size: got %d, want %d" [ArgInt (len coldVKey); ArgInt PublicKeySize])
  else
    match blake2b_New 28 with
    | Err e => Err (Errorf "blake2b-224: %w" [ArgErr e])
    | Ok h => Ok (hex_EncodeToString (h (content coldVKey)))
    end.

(* ------------------------------------------------------------------ *)
(** ** Periods *)

Definition cryptoMaxKESEvolutions (depth : Z) : Z :=
  if depth >=? 63 then Z.shiftl 1 63 else Z.shiftl 1 depth.

Definition effectiveMaxKESEvolutions (network : NetworkParams) (depth : Z) : Z :=
  let cryptoMax := cryptoMaxKESEvolutions depth in
  if (np_MaxKESEvolutions network =? 0) || (np_MaxKESEvolutions network >? cryptoMax)
  then cryptoMax else np_MaxKESEvolutions network.

Definition validateRelativeKESPeriodForNetwork (period : Z) (network : NetworkParams)
  : option error :=
  let maxPeriod := effectiveMaxKESEvolutions network CardanoKesDepth in
  if period >=? maxPeriod then
    Some (Errorf "KES period %d past op cert validity (max %d) - rotate operational certificate"
            [ArgInt period; ArgInt (u64 (maxPeriod - 1))])
  else None.

Definition currentRelativePeriodFor (network : NetworkParams) (cert : KESSigningCertificate)
  (now : Time) : result Z :=
  absPeriod ← CurrentKESPeriodFor network now;
  if absPeriod <? kc_KESPeriod cert then
    Err (Errorf "system clock yields KES period %d, before op cert period %d"
           [ArgInt absPeriod; ArgInt (kc_KESPeriod cert)])
  else
    let relPeriod := u64 (absPeriod - kc_KESPeriod cert) in
    check (validateRelativeKESPeriodForNetwork relPeriod network) (Ok relPeriod).

(** params.Start.IsZero() || params.SlotsPerKESPeriod == 0 *)
Definition params_unset (params : NetworkParams) : bool :=
  Time_IsZero (np_Start params) || (np_SlotsPerKESPeriod params =? 0).

Definition NewOperationalCredentialStatus (fs : KeyFiles) (kesKeyPath opCertPath : string)
  (params : NetworkParams) (now : Time) : result OperationalCredentialStatus :=
  if params_unset params then
    Err (ErrNew "network params: start and slotsPerKESPeriod are required")
  else
    cert ← LoadOperationalCertificate fs opCertPath;
    _ ← (if negb (bool_decide (TrimSpace kesKeyPath = "")) then
           kesKey ← LoadKESSigningKey fs kesKeyPath;
           if negb (bytes_Equal (ks_VerificationKey kesKey) (kc_KESVKey cert))
           then Err (ErrVar ErrKESKeyMismatch) else Ok tt
         else Ok tt);
    absPeriod ← CurrentKESPeriodFor params now;
    if absPeriod <? kc_KESPeriod cert then
      Err (Errorf "system clock yields KES period %d, before op cert period %d"
             [ArgInt absPeriod; ArgInt (kc_KESPeriod cert)])
    else
      let relPeriod := u64 (absPeriod - kc_KESPeriod cert) in
      let maxPeriod := effectiveMaxKESEvolutions params CardanoKesDepth in
      if relPeriod >=? maxPeriod then
        Err (Errorf "KES period %d past op cert validity (max %d) - rotate operational certificate"
               [ArgInt relPeriod; ArgInt (u64 (maxPeriod - 1))])
      else
        Ok (mkStatus (cloneBytes (kc_KESVKey cert)) (kc_KESPeriod cert) absPeriod relPeriod
              maxPeriod (u64 (maxPeriod - relPeriod))
              (KESPeriodStart params (u64 (kc_KESPeriod cert + maxPeriod)))).

(* ------------------------------------------------------------------ *)
(** ** KESSigner

    A *KESSigner is [None] when nil. *)

Record KESSigner := mkKESSigner {
  kg_network : NetworkParams;
  kg_kesKey : SecretKey;
  kg_opCert : KESSigningCertificate
}.

Definition set_kesKey (s : KESSigner) (k : SecretKey) : KESSigner :=
  mkKESSigner (kg_network s) k (kg_opCert s).

Definition cloneKESSigningCertificate (src : KESSigningCertificate) : KESSigningCertificate :=
  mkKESCert (cloneBytes (kc_KESVKey src)) (kc_IssueNumber src) (kc_KESPeriod src)
    (cloneBytes (kc_Signature src)) (cloneBytes (kc_ColdVKey src)).

Definition NewKESSignerWithClock (fs : KeyFiles) (kesKeyPath opCertPath : string)
  (params : NetworkParams) : result KESSigner :=
  if params_unset params then
    Err (ErrNew "network params: start and slotsPerKESPeriod are required")
  else
    kesKey ← LoadKESSigningKey fs kesKeyPath;
    cert ← LoadOperationalCertificate fs opCertPath;
    if negb (bytes_Equal (ks_VerificationKey kesKey) (kc_KESVKey cert))
    then Err (ErrVar ErrKESKeyMismatch)
    else Ok (mkKESSigner params
               (mkSecretKey CardanoKesDepth 0 (cloneBytes (ks_SecretKeyBytes kesKey))) cert).

(** With the system clock; the clock is an argument of the calls that read it. *)
Definition NewKESSigner (fs : KeyFiles) (kesKeyPath opCertPath : string) (params : NetworkParams)
  : result KESSigner :=
  NewKESSignerWithClock fs kesKeyPath opCertPath params.

Definition KESSigner_OperationalCertificate (s : option KESSigner) : KESSigningCertificate :=
  match s with None => zero_cert | Some s => cloneKESSigningCertificate (kg_opCert s) end.

Definition KESSigner_CurrentPeriod (s : option KESSigner) (now : Time) : result Z :=
  match s with
  | None => Err (ErrVar ErrSignerRequired)
  | Some s => currentRelativePeriodFor (kg_network s) (kg_opCert s) now
  end.

(** The number of periods of a key: no loop below runs longer. *)
Definition key_fuel : nat := Z.to_nat (cryptoMaxKESEvolutions CardanoKesDepth).

(** The loop of advanceTo: the key reached so far is kept on failure. *)
Fixpoint advance_loop (fuel : nat) (key : SecretKey) (period : Z)
  : option (SecretKey * option error) :=
  if sk_Period key <? period then
    match fuel with
    | O => None
    | S fuel =>
        match kes_Update key with
        | Err e =>
            Some (key, Some (Errorf "advance KES key from period %d: %w"
                               [ArgInt (sk_Period key); ArgErr e]))
        | Ok next => advance_loop fuel next period
        end
    end
  else Some (key, None).

Definition advanceTo (s : KESSigner) (period : Z) : option (KESSigner * option error) :=
  if period <? sk_Period (kg_kesKey s) then
    Some (s, Some (Errorf "KES key already at period %d, cannot sign at earlier period %d"
                     [ArgInt (sk_Period (kg_kesKey s)); ArgInt period]))
  else
    '(key, err) ← advance_loop key_fuel (kg_kesKey s) period;
    Some (set_kesKey s key, err).

Definition signAtLocked (s : KESSigner) (relPeriod : Z) (payload : slice)
  : option (KESSigner * result SignedKESPayload) :=
  match validateRelativeKESPeriodForNetwork relPeriod (kg_network s) with
  | Some e => Some (s, Err e)
  | None =>
      '(s, err) ← advanceTo s relPeriod;
      match err with
      | Some e => Some (s, Err e)
      | None =>
          match kes_Sign (kg_kesKey s) relPeriod payload with
          | Err e => Some (s, Err (Errorf "KES sign: %w" [ArgErr e]))
          | Ok signature =>
              Some (s, Ok (mkSignedKES (cloneBytes (kc_KESVKey (kg_opCert s))) relPeriod
                             (cloneBytes signature)))
          end
      end
  end.

Definition KESSigner_SignAt (s : option KESSigner) (period : Z) (payload : slice)
  : option (option KESSigner * result SignedKESPayload) :=
  match s with
  | None => Some (None, Err (ErrVar ErrSignerRequired))
  | Some s => '(s, r) ← signAtLocked s period payload; Some (Some s, r)
  end.

Definition KESSigner_Sign (s : option KESSigner) (now : Time) (payload : slice)
  : option (option KESSigner * result SignedKESPayload) :=
  match s with
  | None => Some (None, Err (ErrVar ErrSignerRequired))
  | Some s =>
      match currentRelativePeriodFor (kg_network s) (kg_opCert s) now with
      | Err e => Some (Some s, Err e)
      | Ok relPeriod => '(s, r) ← signAtLocked s relPeriod payload; Some (Some s, r)
      end
  end.

Definition VerifyKESSignature (vkey : slice) (period : Z) (payload signature : slice) : bool :=
  kes_VerifySignedKES vkey period payload signature.

End kes.

(* ------------------------------------------------------------------ *)
(** ** Facts *)

Section kes_facts.
Context `{KesLaws}.

Lemma cloneKESSigningCertificate_id c : cloneKESSigningCertificate c = c.
Proof. destruct c. unfold cloneKESSigningCertificate. by rewrite !cloneBytes_id. Qed.

Lemma crypto_max : cryptoMaxKESEvolutions CardanoKesDepth = 2 ^ CardanoKesDepth.
Proof.
  pose proof depth_range. unfold cryptoMaxKESEvolutions.
  destruct (_ >=? _) eqn:E; zbool; [lia|]. by rewrite Z.shiftl_1_l.
Qed.

Lemma key_periods_range : 1 <= 2 ^ CardanoKesDepth < 2 ^ 63.
Proof.
  pose proof depth_range. split; [apply (Z.pow_le_mono_r 2 0); lia|]. apply Z.pow_lt_mono_r; lia.
Qed.

(** The network's limit or the key's, whichever is lower; a network limit of
    zero is no limit. *)
Lemma effective_max network :
  0 <= np_MaxKESEvolutions network ->
  effectiveMaxKESEvolutions network CardanoKesDepth
    = (if np_MaxKESEvolutions network =? 0 then 2 ^ CardanoKesDepth
       else Z.min (np_MaxKESEvolutions network) (2 ^ CardanoKesDepth)) /\
  1 <= effectiveMaxKESEvolutions network CardanoKesDepth <= 2 ^ CardanoKesDepth.
Proof.
  intros Hn. pose proof key_periods_range. unfold effectiveMaxKESEvolutions. rewrite crypto_max.
  destruct (_ =? 0) eqn:E1, (_ >? _) eqn:E2; simpl; zbool; lia.
Qed.

Lemma Update_last k : kes_key k -> 2 ^ sk_Depth k <= sk_Period k + 1 -> is_Ok (kes_Update k) = false.
Proof.
  intros Hk Hlast. destruct (kes_Update k) as [k'|e] eqn:E; [|done].
  destruct (Update_Ok _ _ Hk E) as (Hk' & Hd & Hp & _). apply key_period in Hk'. rewrite Hd in Hk'. lia.
Qed.

(** The loop ends; it reaches every period the key has, and stops with an
    error at the last one otherwise. *)
Lemma advance_loop_spec fuel k period :
  kes_key k -> 2 ^ sk_Depth k <= sk_Period k + Z.of_nat fuel ->
  exists k' err, advance_loop fuel k period = Some (k', err) /\
    kes_key k' /\ sk_Depth k' = sk_Depth k /\ kes_PublicKey k' = kes_PublicKey k /\
    sk_Period k' = Z.max (sk_Period k) (Z.min period (2 ^ sk_Depth k - 1)) /\
    (err = None <-> period < 2 ^ sk_Depth k).
Proof.
  revert k. induction fuel as [|fuel IH]; intros k Hk Hf; pose proof (key_period _ Hk) as Hp; [lia|].
  cbn [advance_loop]. destruct (_ <? _) eqn:E; zbool.
  2:{ do 2 eexists. split; [done|]. split_and!; try done; try lia. split; [lia|done]. }
  destruct (kes_Update k) as [k'|e] eqn:Hu.
  - destruct (Update_Ok _ _ Hk Hu) as (Hk' & Hd & Hp' & Hv).
    destruct (IH k' Hk') as (k2 & err & -> & Hk2 & Hd2 & Hv2 & Hp2 & Herr); [rewrite Hd; lia|].
    rewrite Hd in *. pose proof (key_period _ Hk') as Hb. rewrite Hd in Hb.
    do 2 eexists. split; [done|]. split_and!; try done; (congruence || lia).
  - do 2 eexists. split; [done|]. assert (2 ^ sk_Depth k <= sk_Period k + 1).
    { apply Z.nlt_ge. intros Hlt%(Update_live k Hk). by rewrite Hu in Hlt. }
    split_and!; try done; try lia. split; [done|lia].
Qed.

Lemma key_fuel_enough k :
  kes_key k -> sk_Depth k = CardanoKesDepth -> 2 ^ sk_Depth k <= sk_Period k + Z.of_nat key_fuel.
Proof.
  intros Hk ->. pose proof (key_period _ Hk). pose proof key_periods_range.
  unfold key_fuel. rewrite crypto_max. lia.
Qed.

(** The certificate body is read back: no two certificates share one. *)
Lemma opcert_body_inj vk n p vk' n' p' :
  len vk = PublicKeySize -> len vk' = PublicKeySize ->
  is_u64 n -> is_u64 p -> is_u64 n' -> is_u64 p' ->
  opcert_body vk n p = opcert_body vk' n' p' -> content vk = content vk' /\ n = n' /\ p = p'.
Proof.
  unfold len, PublicKeySize, opcert_body. intros Hv Hv' Hn Hp Hn' Hp' E.
  rewrite !go_copy_same_length in E by (unfold make_bytes; rewrite length_replicate; lia).
  apply app_inj_1 in E as [-> E]; [|lia]. apply app_inj_1 in E as [En Ep]; [|done].
  split_and!; [done|by apply PutUint64_inj..].
Qed.

(** A certificate that loads has passed its validation. *)
Lemma LoadOperationalCertificate_Ok fs path cert :
  LoadOperationalCertificate fs path = Ok cert ->
  ValidateOperationalCertificate cert = None /\
  (key_files_ok fs -> is_u64 (kc_IssueNumber cert) /\ is_u64 (kc_KESPeriod cert)).
Proof.
  unfold LoadOperationalCertificate. destruct (fs path) as [k|e] eqn:Hf; [|done].
  intros [Hv [= <-]]%check_Ok. split; [done|]. intros Hfs.
  destruct (Hfs _ _ Hf) as (? & ? & _). done.
Qed.

Lemma LoadKESSigningKey_Ok fs path key :
  key_files_ok fs -> LoadKESSigningKey fs path = Ok key ->
  let sk := mkSecretKey CardanoKesDepth 0 (ks_SecretKeyBytes key) in
  kes_key sk /\ content (kes_PublicKey sk) = content (ks_VerificationKey key).
Proof.
  intros Hfs. unfold LoadKESSigningKey. destruct (fs path) as [k|e] eqn:Hf; [|done].
  destruct (Hfs _ _ Hf) as (_ & _ & Hk).
  destruct (_ =? CardanoKesSecretKeySize) eqn:E1; zbool; simpl; [|done].
  destruct (_ =? PublicKeySize) eqn:E2; zbool; simpl; [|done].
  intros [= <-]. simpl. rewrite !cloneBytes_id. auto.
Qed.

(** ** The signer's invariant *)

(** The key is a Cardano key, its verification key is the certificate's, and
    the certificate is valid. *)
Record signer_ok (s : KESSigner) : Prop := {
  so_key : kes_key (kg_kesKey s);
  so_depth : sk_Depth (kg_kesKey s) = CardanoKesDepth;
  so_vkey : content (kes_PublicKey (kg_kesKey s)) = content (kc_KESVKey (kg_opCert s));
  so_cert : ValidateOperationalCertificate (kg_opCert s) = None;
  so_period : is_u64 (kc_KESPeriod (kg_opCert s));
  so_network : 0 <= np_MaxKESEvolutions (kg_network s)
}.

Definition same_signer (s s' : KESSigner) : Prop :=
  kg_network s' = kg_network s /\ kg_opCert s' = kg_opCert s.

Lemma advanceTo_spec s period :
  signer_ok s ->
  exists s' err, advanceTo s period = Some (s', err) /\ signer_ok s' /\ same_signer s s' /\
    sk_Period (kg_kesKey s) <= sk_Period (kg_kesKey s') /\
    (err = None <-> sk_Period (kg_kesKey s) <= period < 2 ^ CardanoKesDepth) /\
    (err = None -> sk_Period (kg_kesKey s') = period) /\
    (period < sk_Period (kg_kesKey s) -> s' = s).
Proof.
  intros Hs. pose proof Hs as [Hk Hd Hv Hc Hp Hn]. unfold advanceTo. destruct (_ <? _) eqn:E; zbool.
  { exists s. eexists. split_and!; try done; try lia. split; [done|lia]. }
  destruct (advance_loop_spec key_fuel (kg_kesKey s) period Hk (key_fuel_enough _ Hk Hd))
    as (k' & err & -> & Hk' & Hd' & Hv' & Hp' & Herr).
  rewrite Hd in *. simpl. do 2 eexists. split; [done|].
  pose proof (key_period _ Hk) as Hr. rewrite Hd in Hr.
  split_and!; try done; simpl; try lia.
  - split; simpl; try done; congruence.
  - rewrite Herr. lia.
  - intros Hnone. apply Herr in Hnone. lia.
Qed.

Lemma KESSigner_SignAt_spec s period payload :
  signer_ok s ->
  exists s' r, KESSigner_SignAt (Some s) period payload = Some (Some s', r) /\
    signer_ok s' /\ same_signer s s' /\
    if bool_decide (sk_Period (kg_kesKey s) <= period
                    < effectiveMaxKESEvolutions (kg_network s) CardanoKesDepth)
    then sk_Period (kg_kesKey s') = period /\
      exists sig, r = Ok (mkSignedKES (kc_KESVKey (kg_opCert s)) period sig) /\
        VerifyKESSignature (kc_KESVKey (kg_opCert s)) period payload sig = true
    else s' = s /\ is_Ok r = false.
Proof.
  intros Hs. unfold KESSigner_SignAt, signAtLocked, validateRelativeKESPeriodForNetwork.
  destruct (effective_max (kg_network s) (so_network _ Hs)) as [_ Hmax].
  destruct (_ >=? _) eqn:E; zbool; simpl.
  { do 2 eexists. split; [done|]. split_and!; try done. rewrite bool_decide_false; [done|lia]. }
  destruct (advanceTo_spec s period Hs) as (s' & err & -> & Hs' & Hsame & Hle & Herr & Hp & Hback).
  simpl. destruct err as [e|]; simpl.
  { do 2 eexists. split; [done|]. split_and!; try done.
    assert (~ (sk_Period (kg_kesKey s) <= period < 2 ^ CardanoKesDepth)) by (intros ?%Herr; done).
    rewrite bool_decide_false by lia. split; [apply Hback; lia|done]. }
  assert (sk_Period (kg_kesKey s) <= period < 2 ^ CardanoKesDepth) by (by apply Herr).
  specialize (Hp eq_refl). pose proof (Sign_live (kg_kesKey s') payload (so_key _ Hs')) as Hlive.
  rewrite Hp in Hlive. destruct (kes_Sign _ _ _) as [sig|] eqn:Hsig; [|done].
  do 2 eexists. split; [done|]. split_and!; try done. rewrite bool_decide_true by lia.
  split; [done|]. destruct Hsame as [_ Hcert]. rewrite Hcert, !cloneBytes_id. eexists. split; [done|].
  unfold VerifyKESSignature. rewrite (Verify_content _ (kes_PublicKey (kg_kesKey s'))).
  - apply (Sign_verifies _ _ _ _ (so_key _ Hs') Hsig).
  - by rewrite (so_vkey _ Hs'), Hcert.
Qed.

(** C23: KESSigner.SignAt, on a signer whose key and certificate belong
    together: it always returns; it signs exactly at the periods from the
    key's current one up to the certificate's last (the lower of the network's
    limit and the key's); the signature is for the certificate's key and the
    requested period and verifies, and the key is then at that period; any
    other period is refused with the signer unchanged. The signer stays well
    formed and its key never moves back. *)
Theorem KESSigner_SignAt_correct s period payload :
  signer_ok s ->
  exists s' r, KESSigner_SignAt (Some s) period payload = Some (Some s', r) /\
    signer_ok s' /\ same_signer s s' /\
    if bool_decide (sk_Period (kg_kesKey s) <= period
                    < effectiveMaxKESEvolutions (kg_network s) CardanoKesDepth)
    then sk_Period (kg_kesKey s') = period /\
      exists sig, r = Ok (mkSignedKES (kc_KESVKey (kg_opCert s)) period sig) /\
        VerifyKESSignature (kc_KESVKey (kg_opCert s)) period payload sig = true
    else s' = s /\ is_Ok r = false.
Proof. apply KESSigner_SignAt_spec. Qed.

(** NewKESSignerWithClock succeeds exactly when the network parameters are
    set and ValidateOperationalCredentials accepts the same two files, and
    fails with that check's error otherwise; the signer it makes has a fresh
    key at period 0 that belongs to its (valid) certificate. *)
Lemma NewKESSigner_spec fs kesKeyPath opCertPath params :
  key_files_ok fs -> 0 <= np_MaxKESEvolutions params ->
  match NewKESSignerWithClock fs kesKeyPath opCertPath params with
  | Ok s =>
      params_unset params = false /\
      ValidateOperationalCredentials fs kesKeyPath opCertPath = None /\
      signer_ok s /\ sk_Period (kg_kesKey s) = 0 /\ kg_network s = params /\
      LoadOperationalCertificate fs opCertPath = Ok (kg_opCert s)
  | Err e =>
      params_unset params = true \/
      ValidateOperationalCredentials fs kesKeyPath opCertPath = Some e
  end.
Proof.
  intros Hfs Hmax. unfold NewKESSignerWithClock, ValidateOperationalCredentials.
  destruct (params_unset params) eqn:Hp; [by left|].
  destruct (LoadKESSigningKey fs kesKeyPath) as [key|e] eqn:Hkey; simpl; [|by right].
  destruct (LoadOperationalCertificate fs opCertPath) as [cert|e] eqn:Hcert; simpl; [|by right].
  destruct (bytes_Equal _ _) eqn:Heq; simpl; [|by right].
  apply bytes_Equal_spec in Heq. apply LoadKESSigningKey_Ok in Hkey as [Hk Hv]; [|done].
  apply LoadOperationalCertificate_Ok in Hcert as [Hval Hu]. destruct (Hu Hfs).
  rewrite cloneBytes_id. split_and!; try done. split; simpl; try done. congruence.
Qed.

(** The outcome of the checks of a certificate at a clock. *)
Definition cert_window (params : NetworkParams) (cert : KESSigningCertificate) (k : Z) : Prop :=
  kc_KESPeriod cert <= k < kc_KESPeriod cert + effectiveMaxKESEvolutions params CardanoKesDepth.

#[export] Instance cert_window_dec params cert k : Decision (cert_window params cert k).
Proof. unfold cert_window. apply _. Defined.

Lemma CurrentKESPeriodFor_range p now k :
  params_typed p -> CurrentKESPeriodFor p now = Ok k -> is_u64 k.
Proof.
  intros Hp. unfold CurrentKESPeriodFor. destruct (_ =? 0) eqn:E0; zbool; [done|].
  intros (slot & Hslot & [= <-])%result_bind_Ok. destruct Hp as [Ha _ _ Hs].
  unfold currentAbsoluteSlotFor in Hslot. apply result_bind_Ok in Hslot as (r & _ & Hslot).
  destruct (_ >? _); [done|]. injection Hslot as <-.
  pose proof (u64_range (np_AbsoluteStartSlot p + r)) as [Hlo Hhi].
  unfold is_u64 in *. split; [apply Z.div_pos; lia|].
  apply Z.div_lt_upper_bound; [lia|]. nia.
Qed.

(** Whether the certificate can be used at a clock is a matter of its window,
    for the signer and for the status report alike. *)
Lemma currentRelativePeriodFor_spec network cert now k :
  params_typed network -> is_u64 (kc_KESPeriod cert) -> CurrentKESPeriodFor network now = Ok k ->
  if bool_decide (cert_window network cert k)
  then currentRelativePeriodFor network cert now = Ok (k - kc_KESPeriod cert)
  else is_Ok (currentRelativePeriodFor network cert now) = false.
Proof.
  intros Hp Hc Hk. unfold currentRelativePeriodFor. rewrite Hk. cbn.
  pose proof (CurrentKESPeriodFor_range _ _ _ Hp Hk) as Hr. unfold cert_window, is_u64 in *.
  destruct (k <? _) eqn:E; zbool; [by rewrite bool_decide_false by lia|].
  rewrite u64_id by (unfold is_u64; lia). unfold validateRelativeKESPeriodForNetwork.
  destruct (_ >=? _) eqn:E2; zbool; simpl.
  - by rewrite bool_decide_false by lia.
  - by rewrite bool_decide_true by lia.
Qed.

Lemma NewOperationalCredentialStatus_spec fs kesKeyPath opCertPath params now cert k :
  params_typed params -> 0 <= np_MaxKESEvolutions params -> key_files_ok fs ->
  params_unset params = false -> LoadOperationalCertificate fs opCertPath = Ok cert ->
  (TrimSpace kesKeyPath = "" \/ ValidateOperationalCredentials fs kesKeyPath opCertPath = None) ->
  CurrentKESPeriodFor params now = Ok k ->
  let max := effectiveMaxKESEvolutions params CardanoKesDepth in
  let st := NewOperationalCredentialStatus fs kesKeyPath opCertPath params now in
  if bool_decide (cert_window params cert k)
  then st = Ok (mkStatus (kc_KESVKey cert) (kc_KESPeriod cert) k (k - kc_KESPeriod cert) max
                  (max - (k - kc_KESPeriod cert))
                  (KESPeriodStart params (u64 (kc_KESPeriod cert + max))))
  else is_Ok st = false.
Proof.
  intros Hp Hm Hfs Hset Hcert Hkey Hk max st. subst st. unfold NewOperationalCredentialStatus.
  rewrite Hset, Hcert. simpl.
  assert ((if negb (bool_decide (TrimSpace kesKeyPath = ""))
           then kesKey ← LoadKESSigningKey fs kesKeyPath;
             if negb (bytes_Equal (ks_VerificationKey kesKey) (kc_KESVKey cert))
             then Err (ErrVar ErrKESKeyMismatch) else Ok tt
           else Ok tt) = Ok tt) as ->.
  { case_bool_decide as Hb; simpl; [done|]. destruct Hkey as [?|Hv]; [done|].
    unfold ValidateOperationalCredentials in Hv. rewrite Hcert in Hv.
    destruct (LoadKESSigningKey fs kesKeyPath); simpl; [|done]. by destruct (bytes_Equal _ _). }
  simpl. rewrite Hk. cbn. destruct (LoadOperationalCertificate_Ok _ _ _ Hcert) as [_ Hu].
  destruct (Hu Hfs) as [_ Hc]. pose proof (CurrentKESPeriodFor_range _ _ _ Hp Hk) as Hr.
  destruct (effective_max params Hm) as [_ Hmax]. pose proof key_periods_range.
  unfold cert_window, is_u64 in *. fold max in Hmax |- *.
  destruct (k <? _) eqn:E; zbool; [by rewrite bool_decide_false by lia|].
  rewrite (u64_id (k - _)) by (unfold is_u64; lia).
  destruct (_ >=? _) eqn:E2; zbool; simpl; [by rewrite bool_decide_false by lia|].
  rewrite bool_decide_true, cloneBytes_id, (u64_id (max - _)) by (unfold is_u64; lia). done.
Qed.

Lemma NewOperationalCredentialStatus_Ok fs kesKeyPath opCertPath params now st :
  NewOperationalCredentialStatus fs kesKeyPath opCertPath params now = Ok st ->
  params_unset params = false /\
  (TrimSpace kesKeyPath = "" \/ ValidateOperationalCredentials fs kesKeyPath opCertPath = None) /\
  exists cert k, LoadOperationalCertificate fs opCertPath = Ok cert /\
    CurrentKESPeriodFor params now = Ok k.
Proof.
  unfold NewOperationalCredentialStatus. destruct (params_unset params); [done|].
  intros (cert & Hcert & ([] & Hkey & (k & Hk & _)%result_bind_Ok)%result_bind_Ok)%result_bind_Ok.
  split; [done|]. split; [|by eauto]. revert Hkey. case_bool_decide; simpl; [by left|].
  intros (key & Hkey & Heq)%result_bind_Ok. right. unfold ValidateOperationalCredentials.
  rewrite Hkey, Hcert. by destruct (bytes_Equal _ _).
Qed.

(** The end of the window is where KESPeriodStart puts it. *)
Lemma status_expiry params now now' k k' cert max (st : result OperationalCredentialStatus) :
  params_typed params -> params_unset params = false -> is_u64 (kc_KESPeriod cert) -> 1 <= max ->
  max = effectiveMaxKESEvolutions params CardanoKesDepth ->
  CurrentKESPeriodFor params now = Ok k -> CurrentKESPeriodFor params now' = Ok k' ->
  kc_KESPeriod cert <= k -> now <= now' -> now' - np_Start params <= max_i64 ->
  period_start_ok params (kc_KESPeriod cert + max) ->
  (if bool_decide (cert_window params cert k') then is_Ok st = true else is_Ok st = false) ->
  is_Ok st = true <-> now' < KESPeriodStart params (u64 (kc_KESPeriod cert + max)).
Proof.
  intros Hp Hset Hc Hmax -> Hk Hk' Hge Hle Hrange Hok Hst.
  pose proof (period_monotone params now now' k k' Hp Hle Hk Hk') as Hmono.
  assert (0 < np_SlotsPerKESPeriod params) as Hpos.
  { unfold params_unset in Hset. zbool. destruct Hp as [_ _ _ Hs]. unfold is_u64 in Hs. lia. }
  assert (is_u64 (kc_KESPeriod cert + effectiveMaxKESEvolutions params CardanoKesDepth)) as Hu.
  { destruct Hok as [[Hlo Hhi] _]. unfold is_u64 in *. nia. }
  rewrite u64_id by done.
  pose proof (period_reached params _ now' k' Hp Hpos Hu) as Hreach.
  rewrite bool_decide_true in Hreach by done.
  assert (np_Start params <= now') as Hstart by (by eapply CurrentKESPeriodFor_started).
  specialize (Hreach Hstart Hrange Hk'). revert Hst. case_bool_decide as Hw; intros ->; unfold cert_window in Hw.
  - split; [|done]. intros _. lia.
  - split; [done|]. lia.
Qed.

(** C30: A credential status reports the certificate's window: the relative
    period and the remaining evolutions add up to the maximum and at least one
    remains; a signer made from the same files works at that very period; and
    when its end can be computed, ExpiresAt is exact: the same files give a
    status at a later clock exactly while that clock is before ExpiresAt. *)
Theorem credential_status_correct fs kesKeyPath opCertPath params now st s :
  params_typed params -> 0 <= np_MaxKESEvolutions params -> key_files_ok fs ->
  NewOperationalCredentialStatus fs kesKeyPath opCertPath params now = Ok st ->
  NewKESSignerWithClock fs kesKeyPath opCertPath params = Ok s ->
  os_RelativeKESPeriod st + os_RemainingKESEvolutions st = os_MaxKESEvolutions st /\
  0 < os_RemainingKESEvolutions st /\
  os_CurrentKESPeriod st = os_OpCertKESPeriod st + os_RelativeKESPeriod st /\
  KESSigner_CurrentPeriod (Some s) now = Ok (os_RelativeKESPeriod st) /\
  forall now' k', now <= now' -> now' - np_Start params <= max_i64 ->
    CurrentKESPeriodFor params now' = Ok k' ->
    period_start_ok params (os_OpCertKESPeriod st + os_MaxKESEvolutions st) ->
    is_Ok (NewOperationalCredentialStatus fs kesKeyPath opCertPath params now') = true <->
    now' < os_ExpiresAt st.
Proof.
  intros Hp Hm Hfs Hst Hs.
  destruct (NewOperationalCredentialStatus_Ok _ _ _ _ _ _ Hst) as (Hset & Hkey & cert & k & Hcert & Hk).
  pose proof (fun now k => NewOperationalCredentialStatus_spec fs kesKeyPath opCertPath params now cert k
    Hp Hm Hfs Hset Hcert Hkey) as Hspec. cbv zeta in Hspec.
  pose proof (Hspec now k Hk) as H1. case_bool_decide as Hw; [|by rewrite Hst in H1].
  rewrite Hst in H1. injection H1 as ->. cbn [os_RelativeKESPeriod os_RemainingKESEvolutions
    os_MaxKESEvolutions os_CurrentKESPeriod os_OpCertKESPeriod os_ExpiresAt].
  destruct (LoadOperationalCertificate_Ok _ _ _ Hcert) as [_ Hu]. destruct (Hu Hfs) as [_ Hc].
  pose proof (NewKESSigner_spec fs kesKeyPath opCertPath params Hfs Hm) as Hnew. rewrite Hs in Hnew.
  destruct Hnew as (_ & _ & _ & _ & Hnet & Hcert').
  assert (kg_opCert s = cert) as Hce by congruence.
  unfold cert_window in Hw. split_and!; [lia..| |].
  - unfold KESSigner_CurrentPeriod. rewrite Hnet, Hce.
    pose proof (currentRelativePeriodFor_spec params cert now k Hp Hc Hk) as Hrel.
    by rewrite bool_decide_true in Hrel.
  - intros now' k' Hle Hrange Hk' Hok. set (max := effectiveMaxKESEvolutions _ _) in *.
    apply (status_expiry params now now' k k' cert max); try done; try lia.
    specialize (Hspec now' k' Hk'). case_bool_decide; [by rewrite Hspec|done].
Qed.

End kes_facts.

(* ------------------------------------------------------------------ *)
(** ** Witnesses *)

(** A signer of the toy key files on mainnet, whose certificate starts at
    period 800. *)
Definition ex_signer : KESSigner :=
  mkKESSigner mainnet (mkSecretKey 6 0 (Some toy_secret))
    (mkKESCert (Some (take 32 toy_secret)) 3 800 (Some (take 64 (toy_cold ++ toy_cert_body)))
       (Some toy_cold)).

Lemma ex_signer_new :
  NewKESSignerWithClock toy_files "kes.skey" "node.cert" mainnet = Ok ex_signer.
Proof. by vm_compute. Qed.

Lemma ex_signer_ok : signer_ok ex_signer.
Proof. split; by vm_compute. Qed.

(** November 2023: period 836. *)
Definition ex_now : Time := Time_of_Unix 1700000000 0.

Lemma KESSigner_SignAt_correct_witness :
  exists s' r, KESSigner_SignAt (Some ex_signer) 36 (Some [x61]) = Some (Some s', r) /\
    sk_Period (kg_kesKey s') = 36 /\ is_Ok r = true.
Proof.
  destruct (KESSigner_SignAt_correct ex_signer 36 (Some [x61]) ex_signer_ok)
    as (s' & r & Hr & _ & _ & Hb).
  exists s', r. split; [exact Hr|].
  assert (0 <= 36 < effectiveMaxKESEvolutions mainnet CardanoKesDepth) as Hw by (split; by vm_compute).
  rewrite (bool_decide_true (_ <= 36 < _) Hw) in Hb.
  destruct Hb as (Hp & sig & -> & _). by split.
Defined.

Lemma credential_status_correct_witness :
  exists st, NewOperationalCredentialStatus toy_files "kes.skey" "node.cert" mainnet ex_now = Ok st /\
    os_RelativeKESPeriod st = 36 /\ os_RemainingKESEvolutions st = 26 /\
    KESSigner_CurrentPeriod (Some ex_signer) ex_now = Ok 36.
Proof.
  assert (exists st, NewOperationalCredentialStatus toy_files "kes.skey" "node.cert" mainnet ex_now = Ok st /\
    os_RelativeKESPeriod st = 36 /\ os_RemainingKESEvolutions st = 26) as (st & Hst & Hr & Hm)
    by (vm_compute; by eexists).
  exists st. split; [exact Hst|]. split; [exact Hr|]. split; [exact Hm|]. rewrite <-Hr.
  apply (credential_status_correct toy_files "kes.skey" "node.cert" mainnet ex_now st ex_signer
    mainnet_typed ltac:(by vm_compute) toy_files_ok Hst ex_signer_new).
Defined.
