(* ===== verification/Signer.v ===== *)
(** * The file signer (signer.go)

    FileSigner signs message payloads with a KES key and certificate from
    files. [answer] is what KESPeriodFunc returns at the call, when it is set;
    the topic argument is ignored as in the code. The period is resolved
    before the signer's mutex is taken, everything after is one step. *)

From S2P Require Import Prelude Errors Types Clone Concrete Encoding Cardano KesLib Kes.

Record FileSignerConfig := mkFileSignerConfig {
  fc_KESSigningKeyPath : string;
  fc_OperationalCertificatePath : string;
  fc_KESPeriod : Z;
  (** KESPeriodFunc is set *)
  fc_KESPeriodFunc : bool
}.

Record FileSigner := mkFileSigner {
  fg_kesSKey : SecretKey;
  fg_kesVKey : slice;
  fg_opCert : OperationalCertificate;
  fg_coldVKey : slice;
  fg_defaultKESPeriod : Z;
  fg_kesPeriodFunc : bool
}.

Definition set_kesSKey (s : FileSigner) (k : SecretKey) : FileSigner :=
  mkFileSigner k (fg_kesVKey s) (fg_opCert s) (fg_coldVKey s) (fg_defaultKESPeriod s)
    (fg_kesPeriodFunc s).

(** The function of the same name, and the method FileSigner.relativeKESPeriod
    with the certificate's start. *)
Definition relativeKESPeriod (period opCertStart : Z) : result Z :=
  if period <? opCertStart then
    Err (Errorf "KES period %d is before opcert start period %d"
           [ArgInt period; ArgInt opCertStart])
  else Ok (u64 (period - opCertStart)).

Definition currentKESPeriod (s : FileSigner) (answer : result Z) (payload : DmqMessagePayload)
  : result Z :=
  if negb (pl_KESPeriod payload =? 0) then Ok (pl_KESPeriod payload)
  else if fg_kesPeriodFunc s then answer
  else Ok (fg_defaultKESPeriod s).

Section signing_bytes.
Context {X : Type} `{Wire X}.

Definition PayloadSigningBytes (payload : DmqMessagePayload) : result slice :=
  let payload := mkPayload None (pl_MessageBody payload) (pl_KESPeriod payload)
                   (pl_ExpiresAt payload) in
  match cbor_Encode_payload payload with
  | Err e => Err (Errorf "encode DMQ payload: %w" [ArgErr e])
  | Ok payloadCBOR =>
      match cbor_Encode_bytes payloadCBOR with
      | Err e => Err (Errorf "wrap DMQ payload: %w" [ArgErr e])
      | Ok wrapped => Ok (Some wrapped)
      end
  end.

Definition ComputeMessageID (payload : DmqMessagePayload) : result slice :=
  ComputeDmqMessageID payload.

End signing_bytes.
Arguments PayloadSigningBytes X {_} _.
Arguments ComputeMessageID X {_} _.

Section signer.
Context {X : Type} `{Wire X} `{Kes}.

(** The method of FileSigner. *)
Definition FileSigner_ValidateOperationalCertificate (s : FileSigner) : option error :=
  let c := fg_opCert s in
  if negb (len (oc_KESVerificationKey c) =? PublicKeySize)
  then Some (ErrNew "opcert KES verification key must be 32 bytes")
  else if negb (len (fg_coldVKey s) =? PublicKeySize)
  then Some (ErrNew "opcert cold verification key must be 32 bytes")
  else if negb (len (oc_ColdSignature c) =? SignatureSize)
  then Some (ErrNew "opcert cold signature must be 64 bytes")
  else
    let body := opcert_body (oc_KESVerificationKey c) (oc_IssueNumber c) (oc_KESPeriod c) in
    if negb (ed25519_Verify (fg_coldVKey s) body (oc_ColdSignature c))
    then Some (ErrNew "opcert cold signature verification failed")
    else None.

Definition NewFileSigner (fs : KeyFiles) (cfg : FileSignerConfig) : result FileSigner :=
  if bool_decide (fc_KESSigningKeyPath cfg = "")
  then Err (ErrNew "KES signing key path is required")
  else if bool_decide (fc_OperationalCertificatePath cfg = "")
  then Err (ErrNew "operational certificate path is required")
  else
    match fs (fc_KESSigningKeyPath cfg) with
    | Err e => Err (Errorf "load KES signing key: %w" [ArgErr e])
    | Ok kesKey =>
        if negb (len (lk_SKey kesKey) =? CardanoKesSecretKeySize) then
          Err (Errorf "invalid KES signing key size: expected %d got %d"
                 [ArgInt CardanoKesSecretKeySize; ArgInt (len (lk_SKey kesKey))])
        else
          match fs (fc_OperationalCertificatePath cfg) with
          | Err e => Err (Errorf "load operational certificate: %w" [ArgErr e])
          | Ok opCertKey =>
              if negb (len (lk_VKey opCertKey) =? PublicKeySize) then
                Err (Errorf "invalid opcert KES verification key size: expected %d got %d"
                       [ArgInt PublicKeySize; ArgInt (len (lk_VKey opCertKey))])
              else if negb (len (lk_OpCertColdVKey opCertKey) =? PublicKeySize) then
                Err (Errorf "invalid opcert cold verification key size: expected %d got %d"
                       [ArgInt PublicKeySize; ArgInt (len (lk_OpCertColdVKey opCertKey))])
              else if negb (len (lk_OpCertSignature opCertKey) =? SignatureSize) then
                Err (Errorf "invalid opcert cold signature size: expected %d got %d"
                       [ArgInt SignatureSize; ArgInt (len (lk_OpCertSignature opCertKey))])
              else if negb (bytes_Equal (lk_VKey kesKey) (lk_VKey opCertKey)) then
                Err (ErrNew "opcert KES verification key does not match KES signing key")
              else
                let opCert := mkOpCert (cloneBytes (lk_VKey opCertKey))
                                (lk_OpCertIssueNumber opCertKey) (lk_OpCertKesPeriod opCertKey)
                                (cloneBytes (lk_OpCertSignature opCertKey)) in
                let s := mkFileSigner
                           (mkSecretKey CardanoKesDepth 0 (cloneBytes (lk_SKey kesKey)))
                           (cloneBytes (lk_VKey kesKey)) opCert
                           (cloneBytes (lk_OpCertColdVKey opCertKey))
                           (if fc_KESPeriod cfg =? 0 then oc_KESPeriod opCert
                            else fc_KESPeriod cfg)
                           (fc_KESPeriodFunc cfg) in
                check (FileSigner_ValidateOperationalCertificate s) (Ok s)
          end
    end.

(** The loop of evolveToRelativePeriod: a key that cannot be evolved far
    enough is dropped. *)
Fixpoint evolve_loop (fuel : nat) (key : SecretKey) (period : Z) : option (result SecretKey) :=
  if sk_Period key <? period then
    match fuel with
    | O => None
    | S fuel =>
        match kes_Update key with
        | Err e =>
            Some (Err (Errorf "update KES key to period %d: %w" [ArgInt period; ArgErr e]))
        | Ok next => evolve_loop fuel next period
        end
    end
  else Some (Ok key).

Definition evolveToRelativePeriod (s : FileSigner) (period : Z)
  : option (FileSigner * option error) :=
  if sk_Period (fg_kesSKey s) >? period then
    Some (s, Some (Errorf "cannot evolve KES key backward: current period %d, requested %d"
                     [ArgInt (sk_Period (fg_kesSKey s)); ArgInt period]))
  else
    r ← evolve_loop key_fuel (fg_kesSKey s) period;
    match r with
    | Err e => Some (s, Some e)
    | Ok key => Some (set_kesSKey s key, None)
    end.

Definition FileSigner_relativeKESPeriod (s : FileSigner) (period : Z) : result Z :=
  relativeKESPeriod period (oc_KESPeriod (fg_opCert s)).

Definition FileSigner_Sign (s : FileSigner) (answer : result Z) (payload : DmqMessagePayload)
  : option (FileSigner * result (DmqMessage X)) :=
  match currentKESPeriod s answer payload with
  | Err e => Some (s, Err e)
  | Ok period =>
      let payload := mkPayload None (pl_MessageBody payload) period (pl_ExpiresAt payload) in
      if pl_ExpiresAt payload =? 0
      then Some (s, Err (ErrNew "payload expiration is required"))
      else
        match FileSigner_relativeKESPeriod s period with
        | Err e => Some (s, Err e)
        | Ok relativePeriod =>
            '(s, err) ← evolveToRelativePeriod s relativePeriod;
            match err with
            | Some e => Some (s, Err e)
            | None =>
                match PayloadSigningBytes X payload with
                | Err e => Some (s, Err e)
                | Ok wrappedPayload =>
                    match kes_Sign (fg_kesSKey s) relativePeriod wrappedPayload with
                    | Err e => Some (s, Err (Errorf "KES sign: %w" [ArgErr e]))
                    | Ok sig =>
                        let msg := mkMessage payload sig
                                     (cloneOperationalCertificate (fg_opCert s))
                                     (cloneBytes (fg_coldVKey s)) zero_rest in
                        Some (s, SetComputedMessageID msg)
                    end
                end
            end
        end
  end.

(** Verify; a *DmqMessage is [None] when nil, and the signer is not consulted. *)
Definition FileSigner_Verify (msg : option (DmqMessage X)) : result bool :=
  match msg with
  | None => Err (ErrNew "message is nil")
  | Some msg =>
      wrappedPayload ← PayloadSigningBytes X (dm_Payload msg);
      relativePeriod ← relativeKESPeriod (pl_KESPeriod (dm_Payload msg))
                         (oc_KESPeriod (dm_OperationalCertificate msg));
      Ok (kes_VerifySignedKES (oc_KESVerificationKey (dm_OperationalCertificate msg))
            relativePeriod wrappedPayload (dm_KESSignature msg))
  end.

Definition FileSigner_KESVerificationKey (s : FileSigner) : slice := cloneBytes (fg_kesVKey s).
Definition FileSigner_OperationalCertificate (s : FileSigner) : OperationalCertificate :=
  cloneOperationalCertificate (fg_opCert s).
Definition FileSigner_ColdVerificationKey (s : FileSigner) : slice := cloneBytes (fg_coldVKey s).

End signer.

(* ------------------------------------------------------------------ *)
(** ** Facts *)

Section signer_facts.
Context {X : Type} `{WireLaws X} `{KesLaws}.

Lemma PayloadSigningBytes_blind id id' b k e :
  PayloadSigningBytes X (mkPayload id b k e) = PayloadSigningBytes X (mkPayload id' b k e).
Proof. done. Qed.

Lemma relativeKESPeriod_spec period start :
  is_u64 period -> is_u64 start ->
  if period <? start then is_Ok (relativeKESPeriod period start) = false
  else relativeKESPeriod period start = Ok (period - start).
Proof.
  unfold relativeKESPeriod, is_u64. intros Hp Hs. destruct (_ <? _) eqn:E; zbool; [done|].
  rewrite u64_id; [done|]. unfold is_u64. lia.
Qed.

(** The two loops make the same updates. *)
Lemma evolve_loop_advance fuel k period :
  match advance_loop fuel k period with
  | None => evolve_loop fuel k period = None
  | Some (k', None) => evolve_loop fuel k period = Some (Ok k')
  | Some (_, Some _) => exists e, evolve_loop fuel k period = Some (Err e)
  end.
Proof.
  revert k. induction fuel as [|fuel IH]; intros k; simpl; destruct (_ <? _); try done.
  destruct (kes_Update k) as [k'|e]; [apply IH|by eexists].
Qed.

(** The two checks of a certificate differ in their error texts only. *)
Lemma file_cert_valid s :
  FileSigner_ValidateOperationalCertificate s = None <->
  ValidateOperationalCertificate
    (mkKESCert (oc_KESVerificationKey (fg_opCert s)) (oc_IssueNumber (fg_opCert s))
       (oc_KESPeriod (fg_opCert s)) (oc_ColdSignature (fg_opCert s)) (fg_coldVKey s)) = None.
Proof.
  unfold FileSigner_ValidateOperationalCertificate, ValidateOperationalCertificate. cbn -[opcert_body].
  by repeat case_match.
Qed.

(** What the code relies on between calls: the key is a Cardano key, its
    verification key is the certificate's, and the certificate is valid. *)
Record file_signer_ok (s : FileSigner) : Prop := {
  fo_key : kes_key (fg_kesSKey s);
  fo_depth : sk_Depth (fg_kesSKey s) = CardanoKesDepth;
  fo_vkey : content (kes_PublicKey (fg_kesSKey s))
              = content (oc_KESVerificationKey (fg_opCert s));
  fo_cert : FileSigner_ValidateOperationalCertificate s = None;
  fo_start : is_u64 (oc_KESPeriod (fg_opCert s));
  fo_default : is_u64 (fg_defaultKESPeriod s)
}.

(** Nothing but the key's evolution differs. *)
Definition evolved (s s' : FileSigner) : Prop :=
  exists k, s' = set_kesSKey s k /\ sk_Period (fg_kesSKey s) <= sk_Period k.

Lemma evolved_refl s : evolved s s.
Proof. exists (fg_kesSKey s). split; [by destruct s|lia]. Qed.

Lemma evolveToRelativePeriod_spec s period :
  file_signer_ok s ->
  exists s' err, evolveToRelativePeriod s period = Some (s', err) /\
    file_signer_ok s' /\ evolved s s' /\
    if bool_decide (sk_Period (fg_kesSKey s) <= period < 2 ^ CardanoKesDepth)
    then err = None /\ sk_Period (fg_kesSKey s') = period
    else s' = s /\ is_Some err.
Proof.
  intros Hs. pose proof Hs as [Hk Hd Hv Hc Hst Hdf]. unfold evolveToRelativePeriod.
  destruct (_ >? _) eqn:E; zbool.
  { do 2 eexists. split; [done|]. split_and!; try done; [apply evolved_refl|].
    by rewrite bool_decide_false by lia. }
  pose proof (evolve_loop_advance key_fuel (fg_kesSKey s) period) as Hev.
  destruct (advance_loop_spec key_fuel (fg_kesSKey s) period Hk (key_fuel_enough _ Hk Hd))
    as (k' & err & Hadv & Hk' & Hd' & Hv' & Hp' & Herr).
  rewrite Hadv in Hev. rewrite Hd in *. pose proof (key_period _ Hk) as Hr. rewrite Hd in Hr.
  destruct err as [e|].
  - destruct Hev as [e' ->]. simpl. do 2 eexists. split; [done|].
    split_and!; try done; [apply evolved_refl|]. rewrite bool_decide_false; [done|].
    intros [_ Hlt]. by apply Herr in Hlt.
  - rewrite Hev. simpl. do 2 eexists. split; [done|].
    assert (period < 2 ^ CardanoKesDepth) by (by apply Herr).
    split_and!.
    + split; simpl; try done; congruence.
    + exists k'. split; [done|lia].
    + rewrite bool_decide_true by lia. simpl. split; [done|lia].
Qed.

Definition period_typed (answer : result Z) (payload : DmqMessagePayload) : Prop :=
  is_u64 (pl_KESPeriod payload) /\ forall p, answer = Ok p -> is_u64 p.

Lemma currentKESPeriod_typed s answer payload period :
  file_signer_ok s -> period_typed answer payload ->
  currentKESPeriod s answer payload = Ok period -> is_u64 period.
Proof.
  intros Hs [Hp Ha]. unfold currentKESPeriod.
  destruct (negb _); [by intros [= <-]|]. destruct (fg_kesPeriodFunc s); [apply Ha|].
  intros [= <-]. apply (fo_default _ Hs).
Qed.

(** The absolute periods at which the signer can sign. *)
Definition signable (s : FileSigner) (period : Z) : Prop :=
  oc_KESPeriod (fg_opCert s) + sk_Period (fg_kesSKey s) <= period
    < oc_KESPeriod (fg_opCert s) + 2 ^ CardanoKesDepth.

#[export] Instance signable_dec s period : Decision (signable s period).
Proof. unfold signable. apply _. Defined.

(** The message a signature makes. *)
Definition signed_with (s : FileSigner) (period : Z) (payload : DmqMessagePayload) (sig : slice)
  : DmqMessage X :=
  mkMessage (mkPayload None (pl_MessageBody payload) period (pl_ExpiresAt payload)) sig
    (fg_opCert s) (fg_coldVKey s) zero_rest.

(** Every outcome of Sign. *)
Lemma FileSigner_Sign_cases s answer payload :
  file_signer_ok s -> period_typed answer payload ->
  exists s' r, FileSigner_Sign s answer payload = Some (s', r) /\ file_signer_ok s' /\ evolved s s' /\
    match currentKESPeriod s answer payload with
    | Err e => s' = s /\ r = Err e
    | Ok period =>
        let p := mkPayload None (pl_MessageBody payload) period (pl_ExpiresAt payload) in
        if bool_decide (pl_ExpiresAt payload <> 0 /\ signable s period)
        then sk_Period (fg_kesSKey s') = period - oc_KESPeriod (fg_opCert s) /\
          match PayloadSigningBytes X p with
          | Err e => r = Err e
          | Ok m => exists sig,
              kes_VerifySignedKES (oc_KESVerificationKey (fg_opCert s))
                (period - oc_KESPeriod (fg_opCert s)) m sig = true /\
              r = SetComputedMessageID (signed_with s period payload sig)
          end
        else s' = s /\ is_Ok r = false
    end.
Proof.
  intros Hs Ht. unfold FileSigner_Sign, FileSigner_relativeKESPeriod.
  destruct (currentKESPeriod s answer payload) as [period|e] eqn:Hp.
  2:{ do 2 eexists. split; [done|]. split_and!; try done. apply evolved_refl. }
  pose proof (currentKESPeriod_typed _ _ _ _ Hs Ht Hp) as Hu. cbn [pl_ExpiresAt]. cbv zeta.
  destruct (_ =? 0) eqn:E0; zbool.
  { do 2 eexists. split; [done|]. split_and!; try done; [apply evolved_refl|].
    rewrite bool_decide_false; [done|]. tauto. }
  pose proof (relativeKESPeriod_spec period _ Hu (fo_start _ Hs)) as Hrel. unfold signable.
  pose proof (key_period _ (fo_key _ Hs)) as Hkp.
  destruct (period <? _) eqn:E1; zbool.
  { destruct (relativeKESPeriod _ _); [done|]. do 2 eexists. split; [done|].
    split_and!; try done; [apply evolved_refl|]. rewrite bool_decide_false; [done|]. lia. }
  rewrite Hrel. set (start := oc_KESPeriod (fg_opCert s)) in *.
  destruct (evolveToRelativePeriod_spec s (period - start) Hs) as (s' & err & -> & Hs' & Hev & Hb).
  case_bool_decide as Hw; destruct Hb as [Hb1 Hb2].
  2:{ destruct Hb2 as [e ->]. simpl. do 2 eexists. split; [done|]. split_and!; try done.
      rewrite bool_decide_false; [done|]. lia. }
  subst err. destruct Hev as (k & -> & Hle). cbn.
  rewrite bool_decide_true by lia.
  destruct (PayloadSigningBytes X _) as [m|e] eqn:Hm.
  2:{ do 2 eexists. split; [done|]. split_and!; try done. by exists k. }
  pose proof (Sign_live k m (fo_key _ Hs')) as Hlive. cbn in Hb2. rewrite Hb2 in Hlive.
  destruct (kes_Sign _ _ _) as [sig|] eqn:Hsig; [|done].
  do 2 eexists. split; [done|]. split_and!; try done; [by exists k|]. exists sig. split.
  - rewrite (Verify_content _ (kes_PublicKey k)); [apply (Sign_verifies _ _ _ _ (fo_key _ Hs') Hsig)|].
    symmetry. apply (fo_vkey _ Hs').
  - unfold signed_with. by rewrite cloneOperationalCertificate_id, cloneBytes_id.
Qed.

(** C22: FileSigner.Sign, on a signer whose key and certificate belong together,
    always returns, and it produces a message exactly when the KES period can
    be resolved, the payload has an expiry, the period lies from the key's
    current one to the last the certificate's key has, and the payload can be
    encoded and hashed. The key only moves forward and nothing else of the
    signer changes; a request outside these periods leaves even the key. *)
Theorem FileSigner_Sign_correct s answer payload :
  file_signer_ok s -> period_typed answer payload ->
  exists s' r, FileSigner_Sign s answer payload = Some (s', r) /\
    file_signer_ok s' /\ evolved s s' /\
    (is_Ok r = true <-> exists period, currentKESPeriod s answer payload = Ok period /\
       let p := mkPayload None (pl_MessageBody payload) period (pl_ExpiresAt payload) in
       pl_ExpiresAt payload <> 0 /\ signable s period /\
       is_Ok (PayloadSigningBytes X p) = true /\ is_Ok (ComputeDmqMessageID p) = true) /\
    (forall period, currentKESPeriod s answer payload = Ok period -> ~ signable s period -> s' = s).
Proof.
  intros Hs Ht. destruct (FileSigner_Sign_cases s answer payload Hs Ht)
    as (s' & r & -> & Hs' & Hev & Hcase).
  do 2 eexists. split; [done|]. split; [done|]. split; [done|]. revert Hcase.
  destruct (currentKESPeriod s answer payload) as [period|e].
  2:{ intros [-> ->]. split; [|done]. split; [done|]. by intros (? & ? & _). }
  cbv zeta. case_bool_decide as Hw.
  2:{ intros [-> Hr]. split; [|done]. split; [by rewrite Hr|].
      intros (p & [= <-] & ? & ? & _). tauto. }
  intros [Hp Hm]. split; [|intros p [= <-]; tauto].
  destruct (PayloadSigningBytes X _) as [m|e] eqn:Hb.
  - destruct Hm as (sig & _ & ->). rewrite SetComputedMessageID_spec. cbn [dm_Payload signed_with].
    destruct (ComputeDmqMessageID _) as [id|e] eqn:Hid; simpl; split; try done.
    + intros _. exists period. rewrite Hb, Hid. tauto.
    + intros (p & [= <-] & _ & _ & _ & Hok). by rewrite Hid in Hok.
  - subst r. split; [done|]. intros (p & [= <-] & _ & _ & Hok & _). by rewrite Hb in Hok.
Qed.

(** What Sign produces. *)
Lemma FileSigner_signed_genuine s s' answer payload msg :
  file_signer_ok s -> period_typed answer payload ->
  FileSigner_Sign s answer payload = Some (s', Ok msg) ->
  FileSigner_Verify (Some msg) = Ok true /\
  ValidateOperationalCertificate
    (mkKESCert (oc_KESVerificationKey (dm_OperationalCertificate msg))
       (oc_IssueNumber (dm_OperationalCertificate msg))
       (oc_KESPeriod (dm_OperationalCertificate msg))
       (oc_ColdSignature (dm_OperationalCertificate msg)) (dm_ColdVerificationKey msg)) = None /\
  pl_MessageBody (dm_Payload msg) = pl_MessageBody payload /\
  pl_ExpiresAt (dm_Payload msg) = pl_ExpiresAt payload /\
  currentKESPeriod s answer payload = Ok (pl_KESPeriod (dm_Payload msg)) /\
  exists id, ComputeMessageID X (dm_Payload msg) = Ok id /\ content (msg_ID msg) = content id.
Proof.
  intros Hs Ht Hsign. destruct (FileSigner_Sign_cases s answer payload Hs Ht)
    as (s2 & r & Hr & _ & _ & Hcase). rewrite Hsign in Hr. injection Hr as <- <-.
  destruct (currentKESPeriod s answer payload) as [period|e] eqn:Hper; [|by destruct Hcase].
  cbv zeta in Hcase. case_bool_decide as Hw; [|by destruct Hcase]. destruct Hcase as [_ Hm].
  destruct (PayloadSigningBytes X _) as [m|e] eqn:Hb; [|done]. destruct Hm as (sig & Hver & Hmsg).
  rewrite SetComputedMessageID_spec in Hmsg. symmetry in Hmsg.
  apply result_bind_Ok in Hmsg as (id & Hid & [= <-]).
  pose proof (currentKESPeriod_typed _ _ _ _ Hs Ht Hper) as Hu.
  unfold FileSigner_Verify, ComputeMessageID. autorewrite with dmq_wire.
  destruct (SetMessageID_Payload id (signed_with s period payload sig)) as [id' Hpl].
  rewrite Hpl. cbn [signed_with dm_Payload dm_OperationalCertificate dm_KESSignature
    dm_ColdVerificationKey pl_MessageBody pl_KESPeriod pl_ExpiresAt].
  split_and!; try done.
  - rewrite (PayloadSigningBytes_blind _ None), Hb. cbn.
    pose proof (relativeKESPeriod_spec period _ Hu (fo_start _ Hs)) as Hrel.
    destruct Hw as [_ [Hlo _]]. pose proof (key_period _ (fo_key _ Hs)).
    destruct (period <? _) eqn:E; zbool; [lia|]. rewrite Hrel. cbn. by rewrite Hver.
  - by apply file_cert_valid, Hs.
  - by exists id.
Qed.

(** C21: A message signed by a FileSigner carries the payload's body and expiry,
    the period that was resolved, the signer's certificate and cold key and
    the ID computed from its payload; Verify accepts it, and its certificate
    passes the cold-key check. *)
Theorem FileSigner_signed_verifies s s' answer payload msg :
  file_signer_ok s -> period_typed answer payload ->
  FileSigner_Sign s answer payload = Some (s', Ok msg) ->
  FileSigner_Verify (Some msg) = Ok true /\
  ValidateOperationalCertificate
    (mkKESCert (oc_KESVerificationKey (dm_OperationalCertificate msg))
       (oc_IssueNumber (dm_OperationalCertificate msg))
       (oc_KESPeriod (dm_OperationalCertificate msg))
       (oc_ColdSignature (dm_OperationalCertificate msg)) (dm_ColdVerificationKey msg)) = None /\
  pl_MessageBody (dm_Payload msg) = pl_MessageBody payload /\
  pl_ExpiresAt (dm_Payload msg) = pl_ExpiresAt payload /\
  currentKESPeriod s answer payload = Ok (pl_KESPeriod (dm_Payload msg)) /\
  exists id, ComputeMessageID X (dm_Payload msg) = Ok id /\ content (msg_ID msg) = content id.
Proof. apply FileSigner_signed_genuine. Qed.

(** The checks of NewFileSigner in terms of the loading functions. *)
Lemma NewFileSigner_loads fs cfg s :
  NewFileSigner fs cfg = Ok s <->
  fc_KESSigningKeyPath cfg <> "" /\ fc_OperationalCertificatePath cfg <> "" /\
  exists key cert, LoadKESSigningKey fs (fc_KESSigningKeyPath cfg) = Ok key /\
    LoadOperationalCertificate fs (fc_OperationalCertificatePath cfg) = Ok cert /\
    content (ks_VerificationKey key) = content (kc_KESVKey cert) /\
    s = mkFileSigner (mkSecretKey CardanoKesDepth 0 (ks_SecretKeyBytes key))
          (ks_VerificationKey key)
          (mkOpCert (kc_KESVKey cert) (kc_IssueNumber cert) (kc_KESPeriod cert) (kc_Signature cert))
          (kc_ColdVKey cert)
          (if fc_KESPeriod cfg =? 0 then kc_KESPeriod cert else fc_KESPeriod cfg)
          (fc_KESPeriodFunc cfg).
Proof.
  unfold NewFileSigner, LoadKESSigningKey, LoadOperationalCertificate, ValidateOperationalCertificate,
    FileSigner_ValidateOperationalCertificate.
  repeat (case_bool_decide; [naive_solver|]).
  destruct (fs (fc_KESSigningKeyPath cfg)) as [key|e]; [|naive_solver].
  destruct (len (lk_SKey key) =? _); simpl; [|naive_solver].
  destruct (fs (fc_OperationalCertificatePath cfg)) as [cert|e]; simpl.
  2:{ split; [done|]. by intros (_ & _ & ? & ? & _ & [=] & _). }
  rewrite !cloneBytes_id.
  destruct (len (lk_VKey cert) =? PublicKeySize) eqn:E1; simpl; [|naive_solver].
  destruct (len (lk_OpCertColdVKey cert) =? _) eqn:E2; simpl; [|naive_solver].
  destruct (len (lk_OpCertSignature cert) =? _) eqn:E3; simpl; [|naive_solver].
  destruct (bytes_Equal (lk_VKey key) (lk_VKey cert)) eqn:E4; simpl.
  2:{ split; [done|]. intros (_ & _ & k & c & Hk & Hc & Heq & _).
      destruct (len (lk_VKey key) =? _); [|done]. injection Hk as <-.
      destruct (ed25519_Verify _ _ _); [|done]. injection Hc as <-. simpl in Heq.
      by apply bytes_Equal_spec in Heq; congruence. }
  apply bytes_Equal_spec in E4. unfold len in *. rewrite E4, E1. simpl.
  destruct (ed25519_Verify _ _ _); simpl; [|naive_solver].
  split; [intros [= <-]|]; [split_and!; try done; by do 2 eexists|naive_solver].
Qed.

(** NewFileSigner accepts exactly the credentials that
    ValidateOperationalCredentials accepts (given the two paths), whatever the
    configured period; the signer it makes is well formed, at period 0, and
    defaults to the certificate's start period. *)
Theorem NewFileSigner_correct fs cfg :
  key_files_ok fs -> is_u64 (fc_KESPeriod cfg) ->
  (is_Ok (NewFileSigner fs cfg) = true <->
     fc_KESSigningKeyPath cfg <> "" /\ fc_OperationalCertificatePath cfg <> "" /\
     ValidateOperationalCredentials fs (fc_KESSigningKeyPath cfg)
       (fc_OperationalCertificatePath cfg) = None) /\
  (forall s, NewFileSigner fs cfg = Ok s ->
     file_signer_ok s /\ sk_Period (fg_kesSKey s) = 0 /\
     fg_defaultKESPeriod s = if fc_KESPeriod cfg =? 0 then oc_KESPeriod (fg_opCert s)
                             else fc_KESPeriod cfg).
Proof.
  intros Hfs Hper. split; [split|].
  - destruct (NewFileSigner fs cfg) as [s|] eqn:Hn; [|done]. intros _.
    apply NewFileSigner_loads in Hn as (Hk & Hc & key & cert & Hkey & Hcert & Heq & _).
    split_and!; try done. unfold ValidateOperationalCredentials. rewrite Hkey, Hcert.
    apply bytes_Equal_spec in Heq. by rewrite Heq.
  - intros (Hk & Hc & Hv). unfold ValidateOperationalCredentials in Hv.
    destruct (LoadKESSigningKey _ _) as [key|] eqn:Hkey; [|done].
    destruct (LoadOperationalCertificate _ _) as [cert|] eqn:Hcert; [|done].
    destruct (bytes_Equal _ _) eqn:Heq; [|done]. apply bytes_Equal_spec in Heq.
    assert (exists s, NewFileSigner fs cfg = Ok s) as [s ->]; [|done].
    eexists. apply NewFileSigner_loads. split_and!; try done. by do 2 eexists.
  - intros s (Hk & Hc & key & cert & Hkey & Hcert & Heq & ->)%NewFileSigner_loads.
    apply LoadKESSigningKey_Ok in Hkey as [Hkk Hkv]; [|done].
    destruct (LoadOperationalCertificate_Ok _ _ _ Hcert) as [Hval Hu]. destruct (Hu Hfs) as [_ Hst].
    split; [|done]. split; cbn [fg_kesSKey fg_opCert fg_defaultKESPeriod sk_Depth
      oc_KESVerificationKey oc_KESPeriod]; try done.
    + congruence.
    + apply file_cert_valid. by destruct cert.
    + by destruct (_ =? 0).
Qed.

End signer_facts.

(* ------------------------------------------------------------------ *)
(** ** Witnesses *)

Definition ex_file_config : FileSignerConfig := mkFileSignerConfig "kes.skey" "node.cert" 0 true.

(** The signer of the toy key files: its certificate starts at period 800. *)
Definition ex_file_signer : FileSigner :=
  mkFileSigner (mkSecretKey 6 0 (Some toy_secret)) (Some (take 32 toy_secret))
    (mkOpCert (Some (take 32 toy_secret)) 3 800 (Some (take 64 (toy_cold ++ toy_cert_body))))
    (Some toy_cold) 800 true.

Lemma ex_file_signer_new : NewFileSigner toy_files ex_file_config = Ok ex_file_signer.
Proof. by vm_compute. Qed.

Lemma ex_file_signer_ok : file_signer_ok ex_file_signer.
Proof. split; by vm_compute. Qed.

Definition ex_payload : DmqMessagePayload := mkPayload None (Some [x68; x69]) 0 1700000600.

Lemma ex_payload_typed : period_typed (Ok 836) ex_payload.
Proof. split; [by vm_compute|]. intros p [= <-]. by vm_compute. Qed.

Lemma FileSigner_Sign_correct_witness :
  exists s' r, FileSigner_Sign (X := unit) ex_file_signer (Ok 836) ex_payload = Some (s', r) /\
    file_signer_ok s' /\ is_Ok r = true.
Proof.
  destruct (FileSigner_Sign_correct (X := unit) ex_file_signer (Ok 836) ex_payload
    ex_file_signer_ok ex_payload_typed) as (s' & r & Hr & Hs & _ & [_ Hok] & _).
  exists s', r. split; [exact Hr|]. split; [exact Hs|]. apply Hok. exists 836. split; [reflexivity|].
  split; [done|]. split; [split; by vm_compute|]. by split.
Defined.

Lemma FileSigner_signed_verifies_witness :
  exists s' msg, FileSigner_Sign (X := unit) ex_file_signer (Ok 836) ex_payload = Some (s', Ok msg) /\
    FileSigner_Verify (Some msg) = Ok true /\ pl_MessageBody (dm_Payload msg) = Some [x68; x69].
Proof.
  destruct (FileSigner_Sign (X := unit) ex_file_signer (Ok 836) ex_payload) as [[s' [msg|e]]|] eqn:E.
  2-3: exfalso; revert E; by vm_compute.
  exists s', msg. split; [done|].
  destruct (FileSigner_signed_verifies ex_file_signer s' (Ok 836) ex_payload msg
    ex_file_signer_ok ex_payload_typed E) as (Hv & _ & Hb & _).
  by split.
Defined.

