(* ===== verification/Publish.v ===== *)
(** * Publishing from end to end (payload.go, signer.go, topic.go)

    A topic whose signer is a FileSigner publishes a body: the payload is
    built, signed, submitted, and accepted by every topic that trusts the
    signer's certificate. What the protocol library's TTL check and the
    authenticators accept are hypotheses on the topics. *)

From S2P Require Import Prelude Errors Types Clone Concrete Encoding Payload Peers Ledger Config Topic TopicFacts Examples TopicTheorems Cardano KesLib Kes Signer.

Section publishing.
Context {X : Type} `{WireLaws X} `{KesLaws}.
Implicit Types t : topicRuntime X.

(** A FileSigner as the signer of a topic, at one call: [answer] is what its
    KESPeriodFunc returns. Sign always returns. *)
Definition file_Sign (s : FileSigner) (answer : result Z) : Signer X := fun _ payload =>
  match FileSigner_Sign s answer payload with
  | Some (_, Ok msg) => Ok (Some msg)
  | Some (_, Err e) => Err e
  | None => Err (ErrNew "Sign does not return")
  end.

Definition cert_of (m : DmqMessage X) : KESSigningCertificate :=
  let c := dm_OperationalCertificate m in
  mkKESCert (oc_KESVerificationKey c) (oc_IssueNumber c) (oc_KESPeriod c) (oc_ColdSignature c)
    (dm_ColdVerificationKey m).

(** A message of the signer [s] with the given content: its signature and its
    certificate hold, and its ID is the computed one. *)
Record genuine (s : FileSigner) (p : DmqMessagePayload) (m : DmqMessage X) : Prop := {
  ge_verify : FileSigner_Verify (Some m) = Ok true;
  ge_cert : ValidateOperationalCertificate (cert_of m) = None;
  ge_cold : dm_ColdVerificationKey m = fg_coldVKey s;
  ge_body : pl_MessageBody (dm_Payload m) = pl_MessageBody p;
  ge_expires : pl_ExpiresAt (dm_Payload m) = pl_ExpiresAt p;
  ge_period : pl_KESPeriod (dm_Payload m) = pl_KESPeriod p;
  ge_id : exists id, ComputeDmqMessageID p = Ok id /\ content (msg_ID m) = content id
}.

(** The conditions on a topic for taking such a message. *)
Record receptive (s : FileSigner) (p : DmqMessagePayload) t (now1 now2 : Time) : Prop := {
  re_inv : rt_inv t;
  re_open : rt_closed t = false;
  re_trust : ac_Required (cf_Authentication (rt_cfg t)) = true ->
    forall m, genuine s p m ->
      VerifyMessage (ac_Authenticator (cf_Authentication (rt_cfg t))) m = None;
  re_ttl : forall m, pl_ExpiresAt (dm_Payload m) = pl_ExpiresAt p ->
    unexpired (cf_TTL (rt_cfg t)) now1 m;
  re_fresh : forall id at', ComputeDmqMessageID p = Ok id -> rt_seen t !! go_string id = Some at' ->
    qc_DuplicateTTL (cf_Queue (rt_cfg t)) < Time_Sub now2 at';
  re_room : Z.of_nat (length (filter (unexpired (cf_TTL (rt_cfg t)) now2) (rt_queue t)))
            < qc_MaxMessages (cf_Queue (rt_cfg t))
}.

(** What accepting [m] leaves: it is queued last, and every subscriber whose
    channel has room has an envelope with the body. *)
Definition accepted_by t t' (now2 : Time) (p : DmqMessagePayload) (m : DmqMessage X) : Prop :=
  rt_queue t' = filter (unexpired (cf_TTL (rt_cfg t)) now2) (rt_queue t) ++ [cloneMessage m] /\
  forall h sub, h ∈ subscriber_handles t -> rt_subs t !! h = Some sub ->
    Z.of_nat (length (ch_buf (su_C sub))) < ch_cap (su_C sub) ->
    exists sub' v, rt_subs t' !! h = Some sub' /\ ch_buf (su_C sub') = ch_buf (su_C sub) ++ [v] /\
      en_Body v = pl_MessageBody p.

Lemma genuine_payload s p m : genuine s p m -> exists id,
  dm_Payload m = mkPayload id (pl_MessageBody p) (pl_KESPeriod p) (pl_ExpiresAt p).
Proof.
  intros [_ _ _ Hb He Hk _]. destruct (dm_Payload m) as [id b k e]. simpl in *. subst.
  by exists id.
Qed.

(** Whatever agrees with a genuine message is genuine. *)
Lemma genuine_equiv s p m m' : msg_equiv m' m -> genuine s p m -> genuine s p m'.
Proof.
  intros Heq Hg. pose proof (genuine_payload _ _ _ Hg) as [id Hp].
  destruct Heq as [Hid Hb Hk He Hs Hc Hv]. destruct Hg as [Gv Gc Go Gb Ge Gk [cid [Hcid Gi]]].
  assert (exists id', dm_Payload m'
    = mkPayload id' (pl_MessageBody p) (pl_KESPeriod p) (pl_ExpiresAt p)) as [id' Hp'].
  { rewrite Hp in *. simpl in *. destruct (dm_Payload m') as [id' b k e]. simpl in *. subst.
    by exists id'. }
  split; try congruence.
  - revert Gv. unfold FileSigner_Verify. rewrite Hp, Hp'. cbn [pl_KESPeriod].
    rewrite (PayloadSigningBytes_blind id' id). by rewrite Hs, Hc.
  - unfold cert_of in *. by rewrite Hc, Hv.
  - exists cid. split; [done|]. congruence.
Qed.

(** A genuine message passes the checks of normalizeAndValidateMessage, which
    keep it. *)
Lemma genuine_normal s p m :
  genuine s p m -> len (pl_MessageBody p) <= MaxMessageBodyBytes ->
  normalizeAndValidateMessage m = Ok (SetMessageID (msg_ID m) m).
Proof.
  intros Hg Hlen. pose proof (genuine_payload _ _ _ Hg) as [id Hp].
  destruct (ge_id _ _ _ Hg) as (cid & Hcid & Hi). unfold normalizeAndValidateMessage. rewrite Hp. cbn.
  pose proof (ValidateMessageBody_spec (pl_MessageBody p)) as Hv.
  destruct (ValidateMessageBody _); [lia|]. cbn.
  assert (ComputeDmqMessageID (mkPayload id (pl_MessageBody p) (pl_KESPeriod p) (pl_ExpiresAt p))
    = Ok cid) as ->.
  { rewrite <-Hcid. destruct p as [pid b k e]. cbn. by rewrite Compute_blind, (Compute_blind pid). }
  destruct (len (msg_ID m) =? 0) eqn:El; zbool.
  { apply len_zero in El. exfalso. apply (Compute_nonempty _ _ Hcid). congruence. }
  by rewrite (proj2 (bytes_Equal_spec _ _) Hi).
Qed.

(** A receptive topic accepts it. *)
Lemma genuine_accepted s p m t now1 now2 source peer :
  genuine s p m -> len (pl_MessageBody p) <= MaxMessageBodyBytes -> receptive s p t now1 now2 ->
  exists t' m' evs, submitSigned t now1 now2 (Some m) source peer = Some (t', Some m', None, evs) /\
    genuine s p m' /\ accepted_by t t' now2 p m'.
Proof.
  intros Hg Hlen [Ht Ho Htr Httl Hfr Hroom]. pose proof (genuine_normal _ _ _ Hg Hlen) as Hn.
  set (m' := SetMessageID (msg_ID m) m) in *.
  assert (genuine s p m') as Hg' by (eapply genuine_equiv; [apply SetMessageID_equiv|done]).
  unfold submitSigned. assert (submit_validate t now1 m = (m', None)) as ->.
  { apply submit_validate_None. split; [done|]. split; [apply Httl, Hg'|]. intros Hreq. by apply Htr. }
  destruct (submit_commit_spec t now2 m' (make_envelope t m' source peer now2) Ht)
    as (t' & err & evs & -> & Hc).
  assert (rt_seen (pruneSeenLocked t now2) !! key_of m' = None) as Hseen.
  { apply seen_pruned_None; [done|]. intros at' Hat. destruct (ge_id _ _ _ Hg') as (id & Hid & Hi).
    apply (Hfr id at' Hid). rewrite <-Hat. f_equal. by apply go_string_inj. }
  destruct Hc as [Hcl|at' Hcl Hs|Hcl Hs Hf|subs' Hcl Hs Hf Hm]; [congruence..|simpl in *; lia|].
  do 3 eexists. split; [done|]. split; [done|]. split; [done|].
  intros h sub Hin Hsub Hcap. exists (set_C sub (sent (make_envelope t m' source peer now2) (su_C sub))).
  exists (make_envelope t m' source peer now2). simpl.
  rewrite (proj2 Hm _ _ Hsub), bool_decide_true by done. split; [done|]. unfold sent.
  destruct (_ <? _) eqn:E; zbool; [|lia]. split; [done|]. simpl. by rewrite cloneBytes_id, (ge_body _ _ _ Hg').
Qed.

(** What the signer makes of the payload of a body. *)
Lemma file_Sign_genuine s answer payload period name :
  file_signer_ok s -> period_typed answer payload ->
  currentKESPeriod s answer payload = Ok period -> signable s period -> pl_ExpiresAt payload <> 0 ->
  let p := mkPayload None (pl_MessageBody payload) period (pl_ExpiresAt payload) in
  is_Ok (PayloadSigningBytes X p) = true -> is_Ok (ComputeDmqMessageID p) = true ->
  exists m, file_Sign s answer name payload = Ok (Some m) /\ genuine s p m.
Proof.
  intros Hs Hty Hper Hsg He p Hb Hc. unfold file_Sign.
  destruct (FileSigner_Sign_cases (X := X) s answer payload Hs Hty) as (s' & r & Hsign & _ & _ & Hcase).
  rewrite Hsign. rewrite Hper in Hcase. cbv zeta in Hcase. fold p in Hcase.
  rewrite bool_decide_true in Hcase by done. destruct Hcase as [_ Hm].
  destruct (PayloadSigningBytes X p) as [bytes|]; [|done]. destruct Hm as (sig & _ & Hr).
  destruct r as [m|e].
  2:{ rewrite SetComputedMessageID_spec in Hr. cbn [dm_Payload signed_with] in Hr. fold p in Hr.
      by destruct (ComputeDmqMessageID p). }
  exists m. split; [done|].
  destruct (FileSigner_signed_genuine s s' answer payload m Hs Hty Hsign)
    as (Hv & Hcert & Hbody & Hexp & Hcur & id & Hid & Hi).
  rewrite Hper in Hcur. injection Hcur as Hk.
  rewrite SetComputedMessageID_spec in Hr. symmetry in Hr.
  apply result_bind_Ok in Hr as (id' & Hid' & [= <-]).
  split; try done; [by autorewrite with dmq_wire|]. exists id. split; [|done].
  unfold ComputeMessageID in Hid. by rewrite Compute_SetMessageID in Hid.
Qed.

(** C5: Publishing works from end to end. A topic whose signer is a FileSigner
    with a valid certificate, at a KES period that its key reaches, publishes
    any body of at most 2000 bytes if it is open, has room, has not seen the ID
    in its duplicate window, and the library's TTL check and its authenticator
    (if one is required) let messages of this signer with this expiry pass. The
    message carries the body, the intended expiry, the resolved period and the
    computed ID, and its signature and certificate verify; it is queued and put
    into the subscribers' channels. And whatever agrees with it on the ID and
    the signed fields is accepted, queued and delivered in the same way by
    every topic that is receptive to this signer. *)
Theorem publish_end_to_end s answer period a now0 now1 now2 body :
  let expires := intended_expiry now0 (tp_DefaultTTL (cf_TTL (rt_cfg a))) in
  let p := mkPayload None body period expires in
  cf_Signer (rt_cfg a) = Some (file_Sign s answer) -> file_signer_ok s ->
  (forall q, answer = Ok q -> is_u64 q) ->
  currentKESPeriod s answer (mkPayload None body 0 expires) = Ok period -> signable s period ->
  len body <= MaxMessageBodyBytes -> 0 < expires <= MaxMessageExpiresAtUnix ->
  is_Ok (PayloadSigningBytes X p) = true -> is_Ok (ComputeDmqMessageID p) = true ->
  receptive s p a now1 now2 ->
  exists a' msg evs, publish a now0 now1 now2 body = Some (a', Ok (Some msg), evs) /\
    genuine s p msg /\ accepted_by a a' now2 p msg /\
    forall b now3 now4 m source peer,
      msg_equiv m msg -> receptive s p b now3 now4 ->
      exists b' m' evs', submitSigned b now3 now4 (Some m) source peer = Some (b', Some m', None, evs') /\
        genuine s p m' /\ accepted_by b b' now4 p m'.
Proof.
  intros expires p Hsg Hs Hans Hper Hable Hlen Hexp Hbytes Hid Hr. unfold publish. rewrite Hsg.
  unfold NewMessagePayload. pose proof (ValidateMessageBody_spec body) as Hv.
  destruct (ValidateMessageBody body); [lia|]. cbn [check].
  pose proof (ExpiresAt_cases now0 (tp_DefaultTTL (cf_TTL (rt_cfg a)))) as He. fold expires in He.
  destruct (expires <=? MaxMessageExpiresAtUnix) eqn:E; zbool; [|lia]. rewrite He. cbn.
  rewrite cloneBytes_id.
  destruct (file_Sign_genuine s answer (mkPayload None body 0 expires) period (rt_name a))
    as (m & -> & Hg); try done; [cbn; lia|].
  destruct (genuine_accepted s p m a now1 now2 MessageSourceLocal None Hg Hlen Hr)
    as (a' & msg & evs & -> & Hg' & Hacc).
  cbn. exists a', msg, evs. split; [done|]. split; [done|]. split; [done|].
  intros b now3 now4 m' source peer Heq Hrb.
  apply (genuine_accepted s p m' b now3 now4 source peer); [|done|done].
  by eapply genuine_equiv.
Qed.

End publishing.

(* ------------------------------------------------------------------ *)
(** ** Witness *)

(** A topic that signs with the toy file signer, and one that requires its
    signature. *)
Definition ex_signing : topicRuntime unit :=
  newTopicRuntime "t" (defaultTopicConfig
    (mkTopicConfig 1 ex_discovery (mkQueueConfig 3 1 0) (mkTTLPolicy 0 0 false) (mkReconnect 0 0)
       (mkAuthConfig false None false) (mkHooks true true true true)
       (Some (file_Sign ex_file_signer (Ok 836))))).

Definition ex_verify (m : DmqMessage unit) : option string :=
  match FileSigner_Verify (Some m) with
  | Ok true =>
      if bytes_Equal (dm_ColdVerificationKey m) (Some toy_cold) then None
      else Some "unknown stake pool"
  | _ => Some "invalid signature"
  end.

Definition ex_requiring : topicRuntime unit :=
  newTopicRuntime "t" (defaultTopicConfig
    (mkTopicConfig 1 ex_discovery (mkQueueConfig 3 1 0) (mkTTLPolicy 0 0 false) (mkReconnect 0 0)
       (mkAuthConfig true (Some ex_verify) false) (mkHooks true true true true) None)).

Definition ex_published : DmqMessagePayload := mkPayload None (Some [x68; x69]) 836 1900.

Lemma ex_receptive t now :
  t = ex_signing \/ t = ex_requiring -> now = sec 100 \/ now = sec 101 ->
  receptive ex_file_signer ex_published t now now.
Proof.
  intros Ht Hnow. assert (rt_inv t /\ rt_closed t = false /\ rt_seen t = ∅ /\ rt_queue t = [] /\
    cf_TTL (rt_cfg t) = cf_TTL (rt_cfg ex_signing) /\
    0 < qc_MaxMessages (cf_Queue (rt_cfg t))) as (Hi & Hc & Hs & Hq & Httl & Hm).
  { destruct Ht as [-> | ->]; (split; [apply newTopicRuntime_inv, defaultTopicConfig_ok|done]). }
  split; try done.
  - intros Hreq m Hg. destruct Ht as [-> | ->]; [done|]. cbn. unfold ex_verify.
    rewrite (ge_verify _ _ _ Hg), (ge_cold _ _ _ Hg). by vm_compute.
  - intros m Hm'. rewrite Httl. unfold unexpired, validateMessageTTL. cbn [ValidateMessageTTLAt toy_wire].
    unfold toy_ttl. rewrite Hm'. destruct Hnow as [-> | ->]; by vm_compute.
  - intros id at' _. by rewrite Hs, lookup_empty.
  - rewrite Hq. done.
Qed.

Lemma publish_end_to_end_witness :
  exists a' msg evs b' m' evs',
    publish ex_signing (sec 100) (sec 100) (sec 100) (Some [x68; x69])
      = Some (a', Ok (Some msg), evs) /\
    submitSigned ex_requiring (sec 101) (sec 101) (Some msg) MessageSourceRemote None
      = Some (b', Some m', None, evs') /\
    rt_queue b' = [cloneMessage m'] /\ FileSigner_Verify (Some m') = Ok true.
Proof.
  destruct (publish_end_to_end ex_file_signer (Ok 836) 836 ex_signing (sec 100) (sec 100) (sec 100)
    (Some [x68; x69])) as (a' & msg & evs & Hp & _ & _ & Hall).
  - reflexivity.
  - exact ex_file_signer_ok.
  - intros q [= <-]. by vm_compute.
  - by vm_compute.
  - split; by vm_compute.
  - by vm_compute.
  - split; by vm_compute.
  - by vm_compute.
  - by vm_compute.
  - apply ex_receptive; by left.
  - destruct (Hall ex_requiring (sec 101) (sec 101) msg MessageSourceRemote None)
      as (b' & m' & evs' & Hb & Hg & Hq & _); [reflexivity|apply ex_receptive; by right|].
    exists a', msg, evs, b', m', evs'. split; [exact Hp|]. split; [exact Hb|].
    split; [exact Hq|]. exact (ge_verify _ _ _ Hg).
Defined.
