(* ===== verification/External.v ===== *)
(** * The external KES signer (kes_payload.go)

    ExternalKESSigner hands each signature to a helper process and checks what
    it prints. Running the helper is an argument: a function from the command
    line, standard input and environment to what the process printed and how
    it ended. *)

From S2P Require Import Prelude Errors Types Clone Concrete Encoding Cardano KesLib Kes.

Definition defaultExternalKESSignerTimeout : Duration := 5 * Second.

Record ExternalKESSignerConfig := mkExternalConfig {
  ec_Command : string;
  ec_OperationalCertificatePath : string;
  ec_Network : NetworkParams;
  ec_Timeout : Duration;
  ec_EnvPrefix : string
}.

Record ExternalKESSigner := mkExternal {
  ek_command : string;
  ek_opCertPath : string;
  ek_timeout : Duration;
  ek_network : NetworkParams;
  ek_opCert : KESSigningCertificate;
  ek_envPrefix : string
}.

(** What the helper is run with. *)
Record HelperCall := mkHelperCall {
  hc_command : string;
  hc_args : list string;
  hc_stdin : list byte;
  hc_env : list string;
  hc_timeout : Duration
}.

(** What cmd.Run leaves: the two outputs, its error, and whether the context
    had ended by then. *)
Record HelperResult := mkHelperResult {
  hr_stdout : list byte;
  hr_stderr : string;
  hr_err : option error;
  hr_ctxDone : bool
}.

Definition Helper := HelperCall -> HelperResult.

(** strings.ContainsAny(s, "\x00\r\n") *)
Definition has_control (s : string) : bool :=
  existsb (fun c => bool_decide (c ∈ [x00; x0d; x0a])) (String.list_byte_of_string s).

(** filepath.IsAbs on a Unix system *)
Definition IsAbs (path : string) : bool := String.prefix "/" path.

Definition validEnvPrefix (prefix : string) : bool :=
  forallb (fun c => let r := Z_of_byte c in
             ((65 <=? r) && (r <=? 90)) || ((48 <=? r) && (r <=? 57)) || (r =? 95))
    (String.list_byte_of_string prefix).

Definition ParseExternalKESSignature (raw : list byte) : result slice :=
  let text := TrimSpace (String.string_of_list_byte raw) in
  if bool_decide (text = "") then Err (ErrNew "external KES signer returned empty signature")
  else
    match hex_DecodeString text with
    | Some sig =>
        if len (Some sig) =? 0
        then Err (ErrNew "external KES signer returned empty hex signature")
        else Ok (Some sig)
    | None =>
        match base64_DecodeString text with
        | None =>
            Err (Errorf "external KES signer signature must be hex or base64: %w"
                   [ArgErr (ErrNew "encoding/base64")])
        | Some sig =>
            if len (Some sig) =? 0
            then Err (ErrNew "external KES signer returned empty base64 signature")
            else Ok (Some sig)
        end
    end.

Section external.
Context `{Kes}.

Definition NewExternalKESSignerFromConfig (fs : KeyFiles) (cfg : ExternalKESSignerConfig)
  : result ExternalKESSigner :=
  let command := TrimSpace (ec_Command cfg) in
  if bool_decide (command = "") then Err (ErrNew "KES signer command is required")
  else if has_control command then Err (ErrNew "KES signer command contains invalid characters")
  else if negb (IsAbs command) then Err (ErrNew "KES signer command must be an absolute path")
  else if params_unset (ec_Network cfg)
  then Err (ErrNew "network params: start and slotsPerKESPeriod are required")
  else
    cert ← LoadOperationalCertificate fs (ec_OperationalCertificatePath cfg);
    let timeout := if ec_Timeout cfg <=? 0 then defaultExternalKESSignerTimeout
                   else ec_Timeout cfg in
    let envPrefix := TrimSpace (ec_EnvPrefix cfg) in
    let envPrefix := if bool_decide (envPrefix = "") then "DMQ" else envPrefix in
    if negb (validEnvPrefix envPrefix) then
      Err (ErrNew "external KES signer env prefix must contain only uppercase letters, digits, or underscores")
    else Ok (mkExternal command (ec_OperationalCertificatePath cfg) timeout (ec_Network cfg) cert
               envPrefix).

(** The configuration of the constructors that take their settings one by one. *)
Definition external_config (command opCertPath : string) (params : NetworkParams)
  (timeout : Duration) : ExternalKESSignerConfig :=
  mkExternalConfig command opCertPath params timeout "".

Definition NewExternalKESSignerWithClock (fs : KeyFiles) (command opCertPath : string)
  (params : NetworkParams) (timeout : Duration) : result ExternalKESSigner :=
  NewExternalKESSignerFromConfig fs (external_config command opCertPath params timeout).

Definition NewExternalKESSigner (fs : KeyFiles) (command opCertPath : string)
  (params : NetworkParams) (timeout : Duration) : result ExternalKESSigner :=
  NewExternalKESSignerWithClock fs command opCertPath params timeout.

(** A *ExternalKESSigner is [None] when nil. *)
Definition External_OperationalCertificate (s : option ExternalKESSigner)
  : KESSigningCertificate :=
  match s with None => zero_cert | Some s => cloneKESSigningCertificate (ek_opCert s) end.

Definition External_CurrentPeriod (s : option ExternalKESSigner) (now : Time) : result Z :=
  match s with
  | None => Err (ErrVar ErrSignerRequired)
  | Some s => currentRelativePeriodFor (ek_network s) (ek_opCert s) now
  end.

(** The call SignAt makes; [environ] is os.Environ(). *)
Definition helper_call (s : ExternalKESSigner) (environ : list string) (period : Z)
  (payload : slice) : HelperCall :=
  mkHelperCall (ek_command s) [FormatUint period] (content payload)
    (environ ++
       [ek_envPrefix s +:+ "_KES_VKEY_HEX=" +:+ hex_EncodeToString (content (kc_KESVKey (ek_opCert s)));
        ek_envPrefix s +:+ "_KES_PERIOD=" +:+ FormatUint period;
        ek_envPrefix s +:+ "_KES_SIGNER_OP_CERT_PATH=" +:+ ek_opCertPath s])
    (ek_timeout s).

Definition External_SignAt (s : option ExternalKESSigner) (environ : list string) (run : Helper)
  (period : Z) (payload : slice) : result SignedKESPayload :=
  match s with
  | None => Err (ErrVar ErrSignerRequired)
  | Some s =>
      match validateRelativeKESPeriodForNetwork period (ek_network s) with
      | Some e => Err e
      | None =>
          let out := run (helper_call s environ period payload) in
          match hr_err out with
          | Some err =>
              if hr_ctxDone out then
                Err (Errorf "external KES signer timed out after %s" [ArgDuration (ek_timeout s)])
              else
                let errText := TrimSpace (hr_stderr out) in
                if negb (bool_decide (errText = "")) then
                  Err (Errorf "external KES signer: %w: %s" [ArgErr err; ArgStr errText])
                else Err (Errorf "external KES signer: %w" [ArgErr err])
          | None =>
              signature ← ParseExternalKESSignature (hr_stdout out);
              if negb (VerifyKESSignature (kc_KESVKey (ek_opCert s)) period payload signature)
              then Err (ErrNew "external KES signer returned an invalid signature")
              else Ok (mkSignedKES (cloneBytes (kc_KESVKey (ek_opCert s))) period signature)
          end
      end
  end.

Definition External_Sign (s : option ExternalKESSigner) (now : Time) (environ : list string)
  (run : Helper) (payload : slice) : result SignedKESPayload :=
  match s with
  | None => Err (ErrVar ErrSignerRequired)
  | Some _ =>
      period ← External_CurrentPeriod s now;
      External_SignAt s environ run period payload
  end.

End external.

(* ------------------------------------------------------------------ *)
(** ** Facts *)

(** A helper that prints in hex, or in base64 that is not also hex, possibly
    with white space around, is understood. *)
Lemma Parse_printed w t w' sig :
  Forall ascii_space w -> Forall ascii_space w' ->
  Forall graphic (String.list_byte_of_string t) -> t <> "" -> sig <> [] ->
  hex_DecodeString t = Some sig \/
    (hex_DecodeString t = None /\ base64_DecodeString t = Some sig) ->
  ParseExternalKESSignature (w ++ String.list_byte_of_string t ++ w') = Ok (Some sig).
Proof.
  intros Hw Hw' Hg Ht Hs Hd. unfold ParseExternalKESSignature, TrimSpace.
  rewrite String.list_byte_of_string_of_list_byte, trim_bytes_around; try done.
  2:{ destruct t; [done|]. by simpl. }
  rewrite String.string_of_list_byte_of_string, bool_decide_false by done.
  assert ((len (Some sig) =? 0) = false) as Hl.
  { apply Z.eqb_neq. rewrite len_zero. done. }
  by destruct Hd as [->|[-> ->]]; rewrite Hl.
Qed.

(** A helper that prints the signature in hexadecimal is always
    understood; one that prints base64 is understood unless the text is also
    valid hexadecimal, which is tried first. White space around the text does
    not matter. *)
Theorem ParseExternalKESSignature_roundtrip sig w w' :
  sig <> [] -> Forall ascii_space w -> Forall ascii_space w' ->
  ParseExternalKESSignature (w ++ String.list_byte_of_string (hex_EncodeToString sig) ++ w')
    = Ok (Some sig) /\
  (hex_DecodeString (base64_EncodeToString sig) = None ->
   ParseExternalKESSignature (w ++ String.list_byte_of_string (base64_EncodeToString sig) ++ w')
     = Ok (Some sig)).
Proof.
  intros Hs Hw Hw'. split; [|intros Hh]; apply Parse_printed; try done.
  - apply hex_EncodeToString_graphic.
  - by destruct sig.
  - left. apply hex_roundtrip.
  - unfold base64_EncodeToString. rewrite String.list_byte_of_string_of_list_byte.
    apply b64_encode_graphic.
  - intros E. by rewrite E in Hh.
  - right. split; [done|apply base64_roundtrip].
Qed.

Section external_facts.
Context `{KesLaws}.

Record external_ok (s : ExternalKESSigner) : Prop := {
  eo_cert : ValidateOperationalCertificate (ek_opCert s) = None;
  eo_start : is_u64 (kc_KESPeriod (ek_opCert s));
  eo_network : 0 <= np_MaxKESEvolutions (ek_network s);
  eo_timeout : 0 < ek_timeout s;
  eo_command : IsAbs (ek_command s) = true /\ has_control (ek_command s) = false;
  eo_prefix : validEnvPrefix (ek_envPrefix s) = true /\ ek_envPrefix s <> ""
}.

Lemma NewExternal_ok fs cfg s :
  key_files_ok fs -> 0 <= np_MaxKESEvolutions (ec_Network cfg) ->
  NewExternalKESSignerFromConfig fs cfg = Ok s -> external_ok s /\ params_unset (ek_network s) = false.
Proof.
  intros Hfs Hm. unfold NewExternalKESSignerFromConfig. case_bool_decide as Hc; [done|].
  destruct (has_control _) eqn:Hctl; [done|]. destruct (IsAbs _) eqn:Habs; simpl; [|done].
  destruct (params_unset _) eqn:Hp; [done|].
  intros (cert & Hcert & Hs)%result_bind_Ok. revert Hs. cbv zeta.
  destruct (validEnvPrefix _) eqn:Hv; simpl; [|done]. intros [= <-].
  destruct (LoadOperationalCertificate_Ok _ _ _ Hcert) as [Hval Hu]. destruct (Hu Hfs).
  split; [|done]. split; simpl; try done.
  - destruct (_ <=? 0) eqn:E; zbool; [by vm_compute|done].
  - split; [done|]. by case_bool_decide.
Qed.

Lemma External_SignAt_Ok s environ run period payload signed :
  0 <= np_MaxKESEvolutions (ek_network s) ->
  External_SignAt (Some s) environ run period payload = Ok signed ->
  sp_VKey signed = kc_KESVKey (ek_opCert s) /\ sp_Period signed = period /\
  period < effectiveMaxKESEvolutions (ek_network s) CardanoKesDepth <= 2 ^ CardanoKesDepth /\
  VerifyKESSignature (kc_KESVKey (ek_opCert s)) period payload (sp_Signature signed) = true /\
  exists call, call = helper_call s environ period payload /\ hc_args call = [FormatUint period] /\
    hc_stdin call = content payload /\ hr_err (run call) = None /\
    ParseExternalKESSignature (hr_stdout (run call)) = Ok (sp_Signature signed).
Proof.
  intros Hm. unfold External_SignAt, validateRelativeKESPeriodForNetwork.
  destruct (effective_max (ek_network s) Hm) as [_ Hmax].
  destruct (_ >=? _) eqn:E; zbool; [done|]. cbv zeta.
  destruct (hr_err _) as [err|] eqn:Herr; [by repeat case_match|].
  intros (sig & Hsig & Hv)%result_bind_Ok.
  destruct (VerifyKESSignature _ _ _ _) eqn:Hver; simpl in Hv; [|done]. injection Hv as <-. simpl.
  rewrite cloneBytes_id. split_and!; try done; [lia|]. by eexists.
Qed.

(** C24: Whatever the helper process does, a signature that SignAt returns is
    for the certificate's KES key, the requested period and the given payload,
    lies within the certificate's validity, and verifies; it is what the
    helper printed when it ended without error, run with the period as its only
    argument and the payload on its standard input. *)
Theorem External_SignAt_safe s environ run period payload signed :
  0 <= np_MaxKESEvolutions (ek_network s) ->
  External_SignAt (Some s) environ run period payload = Ok signed ->
  sp_VKey signed = kc_KESVKey (ek_opCert s) /\ sp_Period signed = period /\
  period < effectiveMaxKESEvolutions (ek_network s) CardanoKesDepth <= 2 ^ CardanoKesDepth /\
  VerifyKESSignature (kc_KESVKey (ek_opCert s)) period payload (sp_Signature signed) = true /\
  exists call, call = helper_call s environ period payload /\ hc_args call = [FormatUint period] /\
    hc_stdin call = content payload /\ hr_err (run call) = None /\
    ParseExternalKESSignature (hr_stdout (run call)) = Ok (sp_Signature signed).
Proof. apply External_SignAt_Ok. Qed.

End external_facts.

(* ------------------------------------------------------------------ *)
(** ** Witnesses *)

Definition ex_external : ExternalKESSigner :=
  mkExternal "/bin/sign" "node.cert" Second mainnet (kg_opCert ex_signer) "DMQ".

(** A helper that knows the key and prints in hex. *)
Definition ex_helper : Helper := fun call =>
  mkHelperResult
    (String.list_byte_of_string
       (hex_EncodeToString (content (toy_sig (take 32 toy_secret) 36 (Some (hc_stdin call))))))
    "" None false.

Lemma External_SignAt_safe_witness :
  exists signed, External_SignAt (Some ex_external) [] ex_helper 36 (Some [x61]) = Ok signed /\
    VerifyKESSignature (kc_KESVKey (ek_opCert ex_external)) 36 (Some [x61]) (sp_Signature signed) = true.
Proof.
  destruct (External_SignAt (Some ex_external) [] ex_helper 36 (Some [x61])) as [signed|e] eqn:E.
  2:{ exfalso. revert E. by vm_compute. }
  exists signed. split; [done|].
  apply (External_SignAt_safe ex_external [] ex_helper 36 (Some [x61]) signed ltac:(by vm_compute) E).
Defined.
