(* ===== verification/Provider.v ===== *)
(** * KES signing providers as message signers (kes_payload.go, reloading.go)

    The interface KESSigningProvider as a class, with KESSigner and
    ExternalKESSigner as its instances; what a provider promises is the class
    [ProviderLaws], which both instances meet and against which
    KESSigningProviderSigner is proved.

    Providers are shared objects that evolve: they live in a store and are
    referred to by index. ReloadingKESSigningProvider is the reference that
    Reload swaps. Signing a message takes three calls on the provider, and
    other goroutines may run in between: the three parts are separate
    operations, [sign_begin], [sign_prepare] and [sign_finish]. *)

From S2P Require Import Prelude Errors Types Clone Concrete Encoding Cardano KesLib Kes Signer External.

(** The kinds of package reflect. *)
Inductive Kind : Set :=
| Invalid | Bool | Int | Int8 | Int16 | Int32 | Int64 | Uint | Uint8 | Uint16 | Uint32 | Uint64
| Uintptr | Float32 | Float64 | Complex64 | Complex128 | Array | Chan | Func | Interface | Map
| Pointer | Slice | KString | Struct | UnsafePointer.

(** isNilInterface: an interface value is nil, or holds a value of a kind, of
    which reflect tells whether it is nil. *)
Definition isNilInterface (v : option (Kind * bool)) : bool :=
  match v with
  | None => true
  | Some (k, isNil) =>
      match k with
      | Chan | Func | Interface | Map | Pointer | Slice => isNil
      | _ => false
      end
  end.

(** A pointer in a non-nil interface. *)
Definition pointer_nil {A} (p : option A) : bool :=
  isNilInterface (Some (Pointer, match p with None => true | Some _ => false end)).

(** [E] is what the environment answers at a call: the clock, and for the
    external signer also the process environment and the helper. A provider
    whose [provider_nil] holds is a nil pointer in a non-nil interface. *)
Class KESSigningProvider (P E : Type) := {
  provider_nil : P -> bool;
  provider_Sign : P -> E -> slice -> option (P * result SignedKESPayload);
  provider_SignAt : P -> E -> Z -> slice -> option (P * result SignedKESPayload);
  provider_CurrentPeriod : P -> E -> result Z;
  provider_OperationalCertificate : P -> KESSigningCertificate
}.

(** What a provider in a good state promises: its certificate is valid and
    does not change; SignAt returns, keeps the provider good, and what it signs
    is for the certificate's key and the requested period, and verifies. *)
Class ProviderLaws (P E : Type) `{Kes} `{KESSigningProvider P E} (good : P -> Prop) : Prop := {
  good_not_nil : forall p, good p -> provider_nil p = false;
  good_cert : forall p, good p ->
    ValidateOperationalCertificate (provider_OperationalCertificate p) = None /\
    is_u64 (kc_KESPeriod (provider_OperationalCertificate p));
  good_period : forall p e k, good p -> provider_CurrentPeriod p e = Ok k -> 0 <= k;
  good_Sign : forall p e payload, good p ->
    exists p' r, provider_Sign p e payload = Some (p', r) /\ good p' /\
      provider_OperationalCertificate p' = provider_OperationalCertificate p;
  good_SignAt : forall p e k payload, good p ->
    exists p' r, provider_SignAt p e k payload = Some (p', r) /\ good p' /\
      provider_OperationalCertificate p' = provider_OperationalCertificate p /\
      forall signed, r = Ok signed ->
        content (sp_VKey signed) = content (kc_KESVKey (provider_OperationalCertificate p)) /\
        sp_Period signed = k /\
        VerifyKESSignature (kc_KESVKey (provider_OperationalCertificate p)) k payload
          (sp_Signature signed) = true
}.

#[export] Instance KESSigner_provider `{Kes} : KESSigningProvider (option KESSigner) Time := {
  provider_nil := pointer_nil;
  provider_Sign := KESSigner_Sign;
  provider_SignAt p _ := KESSigner_SignAt p;
  provider_CurrentPeriod := KESSigner_CurrentPeriod;
  provider_OperationalCertificate := KESSigner_OperationalCertificate
}.

#[export] Instance External_provider `{Kes}
  : KESSigningProvider (option ExternalKESSigner) (Time * list string * Helper) := {
  provider_nil := pointer_nil;
  provider_Sign p e payload :=
    let '(now, environ, run) := e in Some (p, External_Sign p now environ run payload);
  provider_SignAt p e k payload :=
    let '(_, environ, run) := e in Some (p, External_SignAt p environ run k payload);
  provider_CurrentPeriod p e := let '(now, _, _) := e in External_CurrentPeriod p now;
  provider_OperationalCertificate := External_OperationalCertificate
}.

(* ------------------------------------------------------------------ *)
(** ** The store and reloading *)

(** The providers ever made, and the one a reloading provider has active. *)
Record Store (P : Type) := mkStore {
  st_objs : list P;
  st_active : option nat
}.
Arguments mkStore {P} _ _.
Arguments st_objs {P} _.
Arguments st_active {P} _.

(** Reload: [nil_receiver] is s == nil; [factory] is [None] when nil, otherwise
    what it returns at this call; [is_nil] tells the nil pointers among the objects (isNilInterface);
    the texts are those of the two reloading types. *)
Definition reload {P} (no_factory nil_object : string) (is_nil : P -> bool) (nil_receiver : bool)
  (st : Store P) (factory : option (result (option P))) : Store P * option error :=
  if nil_receiver then (st, Some (ErrVar ErrSignerRequired)) else
  match factory with
  | None => (st, Some (ErrNew no_factory))
  | Some (Err e) => (st, Some e)
  | Some (Ok None) => (st, Some (ErrNew nil_object))
  | Some (Ok (Some next)) =>
      if is_nil next then (st, Some (ErrNew nil_object))
      else (mkStore (st_objs st ++ [next]) (Some (length (st_objs st))), None)
  end.

Definition ReloadingSigner_Reload {P} : (P -> bool) -> bool -> Store P ->
  option (result (option P)) -> Store P * option error :=
  reload "dmq reloading signer factory is required"
    "dmq reloading signer factory returned nil signer".

Definition ReloadingProvider_Reload {P} : (P -> bool) -> bool -> Store P ->
  option (result (option P)) -> Store P * option error :=
  reload "dmq reloading KES signing provider factory is required"
    "dmq reloading KES signing provider factory returned nil provider".

(** NewReloadingSigner and NewReloadingKESSigningProvider: nothing is active
    before the first Reload. *)
Definition new_reloading {P} (rel : Store P -> option (result (option P)) -> Store P * option error)
  (objs : list P) (factory : option (result (option P))) : result (Store P) :=
  let '(st, err) := rel (mkStore objs None) factory in check err (Ok st).

(** ActiveProvider; [nil_receiver] is s == nil. *)
Definition active {P} (nil_receiver : bool) (st : Store P) : option nat :=
  if nil_receiver then None else st_active st.

(** The same of the other reloading type. *)
Definition ActiveSigner {P} (nil_receiver : bool) (st : Store P) : option nat :=
  active nil_receiver st.

(** The factories of NewReloadingFileSigner, NewReloadingKESSignerWithClock and
    NewReloadingExternalKESSignerFromConfig, called on the files of the day. *)
Definition FileSigner_factory `{Kes} (cfg : FileSignerConfig) (fs : KeyFiles)
  : option (result (option FileSigner)) :=
  Some (s ← NewFileSigner fs cfg; Ok (Some s)).

Definition KESSigner_factory `{Kes} (kesKeyPath opCertPath : string) (params : NetworkParams)
  (fs : KeyFiles) : option (result (option (option KESSigner))) :=
  Some (s ← NewKESSignerWithClock fs kesKeyPath opCertPath params; Ok (Some (Some s))).

Definition External_factory `{Kes} (cfg : ExternalKESSignerConfig) (fs : KeyFiles)
  : option (result (option (option ExternalKESSigner))) :=
  Some (s ← NewExternalKESSignerFromConfig fs cfg; Ok (Some (Some s))).

Definition NewReloadingSigner {P} (is_nil : P -> bool) (factory : option (result (option P)))
  : result (Store P) :=
  new_reloading (ReloadingSigner_Reload is_nil false) [] factory.

(** A FileSigner is a pointer that NewFileSigner returns only when not nil. *)
Definition NewReloadingFileSigner `{Kes} (cfg : FileSignerConfig) (fs : KeyFiles)
  : result (Store FileSigner) :=
  NewReloadingSigner (fun s => pointer_nil (Some s)) (FileSigner_factory cfg fs).

Definition NewReloadingKESSignerWithClock `{Kes} (kesKeyPath opCertPath : string)
  (params : NetworkParams) (fs : KeyFiles) : result (Store (option KESSigner)) :=
  new_reloading (ReloadingProvider_Reload pointer_nil false) []
    (KESSigner_factory kesKeyPath opCertPath params fs).

(** With the system clock. *)
Definition NewReloadingKESSigner `{Kes} (kesKeyPath opCertPath : string) (params : NetworkParams)
  (fs : KeyFiles) : result (Store (option KESSigner)) :=
  NewReloadingKESSignerWithClock kesKeyPath opCertPath params fs.

Definition NewReloadingExternalKESSignerFromConfig `{Kes} (cfg : ExternalKESSignerConfig)
  (fs : KeyFiles) : result (Store (option ExternalKESSigner)) :=
  new_reloading (ReloadingProvider_Reload pointer_nil false) [] (External_factory cfg fs).

Definition NewReloadingExternalKESSignerWithClock `{Kes} (command opCertPath : string)
  (params : NetworkParams) (timeout : Duration) (fs : KeyFiles)
  : result (Store (option ExternalKESSigner)) :=
  NewReloadingExternalKESSignerFromConfig (external_config command opCertPath params timeout) fs.

(** With the system clock. *)
Definition NewReloadingExternalKESSigner `{Kes} (command opCertPath : string)
  (params : NetworkParams) (timeout : Duration) (fs : KeyFiles)
  : result (Store (option ExternalKESSigner)) :=
  NewReloadingExternalKESSignerWithClock command opCertPath params timeout fs.

(** A value of the interface type: nil, an object, or the reloading provider
    (possibly a nil pointer). *)
Inductive provider_ref : Set :=
| RefNil
| RefObj (i : nat)
| RefReloading (nil_receiver : bool).

Record KESSigningProviderSigner := mkProviderSigner {
  ks_Provider : provider_ref
}.

Definition NewKESSigningProviderSigner (provider : provider_ref) : KESSigningProviderSigner :=
  mkProviderSigner provider.

(** The object behind an interface value, when neither is nil. *)
Definition deref {P} (is_nil : P -> bool) (st : Store P) (i : option nat) : option (nat * P) :=
  i ← i;
  p ← st_objs st !! i;
  if is_nil p then None else Some (i, p).

Definition put_obj {P} (st : Store P) (i : nat) (p : P) : Store P :=
  mkStore (<[i := p]> (st_objs st)) (st_active st).

(** ReloadingSigner.Sign; [sign] is the Sign of the active signer. *)
Definition ReloadingSigner_Sign {P M} (is_nil : P -> bool) (st : Store P) (nil_receiver : bool)
  (sign : P -> option (P * result M)) : option (Store P * result M) :=
  match deref is_nil st (ActiveSigner nil_receiver st) with
  | None => Some (st, Err (ErrVar ErrSignerRequired))
  | Some (i, p) => '(p, r) ← sign p; Some (put_obj st i p, r)
  end.

Section provider.
Context {P E : Type} `{Kes} `{KESSigningProvider P E}.

(** The methods of ReloadingKESSigningProvider. *)
Definition Reloading_Sign (st : Store P) (nil_receiver : bool) (e : E) (payload : slice)
  : option (Store P * result SignedKESPayload) :=
  match deref provider_nil st (active nil_receiver st) with
  | None => Some (st, Err (ErrVar ErrSignerRequired))
  | Some (i, p) => '(p, r) ← provider_Sign p e payload; Some (put_obj st i p, r)
  end.

Definition Reloading_SignAt (st : Store P) (nil_receiver : bool) (e : E) (period : Z)
  (payload : slice) : option (Store P * result SignedKESPayload) :=
  match deref provider_nil st (active nil_receiver st) with
  | None => Some (st, Err (ErrVar ErrSignerRequired))
  | Some (i, p) => '(p, r) ← provider_SignAt p e period payload; Some (put_obj st i p, r)
  end.

Definition Reloading_CurrentPeriod (st : Store P) (nil_receiver : bool) (e : E) : result Z :=
  match deref provider_nil st (active nil_receiver st) with
  | None => Err (ErrVar ErrSignerRequired)
  | Some (_, p) => provider_CurrentPeriod p e
  end.

Definition Reloading_OperationalCertificate (st : Store P) (nil_receiver : bool)
  : KESSigningCertificate :=
  match deref provider_nil st (active nil_receiver st) with
  | None => zero_cert
  | Some (_, p) => provider_OperationalCertificate p
  end.

(* ------------------------------------------------------------------ *)
(** ** KESSigningProviderSigner.Sign *)

(** The type assertion to ActiveProvider: a reloading provider is replaced by
    its active provider, once and for all. *)
Definition snapshot (st : Store P) (ref : provider_ref) : option nat :=
  match ref with
  | RefNil => None
  | RefObj i => Some i
  | RefReloading nil_receiver => active nil_receiver st
  end.

Context {X : Type} `{Wire X}.

(** Up to and including provider.CurrentPeriod(): the provider and the period. *)
Definition sign_begin (st : Store P) (ref : provider_ref) (e : E) (payload : DmqMessagePayload)
  : result (nat * Z) :=
  match deref provider_nil st (snapshot st ref) with
  | None => Err (ErrVar ErrSignerRequired)
  | Some (i, p) =>
      if pl_ExpiresAt payload =? 0 then Err (ErrNew "dmq payload expiration is required")
      else
        relPeriod ← provider_CurrentPeriod p e;
        Ok (i, relPeriod)
  end.

(** provider.OperationalCertificate() and the bytes to sign: the certificate,
    the completed payload and its signing bytes. *)
Definition sign_prepare (st : Store P) (i : nat) (relPeriod : Z) (payload : DmqMessagePayload)
  : result (KESSigningCertificate * DmqMessagePayload * slice) :=
  match st_objs st !! i with
  | None => Err (ErrVar ErrSignerRequired)
  | Some p =>
      let cert := provider_OperationalCertificate p in
      if relPeriod >? max_u64 - kc_KESPeriod cert then
        Err (Errorf "KES period overflow: op cert period %d plus relative period %d"
               [ArgInt (kc_KESPeriod cert); ArgInt relPeriod])
      else
        let payload := mkPayload None (pl_MessageBody payload)
                         (u64 (kc_KESPeriod cert + relPeriod)) (pl_ExpiresAt payload) in
        signingBytes ← PayloadSigningBytes X payload;
        Ok (cert, payload, signingBytes)
  end.

(** provider.SignAt, the cross-checks and the message. *)
Definition sign_finish (st : Store P) (i : nat) (e : E) (relPeriod : Z)
  (prep : KESSigningCertificate * DmqMessagePayload * slice)
  : option (Store P * result (DmqMessage X)) :=
  let '(cert, payload, signingBytes) := prep in
  match st_objs st !! i with
  | None => Some (st, Err (ErrVar ErrSignerRequired))
  | Some p =>
      '(p, r) ← provider_SignAt p e relPeriod signingBytes;
      let st := put_obj st i p in
      match r with
      | Err err => Some (st, Err (Errorf "KES sign: %w" [ArgErr err]))
      | Ok signed =>
          if negb (bytes_Equal (sp_VKey signed) (kc_KESVKey cert))
          then Some (st, Err (ErrVar ErrKESKeyMismatch))
          else if negb (sp_Period signed =? relPeriod) then
            Some (st, Err (Errorf "KES signer returned relative period %d for requested relative period %d"
                             [ArgInt (sp_Period signed); ArgInt relPeriod]))
          else
            let msg := mkMessage payload (cloneBytes (sp_Signature signed))
                         (mkOpCert (cloneBytes (kc_KESVKey cert)) (kc_IssueNumber cert)
                            (kc_KESPeriod cert) (cloneBytes (kc_Signature cert)))
                         (cloneBytes (kc_ColdVKey cert)) zero_rest in
            Some (st, match SetComputedMessageID msg with
                      | Err err => Err (Errorf "compute dmq message id: %w" [ArgErr err])
                      | Ok msg => Ok msg
                      end)
      end
  end.

(** Sign with nothing in between. *)
Definition ProviderSigner_Sign (st : Store P) (s : KESSigningProviderSigner) (e : E)
  (payload : DmqMessagePayload) : option (Store P * result (DmqMessage X)) :=
  match sign_begin st (ks_Provider s) e payload with
  | Err err => Some (st, Err err)
  | Ok (i, relPeriod) =>
      match sign_prepare st i relPeriod payload with
      | Err err => Some (st, Err err)
      | Ok prep => sign_finish st i e relPeriod prep
      end
  end.

Definition BuildSignedMessage (st : Store P) (ref : provider_ref) (e : E) (body : slice)
  (expiresAt : Z) : option (Store P * result (DmqMessage X)) :=
  ProviderSigner_Sign st (NewKESSigningProviderSigner ref) e (mkPayload None (cloneBytes body) 0 expiresAt).

End provider.

(* ------------------------------------------------------------------ *)
(** ** The two providers keep the promise *)

Section instances.
Context `{KesLaws}.

Definition good_signer (p : option KESSigner) : Prop :=
  match p with Some s => signer_ok s | None => False end.

Definition good_external (p : option ExternalKESSigner) : Prop :=
  match p with Some s => external_ok s | None => False end.

Lemma currentRelativePeriodFor_nonneg network cert now k :
  currentRelativePeriodFor network cert now = Ok k -> 0 <= k.
Proof.
  unfold currentRelativePeriodFor. intros (a & _ & Ha)%result_bind_Ok.
  destruct (_ <? _); [done|]. apply check_Ok in Ha as [_ [= <-]]. apply u64_range.
Qed.

Lemma KESSigner_SignAt_good s k payload :
  signer_ok s ->
  exists s' r, KESSigner_SignAt (Some s) k payload = Some (Some s', r) /\ signer_ok s' /\
    kg_opCert s' = kg_opCert s /\
    forall signed, r = Ok signed ->
      sp_VKey signed = kc_KESVKey (kg_opCert s) /\ sp_Period signed = k /\
      VerifyKESSignature (kc_KESVKey (kg_opCert s)) k payload (sp_Signature signed) = true.
Proof.
  intros Hs. destruct (KESSigner_SignAt_spec s k payload Hs) as (s' & r & Hr & Hs' & [_ Hc] & Hb).
  exists s', r. split_and!; try done. intros signed ->. case_bool_decide.
  - destruct Hb as (_ & sig & [= ->] & Hv). done.
  - by destruct Hb.
Qed.

#[export] Instance KESSigner_provider_laws : ProviderLaws (option KESSigner) Time good_signer.
Proof.
  split.
  - by intros [].
  - intros [s|] Hs; [|done]. simpl. rewrite cloneKESSigningCertificate_id. split; apply Hs.
  - intros [s|] e k Hs; [|done]. apply currentRelativePeriodFor_nonneg.
  - intros [s|] e payload Hs; [|done]. cbn [provider_Sign KESSigner_provider]. unfold KESSigner_Sign.
    destruct (currentRelativePeriodFor _ _ _) as [k|err]; [|by exists (Some s), (Err err)].
    destruct (KESSigner_SignAt_good s k payload Hs) as (s' & r & Hr & Hs' & Hc & _).
    cbn in Hr. rewrite Hr. do 2 eexists. split; [done|]. split; [done|]. simpl. by rewrite Hc.
  - intros [s|] e k payload Hs; [|done].
    destruct (KESSigner_SignAt_good s k payload Hs) as (s' & r & Hr & Hs' & Hc & Hv).
    exists (Some s'), r. split; [exact Hr|]. split; [done|].
    cbn [provider_OperationalCertificate KESSigner_provider KESSigner_OperationalCertificate].
    rewrite !cloneKESSigningCertificate_id, Hc. split; [done|].
    intros signed Heq. destruct (Hv signed Heq) as (-> & Hrest). by split.
Qed.

#[export] Instance External_provider_laws :
  ProviderLaws (option ExternalKESSigner) (Time * list string * Helper) good_external.
Proof.
  split.
  - by intros [].
  - intros [s|] Hs; [|done]. simpl. rewrite cloneKESSigningCertificate_id. split; apply Hs.
  - intros [s|] [[now env] run] k Hs; [|done]. apply currentRelativePeriodFor_nonneg.
  - intros [s|] [[now env] run] payload Hs; [|done]. by do 2 eexists.
  - intros [s|] [[now env] run] k payload Hs; [|done]. do 2 eexists. split; [done|].
    split; [done|]. split; [done|]. intros signed Heq.
    cbn [provider_OperationalCertificate External_provider External_OperationalCertificate].
    rewrite cloneKESSigningCertificate_id.
    destruct (External_SignAt_Ok s env run k payload signed (eo_network _ Hs) Heq)
      as (-> & Hp & _ & Hv & _). done.
Qed.

(** The package's own factories make good providers. *)
Lemma KESSigner_factory_good kesKeyPath opCertPath params fs next :
  key_files_ok fs -> 0 <= np_MaxKESEvolutions params ->
  KESSigner_factory kesKeyPath opCertPath params fs = Some (Ok (Some next)) -> good_signer next.
Proof.
  intros Hfs Hm. unfold KESSigner_factory.
  pose proof (NewKESSigner_spec fs kesKeyPath opCertPath params Hfs Hm) as Hn.
  destruct (NewKESSignerWithClock _ _ _ _) as [s|e]; [|done]. intros [= <-]. simpl. tauto.
Qed.

Lemma External_factory_good cfg fs next :
  key_files_ok fs -> 0 <= np_MaxKESEvolutions (ec_Network cfg) ->
  External_factory cfg fs = Some (Ok (Some next)) -> good_external next.
Proof.
  intros Hfs Hm. unfold External_factory.
  destruct (NewExternalKESSignerFromConfig fs cfg) as [s|e] eqn:Hs; [|done]. intros [= <-].
  by apply (NewExternal_ok fs cfg).
Qed.

End instances.

(* ------------------------------------------------------------------ *)
(** ** Any interleaving *)

Section interleaving.
Context {P E : Type} `{KesLaws} `{KESSigningProvider P E} {good : P -> Prop}
  `{!ProviderLaws P E good}.

(** What other goroutines may do: reload (with a factory that makes good
    providers), and sign with any provider. *)
Inductive store_step (st : Store P) : Store P -> Prop :=
| step_reload nil_receiver factory :
    (forall next, factory = Some (Ok (Some next)) -> provider_nil next = false -> good next) ->
    store_step st (ReloadingProvider_Reload provider_nil nil_receiver st factory).1
| step_SignAt i p e k payload p' r :
    st_objs st !! i = Some p -> provider_SignAt p e k payload = Some (p', r) ->
    store_step st (put_obj st i p')
| step_Sign i p e payload p' r :
    st_objs st !! i = Some p -> provider_Sign p e payload = Some (p', r) ->
    store_step st (put_obj st i p').

Definition store_ok (st : Store P) : Prop :=
  Forall good (st_objs st) /\ forall i, st_active st = Some i -> is_Some (st_objs st !! i).

Lemma store_good st i p : store_ok st -> st_objs st !! i = Some p -> good p.
Proof. intros [Hg _] Hi. by eapply Forall_lookup_1. Qed.

(** Objects persist, and keep their certificate. *)
Definition persists (st st' : Store P) : Prop :=
  forall i p, st_objs st !! i = Some p ->
    exists p', st_objs st' !! i = Some p' /\
      provider_OperationalCertificate p' = provider_OperationalCertificate p.

Lemma put_obj_ok st i p p' :
  store_ok st -> st_objs st !! i = Some p -> good p' ->
  provider_OperationalCertificate p' = provider_OperationalCertificate p ->
  store_ok (put_obj st i p') /\ persists st (put_obj st i p').
Proof.
  intros [Hg Ha] Hi Hp' Hc. split; [split|]; simpl.
  - by apply Forall_insert.
  - intros j Hj. rewrite (lookup_insert_present _ _ _ _ _ Hi). case_decide; [by eexists|by apply Ha].
  - intros j q Hq. simpl. rewrite (lookup_insert_present _ _ _ _ _ Hi).
    case_decide; [subst; simplify_eq|]; by eexists.
Qed.

Lemma reload_cases nil_receiver st factory :
  match ReloadingProvider_Reload provider_nil nil_receiver st factory with
  | (st', Some _) => st' = st
  | (st', None) => exists next, factory = Some (Ok (Some next)) /\ provider_nil next = false /\
      st' = mkStore (st_objs st ++ [next]) (Some (length (st_objs st)))
  end.
Proof.
  unfold ReloadingProvider_Reload, reload. destruct nil_receiver; [done|]. destruct factory as [[[next|]|e]|]; try done.
  destruct (provider_nil next) eqn:En; [done|]. by exists next.
Qed.

Lemma reload_ok nil_receiver st factory :
  (forall next, factory = Some (Ok (Some next)) -> provider_nil next = false -> good next) ->
  store_ok st ->
  let st' := (ReloadingProvider_Reload provider_nil nil_receiver st factory).1 in store_ok st' /\ persists st st'.
Proof.
  intros Hf Hok. pose proof (reload_cases nil_receiver st factory) as Hc. simpl.
  destruct (ReloadingProvider_Reload _ _ _ _) as [st' [e|]]; simpl.
  - subst. split; [done|]. intros i p Hi. by exists p.
  - destruct Hc as (next & -> & Hn & ->). destruct Hok as [Hg Ha]. split; [split|]; simpl.
    + apply Forall_app. split; [done|]. apply Forall_singleton. by apply Hf.
    + intros i [= <-]. rewrite lookup_app_r by lia. rewrite Nat.sub_diag. by eexists.
    + intros i p Hi. exists p. split; [by apply lookup_app_l_Some|done].
Qed.

Lemma step_ok st st' : store_ok st -> store_step st st' -> store_ok st' /\ persists st st'.
Proof.
  intros Hok [nil_receiver factory Hf|i p e k payload p' r Hi Hs|i p e payload p' r Hi Hs].
  - by apply reload_ok.
  - pose proof (store_good _ _ _ Hok Hi) as Hg.
    destruct (good_SignAt p e k payload Hg) as (p2 & r2 & Hs2 & Hg2 & Hc & _). simplify_eq.
    by eapply put_obj_ok.
  - pose proof (store_good _ _ _ Hok Hi) as Hg.
    destruct (good_Sign p e payload Hg) as (p2 & r2 & Hs2 & Hg2 & Hc). simplify_eq.
    by eapply put_obj_ok.
Qed.

Lemma steps_ok st st' : store_ok st -> rtc store_step st st' -> store_ok st' /\ persists st st'.
Proof.
  intros Hok Hst. revert Hok. induction Hst as [st|st st1 st2 Hs _ IH]; intros Hok.
  - split; [done|]. intros i p Hi. by exists p.
  - destruct (step_ok _ _ Hok Hs) as [Hok1 Hp1]. destruct (IH Hok1) as [Hok2 Hp2].
    split; [done|]. intros i p (p1 & Hi1 & Hc1)%Hp1. destruct (Hp2 _ _ Hi1) as (p2 & Hi2 & Hc2).
    exists p2. split; [done|congruence].
Qed.

Lemma step_active st st' : store_step st st' -> is_Some (st_active st) -> is_Some (st_active st').
Proof.
  intros [nil_receiver factory _|i p e k payload p' r _ _|i p e payload p' r _ _] Ha; try done.
  pose proof (reload_cases nil_receiver st factory) as Hc.
  destruct (ReloadingProvider_Reload _ _ _ _) as [st1 [err|]]; simpl; [by subst|].
  destruct Hc as (next & _ & _ & ->). by eexists.
Qed.

Lemma steps_active st st' :
  store_ok st -> rtc store_step st st' -> is_Some (st_active st) ->
  store_ok st' /\ is_Some (st_active st').
Proof.
  intros Hok Hst Ha. split; [by eapply steps_ok|].
  clear Hok. induction Hst as [st|st st1 st2 Hs _ IH]; [done|]. by apply IH, (step_active st).
Qed.

Lemma sign_begin_Ok st ref e payload i k :
  sign_begin st ref e payload = Ok (i, k) ->
  exists p, st_objs st !! i = Some p /\ provider_CurrentPeriod p e = Ok k.
Proof.
  unfold sign_begin, deref. destruct (snapshot st ref) as [j|]; cbn; [|done].
  destruct (st_objs st !! j) as [p|] eqn:Hj; cbn; [|done].
  destruct (provider_nil p); [done|]. destruct (_ =? 0); [done|].
  intros (k' & Hk & [= <- <-])%result_bind_Ok. by exists p.
Qed.

(** A reloading provider is made with a good active provider. *)
Lemma new_reloading_ok objs factory st0 :
  Forall good objs ->
  (forall next, factory = Some (Ok (Some next)) -> provider_nil next = false -> good next) ->
  new_reloading (ReloadingProvider_Reload provider_nil false) objs factory = Ok st0 ->
  store_ok st0 /\ is_Some (st_active st0).
Proof.
  intros Hobjs Hf Hnew. unfold new_reloading in Hnew.
  pose proof (reload_cases false (mkStore objs None) factory) as Hc.
  pose proof (reload_ok false (mkStore objs None) factory Hf) as Hk. cbv zeta in Hk.
  destruct (ReloadingProvider_Reload _ _ _ _) as [st' err].
  apply check_Ok in Hnew as [-> [= <-]]. destruct Hc as (next & _ & _ & ->).
  split; [|by eexists]. apply Hk. by split.
Qed.

(** Once made, a reloading provider always has an active provider in a good
    state, whatever reloads and signatures follow; a reload whose receiver is
    nil or whose factory is missing, fails or returns nil changes nothing, and one that succeeds makes
    the new provider the active one and touches no other. *)
Theorem reloading_correct objs factory st0 st :
  Forall good objs ->
  (forall next, factory = Some (Ok (Some next)) -> provider_nil next = false -> good next) ->
  new_reloading (ReloadingProvider_Reload provider_nil false) objs factory = Ok st0 ->
  rtc store_step st0 st ->
  (exists i p, deref provider_nil st (active false st) = Some (i, p) /\ good p) /\
  forall nil_receiver factory', match ReloadingProvider_Reload provider_nil nil_receiver st factory' with
    | (st', Some _) => st' = st
    | (st', None) => exists next, factory' = Some (Ok (Some next)) /\
        deref provider_nil st' (active false st') = Some (length (st_objs st), next) /\
        forall i p, st_objs st !! i = Some p -> st_objs st' !! i = Some p
    end.
Proof.
  intros Hobjs Hf Hnew Hsteps. split.
  - destruct (new_reloading_ok objs factory st0 Hobjs Hf Hnew) as [Hok Hact].
    destruct (steps_active _ _ Hok Hsteps Hact) as [Hok' [i Hi]].
    destruct Hok' as [Hg Ha]. destruct (Ha i Hi) as [p Hp].
    exists i, p. unfold active, deref. rewrite Hi. cbn. rewrite Hp. cbn.
    assert (good p) as Hgp by (by eapply Forall_lookup_1). by rewrite good_not_nil.
  - intros nil_receiver factory'. pose proof (reload_cases nil_receiver st factory') as Hc.
    destruct (ReloadingProvider_Reload _ _ _ _) as [st' [e|]]; [done|].
    destruct Hc as (next & -> & Hn & ->). exists next. split; [done|]. split.
    + unfold active, deref. cbn. rewrite lookup_app_r, Nat.sub_diag by lia. cbn. by rewrite Hn.
    + intros i p Hi. by apply lookup_app_l_Some.
Qed.

Context {X : Type} `{WireLaws X}.

(** What sign_prepare hands on. *)
Lemma sign_prepare_Ok st i p k payload prep :
  st_objs st !! i = Some p -> good p -> 0 <= k ->
  sign_prepare (X := X) st i k payload = Ok prep ->
  exists m, prep = (provider_OperationalCertificate p,
    mkPayload None (pl_MessageBody payload)
      (kc_KESPeriod (provider_OperationalCertificate p) + k) (pl_ExpiresAt payload), m) /\
    is_u64 (kc_KESPeriod (provider_OperationalCertificate p) + k) /\
    PayloadSigningBytes X prep.1.2 = Ok m.
Proof.
  intros Hi Hg Hk. destruct (good_cert p Hg) as [_ Hu]. unfold sign_prepare. rewrite Hi. cbv zeta.
  destruct (_ >? _) eqn:Eo; [done|]. zbool. unfold max_u64, is_u64 in *.
  rewrite u64_id by (unfold is_u64; lia). intros (m & Hm & [= <-])%result_bind_Ok.
  exists m. split_and!; (done || lia).
Qed.

(** A signature that verifies under the certificate makes a message that
    Verify accepts. *)
Lemma provider_message_verifies cert body expires k m sig cold id :
  is_u64 (kc_KESPeriod cert) -> 0 <= k -> is_u64 (kc_KESPeriod cert + k) ->
  PayloadSigningBytes X (mkPayload None body (kc_KESPeriod cert + k) expires) = Ok m ->
  VerifyKESSignature (kc_KESVKey cert) k m sig = true ->
  FileSigner_Verify (X := X) (Some (SetMessageID id
    (mkMessage (mkPayload None body (kc_KESPeriod cert + k) expires) sig
       (mkOpCert (kc_KESVKey cert) (kc_IssueNumber cert) (kc_KESPeriod cert) (kc_Signature cert))
       cold zero_rest))) = Ok true.
Proof.
  intros Hu Hk Hsum Hm Hv. unfold FileSigner_Verify. autorewrite with dmq_wire.
  destruct (SetMessageID_Payload id (mkMessage (mkPayload None body (kc_KESPeriod cert + k) expires) sig
       (mkOpCert (kc_KESVKey cert) (kc_IssueNumber cert) (kc_KESPeriod cert) (kc_Signature cert))
       cold zero_rest)) as [id' ->].
  cbn [dm_Payload dm_OperationalCertificate dm_KESSignature pl_MessageBody pl_KESPeriod
    pl_ExpiresAt oc_KESPeriod oc_KESVerificationKey].
  rewrite (PayloadSigningBytes_blind _ None), Hm. cbn.
  pose proof (relativeKESPeriod_spec (kc_KESPeriod cert + k) (kc_KESPeriod cert) Hsum Hu) as Hrel.
  destruct (_ <? _) eqn:Eo; zbool; [lia|]. rewrite Hrel. cbn.
  replace (kc_KESPeriod cert + k - kc_KESPeriod cert) with k by lia. by rewrite <-Hv.
Qed.

(** C20: KESSigningProviderSigner.Sign against the provider interface, with any
    reloads and signatures by others between its calls on the provider: it
    returns, never with a key mismatch, and a message it produces carries the
    payload's body and expiry, one provider's valid certificate, the absolute
    period of the signature and the computed ID, and FileSigner.Verify accepts
    it. A reload in between cannot mix two providers. *)
Theorem provider_sign_consistent st0 st1 st2 ref e0 e2 payload i k prep :
  store_ok st0 -> sign_begin st0 ref e0 payload = Ok (i, k) ->
  rtc store_step st0 st1 -> sign_prepare (X := X) st1 i k payload = Ok prep ->
  rtc store_step st1 st2 ->
  exists p st3 r, st_objs st0 !! i = Some p /\
    sign_finish st2 i e2 k prep = Some (st3, r) /\ store_ok st3 /\
    r <> Err (ErrVar ErrKESKeyMismatch) /\
    forall msg, r = Ok msg ->
      let cert := provider_OperationalCertificate p in
      FileSigner_Verify (Some msg) = Ok true /\
      ValidateOperationalCertificate cert = None /\
      dm_OperationalCertificate msg = mkOpCert (kc_KESVKey cert) (kc_IssueNumber cert)
                                        (kc_KESPeriod cert) (kc_Signature cert) /\
      dm_ColdVerificationKey msg = kc_ColdVKey cert /\
      pl_KESPeriod (dm_Payload msg) = kc_KESPeriod cert + k /\
      pl_MessageBody (dm_Payload msg) = pl_MessageBody payload /\
      pl_ExpiresAt (dm_Payload msg) = pl_ExpiresAt payload /\
      exists id, ComputeMessageID X (dm_Payload msg) = Ok id /\ content (msg_ID msg) = content id.
Proof.
  intros Hok0 Hbegin H01 Hprep H12.
  destruct (sign_begin_Ok _ _ _ _ _ _ Hbegin) as (p0 & Hi0 & Hk0).
  destruct (steps_ok _ _ Hok0 H01) as [Hok1 Hp1]. destruct (Hp1 _ _ Hi0) as (p1 & Hi1 & Hc1).
  destruct (steps_ok _ _ Hok1 H12) as [Hok2 Hp2]. destruct (Hp2 _ _ Hi1) as (p2 & Hi2 & Hc2).
  assert (good p0 /\ good p1 /\ good p2) as (Hg0 & Hg1 & Hg2).
  { split_and!; [by apply (store_good st0 i)|by apply (store_good st1 i)|by apply (store_good st2 i)]. }
  pose proof (good_period p0 e0 k Hg0 Hk0) as Hk.
  destruct (sign_prepare_Ok _ _ _ _ _ _ Hi1 Hg1 Hk Hprep) as (m & -> & Hu & Hm). cbn in Hm.
  rewrite Hc1 in *. exists p0. set (cert := provider_OperationalCertificate p0) in *.
  destruct (good_SignAt p2 e2 k m Hg2) as (p3 & r & Hr & Hg3 & Hc3 & Hsigned).
  unfold sign_finish. rewrite Hi2, Hr. cbn. rewrite Hc2 in *.
  destruct (put_obj_ok st2 i p2 p3 Hok2 Hi2 Hg3) as [Hok3 _]; [congruence|].
  destruct r as [signed|e]; [|by do 2 eexists].
  destruct (Hsigned signed eq_refl) as (Hv & Hp & Hver). apply bytes_Equal_spec in Hv as ->.
  rewrite Hp, Z.eqb_refl. cbn [negb]. do 2 eexists. split; [done|]. split; [done|]. split; [done|].
  rewrite !cloneBytes_id, SetComputedMessageID_spec. cbn [dm_Payload]. split.
  { by destruct (ComputeDmqMessageID _). }
  intros msg Hmsg. destruct (ComputeDmqMessageID _) as [id|] eqn:Hid; [|done]. injection Hmsg as <-.
  cbv zeta. destruct (good_cert p0 Hg0) as [Hval Hcu]. fold cert in Hval, Hcu.
  split; [|split; [done|]].
  - by apply (provider_message_verifies cert _ _ k m).
  - unfold ComputeMessageID. autorewrite with dmq_wire. cbn. split_and!; try done. by exists id.
Qed.

End interleaving.

(** The package's constructors make stores that the theorems about reloading
    and signing apply to. *)
Section constructors.
Context `{KesLaws} (fs : KeyFiles) (Hfs : key_files_ok fs).

Lemma NewReloadingKESSigner_ok kesKeyPath opCertPath params st :
  0 <= np_MaxKESEvolutions params ->
  NewReloadingKESSignerWithClock kesKeyPath opCertPath params fs = Ok st ->
  store_ok (P := option KESSigner) (good := good_signer) st /\ is_Some (st_active st).
Proof.
  intros Hm Hst.
  refine (new_reloading_ok (P := option KESSigner) (E := Time) [] _ st _ _ Hst); [constructor|].
  intros next Hn _. by eapply KESSigner_factory_good.
Qed.

Lemma NewReloadingExternal_ok cfg st :
  0 <= np_MaxKESEvolutions (ec_Network cfg) ->
  NewReloadingExternalKESSignerFromConfig cfg fs = Ok st ->
  store_ok (P := option ExternalKESSigner) (good := good_external) st /\ is_Some (st_active st).
Proof.
  intros Hm Hst.
  refine (new_reloading_ok (P := option ExternalKESSigner) (E := Time * list string * Helper) [] _ st
            _ _ Hst); [constructor|].
  intros next Hn _. by eapply External_factory_good.
Qed.
End constructors.

(* ------------------------------------------------------------------ *)
(** ** Witnesses *)

Definition ex_store : Store (option KESSigner) := mkStore [Some ex_signer] (Some 0%nat).

Definition ex_factory : option (result (option (option KESSigner))) :=
  KESSigner_factory "kes.skey" "node.cert" mainnet toy_files.

Lemma ex_factory_good next :
  ex_factory = Some (Ok (Some next)) -> provider_nil next = false -> good_signer next.
Proof.
  intros Hn _. by apply (KESSigner_factory_good "kes.skey" "node.cert" mainnet toy_files next toy_files_ok).
Qed.

Lemma ex_store_ok : store_ok (P := option KESSigner) (good := good_signer) ex_store.
Proof.
  split; [apply Forall_singleton, ex_signer_ok|]. intros i [= <-]. by eexists.
Qed.

(** A reload while the signature is under way. *)
Definition ex_store2 : Store (option KESSigner) :=
  (ReloadingProvider_Reload provider_nil false ex_store ex_factory).1.

Lemma ex_reloaded :
  rtc (store_step (P := option KESSigner) (E := Time) (good := good_signer)) ex_store ex_store2.
Proof. apply rtc_once, step_reload, ex_factory_good. Qed.

Lemma provider_sign_consistent_witness :
  exists prep st3 msg,
    sign_begin ex_store (RefReloading false) ex_now ex_payload = Ok (0%nat, 36) /\
    sign_prepare (X := unit) ex_store2 0 36 ex_payload = Ok prep /\
    sign_finish ex_store2 0 ex_now 36 prep = Some (st3, Ok msg) /\
    FileSigner_Verify (Some msg) = Ok true.
Proof.
  assert (sign_begin ex_store (RefReloading false) ex_now ex_payload = Ok (0%nat, 36)) as Hb
    by (by vm_compute).
  assert (exists prep st3 msg, sign_prepare (X := unit) ex_store2 0 36 ex_payload = Ok prep /\
    sign_finish (X := unit) ex_store2 0 ex_now 36 prep = Some (st3, Ok msg)) as (prep & st3 & msg & Hp & Hf).
  { do 3 eexists. split; vm_compute; reflexivity. }
  destruct (provider_sign_consistent (X := unit) (good := good_signer) ex_store ex_store2 ex_store2
    (RefReloading false) ex_now ex_now ex_payload 0 36 prep ex_store_ok Hb ex_reloaded Hp (rtc_refl _ _))
    as (p & st & r & _ & Hr & _ & _ & Hmsg).
  rewrite Hf in Hr. injection Hr as <- <-.
  exists prep, st3, msg. split; [exact Hb|]. split; [done|]. split; [exact Hf|].
  apply (Hmsg msg eq_refl).
Defined.
