(* ===== verification/TopicNode.v ===== *)
(** * The topic node (topic_node.go)

    A manager, one topic and an optional node-to-node service with a single
    lifecycle. The manager is the node's own: a [World] of its own. A
    *TopicNode is [None] when nil. *)

From S2P Require Import Prelude Errors Types Clone Concrete Payload Peers Ledger Config Topic TopicFacts Examples Service Manager.

Record TopicNodeConfig (X : Type) := mkNodeConfig {
  tn_Topic : string;
  tn_ManagerConfig : ManagerConfig X;
  tn_TopicConfig : TopicConfig X;
  tn_TopologyFile : string;
  tn_StaticPeers : list Peer;
  tn_NodeToNode : NodeToNodeConfig
}.
Arguments mkNodeConfig {X} _ _ _ _ _ _.
Arguments tn_Topic {X} _.
Arguments tn_ManagerConfig {X} _.
Arguments tn_TopicConfig {X} _.
Arguments tn_TopologyFile {X} _.
Arguments tn_StaticPeers {X} _.
Arguments tn_NodeToNode {X} _.

(** The manager pointer is [None] in a zero TopicNode. *)
Record TopicNode (X : Type) := mkNode {
  no_topic : string;
  no_manager : option (World X);
  no_service : option nat
}.
Arguments mkNode {X} _ _ _.
Arguments no_topic {X} _.
Arguments no_manager {X} _.
Arguments no_service {X} _.

Definition mergeDiscoveryConfig (base overlay : DiscoveryConfig) : DiscoveryConfig :=
  let topology := match dc_Topology overlay with None => dc_Topology base | t => t end in
  let static := match dc_StaticPeers overlay with
                | [] => dc_StaticPeers base
                | ps => clonePeers (dc_StaticPeers base) ++ ps
                end in
  mkDiscovery topology static (dc_PeerSharing base) (dc_PeerSharingQuota base)
    (dc_TopologyQuota base) (dc_LedgerPeers base).

Section node.
Context {X : Type} `{Wire X}.

Definition topicNodeNetworkConfigured (topicCfg : TopicConfig X) (nodeCfg : NodeToNodeConfig)
  : bool :=
  negb (bool_decide (nc_ListenAddress nodeCfg = "")) ||
  negb (bool_decide (nc_Peers nodeCfg = [])) ||
  match dc_Topology (cf_Discovery topicCfg) with None => false | Some _ => true end ||
  negb (bool_decide (dc_StaticPeers (cf_Discovery topicCfg) = [])) ||
  ld_Enabled (dc_LedgerPeers (cf_Discovery topicCfg)).

Definition set_discovery (cfg : TopicConfig X) (d : DiscoveryConfig) : TopicConfig X :=
  mkTopicConfig (cf_NetworkMagic cfg) d (cf_Queue cfg) (cf_TTL cfg) (cf_Reconnect cfg)
    (cf_Authentication cfg) (cf_Hooks cfg) (cf_Signer cfg).

(** The topic configuration with the node's topology and peers merged in. *)
Definition node_topic_config (ParseTopologyFile : string -> result TopologyConfig)
  (cfg : TopicNodeConfig X) : result (TopicConfig X) :=
  let topicCfg := tn_TopicConfig cfg in
  if negb (bool_decide (tn_TopologyFile cfg = "")) || negb (bool_decide (tn_StaticPeers cfg = []))
  then
    discovery ← NewDiscoveryConfig ParseTopologyFile (tn_TopologyFile cfg) (tn_StaticPeers cfg);
    Ok (set_discovery topicCfg (mergeDiscoveryConfig (cf_Discovery topicCfg) discovery))
  else Ok topicCfg.

(** NewTopicNode: the manager's world, when one was made, whatever the result.
    [ctx] is ctx.Err() and [listen] the answer to the listen call; the context
    of the clean-up never ends. *)
Definition NewTopicNode (ParseTopologyFile : string -> result TopologyConfig)
  (ctx_nil : bool) (ctx : option error) (cfg : TopicNodeConfig X) (listen : result Listener)
  : option (option (World X) * result (TopicNode X) * list (event X)) :=
  if ctx_nil then Some (None, Err (ErrNew "context is nil"), [])
  else
    match node_topic_config ParseTopologyFile cfg with
    | Err e => Some (None, Err e, [])
    | Ok topicCfg =>
        let manager := NewManager (tn_ManagerConfig cfg) in
        match RegisterTopic manager (tn_Topic cfg) topicCfg with
        | (manager, Some e) =>
            '(w, _) ← Shutdown (mkWorld manager []) None;
            Some (Some w, Err e, [])
        | (manager, None) =>
            let w := mkWorld manager [] in
            if topicNodeNetworkConfigured topicCfg (tn_NodeToNode cfg) then
              match StartNodeToNode w false ctx (tn_Topic cfg) (tn_NodeToNode cfg) listen with
              | (w, Err e, evs) =>
                  '(w, _) ← Shutdown w None;
                  Some (Some w, Err e, evs)
              | (w, Ok service, evs) =>
                  Some (Some w, Ok (mkNode (tn_Topic cfg) (Some w) (Some service)), evs)
              end
            else Some (Some w, Ok (mkNode (tn_Topic cfg) (Some w) None), [])
        end
    end.

Definition node_Topic (n : option (TopicNode X)) : string :=
  match n with None => "" | Some n => no_topic n end.

Definition node_Manager (n : option (TopicNode X)) : option (World X) :=
  match n with None => None | Some n => no_manager n end.

Definition NodeToNodeService_of (n : option (TopicNode X)) : option nat :=
  match n with None => None | Some n => no_service n end.

(** The service object of the node. *)
Definition node_service (n : option (TopicNode X)) : option NodeToNodeService :=
  n ← n;
  id ← no_service n;
  w ← no_manager n;
  w_services w !! id.

(** The node with its manager in a new state: the manager is shared. *)
Definition with_manager (n : TopicNode X) (w : World X) (m : Manager X) : option (TopicNode X) :=
  Some (mkNode (no_topic n) (Some (mkWorld m (w_services w))) (no_service n)).

Definition node_Publish (n : option (TopicNode X)) (now0 now1 now2 : Time) (body : slice)
  : option (option (TopicNode X) * result (option (DmqMessage X)) * list (event X)) :=
  match n, n ≫= no_manager with
  | Some nd, Some w =>
      '(m, r, evs) ← Publish (w_manager w) (no_topic nd) now0 now1 now2 body;
      Some (with_manager nd w m, r, evs)
  | _, _ => Some (n, Err (ErrVar errTopicNodeNil), [])
  end.

Definition node_SubmitSigned (n : option (TopicNode X)) (now1 now2 : Time)
  (msg : option (DmqMessage X))
  : option (option (TopicNode X) * option error * list (event X)) :=
  match n, n ≫= no_manager with
  | Some nd, Some w =>
      '(m, err, evs) ← SubmitSigned (w_manager w) (no_topic nd) now1 now2 msg;
      Some (with_manager nd w m, err, evs)
  | _, _ => Some (n, Some (ErrVar errTopicNodeNil), [])
  end.

Definition node_Subscribe (n : option (TopicNode X)) : option (option (TopicNode X) * result nat) :=
  match n, n ≫= no_manager with
  | Some nd, Some w =>
      '(m, r) ← Subscribe (w_manager w) (no_topic nd);
      Some (with_manager nd w m, r)
  | _, _ => Some (n, Err (ErrVar errTopicNodeNil))
  end.

Definition node_ListenAddr {A} (Addr : Listener -> A) (n : option (TopicNode X)) : option A :=
  s ← node_service n; ListenAddr Addr s.

Definition node_PeerCount (n : option (TopicNode X)) : Z :=
  match node_service n with None => 0 | Some s => PeerCount s end.

Definition node_Shutdown (n : option (TopicNode X)) (ctx_nil : bool) (early : option error)
  : option (option (TopicNode X) * option error) :=
  match n, n ≫= no_manager with
  | Some nd, Some w =>
      if ctx_nil then Some (n, Some (ErrNew "context is nil"))
      else
        '(w, err) ← Shutdown w early;
        Some (Some (mkNode (no_topic nd) (Some w) (no_service nd)), err)
  | _, _ => Some (n, None)
  end.

Definition node_Close (n : option (TopicNode X)) : option (option (TopicNode X) * option error) :=
  node_Shutdown n false None.

End node.

(* ------------------------------------------------------------------ *)
(** ** Facts *)

Section node_facts.
Context {X : Type} `{WireLaws X}.

(** Everything is shut. *)
Definition shut (w : World X) : Prop :=
  mg_closed (w_manager w) = true /\
  map_Forall (fun _ rt => rt_closed rt = true) (mg_topics (w_manager w)) /\
  Forall (fun s => sv_closed s = true) (w_services w) /\ mg_services (w_manager w) = ∅.

(** A running node: its topic is registered and open, and its service, if
    any, is the one registered. *)
Record node_ok (n : TopicNode X) (w : World X) : Prop := {
  no_world : no_manager n = Some w;
  no_wf : world_ok w;
  no_open : mg_closed (w_manager w) = false;
  no_registered : dom (mg_topics (w_manager w)) = {[no_topic n]};
  no_services : mg_services (w_manager w) = match no_service n with
                                            | None => ∅
                                            | Some id => {[id]}
                                            end
}.

Lemma Shutdown_shut w early :
  world_ok w -> mg_closed (w_manager w) = false ->
  exists w' err, Shutdown w early = Some (w', err) /\ shut w' /\
    forall early', Shutdown w' early' = Some (w', None).
Proof.
  intros Hw Ho. destruct (Shutdown_closes w early Hw Ho)
    as (w' & err & Hs & _ & Ht & _ & Hsv & Hreg & _ & Htop & _ & Hagain).
  exists w', err. split; [done|]. split; [|done]. split_and!; try done.
  specialize (Htop ""). unfold topic in Htop. destruct (mg_closed (w_manager w')); [done|].
  by destruct (mg_topics (w_manager w') !! "").
Qed.

Lemma new_world_ok cfg : world_ok (mkWorld (NewManager (X := X) cfg) []).
Proof.
  split; [apply map_Forall_empty|done|]. intros id. simpl. split; [set_solver|].
  by intros (s & Hs & _).
Qed.

(** Starting and closing services opens or closes no manager and registers or
    drops no topic. *)
Definition frame (w w' : World X) : Prop :=
  mg_closed (w_manager w') = mg_closed (w_manager w) /\
  dom (mg_topics (w_manager w')) = dom (mg_topics (w_manager w)).

Lemma Close_frame w id : frame w (Close w id).1.
Proof.
  unfold Close. destruct (w_services w !! id) as [s|]; [|done].
  destruct (service_Close s). by destruct (sv_closed s).
Qed.

Lemma TopicPeers_frame m ss ss' name : frame (mkWorld m ss) (mkWorld (TopicPeers m name).1.1 ss').
Proof.
  unfold TopicPeers. destruct (topic m name) as [rt|e] eqn:Ht; [|done].
  apply topic_Ok in Ht as [_ Ht]. destruct (discoverPeers rt) as [[rt' r] evs]. simpl.
  split; [done|]. simpl. rewrite dom_insert_L. apply elem_of_dom_2 in Ht. set_solver.
Qed.

Lemma frame_trans w1 w2 w3 : frame w1 w2 -> frame w2 w3 -> frame w1 w3.
Proof. intros [] []. split; congruence. Qed.

Lemma StartNodeToNode_frame w ctx_nil ctx name cfg listen :
  frame w (StartNodeToNode w ctx_nil ctx name cfg listen).1.1.
Proof.
  unfold StartNodeToNode. destruct ctx_nil; [done|].
  destruct (topic (w_manager w) name) as [rt|e] eqn:Ht; [|done].
  destruct (_ =? 0); [done|]. destruct (_ && _); [done|]. cbv zeta.
  unfold registerService. apply topic_Ok in Ht as [Ho _]. simpl. rewrite Ho.
  assert (forall w1 id, frame w w1 -> frame w (start w1 id ctx listen).1.1) as Hstart.
  { intros w1 id Hw1. unfold start. destruct (w_services w1 !! id) as [s|]; [|done].
    destruct ctx as [e|]; [done|]. cbv zeta. destruct (if bool_decide _ then _ else _) as [s1|e]; [|done].
    simpl. pose proof (fun ss' => TopicPeers_frame (w_manager w1) (w_services w1) ss' (sv_topic s1)) as Htp.
    destruct (TopicPeers _ _) as [[m peers] evs]. simpl in *.
    destruct peers as [peers|e]; simpl; [by eapply frame_trans; [|apply Htp]|].
    eapply frame_trans; [|apply Close_frame]. by eapply frame_trans; [|apply Htp]. }
  match goal with |- context [start ?w1 ?id ctx listen] => specialize (Hstart w1 id) end.
  destruct (start _ _ _ _) as [[w2 err] evs]. simpl in Hstart.
  destruct err; simpl; [|by apply Hstart]. eapply frame_trans; [by apply Hstart|apply Close_frame].
Qed.

Lemma RegisterTopic_world mcfg name (cfg : TopicConfig X) :
  match RegisterTopic (NewManager mcfg) name cfg with
  | (m, Some _) => world_ok (mkWorld m []) /\ mg_closed m = false
  | (m, None) => world_ok (mkWorld m []) /\ mg_closed m = false /\
      dom (mg_topics m) = {[name]} /\ mg_services m = ∅
  end.
Proof.
  pose proof (RegisterTopic_spec (NewManager mcfg) name cfg) as Hr.
  pose proof (new_world_ok mcfg) as Hw.
  destruct (RegisterTopic _ _ _) as [m [e|]].
  - destruct Hr as [-> _]. by split.
  - destruct Hr as (_ & _ & _ & rt & -> & Hok & _). split_and!; try done.
    + destruct Hw as [Ht Hc Hsv]. split; simpl; try done. by apply map_Forall_insert_2.
    + simpl. rewrite dom_insert_L, dom_empty_L. set_solver.
Qed.

Lemma node_Shutdown_ok n w early :
  node_ok n w -> exists n' w' err, node_Shutdown (Some n) false early = Some (Some n', err) /\
    no_manager n' = Some w' /\ shut w' /\
    forall early', node_Shutdown (Some n') false early' = Some (Some n', None).
Proof.
  intros [Hm Hw Ho _ _]. destruct (Shutdown_shut w early Hw Ho) as (w' & err & Hs & Hshut & Hagain).
  exists (mkNode (no_topic n) (Some w') (no_service n)), w', err.
  unfold node_Shutdown. simpl. rewrite Hm. simpl. rewrite Hs. simpl.
  split_and!; try done. intros early'. by rewrite Hagain.
Qed.

(** C31: NewTopicNode never panics. When it fails, whatever it had started is
    shut: the manager it made is closed, with its topic and every service.
    When it succeeds, the node's one topic is registered on an open manager, a
    service runs exactly when a listen address, peers or a discovery source
    was configured, and Shutdown then shuts everything, once. *)
Theorem NewTopicNode_correct parse ctx_nil ctx (cfg : TopicNodeConfig X) listen :
  exists ow r evs, NewTopicNode parse ctx_nil ctx cfg listen = Some (ow, r, evs) /\
    match r with
    | Err _ => match ow with None => True | Some w => shut w end
    | Ok n => exists w topicCfg, ow = Some w /\ node_ok n w /\ no_topic n = tn_Topic cfg /\
        ctx_nil = false /\ node_topic_config parse cfg = Ok topicCfg /\
        (is_Some (no_service n) <->
           topicNodeNetworkConfigured topicCfg (tn_NodeToNode cfg) = true) /\
        forall early, exists n' w' err, node_Shutdown (Some n) false early = Some (Some n', err) /\
          no_manager n' = Some w' /\ shut w' /\
          forall early', node_Shutdown (Some n') false early' = Some (Some n', None)
    end.
Proof.
  unfold NewTopicNode. destruct ctx_nil; [by do 3 eexists|].
  destruct (node_topic_config parse cfg) as [topicCfg|e]; [|by do 3 eexists].
  pose proof (RegisterTopic_world (tn_ManagerConfig cfg) (tn_Topic cfg) topicCfg) as Hreg.
  destruct (RegisterTopic _ _ _) as [m [e|]].
  { destruct Hreg as [Hw Ho]. destruct (Shutdown_shut _ None Hw Ho) as (w' & err & -> & Hs & _).
    by do 3 eexists. }
  destruct Hreg as (Hw & Ho & Hd & Hsv). cbv zeta.
  destruct (topicNodeNetworkConfigured _ _) eqn:Hnet.
  2:{ do 3 eexists. split; [done|]. exists (mkWorld m []), topicCfg. split; [done|].
      assert (node_ok (mkNode (tn_Topic cfg) (Some (mkWorld m [])) None) (mkWorld m [])) as Hn by done.
      split; [done|]. split_and!; try done.
      - rewrite Hnet. split; [by intros [? ?]|done].
      - intros early. by apply (node_Shutdown_ok _ (mkWorld m [])). }
  pose proof (StartNodeToNode_spec (mkWorld m []) false ctx (tn_Topic cfg) (tn_NodeToNode cfg) listen Hw) as Hst.
  pose proof (StartNodeToNode_frame (mkWorld m []) false ctx (tn_Topic cfg) (tn_NodeToNode cfg) listen) as Hf.
  destruct (StartNodeToNode _ _ _ _ _ _) as [[w r] evs]. destruct Hst as [Hw' Hr], Hf as [Hf1 Hf2].
  simpl in Hf1, Hf2. destruct r as [id|e].
  - destruct Hr as (_ & _ & _ & Hs & _). do 3 eexists. split; [done|]. exists w, topicCfg. split; [done|].
    assert (node_ok (mkNode (tn_Topic cfg) (Some w) (Some id)) w) as Hn.
    { split; try done; simpl in *; try congruence. rewrite Hs, Hsv. by rewrite union_empty_r_L. }
    split; [done|]. split_and!; try done. intros early. by apply (node_Shutdown_ok _ w).
  - destruct (Shutdown_shut w None Hw') as (w' & err & -> & Hs & _); [congruence|]. by do 3 eexists.
Qed.

End node_facts.

(* ------------------------------------------------------------------ *)
(** ** Witness *)

Definition ex_node_config : TopicNodeConfig unit :=
  mkNodeConfig "t" (mkManagerConfig None None)
    (mkTopicConfig 1 ex_discovery (mkQueueConfig 0 0 0) (mkTTLPolicy 0 0 false) (mkReconnect 0 0)
       (mkAuthConfig false None true) (mkHooks false false false false) None)
    "" [mkPeer "a:1" "" 0 "" "" 0 0 0 false false] ex_n2n.

Lemma NewTopicNode_correct_witness :
  exists ow n evs, NewTopicNode (fun _ => Err (ErrNew "no topology")) false None ex_node_config (Ok None)
      = Some (ow, Ok n, evs) /\ no_topic n = "t" /\ is_Some (no_service n).
Proof.
  pose proof (NewTopicNode_correct (fun _ => Err (ErrNew "no topology")) false None ex_node_config
    (Ok None)) as (ow & r & evs & Hn & Hr).
  assert (match NewTopicNode (fun _ => Err (ErrNew "no topology")) false None ex_node_config (Ok None) with
          | Some (_, Ok n, _) => bool_decide (is_Some (no_service n))
          | _ => false
          end = true) as Hc by (vm_compute; reflexivity).
  rewrite Hn in Hc. destruct r as [n|e]; [|discriminate Hc]. apply bool_decide_eq_true in Hc.
  destruct Hr as (w & tc & _ & _ & Ht & _). exists ow, n, evs. split; [exact Hn|]. by split.
Defined.
